(* ===== verification/_CoqProject ===== *)
-Q . S2P
Prelude.v
GoStrings.v
GoFloat.v
GoContext.v
Conc.v
Types.v
Lines.v
Config.v
ConfigSync.v
Subscriptions.v
Slices.v
Queue.v
Scheduler.v
Manager.v
Task.v
ManagerLoop.v
Follow.v
Ping.v
PingParse.v
Executor.v
Rounds.v
ConnState.v
ConnSharing.v
Rebuild.v
Resilience.v
Aggregator.v
ZabbixSender.v
Pool.v
PoolTasks.v
PoolSafety.v
PoolRaces.v
PoolSpec.v
PoolCare.v
PoolBatch.v
PoolRebuild.v
Dispatch.v
Pipeline.v
Metrics.v
Adapters.v
TaskErrors.v
Monitor.v
ScrapliDriver.v
SshDriver.v
