(* ===== verification/Prelude.v ===== *)
(** * zabbix_ddl_monitor: a verification library

    The program monitors leased lines. It reads the lines and the routers that
    probe them from a Zabbix server, schedules a ping per line at its interval,
    runs the pings on the routers through pooled SSH connections, reads the packet
    loss in what the routers print, and sends the results back to Zabbix. The code
    is in [src/syncer], [src/manager], [src/connection] and [src/task]; its entry
    point is [src/cmd/monitor/main.go], whose starts and deferred stops, and the monitor
    of the process, are in [Monitor].

    ** The way of the data, and the files

    - The syncer ([src/syncer]): [Lines] is the data of a line with its FNV
      fingerprint; [ConfigSync.Zabbix] is [fetchLines] with the template chain and
      the macros of a host; [ConfigSync.Changes] is [detectChanges] and [sync];
      [Subscriptions] is the channels through which events reach the manager.
    - The manager ([src/manager]): [Slices] is the memory model of Go slices, since
      manager and schedulers share arrays; [Queue] is the queue of one interval;
      [Scheduler] files the lines of one router in queues; [Manager] keeps a
      scheduler per router and turns events into handler calls; [ManagerLoop] is the
      way of the events into the manager and its goroutines; [Follow] is the whole
      manager under any series of operations, router by router; [Dispatch] is what a
      scheduler sends to its router at a tick, and the readers of the pool's events;
      [Rounds] is the
      interleaving of the queue workers, the semaphore of a router, the pool and
      the asynchronous executor ([src/task/async_executor.go]).
    - The connections ([src/connection]): [Types] and [Config] are capabilities and
      configuration; [ConnState] is the state machine of one pooled connection;
      [ConnSharing] is the interleaving of tasks, health checks and rebuilds around
      it; [Rebuild] is the decisions to replace or remove it; [Resilience] is the
      retrier and the circuit breaker. [Pool] and [PoolTasks] are the pool's
      operations ([pool_enhanced.go]) as programs over its shared state; [PoolSafety]
      is their invariants in every interleaving, [PoolRaces] the interleavings that
      go wrong, [PoolSpec] and [PoolCare] their contracts when they run alone;
      [PoolBatch] is the workers of a batch rebuild, [PoolRebuild] the selection of
      its connections, the background tasks, the events and the debug traces.
      [ScrapliDriver] is the driver over scrapligo with its mutex and the network
      drivers it opens; [SshDriver] is the SSH driver, as an instance of the drivers
      that [Executor] runs tasks on, and the factories; [Metrics] is the collector of
      counters and its lock.
    - The tasks ([src/task]): [Task] is the task interface and the registry; [Ping]
      is the ping task and [PingParse] what its parsers report; [Executor] is the
      middlewares and the core that runs a task on a connection; [Aggregator]
      batches the results; [ZabbixSender] turns a batch into metrics, and has the life
      of the handler; [Pipeline] follows one ping from its line to its metric, through
      all of these. [Adapters] and
      [TaskErrors] are a second set of ping parsers and an error type, which no other
      part uses.
    - [GoStrings], [GoFloat] and [GoContext] are what the program uses of Go's
      [strings] and [strconv], of [float64] and of [context]; [Conc] is goroutines
      over a shared state, with their interleavings, their invariants and the total
      correctness of one of them; this file has the outcomes of a call, 64-bit
      integers, tactics and lemmas on lists.

    ** How Go is modelled

    - A function that returns an error or may panic has the result type [outcome];
      a panic is a value, so that its absence is a theorem. Where a caller uses the
      error as a value, it is an [option string].
    - [int], [int64] and [time.Duration] are integers with [wrap64] after every
      operation that can overflow; times are nanoseconds and [time.Sub] saturates.
      [float64] is binary64, computed.
    - A struct that one lock guards is a record, and an operation that holds the
      lock is a function on it. What runs without the lock is divided at the points
      where another goroutine can act: [Rounds], [ConnSharing], [Aggregator] and
      [Subscriptions] are transition systems of such steps, and an execution is a
      list of actions ([None]: the action is not enabled, the goroutine waits). The
      operations of the pool are written as the code has them, in the monad of
      [Conc]; what one lock or one atomic instruction covers is one action. A lock
      that spans several actions is then held for each of them only: the model has
      more interleavings than the code, so that its invariants hold of the code, and
      the executions of [PoolRaces] use only interleavings that the locks allow. In
      [ScrapliDriver] and [Metrics] the locks are part of the state, and [Conc]'s
      rights say who may unlock them.
      A [select] with several ready cases is an argument of the step that says
      which one is taken; each theorem holds for every choice.
    - A Go map is a [gmap]; the order in which it is ranged over is an argument with
      the hypothesis that it is a permutation of the map.
    - Code outside the repository is an argument: the Zabbix API client and the
      protocol driver are classes ([ConfigSync.Client], [Executor.ProtocolDriver]),
      and so is a session of the SSH library, with its law that it accepts one
      command; Zabbix's sender, [math.Pow] and random numbers are functions; what
      scrapligo answers is an answer of the environment.
    - The texts of errors are given in English where the code has them in Chinese;
      no condition depends on them. Logging is left out, and the calls to the collector of counters where nothing
      reads them.

    ** What is shown

    - Synchronisation: replaying the events a synchronisation emits turns the old
      configuration into the new one, after any number of synchronisations
      ([ConfigSync.commits_replay]); which lines are read ([fetchLines_spec]), which
      depth a template has and which macro wins. [Subscriptions] never panics
      whatever the order of subscribing, closing, notifying and stopping.
    - Scheduling: the interval queue refines a finite map and the scheduler a map
      with one queue per interval; from its creation on the manager and all its
      schedulers follow the syncer's configuration ([Follow.manager_follows]), up to the
      cases shown to fail (a line created after a deletion, a line moved to another
      router, a synchronisation that overtakes an event, a new interval after the start). Between the
      subscription and the manager changes keep their order and are lost only at a full
      buffer ([ManagerLoop.changes_applied_in_order]); which lines are pinged, and with
      which command ([Dispatch.executeTasksAsync_spec]).
    - Concurrency: tokens and connections are balanced in every interleaving of the
      rounds, and lost only by a stop; users of a connection exclude each other;
      the aggregator neither loses nor doubles an event before its stop. The cases
      that go wrong are theorems with their execution.
    - Pings: with validated parameters a command is built; the loss each parser
      reports, for every percentage a device can print; parsers, executor and
      middlewares always leave a status for the sender, which sends one metric per
      event. [Pipeline] composes them: every ping ends in one event whose metric is
      sound ([Pipeline.ping_reaches_zabbix]), and the value in Zabbix is a function of
      the percentage the device prints ([Pipeline.printed_loss_reaches_zabbix]).
    - The process: [main] stops what it has started, in which order
      ([Monitor.main_stops_what_it_starts]), and what its monitor notices
      ([Monitor.leaks_noticed]).
    - Connections: the state machine, the health thresholds, the conditions of a
      rebuild and of the clean-up, the retries.
    - The pool: in every interleaving of its operations no connection is handed out
      twice, the size bound holds without rebuilds and warm-ups, and nothing panics
      without rebuilds and closes ([PoolSafety.pool_interleavings_safe]); the
      executions that show these conditions to be needed; the contracts of taking a
      connection, of the clean-up, of a rebuild and of the close, each of which always
      returns. A batch rebuild selects what is marked or due, its workers never panic nor
      block for ever, and without cancellation every selected connection has one result
      ([PoolRebuild.marked_connections_spec], [PoolBatch.batch_rebuild_complete]).
    - The drivers: the mutex of the Scrapli driver is used well in every interleaving
      and nobody waits for ever, a network driver is closed once
      ([ScrapliDriver.driver_mutex_safe]); its races; what [Execute] answers in every
      state; over SSH a connection serves one ping ([SshDriver.ssh_serves_one_ping],
      a theorem on the executor and the driver together). The snapshot of the
      counters can deadlock ([Metrics.GetMetrics_deadlock]).

    ** Fuel and bounds

    Recursion is structural. Two loops take a number of turns from their data:
    [ConfigSync]'s walk over the template graph, for which any fuel above the number
    of templates is enough since each is visited once
    ([ConfigSync.buildTemplateChain_exact]), and the retry loops, which count the
    attempts that are left. The transition systems take finite lists of
    actions of any length.

    ** What is not modelled

    Logging, the exporters of the counters (which do nothing), the set-up of the log
    and of the Zabbix client, the fields that nothing reads, and the test helpers of
    [src/syncer]. The pool of the sender, the Zabbix protocol and both SSH libraries are
    not part of the repository. Tickers have no clock of their own: a tick is an action
    that may come at any time. Data races (such as the unlocked length test in
    [Aggregator]'s [flush], or [lastUpdate] of the counters) are outside
    the model: a step reads what the last step wrote. *)
From stdpp Require Export base tactics numbers list gmap strings.
From Stdlib Require Export ZArith Lia Sorting.Sorted.
From coqutil Require Export Datatypes.RecordSettersUsingExistingGetters.
#[global] Arguments const {E} newValue _ /.

Create HintDb ddl.
Create HintDb kept.

Declare Scope ddl_scope.
Delimit Scope ddl_scope with ddl.

(** ** Outcomes of a Go call *)

(** A Go function that returns [(T, error)] and may panic. *)
Inductive outcome (A : Type) : Type :=
  | Ret (a : A)
  | Fail (err : string)
  | Panic (why : string).
Arguments Ret {A} a.
Arguments Fail {A} err.
Arguments Panic {A} why.

Definition obind {A B} (c : outcome A) (k : A → outcome B) : outcome B :=
  match c with
  | Ret a => k a
  | Fail e => Fail e
  | Panic w => Panic w
  end.

Notation "'let?' x ':=' c 'in' k" := (obind c (fun x => k))
  (at level 10, x binder, c at level 100, k at level 200) : ddl_scope.

Definition is_ret {A} (c : outcome A) : bool :=
  match c with Ret _ => true | _ => false end.

Definition is_panic {A} (c : outcome A) : bool :=
  match c with Panic _ => true | _ => false end.

Lemma obind_ret_inv {A B} (c : outcome A) (k : A → outcome B) b :
  obind c k = Ret b → ∃ a, c = Ret a ∧ k a = Ret b.
Proof. destruct c; simpl; naive_solver. Qed.

(** ** Machine integers: Go's [int] and [int64] are 64-bit two's complement *)
Section machine.
Local Open Scope Z_scope.

Definition two63 : Z := 9223372036854775808.
Definition two64 : Z := 18446744073709551616.
Definition max_int64 : Z := 9223372036854775807.
Definition min_int64 : Z := -9223372036854775808.

Definition wrap64 (z : Z) : Z := (z + two63) mod two64 - two63.
Definition uwrap64 (z : Z) : Z := z mod two64.

Definition in_int64 (z : Z) : Prop := min_int64 ≤ z ≤ max_int64.

#[global] Instance in_int64_dec z : Decision (in_int64 z).
Proof. unfold in_int64. apply _. Defined.

Lemma wrap64_id z : in_int64 z → wrap64 z = z.
Proof.
  unfold in_int64, wrap64, min_int64, max_int64, two63, two64. intros H.
  rewrite Z.mod_small; lia.
Qed.

Lemma wrap64_range z : in_int64 (wrap64 z).
Proof.
  unfold in_int64, wrap64, min_int64, max_int64.
  pose proof (Z.mod_pos_bound (z + two63) two64 eq_refl).
  unfold two63, two64 in *. lia.
Qed.

Lemma wrap64_mod z : (wrap64 z) mod two64 = z mod two64.
Proof.
  unfold wrap64. rewrite Zminus_mod_idemp_l. f_equal. lia.
Qed.

Lemma uwrap64_range z : 0 ≤ uwrap64 z < two64.
Proof. apply Z.mod_pos_bound. reflexivity. Qed.

(** ** Durations ([time.Duration] is an [int64] of nanoseconds) *)
Definition Nanosecond : Z := 1.
Definition Millisecond : Z := 1000000.
Definition Second : Z := 1000000000.
Definition Minute : Z := 60000000000.
Definition Hour : Z := 3600000000000.
End machine.

(** [time.Time.Sub] saturates. *)
Definition time_sub (t u : Z) : Z := Z.max min_int64 (Z.min max_int64 (t - u)).

#[export] Hint Resolve wrap64_range : ddl.

(** ** Tactics of the development *)

(** Splits the boolean tests of the goal, the way the code's conditionals do. *)
Ltac case_tests :=
  repeat match goal with
  | |- context [if ?b then _ else _] => let E := fresh "E" in destruct b eqn:E
  | H : context [if ?b then _ else _] |- _ => let E := fresh "E" in destruct b eqn:E
  end.

(** Turns the boolean tests among the hypotheses into propositions. *)
Ltac btrue :=
  repeat match goal with
  | H : _ && _ = true |- _ => apply andb_true_iff in H; destruct H
  | H : _ || _ = false |- _ => apply orb_false_iff in H; destruct H
  | H : negb _ = true |- _ => apply negb_true_iff in H
  | H : negb _ = false |- _ => apply negb_false_iff in H
  | H : (_ <=? _)%Z = true |- _ => apply Z.leb_le in H
  | H : (_ <=? _)%Z = false |- _ => apply Z.leb_gt in H
  | H : (_ <? _)%Z = true |- _ => apply Z.ltb_lt in H
  | H : (_ <? _)%Z = false |- _ => apply Z.ltb_ge in H
  | H : (_ >=? _)%Z = true |- _ => apply Z.geb_le in H
  | H : (_ =? _)%Z = true |- _ => apply Z.eqb_eq in H
  | H : (_ =? _)%Z = false |- _ => apply Z.eqb_neq in H
  | H : bool_decide _ = true |- _ => apply bool_decide_eq_true in H
  | H : bool_decide _ = false |- _ => apply bool_decide_eq_false in H
  end.

(** ** The loops over slices the components share *)
Section loops.
Context {A : Type}.
Implicit Types (p : A → bool) (l : list A).

(** [for i, x := range l { if p(x) { l = append(l[:i], l[i+1:]...); break } }] *)
Fixpoint remove_first p l : list A :=
  match l with
  | [] => []
  | x :: l' => if p x then l' else x :: remove_first p l'
  end.

(** [for i, x := range l { if p(x) { l[i] = y; break } }] *)
Fixpoint update_first p (y : A) l : list A :=
  match l with
  | [] => []
  | x :: l' => if p x then y :: l' else x :: update_first p y l'
  end.

(** [for _, x := range l { if p(x) { return x, true } }] *)
Fixpoint find_first p l : option A :=
  match l with
  | [] => None
  | x :: l' => if p x then Some x else find_first p l'
  end.

(** [for i, x := range l { if p(x) { ... i ... } }] *)
Fixpoint find_index p l : option nat :=
  match l with
  | [] => None
  | x :: l' => if p x then Some 0 else S <$> find_index p l'
  end.

Definition count (p : A → bool) l : nat := length (List.filter p l).

Lemma remove_first_sublist p l : remove_first p l `sublist_of` l.
Proof. induction l as [|x l IH]; simpl; [constructor|]. destruct (p x); by constructor. Qed.

Lemma remove_first_none p l : existsb p l = false → remove_first p l = l.
Proof.
  induction l as [|x l IH]; simpl; [done|]. destruct (p x); simpl; [done|].
  intros H. by rewrite IH.
Qed.

Lemma elem_of_remove_first p l x :
  x ∈ l → p x = false → x ∈ remove_first p l.
Proof.
  induction l as [|y l IH]; simpl; [by intros ?%elem_of_nil|].
  intros [->|Hin]%elem_of_cons Hp.
  - rewrite Hp. constructor.
  - destruct (p y); [done|]. constructor. by apply IH.
Qed.

Lemma remove_first_subset p l x : x ∈ remove_first p l → x ∈ l.
Proof. intros H. eapply sublist_subseteq; [apply remove_first_sublist|done]. Qed.

Lemma length_remove_first p l :
  existsb p l = true → S (length (remove_first p l)) = length l.
Proof.
  induction l as [|x l IH]; simpl; [done|]. destruct (p x); simpl; [done|].
  intros H. by rewrite IH.
Qed.

Lemma length_update_first p y l : length (update_first p y l) = length l.
Proof. induction l as [|x l IH]; simpl; [done|]. destruct (p x); simpl; congruence. Qed.

Lemma update_first_none p y l : existsb p l = false → update_first p y l = l.
Proof.
  induction l as [|x l IH]; simpl; [done|]. destruct (p x); simpl; [done|].
  intros H. by rewrite IH.
Qed.

Lemma elem_of_update_first p y l x :
  x ∈ update_first p y l → x = y ∨ x ∈ l.
Proof.
  induction l as [|z l IH]; simpl; [by intros ?%elem_of_nil|].
  destruct (p z); rewrite !elem_of_cons; [tauto|].
  intros [->|H]; [tauto|]. destruct (IH H); tauto.
Qed.

Lemma find_first_existsb p l : is_Some (find_first p l) ↔ existsb p l = true.
Proof.
  induction l as [|x l IH]; simpl.
  - split; [by intros [? ?]|done].
  - destruct (p x); simpl; [by split; eauto|done].
Qed.

Lemma find_first_None p l : find_first p l = None ↔ existsb p l = false.
Proof. by rewrite <- not_true_iff_false, <- find_first_existsb, eq_None_not_Some. Qed.

Lemma find_first_Some p l x : find_first p l = Some x → x ∈ l ∧ p x = true.
Proof.
  induction l as [|y l IH]; simpl; [done|]. destruct (p y) eqn:E.
  - intros [= ->]. split; [constructor|done].
  - intros H. destruct (IH H). split; [by constructor|done].
Qed.

Lemma existsb_elem_of p l : existsb p l = true ↔ ∃ x, x ∈ l ∧ p x = true.
Proof.
  rewrite existsb_exists. split; intros (x & Hin & Hp); exists x; split; auto;
    by apply list_elem_of_In.
Qed.

Lemma existsb_false_elem_of p l : existsb p l = false ↔ ∀ x, x ∈ l → p x = false.
Proof.
  rewrite <- not_true_iff_false, existsb_elem_of. split.
  - intros H x Hx. destruct (p x) eqn:E; [|done]. exfalso. naive_solver.
  - intros H (x & Hx & Hp). rewrite H in Hp; done.
Qed.

Lemma find_first_None_elem p l : find_first p l = None ↔ ∀ x, x ∈ l → p x = false.
Proof. by rewrite find_first_None, existsb_false_elem_of. Qed.

Lemma count_app p l1 l2 : count p (l1 ++ l2) = count p l1 + count p l2.
Proof. unfold count. by rewrite List.filter_app, length_app. Qed.

Lemma count_le p l : count p l ≤ length l.
Proof. unfold count. induction l as [|x l IH]; simpl; [lia|]. destruct (p x); simpl; lia. Qed.

Lemma count_split p l : count p l + count (λ x, negb (p x)) l = length l.
Proof. unfold count. induction l as [|x l IH]; simpl; [done|]. destruct (p x); simpl; lia. Qed.

Lemma count_mono (p q : A → bool) l : (∀ x, p x = true → q x = true) → count p l ≤ count q l.
Proof.
  intros H. unfold count. induction l as [|x l IH]; simpl; [done|]. specialize (H x).
  destruct (p x), (q x); simpl; (lia || by discriminate H).
Qed.

Lemma count_none (p : A → bool) l : Forall (λ x, p x = false) l → count p l = 0.
Proof. unfold count. induction 1 as [|x l Hx Hl IH]; simpl; [done|]. by rewrite Hx. Qed.

Lemma count_insert (p : A → bool) l i x y :
  l !! i = Some x → count p (<[i := y]> l) + Nat.b2n (p x) = count p l + Nat.b2n (p y).
Proof.
  unfold count. revert i. induction l as [|z l IH]; intros [|i]; simpl; [done..| |].
  - intros [= ->]. destruct (p x), (p y); simpl; lia.
  - intros H. specialize (IH i H). destruct (p z); simpl; lia.
Qed.

Lemma count_pos (p : A → bool) l i x : l !! i = Some x → p x = true → 1 ≤ count p l.
Proof.
  unfold count. revert i. induction l as [|z l IH]; intros [|i]; simpl; [done..| |].
  - intros [= ->] ->. simpl. lia.
  - intros H Hp. specialize (IH i H Hp). destruct (p z); simpl; lia.
Qed.

Lemma count_two (p : A → bool) l i j x y :
  l !! i = Some x → l !! j = Some y → p x = true → p y = true → i ≠ j → 2 ≤ count p l.
Proof.
  unfold count. revert i j. induction l as [|z l IH]; intros [|i] [|j]; simpl; try done.
  - intros [= ->] Hj -> Hy _. simpl. pose proof (count_pos p l j y Hj Hy) as H. unfold count in H. lia.
  - intros Hi [= ->] Hx -> _. simpl. pose proof (count_pos p l i x Hi Hx) as H. unfold count in H. lia.
  - intros Hi Hj Hx Hy Hne. specialize (IH i j Hi Hj Hx Hy ltac:(lia)). destruct (p z); simpl; lia.
Qed.

Lemma count_replicate (p : A → bool) n x : p x = false → count p (replicate n x) = 0.
Proof. intros Hp. apply count_none, Forall_replicate, Hp. Qed.
End loops.

#[export] Hint Resolve remove_first_subset elem_of_remove_first : ddl.

(** The image of a list under a key is duplicate free, and stays so. *)
Section keyed.
Context {A K : Type} `{EqDecision K} (key : A → K).
Implicit Types (l : list A) (x : A).

Definition has_key (k : K) (x : A) : bool := bool_decide (key x = k).

Lemma existsb_has_key k l : existsb (has_key k) l = true ↔ k ∈ key <$> l.
Proof.
  rewrite existsb_elem_of, list_elem_of_fmap. unfold has_key.
  split; intros (x & H1 & H2); exists x.
  - apply bool_decide_eq_true in H1 || apply bool_decide_eq_true in H2. naive_solver.
  - split; [done|]. by apply bool_decide_eq_true.
Qed.

Lemma existsb_has_key_false k l : existsb (has_key k) l = false ↔ k ∉ key <$> l.
Proof. rewrite <- not_true_iff_false, existsb_has_key. done. Qed.

Lemma sublist_keys l1 l2 : l1 `sublist_of` l2 → key <$> l1 `sublist_of` key <$> l2.
Proof. induction 1; simpl; by constructor. Qed.

Lemma NoDup_remove_first k l :
  NoDup (key <$> l) → NoDup (key <$> remove_first (has_key k) l).
Proof.
  intros H. eapply sublist_NoDup; [exact H|]. apply sublist_keys, remove_first_sublist.
Qed.

Lemma remove_first_key_gone k l :
  NoDup (key <$> l) → k ∉ key <$> remove_first (has_key k) l.
Proof.
  induction l as [|x l IH]; simpl; [by intros _ ?%elem_of_nil|].
  intros [Hx Hnd]%NoDup_cons. unfold has_key at 1. case_bool_decide as E.
  - by rewrite <- E.
  - rewrite fmap_cons, not_elem_of_cons. split; [congruence|]. by apply IH.
Qed.

Lemma elem_of_remove_first_key k l x :
  NoDup (key <$> l) → (x ∈ remove_first (has_key k) l ↔ x ∈ l ∧ key x ≠ k).
Proof.
  intros Hnd. split.
  - intros Hin. split; [by eapply remove_first_subset|]. intros <-.
    eapply remove_first_key_gone; [exact Hnd|]. by apply list_elem_of_fmap_2.
  - intros [Hin Hne]. apply elem_of_remove_first; [done|].
    unfold has_key. by apply bool_decide_eq_false.
Qed.

Lemma update_first_keys k y l :
  key y = k → key <$> update_first (has_key k) y l = key <$> l.
Proof.
  intros Hy. induction l as [|x l IH]; simpl; [done|].
  unfold has_key at 1. case_bool_decide as E; rewrite !fmap_cons; [by rewrite Hy, E|].
  by rewrite IH.
Qed.

Lemma elem_of_update_first_key k y l x :
  NoDup (key <$> l) → key y = k → k ∈ key <$> l →
  (x ∈ update_first (has_key k) y l ↔ x = y ∨ (x ∈ l ∧ key x ≠ k)).
Proof.
  intros Hnd Hy Hk. induction l as [|z l IH]; simpl in *; [by apply elem_of_nil in Hk|].
  apply NoDup_cons in Hnd as [Hz Hnd]. unfold has_key at 1. case_bool_decide as E.
  - rewrite !elem_of_cons. split.
    + intros [->|Hin]; [by left|]. right. split; [by right|]. intros Hk'.
      apply Hz. rewrite E, <- Hk'. by apply list_elem_of_fmap_2.
    + intros [->|[[->|?] ?]]; [by left|congruence|by right].
  - rewrite !elem_of_cons.
    apply elem_of_cons in Hk as [Hk|Hk]; [by rewrite Hk in E|].
    rewrite IH by done. naive_solver.
Qed.
End keyed.
#[global] Arguments has_key {A K _} key k x.

(** ** [sort.Slice] *)

(** What [sort.Slice] asks of [less]: a strict weak order. *)
Definition less_ok {A} (less : A → A → bool) : Prop :=
  (∀ a b, less a b = true → less b a = false) ∧
  (∀ a b c, less b a = false → less c b = false → less c a = false).

(** What it promises: the slice is rearranged, and nothing is strictly less
    than something before it. The order of equal elements is left open. *)
Class SortSlice (A : Type) := {
  sort_slice : (A → A → bool) → list A → list A;
  sort_slice_perm less l : sort_slice less l ≡ₚ l;
  sort_slice_sorted less l :
    less_ok less → StronglySorted (λ a b, less b a = false) (sort_slice less l) }.

(** Insertion sort keeps the promise. *)
Section insertion.
Context {A : Type}.

Fixpoint insert_sorted (less : A → A → bool) (x : A) (l : list A) : list A :=
  match l with
  | [] => [x]
  | y :: l' => if less y x then y :: insert_sorted less x l' else x :: l
  end.
Definition insertion_sort (less : A → A → bool) (l : list A) : list A :=
  foldr (insert_sorted less) [] l.

Lemma insert_sorted_perm less x l : insert_sorted less x l ≡ₚ x :: l.
Proof.
  induction l as [|y l IH]; simpl; [done|]. destruct (less y x); [|done].
  rewrite IH. constructor.
Qed.

Lemma insertion_sort_perm less l : insertion_sort less l ≡ₚ l.
Proof. induction l as [|x l IH]; simpl; [done|]. by rewrite insert_sorted_perm, IH. Qed.

Lemma insert_sorted_sorted less x l :
  less_ok less → StronglySorted (λ a b, less b a = false) l →
  StronglySorted (λ a b, less b a = false) (insert_sorted less x l).
Proof.
  intros [Ha Ht] Hl. induction Hl as [|y l Hl IH Hy]; simpl; [repeat constructor|].
  destruct (less y x) eqn:E.
  - constructor; [done|]. rewrite insert_sorted_perm. constructor; [by apply Ha|done].
  - constructor; [by constructor|]. constructor; [done|].
    eapply Forall_impl; [exact Hy|]. intros z Hz. simpl in *. by apply (Ht x y z).
Qed.

Lemma insertion_sort_sorted less l :
  less_ok less → StronglySorted (λ a b, less b a = false) (insertion_sort less l).
Proof.
  intros Hok. induction l as [|x l IH]; simpl; [constructor|]. by apply insert_sorted_sorted.
Qed.

Definition insertion_SortSlice : SortSlice A := {|
  sort_slice := insertion_sort;
  sort_slice_perm := insertion_sort_perm;
  sort_slice_sorted := insertion_sort_sorted |}.
End insertion.
