(* ===== verification/GoStrings.v ===== *)
(** * The functions of Go's [strings] and [strconv] that the program uses

    A Go string is a sequence of bytes; here it is a Rocq [string]. The
    functions that depend on Unicode tables ([ToLower], [TrimSpace], [Fields])
    are given on their ASCII range: a byte above 127 is left alone and is not a
    space, which is what Go does on the ASCII output of the devices. *)
From S2P Require Import Prelude.
From Stdlib Require Import Ascii DecimalString DecimalZ DecimalPos.
Local Open Scope string_scope.
Local Open Scope nat_scope.

(** ** Searching *)

(** [strings.HasPrefix(s, p)] *)
Definition has_prefix (s p : string) : bool := String.prefix p s.

(** [strings.Contains(s, sub)] *)
Fixpoint contains (s sub : string) : bool :=
  String.prefix sub s ||
  match s with
  | EmptyString => false
  | String _ s' => contains s' sub
  end.

(** [strings.HasSuffix(s, suf)] *)
Fixpoint has_suffix (s suf : string) : bool :=
  String.eqb s suf ||
  match s with
  | EmptyString => false
  | String _ s' => has_suffix s' suf
  end.

(** [strings.TrimSuffix(s, suf)] *)
Fixpoint trim_suffix (s suf : string) : string :=
  if String.eqb s suf then EmptyString
  else match s with
       | EmptyString => EmptyString
       | String c s' => String c (trim_suffix s' suf)
       end.

(** ** Character classes *)

Definition ascii_code (c : Ascii.ascii) : nat := Ascii.nat_of_ascii c.

(** [unicode.IsSpace] on ASCII: tab, newline, vertical tab, form feed,
    carriage return and blank. *)
Definition is_space (c : Ascii.ascii) : bool :=
  let n := ascii_code c in (n =? 32) || ((9 <=? n) && (n <=? 13)).

Definition is_digit (c : Ascii.ascii) : bool :=
  let n := ascii_code c in (48 <=? n) && (n <=? 57).

Definition lower_char (c : Ascii.ascii) : Ascii.ascii :=
  let n := ascii_code c in
  if (65 <=? n) && (n <=? 90) then Ascii.ascii_of_nat (n + 32) else c.

(** [strings.ToLower(s)] *)
Fixpoint to_lower (s : string) : string :=
  match s with
  | EmptyString => EmptyString
  | String c s' => String (lower_char c) (to_lower s')
  end.

(** ** Splitting *)

Fixpoint trim_left (s : string) : string :=
  match s with
  | EmptyString => EmptyString
  | String c s' => if is_space c then trim_left s' else s
  end.

Fixpoint trim_right (s : string) : string :=
  match s with
  | EmptyString => EmptyString
  | String c s' =>
      match trim_right s' with
      | EmptyString => if is_space c then EmptyString else String c EmptyString
      | t => String c t
      end
  end.

(** [strings.TrimSpace(s)] *)
Definition trim_space (s : string) : string := trim_right (trim_left s).

(** [strings.Split(s, sep)] for a one-byte separator. *)
Fixpoint split_on (sep : Ascii.ascii) (s : string) : list string :=
  match s with
  | EmptyString => [EmptyString]
  | String c s' =>
      if Ascii.eqb c sep then EmptyString :: split_on sep s'
      else match split_on sep s' with
           | w :: ws => String c w :: ws
           | [] => [String c EmptyString]
           end
  end.

Definition newline : Ascii.ascii := Ascii.ascii_of_nat 10.

(** [strings.Split(s, "\n")] *)
Definition split_lines (s : string) : list string := split_on newline s.

(** [strings.Fields(s)]: [cur] is the word being read. *)
Fixpoint fields_from (cur : string) (s : string) : list string :=
  match s with
  | EmptyString => match cur with EmptyString => [] | _ => [cur] end
  | String c s' =>
      if is_space c
      then match cur with
           | EmptyString => fields_from EmptyString s'
           | _ => cur :: fields_from EmptyString s'
           end
      else fields_from (cur ++ String c EmptyString) s'
  end.
Definition fields (s : string) : list string := fields_from EmptyString s.

(** ** Numbers *)

(** The digits of a non-negative number; [None] when a byte is not a digit. *)
Definition parse_digits (s : string) : option Z :=
  match s with
  | EmptyString => None
  | _ => (λ u, Z.of_uint u) <$> NilEmpty.uint_of_string s
  end.

(** [strconv.ParseInt(s, 10, 64)] and [strconv.Atoi(s)]: an optional sign, at
    least one digit, and the value fits 64 bits; [None] is the error. *)
Definition atoi (s : string) : option Z :=
  let signed := match s with
    | String "-"%char r => Z.opp <$> parse_digits r
    | String "+"%char r => parse_digits r
    | _ => parse_digits s
    end in
  match signed with
  | Some z => if decide (in_int64 z) then Some z else None
  | None => None
  end.

(** [fmt.Sprintf("%d", z)] *)
Definition itoa (z : Z) : string := NilEmpty.string_of_int (Z.to_int z).

(** ** Properties *)

Lemma string_cons_app c (s t : string) : String c s ++ t = String c (s ++ t).
Proof. reflexivity. Qed.

Lemma prefix_app (p t : string) : String.prefix p (p ++ t) = true.
Proof.
  induction p as [|c p IH]; simpl; [by destruct t|].
  by destruct (Ascii.ascii_dec c c).
Qed.

Lemma prefix_spec (p s : string) : String.prefix p s = true ↔ ∃ t, s = p ++ t.
Proof.
  split; [|intros [t ->]; apply prefix_app].
  revert s. induction p as [|c p IH]; intros s; [by eexists|].
  destruct s as [|d s]; simpl; [done|]. destruct (Ascii.ascii_dec c d) as [->|]; [|done].
  intros [t ->]%IH. by exists t.
Qed.

Lemma contains_prefix s sub : String.prefix sub s = true → contains s sub = true.
Proof. intros H. destruct s; simpl; simpl in H; by rewrite H. Qed.

(** [contains] decides "is a substring of". *)
Lemma contains_spec (s sub : string) :
  contains s sub = true ↔ ∃ u v, s = u ++ sub ++ v.
Proof.
  split.
  - induction s as [|c s IH]; intros [H|H]%orb_true_iff.
    + apply prefix_spec in H as [t ->]. by exists "", t.
    + done.
    + apply prefix_spec in H as [t ->]. by exists "", t.
    + destruct (IH H) as (u & v & ->). by exists (String c u), v.
  - intros (u & v & ->). induction u as [|c u IH].
    + change (contains (sub ++ v) sub = true). apply contains_prefix, prefix_app.
    + simpl. by rewrite IH, orb_true_r.
Qed.

Lemma string_app_assoc (a b c : string) : (a ++ b) ++ c = a ++ (b ++ c).
Proof. induction a as [|x a IH]; [done|]. by rewrite !string_cons_app, IH. Qed.

Lemma string_app_nil_r (a : string) : a ++ "" = a.
Proof. induction a as [|x a IH]; [done|]. by rewrite !string_cons_app, IH. Qed.

Lemma contains_app_l (s t sub : string) : contains t sub = true → contains (s ++ t) sub = true.
Proof.
  rewrite !contains_spec. intros (u & v & ->). exists (s ++ u), v.
  by rewrite string_app_assoc.
Qed.

Lemma contains_app_r (s t sub : string) : contains s sub = true → contains (s ++ t) sub = true.
Proof.
  rewrite !contains_spec. intros (u & v & ->). exists u, (v ++ t).
  by rewrite !string_app_assoc.
Qed.

Lemma contains_trans (s t u : string) :
  contains s t = true → contains t u = true → contains s u = true.
Proof.
  intros (a & b & ->)%contains_spec H. apply contains_app_l, contains_app_r, H.
Qed.

(** A text is the concatenation of its lines. *)
Fixpoint join_lines (ls : list string) : string :=
  match ls with
  | [] => EmptyString
  | [l] => l
  | l :: ls' => l ++ String newline (join_lines ls')
  end.

Lemma split_on_nonnil sep s : split_on sep s ≠ [].
Proof.
  destruct s as [|c s]; simpl; [done|]. destruct (Ascii.eqb c sep); [done|].
  by destruct (split_on sep s).
Qed.

Lemma join_split_lines s : join_lines (split_lines s) = s.
Proof.
  unfold split_lines. induction s as [|c s IH]; [done|]. simpl.
  pose proof (split_on_nonnil newline s) as Hn.
  destruct (Ascii.eqb c newline) eqn:E.
  - apply Ascii.eqb_eq in E as ->. destruct (split_on newline s) as [|w ws]; [done|].
    change (String newline (join_lines (w :: ws)) = String newline s). by rewrite IH.
  - destruct (split_on newline s) as [|w ws]; [done|].
    destruct ws; simpl in *; [by rewrite IH|]. by rewrite string_cons_app, IH.
Qed.

Fixpoint has_char (c : Ascii.ascii) (s : string) : bool :=
  match s with
  | EmptyString => false
  | String d s' => Ascii.eqb d c || has_char c s'
  end.

Lemma split_on_app sep (a b : string) :
  has_char sep a = false →
  split_on sep (a ++ String sep b) = a :: split_on sep b.
Proof.
  induction a as [|c a IH]; simpl; [by rewrite Ascii.eqb_refl|].
  intros [-> H]%orb_false_iff. by rewrite IH.
Qed.

Lemma split_on_single sep (a : string) : has_char sep a = false → split_on sep a = [a].
Proof.
  induction a as [|c a IH]; simpl; [done|]. intros [-> H]%orb_false_iff. by rewrite IH.
Qed.

(** Splitting the joined text gives the lines back. *)
Lemma split_join_lines ls :
  ls ≠ [] → Forall (λ l, has_char newline l = false) ls →
  split_lines (join_lines ls) = ls.
Proof.
  unfold split_lines. intros Hn H. induction H as [|l ls Hl Hls IH]; [done|].
  destruct ls as [|l' ls]; [by apply split_on_single|].
  change (split_on newline (l ++ String newline (join_lines (l' :: ls))) = l :: l' :: ls).
  rewrite split_on_app by done. f_equal. by apply IH.
Qed.

Lemma string_of_int_to_uint z :
  (0 ≤ z)%Z → itoa z = NilEmpty.string_of_uint (N.to_uint (Z.to_N z)).
Proof. intros H. destruct z; [done|done|lia]. Qed.

Lemma parse_digits_itoa z : (0 ≤ z)%Z → parse_digits (itoa z) = Some z.
Proof.
  intros H. unfold itoa, parse_digits.
  assert (Hi : ∃ u, Z.to_int z = Decimal.Pos u ∧ u ≠ Decimal.Nil).
  { destruct z as [|p|p]; [by exists (Decimal.D0 Decimal.Nil)| |lia].
    exists (Pos.to_uint p). split; [done|]. apply DecimalPos.Unsigned.to_uint_nonnil. }
  destruct Hi as (u & Hu & Hnn). pose proof (DecimalZ.of_to z) as Hz.
  rewrite Hu in Hz. rewrite Hu. simpl.
  destruct (NilEmpty.string_of_uint u) eqn:E; [by destruct u|].
  rewrite <- E, NilEmpty.usu. simpl. simpl in Hz. by rewrite Hz.
Qed.

(** Printing a 64-bit number and reading it back gives the number. *)
Lemma atoi_itoa_nonneg z : (0 ≤ z ≤ max_int64)%Z → atoi (itoa z) = Some z.
Proof.
  intros H. pose proof (parse_digits_itoa z ltac:(lia)) as Hp.
  unfold atoi. unfold itoa in *.
  assert (Hm : match NilEmpty.string_of_int (Z.to_int z) with
    | String "-"%char r => Z.opp <$> parse_digits r
    | String "+"%char r => parse_digits r
    | _ => parse_digits (NilEmpty.string_of_int (Z.to_int z))
    end = Some z).
  { destruct z as [|p|p]; [done| |lia]. simpl in *.
    destruct (Pos.to_uint p) eqn:E; simpl in *; try done. }
  rewrite Hm. rewrite decide_True; [done|]. unfold in_int64, min_int64, max_int64 in *. lia.
Qed.

Lemma atoi_range s z : atoi s = Some z → in_int64 z.
Proof.
  unfold atoi. destruct (match s with EmptyString => _ | _ => _ end); [|done].
  case_decide; naive_solver.
Qed.

(** ** Substrings of a text with a known beginning or end *)

Lemma prefix_app_inv (p s t : string) :
  String.prefix p (s ++ t) = true → String.prefix p s = true ∨ String.prefix s p = true.
Proof.
  revert p. induction s as [|c s IH]; intros p; [right; by destruct p|]. destruct p as [|d p]; [by left|].
  rewrite string_cons_app. simpl. destruct (Ascii.ascii_dec d c) as [->|]; [|done].
  intros H. destruct (Ascii.ascii_dec c c); [|done]. by apply IH.
Qed.

(** Some suffix of [s] begins [p]: an occurrence of [p] could straddle the end of [s]. *)
Fixpoint overlap (s p : string) : bool :=
  match s with
  | EmptyString => false
  | String _ s' => String.prefix s p || overlap s' p
  end.

Lemma contains_app_false (s t p : string) :
  overlap s p = false → contains s p = false → contains t p = false → contains (s ++ t) p = false.
Proof.
  induction s as [|c s IH]; [done|]. rewrite string_cons_app. cbn [overlap contains].
  intros [Ho1 Ho2]%orb_false_iff [Hc1 Hc2]%orb_false_iff Ht.
  apply orb_false_iff. split; [|by apply IH].
  apply not_true_is_false. rewrite <- string_cons_app.
  intros [Hp|Hp]%prefix_app_inv; congruence.
Qed.

Lemma has_suffix_spec (s suf : string) : has_suffix s suf = true ↔ ∃ u, s = u ++ suf.
Proof.
  split.
  - induction s as [|c s IH]; cbn [has_suffix]; rewrite ?orb_false_r, ?orb_true_iff.
    + intros ->%String.eqb_eq. by exists "".
    + intros [->%String.eqb_eq|H]; [by exists ""|]. destruct (IH H) as [u ->]. by exists (String c u).
  - intros [u ->]. induction u as [|c u IH].
    + change ("" ++ suf) with suf. destruct suf; cbn [has_suffix]; by rewrite String.eqb_refl.
    + rewrite string_cons_app. cbn [has_suffix]. by rewrite IH, orb_true_r.
Qed.

Lemma has_char_app c (s t : string) : has_char c (s ++ t) = has_char c s || has_char c t.
Proof. induction s as [|d s IH]; [done|]. rewrite string_cons_app. simpl. by rewrite IH, orb_assoc. Qed.

Lemma has_char_first c (s : string) :
  has_char c s = true → ∃ a b, s = a ++ String c b ∧ has_char c a = false.
Proof.
  induction s as [|d s IH]; simpl; [done|]. destruct (Ascii.eqb_spec d c) as [->|Hne]; simpl.
  - intros _. by exists "", s.
  - intros H. destruct (IH H) as (a & b & -> & Ha). exists (String d a), b. split; [done|]. simpl.
    by rewrite Ha, (proj2 (Ascii.eqb_neq _ _) Hne).
Qed.

(** The first occurrence of a character splits a text in one way. *)
Lemma first_split c (a a' b b' : string) :
  has_char c a = false → has_char c a' = false → a ++ String c b = a' ++ String c b' → a = a' ∧ b = b'.
Proof.
  revert a'. induction a as [|d a IH]; intros a' Ha Ha' E; destruct a' as [|d' a'];
    rewrite ?string_cons_app in E; simpl in *.
  - change (String c b = String c b') in E. by injection E.
  - change (String c b = String d' (a' ++ String c b')) in E. injection E as -> _.
    by rewrite Ascii.eqb_refl in Ha'.
  - change (String d (a ++ String c b) = String c b') in E. injection E as -> _.
    by rewrite Ascii.eqb_refl in Ha.
  - injection E as -> E. apply orb_false_iff in Ha as [_ Ha]. apply orb_false_iff in Ha' as [_ Ha'].
    destruct (IH a' Ha Ha' E) as [-> ->]. done.
Qed.

(** In a text with a single [c], what contains [c] must be found around it. *)
Lemma contains_around c (a b p q : string) :
  has_char c a = false → has_char c b = false → has_char c p = false →
  contains (a ++ String c b) (p ++ String c q) = true → has_suffix a p = true.
Proof.
  intros Ha Hb Hp (x & y & E)%contains_spec.
  assert (Hx : has_char c x = false).
  { apply not_true_is_false. intros (x1 & x2 & -> & Hx1)%has_char_first.
    rewrite !string_app_assoc, string_cons_app in E.
    apply first_split in E as [_ E]; [|done..]. rewrite E, !has_char_app in Hb. simpl in Hb.
    by rewrite Ascii.eqb_refl, !orb_true_r in Hb. }
  rewrite !string_app_assoc, string_cons_app, <- string_app_assoc in E.
  apply first_split in E as [-> _]; [|done|by rewrite has_char_app, Hx, Hp].
  apply has_suffix_spec. by exists x.
Qed.

Lemma string_length_app (s t : string) : String.length (s ++ t) = String.length s + String.length t.
Proof. induction s as [|c s IH]; [done|]. rewrite string_cons_app. simpl. by rewrite IH. Qed.

Lemma string_app_cancel_l (a b c : string) : a ++ b = a ++ c → b = c.
Proof. induction a as [|x a IH]; [done|]. rewrite !string_cons_app. intros E. apply IH. by injection E. Qed.

Lemma has_suffix_app (u w p : string) :
  String.length p ≤ String.length w → has_suffix (u ++ w) p = has_suffix w p.
Proof.
  intros Hl. apply eq_true_iff_eq. rewrite !has_suffix_spec. split.
  - intros [v E]. revert v E. induction u as [|c u IH]; intros v E; [eauto|].
    rewrite string_cons_app in E. destruct v as [|d v].
    + change ("" ++ p) with p in E. rewrite <- E in Hl. simpl in Hl. rewrite string_length_app in Hl. lia.
    + rewrite string_cons_app in E. injection E as _ E. by eapply IH.
  - intros [v ->]. exists (u ++ v). by rewrite string_app_assoc.
Qed.

(** ** Words *)

Definition blank : Ascii.ascii := Ascii.ascii_of_nat 32.

Lemma fields_from_app cur (s t : string) :
  fields_from cur (s ++ String blank t) = (fields_from cur s ++ fields t)%list.
Proof.
  revert cur. induction s as [|c s IH]; intros cur.
  - change ("" ++ String blank t) with (String blank t). simpl. by destruct cur.
  - rewrite string_cons_app. simpl. destruct (is_space c); [|apply IH].
    destruct cur; rewrite IH; done.
Qed.

Lemma fields_app (s t : string) : fields (s ++ String blank t) = (fields s ++ fields t)%list.
Proof. apply fields_from_app. Qed.

Lemma fields_from_no_char c cur (s : string) :
  has_char c cur = false → has_char c s = false → Forall (λ w, has_char c w = false) (fields_from cur s).
Proof.
  revert cur. induction s as [|d s IH]; intros cur Hc; simpl.
  - intros _. destruct cur; by repeat constructor.
  - intros [Hd Hs]%orb_false_iff. destruct (is_space d).
    + destruct cur; [by apply IH|]. constructor; [done|by apply IH].
    + apply IH; [|done]. rewrite has_char_app, Hc. simpl. by rewrite Hd.
Qed.

Lemma fields_no_char c (s : string) :
  has_char c s = false → Forall (λ w, has_char c w = false) (fields s).
Proof. by apply fields_from_no_char. Qed.

Lemma has_suffix_char c (s : string) : has_char c s = false → has_suffix s (String c EmptyString) = false.
Proof.
  intros H. apply not_true_is_false. intros [u ->]%has_suffix_spec. rewrite has_char_app in H. simpl in H.
  by rewrite Ascii.eqb_refl, orb_true_r in H.
Qed.

(** A suffix without blanks lies in the last word. *)
Lemma has_suffix_word (u w p : string) :
  has_char blank p = false → has_suffix (u ++ String blank w) p = has_suffix w p.
Proof.
  intros Hp. apply eq_true_iff_eq. rewrite !has_suffix_spec. split.
  - intros [v E]. revert u E. induction v as [|c v IH]; intros u E.
    + change ("" ++ p) with p in E. rewrite <- E, has_char_app in Hp. simpl in Hp.
      by rewrite orb_true_r in Hp.
    + rewrite string_cons_app in E. destruct u as [|d u].
      * change ("" ++ String blank w) with (String blank w) in E. injection E as _ ->. eauto.
      * rewrite string_cons_app in E. injection E as _ E. by eapply IH.
  - intros [v ->]. exists (u ++ String blank v). by rewrite string_app_assoc, string_cons_app.
Qed.

#[export] Hint Resolve atoi_range contains_app_l contains_app_r : ddl.
