(* ===== verification/GoFloat.v ===== *)
(** * GoFloat: Go's [float64]

    A [float64] is an IEEE 754 binary64 number; it is computed here with the
    executable specification of the Standard Library ([SpecFloat], precision 53,
    exponent bound 1024). A decimal literal or the text of a number is a
    quotient of integers, rounded once. *)
From S2P Require Import Prelude.
From Stdlib Require Import Floats.SpecFloat.
Local Open Scope Z_scope.

Definition float64 : Type := spec_float.

Definition prec : Z := 53.
Definition emax : Z := 1024.

Definition fadd (x y : float64) : float64 := SFadd prec emax x y.
Definition fsub (x y : float64) : float64 := SFsub prec emax x y.
Definition fmul (x y : float64) : float64 := SFmul prec emax x y.
Definition fdiv (x y : float64) : float64 := SFdiv prec emax x y.

(** [float64(z)] for an integer. *)
Definition of_int (z : Z) : float64 := binary_normalize prec emax z 0 false.

(** The literal [n/d]: the quotient rounded once ([n >= 0], [d > 0]). *)
Definition ratio (n d : Z) : float64 :=
  match n, d with
  | Zpos p, Zpos q => SFdiv prec emax (S754_finite false p 0) (S754_finite false q 0)
  | _, _ => S754_zero false
  end.

Definition flt (x y : float64) : bool := SFltb x y.
Definition fle (x y : float64) : bool := SFleb x y.
Definition feq (x y : float64) : bool := SFeqb x y.

(** [int64(x)]: truncation toward zero. Out of range the result is the
    "integer indefinite" value that the amd64 conversion gives. *)
Definition truncate (x : float64) : Z :=
  match x with
  | S754_finite s m e =>
      let z := match e with
               | Zneg p => Z.quot (Zpos m) (2 ^ Zpos p)
               | _ => Zpos m * 2 ^ e
               end in
      let z := if s then - z else z in
      if decide (in_int64 z) then z else min_int64
  | S754_zero _ => 0
  | _ => min_int64
  end.

Lemma truncate_range x : in_int64 (truncate x).
Proof. unfold truncate. destruct x; try case_decide; done. Qed.

(** [d.Seconds()] of a duration: whole seconds plus the fraction. *)
Definition seconds (d : Z) : float64 :=
  fadd (of_int (Z.quot d Second)) (fdiv (of_int (Z.rem d Second)) (of_int Second)).

(** [math.Pow(b, n)] for a small whole exponent that only multiplies exactly
    representable numbers, by repeated multiplication. *)
Fixpoint fpow (b : float64) (n : nat) : float64 :=
  match n with
  | O => of_int 1
  | S n => fmul (fpow b n) b
  end.

(** Comparisons with the boolean tests of the code. *)
Lemma flt_irrefl_nan x : flt x S754_nan = false.
Proof. by destruct x. Qed.
