(* ===== verification/GoContext.v ===== *)
(** * GoContext: Go's [context.Context]

    What the program uses of a context: when it ends, and why. Times are
    nanoseconds of the process's clock. *)
From S2P Require Import Prelude.
Local Open Scope Z_scope.

(** A context: its deadline and the time at which its parent is cancelled, when
    it has one and when it is. *)
Record Context := mk_context { deadline : option Z; cancelled_at : option Z }.

Inductive ctx_error := Canceled | DeadlineExceeded.

Definition reached (t : option Z) (now : Z) : bool := match t with Some t => (t <=? now)%Z | None => false end.
Definition earlier (a b : option Z) : option Z :=
  match a, b with
  | Some x, Some y => Some (Z.min x y)
  | Some x, None => Some x
  | None, _ => b
  end.

(** [ctx.Err()] at a given time: the first of the two events that happened. *)
Definition ctx_Err (c : Context) (now : Z) : option ctx_error :=
  match reached (deadline c) now, reached (cancelled_at c) now with
  | false, false => None
  | true, false => Some DeadlineExceeded
  | false, true => Some Canceled
  | true, true =>
      match deadline c, cancelled_at c with
      | Some d, Some k => Some (if (d <? k)%Z then DeadlineExceeded else Canceled)
      | _, _ => Some Canceled
      end
  end.

(** [context.WithTimeout(c, d)] at a given time. *)
Definition with_timeout (c : Context) (now d : Z) : Context :=
  mk_context (earlier (deadline c) (Some (now + d)%Z)) (cancelled_at c).

(** When [c.Done()] is closed. *)
Definition ctx_end (c : Context) : option Z := earlier (deadline c) (cancelled_at c).

Lemma with_timeout_deadline c now d : ∃ t, deadline (with_timeout c now d) = Some t ∧ t ≤ now + d.
Proof. unfold with_timeout. simpl. destruct (deadline c); simpl; eexists; (split; [done|lia]). Qed.

Lemma ctx_Err_end c now : ctx_Err c now = None ↔ reached (ctx_end c) now = false.
Proof.
  unfold ctx_Err, ctx_end. destruct (deadline c) as [d|], (cancelled_at c) as [k|]; simpl; try done;
    destruct (Z.leb_spec d now) || destruct (Z.leb_spec k now); try done.
  - destruct (Z.leb_spec k now), (Z.leb_spec (d `min` k) now); try lia; done.
  - destruct (Z.leb_spec k now), (Z.leb_spec (d `min` k) now); try lia; done.
Qed.
