(* ===== verification/Conc.v ===== *)
(** * Conc: goroutines over a shared state

    What a goroutine still has to do is a [prog]: a value, a panic, or an atomic
    action followed by the rest. An action takes an answer of the environment (the
    time, the outcome of a call to the device, the case a [select] takes, the order
    in which a map is ranged over); it is not enabled for an answer that cannot
    occur in the state, and a goroutine none of whose answers is enabled waits.

    [run] executes one goroutine alone, [sched] several of them interleaved. [keeps]
    says that every action of a goroutine keeps an invariant of the shared state, and
    that it panics only where [may_panic] says so; it is closed under sequencing and
    gives the invariant in every interleaving ([sched_keeps]). [owns] adds rights, such
    as to unlock a mutex, of which no two goroutines hold the same, and what grows for
    ever; it gives freedom from deadlock, too ([rights_progress]). [reaches] says that some execution ends
    with a property. [wp] is the total correctness of one goroutine that runs alone. *)
From S2P Require Import Prelude.

Section conc.
Context {St An : Type}.

Inductive prog (A : Type) : Type :=
  | Done (a : A)
  | Act {B : Type} (f : St → An → option (St * B)) (k : B → prog A)
  | Crash (why : string).
Arguments Done {A} a.
Arguments Act {A B} f k.
Arguments Crash {A} why.

#[global] Instance prog_ret : MRet prog := @Done.
#[global] Instance prog_bind : MBind prog :=
  λ A B g, fix bind p :=
    match p with
    | Done a => g a
    | Act f k => Act f (λ b, bind (k b))
    | Crash w => Crash w
    end.

(** One action as a program. *)
Definition act {B} (f : St → An → option (St * B)) : prog B := Act f Done.

(** A deferred [recover]: what the function does when its body panics. *)
Fixpoint catch {A} (p : prog A) (handler : string → prog A) : prog A :=
  match p with
  | Done a => Done a
  | Act f k => Act f (λ b, catch (k b) handler)
  | Crash w => handler w
  end.

(** ** One goroutine alone *)

(** The environment gives its answers in turn; the rest of them is returned. *)
Fixpoint run {A} (p : prog A) (s : St) (env : list An) : option (St * list An * outcome A) :=
  match p with
  | Done a => Some (s, env, Ret a)
  | Crash w => Some (s, env, Panic w)
  | Act f k => match env with
               | [] => None
               | x :: env => match f s x with
                             | Some (s, b) => run (k b) s env
                             | None => None
                             end
               end
  end.

(** Running a sequence is running its parts, one on what the other left. *)
Lemma run_bind {A B} (p : prog A) (g : A → prog B) s env :
  run (p ≫= g) s env =
    match run p s env with
    | Some (s, env, Ret a) => run (g a) s env
    | Some (s, env, Panic w) => Some (s, env, Panic w)
    | Some (s, env, Fail e) => Some (s, env, Fail e)
    | None => None
    end.
Proof.
  revert s env. induction p as [a|C f k IH|w]; intros s env; [done| |done].
  cbn. destruct env as [|x env]; [done|]. destruct (f s x) as [[s1 b]|]; [apply IH|done].
Qed.

Lemma run_catch {A} (p : prog A) h s env :
  run (catch p h) s env =
    match run p s env with
    | Some (s, env, Panic w) => run (h w) s env
    | r => r
    end.
Proof.
  revert s env. induction p as [a|C f k IH|w]; intros s env; [done| |].
  - cbn. destruct env as [|x env]; [done|]. destruct (f s x) as [[s1 b]|]; [apply IH|done].
  - done.
Qed.

Lemma run_act {B} (f : St → An → option (St * B)) s x env :
  run (act f) s (x :: env) = match f s x with Some (s, b) => Some (s, env, Ret b) | None => None end.
Proof. cbn. by destruct (f s x) as [[]|]. Qed.

(** ** Goroutines interleaved *)

Abbreviation threads := (list (prog unit)).

(** Goroutine [i] makes its next action, for which the environment answers [x]. *)
Definition sched_step (ts : threads) (s : St) (i : nat) (x : An) : option (threads * St) :=
  match ts !! i with
  | Some (Act f k) => match f s x with
                      | Some (s, b) => Some (<[i := k b]> ts, s)
                      | None => None
                      end
  | _ => None
  end.

Fixpoint sched (ts : threads) (s : St) (l : list (nat * An)) : option (threads * St) :=
  match l with
  | [] => Some (ts, s)
  | (i, x) :: l => match sched_step ts s i x with
                   | Some (ts, s) => sched ts s l
                   | None => None
                   end
  end.

(** An execution by a plan: the goroutine it names makes its next step with the first
    of the answers that the step accepts. *)
Section follow.
Context {T : Type} (answers : T → St → list An).

Definition first_step (ts : threads) (s : St) (i : nat) (l : list An) : option (An * (threads * St)) :=
  foldr (λ x r, match sched_step ts s i x with Some ts' => Some (x, ts') | None => r end) None l.

Fixpoint follow (plan : list (nat * T)) (ts : threads) (s : St) : option (list (nat * An) * (threads * St)) :=
  match plan with
  | [] => Some ([], (ts, s))
  | (i, t) :: plan =>
      match first_step ts s i (answers t s) with
      | Some (x, (ts, s)) => match follow plan ts s with
                             | Some (l, r) => Some ((i, x) :: l, r)
                             | None => None
                             end
      | None => None
      end
  end.

Lemma first_step_sound ts s i l x r : first_step ts s i l = Some (x, r) → sched_step ts s i x = Some r.
Proof.
  induction l as [|y l IH]; simpl; [done|]. destruct (sched_step ts s i y) eqn:E; [naive_solver|exact IH].
Qed.

Lemma follow_sound plan ts s l r : follow plan ts s = Some (l, r) → sched ts s l = Some r.
Proof.
  revert ts s l r. induction plan as [|[i t] plan IH]; intros ts s l r H; cbn [follow] in H; [by simplify_eq|].
  destruct (first_step ts s i (answers t s)) as [[x [ts1 s1]]|] eqn:E; [|done].
  destruct (follow plan ts1 s1) as [[l1 r1]|] eqn:E1; [|done]. injection H as <- <-.
  apply first_step_sound in E. cbn [sched]. rewrite E. exact (IH _ _ _ _ E1).
Qed.

(** Some execution ends with the property. *)
Definition reaches (ts : threads) (s : St) (P : threads → St → Prop) : Prop :=
  ∃ l ts' s', sched ts s l = Some (ts', s') ∧ P ts' s'.

Lemma reaches_follow plan ts s (test : threads → St → bool) (P : threads → St → Prop) :
  match follow plan ts s with Some (_, (ts, s)) => test ts s | None => false end = true →
  (∀ ts s, test ts s = true → P ts s) → reaches ts s P.
Proof.
  intros H HP. destruct (follow plan ts s) as [[l [ts' s']]|] eqn:E; [|done].
  exists l, ts', s'. split; [by eapply follow_sound|by apply HP].
Qed.
End follow.

Definition panicked (i : nat) (w : string) (ts : threads) : bool :=
  match ts !! i with Some (Crash w') => String.eqb w w' | _ => false end.
Lemma panicked_sound i w ts : panicked i w ts = true → ts !! i = Some (Crash w).
Proof. unfold panicked. destruct (ts !! i) as [[]|]; try done. by intros ->%String.eqb_eq. Qed.
Definition all_done (ts : threads) : bool := forallb (λ p, match p with Done _ => true | _ => false end) ts.
Lemma all_done_sound ts : all_done ts = true → Forall (λ p, p = Done ()) ts.
Proof. intros H. apply Forall_forall. intros p Hp%list_elem_of_In. pose proof (proj1 (forallb_forall _ _) H p Hp). by destruct p as [[]| |]. Qed.

(** ** Invariants *)

Section invariants.
Context (may_panic : Prop) (I : St → Prop).

Fixpoint keeps {A} (p : prog A) : Prop :=
  match p with
  | Done _ => True
  | Act f k => ∀ s x s' b, I s → f s x = Some (s', b) → I s' ∧ keeps (k b)
  | Crash _ => may_panic
  end.

Lemma keeps_done {A} (a : A) : keeps (Done a).
Proof. done. Qed.

Lemma keeps_act {B} (f : St → An → option (St * B)) :
  (∀ s x s' b, I s → f s x = Some (s', b) → I s') → keeps (act f).
Proof. intros H s x s' b Hs E. split; [by eapply H|done]. Qed.

Lemma keeps_bind {A B} (p : prog A) (g : A → prog B) :
  keeps p → (∀ a, keeps (g a)) → keeps (p ≫= g).
Proof.
  intros Hp Hg. induction p as [a|C f k IH|w]; [apply Hg| |done].
  intros s x s' b Hs E. destruct (Hp s x s' b Hs E) as [H1 H2]. split; [done|by apply IH].
Qed.

Lemma run_keeps {A} (p : prog A) s env s' env' r :
  keeps p → I s → run p s env = Some (s', env', r) → I s' ∧ (is_panic r = true → may_panic).
Proof.
  revert s env. induction p as [a|C f k IH|w]; intros s env Hk Hs H; [by simplify_eq/=| |by simplify_eq/=].
  simpl in H. destruct env as [|x env]; [done|]. destruct (f s x) as [[s1 b]|] eqn:E; [|done].
  destruct (Hk s x s1 b Hs E) as [H1 H2]. by eapply IH.
Qed.

(** Whatever the interleaving, the invariant holds and goroutines panic only
    where they may. *)
Lemma sched_keeps ts s l ts' s' :
  Forall keeps ts → I s → sched ts s l = Some (ts', s') →
  I s' ∧ Forall keeps ts' ∧ length ts' = length ts.
Proof.
  revert ts s. induction l as [|[i x] l IH]; intros ts s Hts Hs H; simpl in H; [by simplify_eq|].
  unfold sched_step in H. destruct (ts !! i) as [[|B f k|]|] eqn:Ei; try done.
  destruct (f s x) as [[s1 b]|] eqn:E; [|done].
  destruct (proj1 (Forall_lookup _ _) Hts i _ Ei s x s1 b Hs E) as [H1 H2].
  destruct (IH (<[i := k b]> ts) s1) as (H3 & H4 & H5); [by apply Forall_insert|done|done|].
  split_and!; [done..|]. by rewrite length_insert in H5.
Qed.
End invariants.

(** A goroutine that recovers keeps the invariant if its body does so up to panics. *)
Lemma keeps_catch (may_panic : Prop) (I : St → Prop) {A} (p : prog A) h :
  keeps True I p → (∀ w, keeps may_panic I (h w)) → keeps may_panic I (catch p h).
Proof.
  intros Hp Hh. induction p as [a|C f k IH|w]; [done| |apply Hh].
  intros s x s' b Hs E. destruct (Hp s x s' b Hs E) as [H1 H2]. split; [done|by apply IH].
Qed.

Lemma keeps_catch_panic (may_panic : Prop) (I : St → Prop) {A} (p : prog A) h :
  keeps may_panic I p → (may_panic → ∀ w, keeps may_panic I (h w)) → keeps may_panic I (catch p h).
Proof.
  intros Hp Hh. induction p as [a|C f k IH|w]; [done| |by apply Hh].
  intros s x s' b Hs E. destruct (Hp s x s' b Hs E) as [H1 H2]. split; [done|by apply IH].
Qed.

Lemma keeps_weaken (may_panic : Prop) (I : St → Prop) {A} (p : prog A) :
  keeps may_panic I p → keeps True I p.
Proof.
  intros Hp. induction p as [a|C f k IH|w]; [done| |done].
  intros s x s' b Hs E. destruct (Hp s x s' b Hs E) as [H1 H2]. split; [done|by apply IH].
Qed.

(** ** Rights *)

(** A goroutine may hold rights, such as to unlock a mutex. [amount k s] is how many
    rights of kind [k] the state gives; a goroutine takes one only when the state
    gives one more, and the state withdraws one only from the goroutine that lets go
    of it, so that what the others hold stays true. A kind that is [exact] in a state
    is held as often as the state gives it. The states only grow along [grows], so
    that a goroutine may count on what it has seen. [owns n s0 p]: holding [n], in a
    state that has grown from [s0], the goroutine keeps the invariant, panics as
    allowed, and waits only for an exact right of a higher rank than all it holds. *)
Section rights.
Context {K : Type} (may_panic : string → Prop) (I : St → Prop) (grows : St → St → Prop) `{!PreOrder grows}.
Context (amount : K → St → nat) (exact : K → St → Prop) (rank : K → nat).

Definition waits (n : K → nat) (s : St) : Prop :=
  ∃ k, exact k s ∧ (0 < amount k s)%nat ∧ (0 < rank k)%nat ∧ ∀ j, (0 < n j)%nat → (rank j < rank k)%nat.
Definition held (n : K → nat) (s : St) : Prop := ∀ i, (n i ≤ amount i s)%nat.

Fixpoint owns {A} (n : K → nat) (s0 : St) (p : prog A) (Q : (K → nat) → St → A → Prop) : Prop :=
  match p with
  | Done a => Q n s0 a
  | Act f k =>
      (∀ s, grows s0 s → I s → held n s → (∃ x r, f s x = Some r) ∨ waits n s) ∧
      ∀ s x s' b, grows s0 s → I s → held n s → f s x = Some (s', b) →
        I s' ∧ grows s s' ∧ ∃ n', (∀ i, amount i s + n' i ≤ amount i s' + n i)%nat ∧
          (∀ i, exact i s' → exact i s ∧ amount i s + n' i = amount i s' + n i)%nat ∧ owns n' s' (k b) Q
  | Crash w => ∀ s, grows s0 s → I s → held n s → may_panic w
  end.

Lemma owns_mono {A} n s0 (p : prog A) (Q Q' : (K → nat) → St → A → Prop) :
  owns n s0 p Q → (∀ n s a, Q n s a → Q' n s a) → owns n s0 p Q'.
Proof.
  intros H HQ. revert n s0 H. induction p as [a|C f k IH|w]; intros n s0 H; [by apply HQ| |done].
  destruct H as [Hp H]. split; [done|]. intros s x s' b Hg Hs Hn E.
  destruct (H s x s' b Hg Hs Hn E) as (H1 & H2 & n' & H3 & H4 & H5). eauto 10.
Qed.

Lemma owns_bind {A B} n s0 (p : prog A) (g : A → prog B) Q :
  owns n s0 p (λ n s a, owns n s (g a) Q) → owns n s0 (p ≫= g) Q.
Proof.
  revert n s0. induction p as [a|C f k IH|w]; intros n s0 H; [done| |done].
  destruct H as [Hp H]. split; [done|]. intros s x s' b Hg Hs Hn E.
  destruct (H s x s' b Hg Hs Hn E) as (H1 & H2 & n' & H3 & H4 & H5). eauto 10.
Qed.

(** More rights do no harm, when nobody counts on their being given back. *)
Definition fewer (n m : K → nat) : Prop := ∀ i, n i = m i ∨ (n i ≤ m i)%nat ∧ rank i = 0%nat ∧ ∀ s, ¬ exact i s.
Lemma fewer_held n m s : fewer n m → held m s → held n s.
Proof. intros Hle Hm i. specialize (Hm i). destruct (Hle i); lia. Qed.
Lemma owns_more {A} n m s0 (p : prog A) (Q : (K → nat) → St → A → Prop) :
  fewer n m → (∀ n m s a, fewer n m → Q n s a → Q m s a) → owns n s0 p Q → owns m s0 p Q.
Proof.
  intros Hle HQ H. destruct p as [a|C f k|w]; [by eapply HQ| |intros s Hg Hs Hm; apply (H s Hg Hs); by eapply fewer_held]. destruct H as [Hp H]. split.
  - intros s Hg Hs Hm. destruct (Hp s Hg Hs (fewer_held _ _ _ Hle Hm)) as [?|(k0 & Hk & Ha & Hr & Hj)]; [by left|]. right.
    exists k0. split_and!; [done..|]. intros j Hmj. destruct (Hle j) as [E|(_ & Hr0 & _)]; [apply Hj; lia|lia].
  - intros s x s' b Hg Hs Hm E. destruct (H s x s' b Hg Hs (fewer_held _ _ _ Hle Hm) E) as (H1 & H2 & n' & H3 & H4 & H5).
    split; [done|]. split; [done|]. exists n'. split_and!; [| |done].
    + intros i. specialize (H3 i). destruct (Hle i); lia.
    + intros i Hi. destruct (H4 i Hi) as [Hi' He]. split; [done|]. destruct (Hle i) as [<-|(_ & _ & Hno)]; [done|by destruct (Hno s)].
Qed.

(** The goroutines, with what each holds in the present state. *)
Definition given_back {A} : (K → nat) → St → A → Prop := λ n _ _, ∀ i s, exact i s → n i = 0%nat.
Definition well (s : St) : list (K → nat) → threads → Prop := Forall2 (λ n p, ∃ s0, grows s0 s ∧ owns n s0 p given_back).

(** All rights that goroutines hold are there, and those that are exact are held. *)
Definition total (ns : list (K → nat)) (i : K) : nat := sum_list ((λ n, n i) <$> ns).
Definition rights_held (ns : list (K → nat)) (s : St) : Prop :=
  ∀ i, (total ns i ≤ amount i s)%nat ∧ (exact i s → total ns i = amount i s).

Lemma sum_list_insert (l : list nat) j x y :
  l !! j = Some x → (sum_list (<[j := y]> l) + x = sum_list l + y)%nat ∧ (x ≤ sum_list l)%nat.
Proof.
  revert j. induction l as [|z l IH]; intros [|j] H; [done|done| |]; simpl in *.
  - injection H as ->. lia.
  - destruct (IH j H). lia.
Qed.
Lemma total_insert ns j n n' i :
  ns !! j = Some n → (total (<[j := n']> ns) i + n i = total ns i + n' i)%nat ∧ (n i ≤ total ns i)%nat.
Proof.
  intros H. unfold total. rewrite list_fmap_insert. apply sum_list_insert. by rewrite list_lookup_fmap, H.
Qed.
Lemma total_pos ns i : (0 < total ns i)%nat → ∃ j n, ns !! j = Some n ∧ (0 < n i)%nat.
Proof.
  unfold total. induction ns as [|n ns IH]; cbn; [lia|]. intros H.
  destruct (decide (0 < n i)%nat); [by exists 0%nat, n|]. destruct IH as (j & n' & ? & ?); [lia|]. by exists (S j), n'.
Qed.
Lemma rights_held_one ns s i n : rights_held ns s → ns !! i = Some n → held n s.
Proof. intros Hr Hn j. destruct (total_insert ns i n n j Hn), (Hr j). lia. Qed.

Lemma sched_owns ns ts s l ts' s' :
  well s ns ts → I s → rights_held ns s → sched ts s l = Some (ts', s') →
  I s' ∧ grows s s' ∧ ∃ ns', well s' ns' ts' ∧ rights_held ns' s'.
Proof.
  revert ns ts s. induction l as [|[i x] l IH]; intros ns ts s Hts Hs Hr H; simpl in H.
  { injection H as <- <-. split; [done|]. split; [reflexivity|eauto]. }
  unfold sched_step in H. destruct (ts !! i) as [[|B f k|]|] eqn:Ei; try done.
  destruct (f s x) as [[s1 b]|] eqn:E; [|done].
  destruct (Forall2_lookup_r _ _ _ _ _ Hts Ei) as (n & Hn & s0 & Hg & _ & Hp).
  destruct (Hp s x s1 b Hg Hs (rights_held_one _ _ _ _ Hr Hn) E) as (H1 & H2 & n' & H3 & H4 & H5).
  destruct (IH (<[i := n']> ns) (<[i := k b]> ts) s1) as (H6 & H7 & H8); [| | |done|].
  - apply Forall2_insert; [|by exists s1]. eapply Forall2_impl; [exact Hts|]. intros m p (s2 & Hg2 & Ho). exists s2.
    split; [by etrans|done].
  - done.
  - intros j. specialize (H3 j). destruct (total_insert ns i n n' j Hn), (Hr j) as [Hr1 Hr2]. split; [lia|].
    intros Hj. destruct (H4 j Hj) as [Hj' He]. specialize (Hr2 Hj'). lia.
  - split; [done|]. split; [by etrans|done].
Qed.

(** Nobody waits for ever: one goroutine can go on, unless all are done or one has
    crashed, as it may. *)
Lemma rights_progress B ns (ts : threads) s :
  (∀ k, rank k ≤ B)%nat → well s ns ts → I s → rights_held ns s →
  (∃ i x r, sched_step ts s i x = Some r) ∨ Forall (λ p, p = Done ()) ts ∨ ∃ i w, ts !! i = Some (Crash w) ∧ may_panic w.
Proof.
  intros HB Hts Hs Hr.
  set (moves := (∃ i x r, sched_step ts s i x = Some r) ∨ ∃ i w, ts !! i = Some (Crash w) ∧ may_panic w).
  assert (Hact : ∀ i p n s0, ts !! i = Some p → ns !! i = Some n → grows s0 s → owns n s0 p given_back →
    moves ∨ p = Done () ∨ waits n s).
  { intros i p n s0 Hi Hn Hg Hp. pose proof (rights_held_one _ _ _ _ Hr Hn) as Hle.
    destruct p as [[]|C f k|w]; [by auto| |left; right; eauto]. destruct Hp as [Hp _].
    destruct (Hp s Hg Hs Hle) as [(x & [s' b] & Hf)|H]; [|by auto].
    left. left. exists i, x, (<[i := k b]> ts, s'). unfold sched_step. by rewrite Hi, Hf. }
  assert (Hwait : ∀ d k, (B - rank k <= d)%nat → exact k s → (0 < amount k s)%nat → (0 < rank k)%nat → moves).
  { induction d as [|d IH]; intros k Hd Hk Ha H0; rewrite <- (proj2 (Hr k) Hk) in Ha; apply total_pos in Ha as (i & n & Hn & Hpos);
      destruct (Forall2_lookup_l _ _ _ _ _ Hts Hn) as (p & Hi & s0 & Hg & Hp);
      destruct (Hact i p n s0 Hi Hn Hg Hp) as [?|[->|(k' & Hk' & Ha' & H0' & Hj)]]; try done.
    - specialize (Hp k s Hk). simpl in Hp. lia.
    - specialize (Hj k Hpos). specialize (HB k'). lia.
    - specialize (Hp k s Hk). simpl in Hp. lia.
    - apply (IH k'); [|done..]. specialize (Hj k Hpos). lia. }
  destruct (decide (Forall (λ p, (match p with Done _ => true | _ => false end) = true) ts)) as [Hd|Hd].
  - right. left. eapply Forall_impl; [exact Hd|]. by intros [[]| |].
  - apply not_Forall_Exists in Hd; [|apply _]. apply Exists_exists in Hd as (p & Hin & Hp).
    apply list_elem_of_lookup in Hin as [i Hi]. destruct (Forall2_lookup_r _ _ _ _ _ Hts Hi) as (n & Hn & s0 & Hg & Ho).
    destruct (Hact i p n s0 Hi Hn Hg Ho) as [[?|?]|[->|(k & Hk & Ha & H0 & _)]]; [by auto|by auto|by destruct Hp|].
    destruct (Hwait _ k (le_n _) Hk Ha H0); auto.
Qed.

(** Who has crashed was allowed to. *)
Lemma rights_crash ns (ts : threads) s i w : well s ns ts → I s → rights_held ns s → ts !! i = Some (Crash w) → may_panic w.
Proof.
  intros Hts Hs Hr Hi. destruct (Forall2_lookup_r _ _ _ _ _ Hts Hi) as (n & Hn & s0 & Hg & Ho).
  apply (Ho s Hg Hs). by eapply rights_held_one.
Qed.

(** When all are done, no exact right is left. *)
Lemma rights_at_end ns (ts : threads) s k :
  well s ns ts → rights_held ns s → Forall (λ p, p = Done ()) ts → exact k s → amount k s = 0%nat.
Proof.
  intros Hts Hr Hd Hk. rewrite <- (proj2 (Hr k) Hk). clear Hr. unfold well in Hts. induction Hts as [|n p ns ts (s0 & _ & Hp) Hts IH]; [done|].
  apply Forall_cons in Hd as [-> Hd]. unfold total in *. cbn. rewrite (Hp k s Hk). by apply IH.
Qed.
End rights.

(** ** One goroutine alone, in any environment *)

(** The program is never stuck, and whatever the environment answers, it returns with
    [Q] or panics with [E]. *)
Fixpoint wp {A} (p : prog A) (Q : St → A → Prop) (E : St → string → Prop) (s : St) : Prop :=
  match p with
  | Done a => Q s a
  | Act f k => (∃ x r, f s x = Some r) ∧ ∀ x s' b, f s x = Some (s', b) → wp (k b) Q E s'
  | Crash w => E s w
  end.

Lemma wp_mono {A} (p : prog A) (Q Q' : St → A → Prop) (E E' : St → string → Prop) s :
  wp p Q E s → (∀ s a, Q s a → Q' s a) → (∀ s w, E s w → E' s w) → wp p Q' E' s.
Proof.
  intros H HQ HE. revert s H. induction p as [a|C f k IH|w]; intros s H; [by apply HQ| |by apply HE].
  destruct H as [H1 H2]. split; [done|]. intros x s' b Hf. eapply IH, H2, Hf.
Qed.

Lemma wp_ret {A} (a : A) (Q : St → A → Prop) E s : Q s a → wp (mret a) Q E s.
Proof. done. Qed.

Lemma wp_bind {A B} (p : prog A) (g : A → prog B) Q E s :
  wp p (λ s a, wp (g a) Q E s) E s → wp (p ≫= g) Q E s.
Proof.
  revert s. induction p as [a|C f k IH|w]; intros s H; [done| |done].
  destruct H as [H1 H2]. split; [done|]. intros x s' b Hf. by eapply IH, H2.
Qed.

Lemma wp_catch {A} (p : prog A) h Q E s :
  wp p Q (λ s w, wp (h w) Q E s) s → wp (catch p h) Q E s.
Proof.
  revert s. induction p as [a|C f k IH|w]; intros s H; [done| |done].
  destruct H as [H1 H2]. split; [done|]. intros x s' b Hf. by eapply IH, H2.
Qed.

Lemma wp_act {B} (f : St → An → option (St * B)) Q E s :
  (∃ x r, f s x = Some r) → (∀ x s' b, f s x = Some (s', b) → Q s' b) → wp (act f) Q E s.
Proof. intros H1 H2. split; [done|]. exact H2. Qed.

Definition outcome_ok {A} (Q : St → A → Prop) (E : St → string → Prop) (s : St) (r : outcome A) : Prop :=
  match r with Ret a => Q s a | Panic w => E s w | Fail _ => False end.

(** What it says of the executions: there is one, and every one ends that way. *)
Lemma wp_run {A} (p : prog A) Q E s :
  wp p Q E s →
  (∃ env s' r, run p s env = Some (s', [], r)) ∧
  ∀ env s' env' r, run p s env = Some (s', env', r) → outcome_ok Q E s' r.
Proof.
  revert s. induction p as [a|C f k IH|w]; intros s H.
  - split; [by exists [], s, (Ret a)|]. intros env s' env' r [= <- <- <-]. done.
  - destruct H as [(x & [s1 b] & Hf) H2]. split.
    + destruct (IH b s1 (H2 _ _ _ Hf)) as [(env & s' & r & Hr) _]. exists (x :: env), s', r. simpl. by rewrite Hf.
    + intros [|y env] s' env' r Hr; [done|]. simpl in Hr. destruct (f s y) as [[s2 b2]|] eqn:Hy; [|done].
      by eapply (IH b2 s2 (H2 _ _ _ Hy)).
  - split; [by exists [], s, (Panic w)|]. intros env s' env' r [= <- <- <-]. done.
Qed.

Lemma sched_app ts s l1 l2 :
  sched ts s (l1 ++ l2) =
    match sched ts s l1 with Some (ts, s) => sched ts s l2 | None => None end.
Proof.
  revert ts s. induction l1 as [|[i x] l1 IH]; intros ts s; [done|]. simpl.
  destruct (sched_step ts s i x) as [[? ?]|]; [apply IH|done].
Qed.
End conc.
Arguments prog : clear implicits.
Arguments Done {St An A} a.
Arguments Act {St An A B} f k.
Arguments Crash {St An A} why.

#[export] Hint Resolve keeps_done keeps_bind keeps_catch : ddl.
