(* ===== verification/Types.v ===== *)
(** * Types: names shared by the components ([src/connection/types.go],
    [src/connection/capability*.go], [src/connection/config.go])

    Platforms, protocols and command types are Go string types; a value of Go
    type [interface{}] is a [value], with one constructor per dynamic type the
    program puts in its maps. *)
From S2P Require Import Prelude GoFloat.
From Stdlib Require Import Floats.SpecFloat.
Local Open Scope string_scope.

Definition PlatformCiscoIOSXE : string := "cisco_iosxe".
Definition PlatformCiscoIOSXR : string := "cisco_iosxr".
Definition PlatformCiscoNXOS : string := "cisco_nxos".
Definition PlatformH3CComware : string := "h3c_comware".
Definition PlatformHuaweiVRP : string := "huawei_vrp".

Definition ProtocolSSH : string := "ssh".
Definition ProtocolScrapli : string := "scrapli".
Definition CommandTypeCommands : string := "commands".
Definition CommandTypeInteractiveEvent : string := "interactive_event".

Definition RebuildStrategyUsage : string := "usage".
Definition RebuildStrategyAge : string := "age".
Definition RebuildStrategyError : string := "error".
Definition RebuildStrategyAll : string := "all".
Definition RebuildStrategyAny : string := "any".

(** The dynamic types stored behind [interface{}]. *)
Inductive value :=
  | VNil
  | VStr (s : string)
  | VPlatform (s : string)
  | VProtocol (s : string)
  | VBytes (s : string)
  | VInt (z : Z)
  | VInt64 (z : Z)
  | VDur (z : Z)
  | VFloat (f : float64)
  | VBool (b : bool)
  | VStrs (l : list string)
  | VEvents (n : nat)
  | VOther (type : string).

(** [v.(string)], [v.(int)], [v.(time.Duration)], [v.(float64)], [v.(bool)]. *)
Definition as_string (v : value) : option string := match v with VStr s => Some s | _ => None end.
Definition as_int (v : value) : option Z := match v with VInt z => Some z | _ => None end.
Definition as_dur (v : value) : option Z := match v with VDur z => Some z | _ => None end.
Definition as_float (v : value) : option float64 := match v with VFloat f => Some f | _ => None end.
Definition as_bool (v : value) : option bool := match v with VBool b => Some b | _ => None end.

(** [fmt] of a type with [%T]. *)
Definition type_name (v : value) : string :=
  match v with
  | VNil => "<nil>"
  | VStr _ => "string"
  | VPlatform _ => "connection.Platform"
  | VProtocol _ => "connection.Protocol"
  | VBytes _ => "[]uint8"
  | VInt _ => "int"
  | VInt64 _ => "int64"
  | VDur _ => "time.Duration"
  | VFloat _ => "float64"
  | VBool _ => "bool"
  | VStrs _ => "[]string"
  | VEvents _ => "[]*channel.SendInteractiveEvent"
  | VOther t => t
  end.

(** ** Capabilities *)

Record ConfigModeCapability := mk_mode {
  Mode : string;
  Privilege : Z;
  EnterCommands : list string;
  ExitCommands : list string }.

Record ProtocolCapability := mk_capability {
  cap_Protocol : string;
  PlatformSupport : list string;
  CommandTypesSupport : list string;
  ConfigModes : list ConfigModeCapability;
  MaxConcurrent : Z;
  cap_Timeout : Z;
  SupportsAutoComplete : bool }.

Definition SSHCapability : ProtocolCapability :=
  mk_capability ProtocolSSH [PlatformCiscoIOSXE; PlatformHuaweiVRP] [CommandTypeCommands]
    [mk_mode "basic" 0 ["configure terminal"] ["end"]] 5 (30 * Second) false.

Definition ScrapliCapability : ProtocolCapability :=
  mk_capability ProtocolScrapli
    [PlatformCiscoIOSXE; PlatformCiscoIOSXR; PlatformCiscoNXOS; PlatformH3CComware; PlatformHuaweiVRP]
    [CommandTypeCommands; CommandTypeInteractiveEvent]
    [mk_mode "basic" 0 ["config term"] []; mk_mode "privileged" 1 ["enable"] []] 10 0 true.

Definition SupportsCommandType (pc : ProtocolCapability) (cmdType : string) : bool :=
  existsb (λ ct, String.eqb ct cmdType) (CommandTypesSupport pc).

Definition GetConfigMode (pc : ProtocolCapability) (mode : string) : option ConfigModeCapability :=
  find_first (λ m, String.eqb (Mode m) mode) (ConfigModes pc).

Lemma SupportsCommandType_spec pc ct :
  SupportsCommandType pc ct = true ↔ ct ∈ CommandTypesSupport pc.
Proof.
  unfold SupportsCommandType. rewrite existsb_elem_of. split.
  - intros (x & Hx & ->%String.eqb_eq). done.
  - intros H. exists ct. split; [done|]. apply String.eqb_refl.
Qed.
