(* ===== verification/Lines.v ===== *)
(** * Lines: the data of a monitored line ([src/syncer/types.go])

    A [Line] is one leased line with the [Router] that probes it. Platforms and
    protocols are Go string types, so they are strings here. [ComputeHash] is
    the FNV-1a fingerprint ([hash/fnv], 64 bits) by which the syncer decides
    whether a line has changed. *)
From Stdlib Require Import Ascii String.
From S2P Require Import Prelude GoStrings.
Local Open Scope Z_scope.

Record Router := mk_router {
  router_IP : string;
  Username : string;
  Password : string;
  Platform : string;
  Protocol : string }.

Record Line := mk_line {
  ID : string;
  IP : string;
  Interval : Z;
  line_Router : Router;
  Hash : Z }.

#[global] Instance Router_eq_dec : EqDecision Router.
Proof. solve_decision. Defined.
#[global] Instance Line_eq_dec : EqDecision Line.
Proof. solve_decision. Defined.

Definition set_hash (l : Line) (h : Z) : Line :=
  mk_line (ID l) (IP l) (Interval l) (line_Router l) h.

(** [var DefaultInterval time.Duration = 3 * time.Minute] *)
Definition DefaultInterval : Z := 3 * Minute.

(** [uint64] state of [fnv.New64a()]: xor the byte in, multiply by the prime. *)
Definition fnv_offset : Z := 14695981039346656037.
Definition fnv_prime : Z := 1099511628211.

Definition fnv_byte (h b : Z) : Z := uwrap64 (Z.lxor h b * fnv_prime).
Definition fnv (h : Z) (bs : list Z) : Z := foldl fnv_byte h bs.

(** The bytes [binary.Write] writes: a byte slice as it is, an [int64] as its
    eight bytes, the least significant first. *)
Definition string_bytes (s : string) : list Z :=
  (λ c, Z.of_N (N_of_ascii c)) <$> list_ascii_of_string s.

Fixpoint le_bytes (n : nat) (z : Z) : list Z :=
  match n with
  | O => []
  | S n => z mod 256 :: le_bytes n (z / 256)
  end.

Definition int64_bytes (z : Z) : list Z := le_bytes 8 (uwrap64 z).

(** The bytes that [ComputeHash] feeds to the hash, in its order. *)
Definition hash_input (l : Line) : list Z :=
  string_bytes (ID l) ++ string_bytes (IP l) ++ int64_bytes (Interval l) ++
  string_bytes (router_IP (line_Router l)) ++
  string_bytes (Username (line_Router l)) ++
  string_bytes (Password (line_Router l)) ++
  string_bytes (Platform (line_Router l)).

Definition ComputeHash (l : Line) : Line :=
  set_hash l (fnv fnv_offset (hash_input l)).

(** [Line.Hash] is the fingerprint of the other fields. *)
Definition hashed (l : Line) : Prop := ComputeHash l = l.

(** [FetchRouterDetails]: the fixed values of the code. *)
Definition FetchRouterDetails (ip : string) : outcome Router :=
  Ret (mk_router ip "admin" "password" "cisco_iosxe" "").

Definition ProxyIP : string := "1.1.1.1".
Definition LineSelectTag : string := "TempType".
Definition LineSelectValue : string := "LINE".

(** [connection.ConnectionConfig] as [ToConnectionConfig] fills it; the
    metadata values are strings. *)
Record ConnectionConfig := mk_connection_config {
  cfg_IP : string;
  cfg_Username : string;
  cfg_Password : string;
  cfg_Port : Z;
  cfg_Timeout : Z;
  cfg_Metadata : gmap string string }.

Definition ToConnectionConfig (r : Router) : ConnectionConfig :=
  mk_connection_config (router_IP r) (Username r) (Password r) 22 (30 * Second)
    (<["protocol" := Protocol r]> (<["platform" := Platform r]> ∅)).

(** ** The FNV-1a step is a bijection of the 64-bit state *)

Definition fnv_prime_inv : Z := 14886173955864302971.

Lemma fnv_prime_inv_ok : (fnv_prime * fnv_prime_inv) mod two64 = 1.
Proof. vm_compute. reflexivity. Qed.

Lemma fnv_mul_inj a b :
  0 ≤ a < two64 → 0 ≤ b < two64 →
  uwrap64 (a * fnv_prime) = uwrap64 (b * fnv_prime) → a = b.
Proof.
  intros Ha Hb H. unfold uwrap64 in H.
  assert (Hc : ∀ x, 0 ≤ x < two64 → ((x * fnv_prime) mod two64 * fnv_prime_inv) mod two64 = x).
  { intros x Hx. rewrite Z.mul_mod_idemp_l by done.
    rewrite <- Z.mul_assoc, <- Z.mul_mod_idemp_r, fnv_prime_inv_ok by done.
    rewrite Z.mul_1_r. by apply Z.mod_small. }
  rewrite <- (Hc a), <- (Hc b) by done. by rewrite H.
Qed.

Lemma lxor_range a b : 0 ≤ a < two64 → 0 ≤ b < 256 → 0 ≤ Z.lxor a b < two64.
Proof.
  intros Ha Hb. split.
  - apply Z.lxor_nonneg. lia.
  - destruct (decide (Z.lxor a b = 0)) as [->|Hn]; [done|].
    assert (0 ≤ Z.lxor a b) by (apply Z.lxor_nonneg; lia).
    change two64 with (2 ^ 64). apply Z.log2_lt_pow2; [lia|].
    pose proof (Z.log2_lxor a b ltac:(lia) ltac:(lia)) as Hl.
    assert (Hla : Z.log2 a ≤ 63).
    { destruct (decide (a = 0)) as [->|]; [done|].
      assert (Z.log2 a < 64); [|lia]. apply Z.log2_lt_pow2; [lia|]. apply Ha. }
    assert (Hlb : Z.log2 b ≤ 63).
    { destruct (decide (b = 0)) as [->|]; [done|].
      assert (Z.log2 b < 8); [|lia]. apply Z.log2_lt_pow2; [lia|]. apply Hb. }
    lia.
Qed.

Lemma fnv_byte_range h b : 0 ≤ fnv_byte h b < two64.
Proof. apply uwrap64_range. Qed.

Lemma fnv_range h bs : 0 ≤ h < two64 → 0 ≤ fnv h bs < two64.
Proof.
  unfold fnv. revert h. induction bs as [|b bs IH]; intros h Hh; simpl; [done|].
  apply IH, fnv_byte_range.
Qed.

Lemma fnv_byte_inj_state h1 h2 b :
  0 ≤ h1 < two64 → 0 ≤ h2 < two64 → 0 ≤ b < 256 →
  fnv_byte h1 b = fnv_byte h2 b → h1 = h2.
Proof.
  unfold fnv_byte. intros H1 H2 Hb H.
  apply fnv_mul_inj in H; [|by apply lxor_range..].
  apply (f_equal (λ z, Z.lxor z b)) in H.
  by rewrite !Z.lxor_assoc, Z.lxor_nilpotent, !Z.lxor_0_r in H.
Qed.

Lemma fnv_byte_inj_byte h b1 b2 :
  0 ≤ h < two64 → 0 ≤ b1 < 256 → 0 ≤ b2 < 256 →
  fnv_byte h b1 = fnv_byte h b2 → b1 = b2.
Proof.
  unfold fnv_byte. intros H H1 H2 E.
  apply fnv_mul_inj in E; [|by apply lxor_range..].
  apply (f_equal (λ z, Z.lxor h z)) in E.
  by rewrite <- !Z.lxor_assoc, Z.lxor_nilpotent, !Z.lxor_0_l in E.
Qed.

Lemma fnv_inj_state bs h1 h2 :
  Forall (λ b, 0 ≤ b < 256) bs → 0 ≤ h1 < two64 → 0 ≤ h2 < two64 →
  fnv h1 bs = fnv h2 bs → h1 = h2.
Proof.
  intros Hbs. revert h1 h2. induction Hbs as [|b bs Hb Hbs IH]; intros h1 h2 H1 H2; [done|].
  simpl. intros E. apply IH in E; [|apply fnv_byte_range..].
  by eapply fnv_byte_inj_state.
Qed.

Lemma fnv_one_byte h u b1 b2 v :
  0 ≤ h < two64 → 0 ≤ b1 < 256 → 0 ≤ b2 < 256 → Forall (λ b, 0 ≤ b < 256) v →
  b1 ≠ b2 → fnv h (u ++ b1 :: v) ≠ fnv h (u ++ b2 :: v).
Proof.
  intros Hh H1 H2 Hv Hne E. unfold fnv in E. rewrite !foldl_app in E. simpl in E.
  apply fnv_inj_state in E; [|done|apply fnv_byte_range..].
  apply Hne. eapply fnv_byte_inj_byte; [|exact H1|exact H2|exact E].
  by apply (fnv_range h u).
Qed.

Lemma string_bytes_range s : Forall (λ b, 0 ≤ b < 256) (string_bytes s).
Proof.
  unfold string_bytes. apply Forall_fmap, Forall_true. intros c. simpl.
  pose proof (N_ascii_bounded c). lia.
Qed.

Lemma string_bytes_app s t : string_bytes (s +:+ t) = string_bytes s ++ string_bytes t.
Proof.
  unfold string_bytes. induction s as [|c s IH]; [done|].
  rewrite string_cons_app. cbn [list_ascii_of_string]. by rewrite !fmap_cons, IH.
Qed.

Lemma le_bytes_range n z : Forall (λ b, 0 ≤ b < 256) (le_bytes n z).
Proof.
  revert z. induction n as [|n IH]; intros z; simpl; constructor; [|apply IH].
  by apply Z.mod_pos_bound.
Qed.

(** The eight bytes determine the number: [int64_bytes] is the little-endian encoding. *)
Fixpoint le_value (bs : list Z) : Z :=
  match bs with [] => 0 | b :: bs => b + 256 * le_value bs end.

Lemma le_value_bytes n z : 0 ≤ z < 256 ^ Z.of_nat n → le_value (le_bytes n z) = z.
Proof.
  revert z. induction n as [|n IH]; intros z Hz; simpl.
  - change (256 ^ Z.of_nat 0) with 1 in Hz. lia.
  - rewrite Nat2Z.inj_succ, Z.pow_succ_r in Hz by lia.
    rewrite IH.
    + pose proof (Z.div_mod z 256). lia.
    + split; [apply Z.div_pos; lia|]. apply Z.div_lt_upper_bound; lia.
Qed.

Lemma int64_bytes_value z : in_int64 z → wrap64 (le_value (int64_bytes z)) = z.
Proof.
  intros Hz. unfold int64_bytes. rewrite le_value_bytes by apply uwrap64_range.
  rewrite <- (wrap64_id z) at 2 by done. unfold wrap64, uwrap64.
  by rewrite Zplus_mod_idemp_l.
Qed.

Lemma hash_ComputeHash l : Hash (ComputeHash l) = fnv fnv_offset (hash_input l).
Proof. done. Qed.

Lemma ComputeHash_hashed l : hashed (ComputeHash l).
Proof. done. Qed.

#[export] Hint Resolve ComputeHash_hashed string_bytes_range le_bytes_range : ddl.

(** Two lines that differ in one byte of one hashed field, and in nothing else,
    have different fingerprints: the syncer cannot miss such a change. *)
Definition one_byte_apart (a b : list Z) : Prop :=
  ∃ u x y v, a = u ++ x :: v ∧ b = u ++ y :: v ∧ x ≠ y.

Lemma hash_input_bytes l : Forall (λ b, 0 ≤ b < 256) (hash_input l).
Proof. unfold hash_input, int64_bytes. rewrite !Forall_app. eauto 10 with ddl. Qed.

(** A change of one byte of a hashed field always changes the fingerprint. *)
Theorem one_byte_change_detected l1 l2 :
  one_byte_apart (hash_input l1) (hash_input l2) →
  Hash (ComputeHash l1) ≠ Hash (ComputeHash l2).
Proof.
  intros (u & x & y & v & E1 & E2 & Hne). rewrite !hash_ComputeHash, E1, E2.
  pose proof (hash_input_bytes l1) as H1. pose proof (hash_input_bytes l2) as H2.
  rewrite E1, Forall_app, Forall_cons in H1. rewrite E2, Forall_app, Forall_cons in H2.
  apply fnv_one_byte; [done|tauto..|done].
Qed.

Definition set_router (l : Line) (r : Router) : Line :=
  mk_line (ID l) (IP l) (Interval l) r (Hash l).
Definition with_protocol (r : Router) (p : string) : Router :=
  mk_router (router_IP r) (Username r) (Password r) (Platform r) p.
Definition with_credentials (r : Router) (u p : string) : Router :=
  mk_router (router_IP r) u p (Platform r) (Protocol r).

(** The protocol is not hashed. *)
Lemma hash_ignores_protocol l p :
  Hash (ComputeHash (set_router l (with_protocol (line_Router l) p))) = Hash (ComputeHash l).
Proof. done. Qed.

(** Nor is the border between neighbouring fields: moving bytes from the end of
    the user name to the front of the password keeps the fingerprint. *)
Lemma hash_ignores_field_borders l u m p :
  Hash (ComputeHash (set_router l (with_credentials (line_Router l) (u +:+ m) p))) =
  Hash (ComputeHash (set_router l (with_credentials (line_Router l) u (m +:+ p)))).
Proof.
  rewrite !hash_ComputeHash. unfold hash_input. simpl.
  rewrite !string_bytes_app. by rewrite <- !app_assoc.
Qed.
