(* ===== verification/Config.v ===== *)
(** * Config: connection configuration ([src/connection/config_enhanced.go])

    The builder works on one configuration that it owns, so each [With*] method
    is a function on the configuration; [NewConfigBuilder] holds the defaults.
    [Validate] is the sequence of checks with their messages. *)
From S2P Require Import Prelude GoStrings GoFloat Types Lines.
Local Open Scope string_scope.
Local Open Scope Z_scope.

Record SSHConfig := mk_ssh_config {
  AuthMethod : string;
  PrivateKeyPath : string;
  CompressionLevel : Z;
  Ciphers : list string }.

Record ScrapliConfig := mk_scrapli_config {
  TransportType : string;
  CommsReadDelay : Z;
  TimeoutOpsDefault : Z }.

Record SecurityConfig := mk_security_config {
  TLSEnabled : bool;
  TLSVersion : string }.

Record EnhancedConnectionConfig := mk_config {
  Host : string;
  Port : Z;
  c_Username : string;
  c_Password : string;
  c_Protocol : string;
  c_Platform : string;
  ConnectTimeout : Z;
  ReadTimeout : Z;
  WriteTimeout : Z;
  TaskTimeout : Z;
  ConnectionMaxRetries : Z;
  ConnectionRetryInterval : Z;
  ConnectionBackoffFactor : float64;
  TaskMaxRetries : Z;
  TaskRetryInterval : Z;
  TaskBackoffFactor : float64;
  MaxConnections : Z;
  MinConnections : Z;
  MaxIdleTime : Z;
  HealthCheckTime : Z;
  HealthCheckTimeout : Z;
  c_SSHConfig : option SSHConfig;
  c_ScrapliConfig : option ScrapliConfig;
  c_SecurityConfig : option SecurityConfig;
  Extensions : gmap string value;
  Labels : gmap string string;
  Metadata : gmap string value;
  SmartRebuildEnabled : bool;
  RebuildMaxUsageCount : Z;
  RebuildMaxAge : Z;
  RebuildMaxErrorRate : float64;
  RebuildMinInterval : Z;
  RebuildMinRequestsForErrorRate : Z;
  RebuildStrategy : string;
  HealthCheckTriggerRebuild : bool;
  UnhealthyFailureThreshold : Z;
  DegradedFailureThreshold : Z;
  DegradedLatencyThreshold : Z;
  UnhealthyThreshold : Z;
  DegradedThreshold : Z;
  RebuildOnDegraded : bool;
  RebuildCheckInterval : Z;
  RebuildBatchSize : Z;
  RebuildConcurrency : Z;
  StuckTimeoutClosing : Z;
  StuckTimeoutConnecting : Z;
  StuckTimeoutAcquired : Z;
  StuckTimeoutExecuting : Z;
  StuckTimeoutChecking : Z;
  StuckTimeoutRebuildIdle : Z }.

(** [NewConfigBuilder]: the defaults. *)
Definition NewConfigBuilder : EnhancedConnectionConfig := {|
  Host := ""; Port := 22; c_Username := ""; c_Password := ""; c_Protocol := ""; c_Platform := "";
  ConnectTimeout := 30 * Second; ReadTimeout := 30 * Second; WriteTimeout := 10 * Second;
  TaskTimeout := 60 * Second;
  ConnectionMaxRetries := 2; ConnectionRetryInterval := 2 * Second;
  ConnectionBackoffFactor := ratio 3 2;
  TaskMaxRetries := 1; TaskRetryInterval := 500 * Millisecond; TaskBackoffFactor := ratio 3 2;
  MaxConnections := 5; MinConnections := 2; MaxIdleTime := 2 * Minute;
  HealthCheckTime := 30 * Second; HealthCheckTimeout := 5 * Second;
  c_SSHConfig := None; c_ScrapliConfig := None; c_SecurityConfig := None;
  Extensions := ∅; Labels := ∅; Metadata := ∅;
  SmartRebuildEnabled := true; RebuildMaxUsageCount := 200; RebuildMaxAge := 30 * Minute;
  RebuildMaxErrorRate := ratio 1 5; RebuildMinInterval := 5 * Minute;
  RebuildMinRequestsForErrorRate := 10; RebuildStrategy := "any";
  HealthCheckTriggerRebuild := true; UnhealthyFailureThreshold := 3; DegradedFailureThreshold := 1;
  DegradedLatencyThreshold := 10 * Second; UnhealthyThreshold := 3; DegradedThreshold := 10 * Second;
  RebuildOnDegraded := false;
  RebuildCheckInterval := 5 * Minute; RebuildBatchSize := 2; RebuildConcurrency := 2;
  StuckTimeoutClosing := 0; StuckTimeoutConnecting := 0; StuckTimeoutAcquired := 0;
  StuckTimeoutExecuting := 0; StuckTimeoutChecking := 0; StuckTimeoutRebuildIdle := 0 |}.

Definition WithBasicAuth (host username password : string) (b : EnhancedConnectionConfig) :=
  { b with Host := host; c_Username := username; c_Password := password }.

Definition WithProtocol (protocol platform : string) (b : EnhancedConnectionConfig) :=
  { b with c_Protocol := protocol; c_Platform := platform }.

Definition keep_if_positive (new old : Z) : Z := if 0 <? new then new else old.

Definition WithTimeouts (connect read write task : Z) (b : EnhancedConnectionConfig) :=
  { b with ConnectTimeout ::= keep_if_positive connect; ReadTimeout ::= keep_if_positive read;
           WriteTimeout ::= keep_if_positive write; TaskTimeout ::= keep_if_positive task }.

Definition WithConnectionRetryPolicy (maxRetries interval : Z) (backoff : float64) (b : EnhancedConnectionConfig) :=
  { b with ConnectionMaxRetries := maxRetries; ConnectionRetryInterval := interval;
           ConnectionBackoffFactor := backoff }.

Definition WithTaskRetryPolicy (maxRetries interval : Z) (backoff : float64) (b : EnhancedConnectionConfig) :=
  { b with TaskMaxRetries := maxRetries; TaskRetryInterval := interval; TaskBackoffFactor := backoff }.

Definition WithConnectionPool (max min maxIdle healthCheck : Z) (b : EnhancedConnectionConfig) :=
  { b with MaxConnections := max; MinConnections := min; MaxIdleTime := maxIdle;
           HealthCheckTime := healthCheck }.

Definition WithHealthCheckTimeout (timeout : Z) (b : EnhancedConnectionConfig) :=
  { b with HealthCheckTimeout := timeout }.

Definition WithSmartRebuild (enabled : bool) (maxUsage maxAge : Z) (maxErrorRate : float64)
    (minRequests : Z) (b : EnhancedConnectionConfig) :=
  { b with SmartRebuildEnabled := enabled;
           RebuildMaxUsageCount ::= keep_if_positive maxUsage;
           RebuildMaxAge ::= keep_if_positive maxAge;
           RebuildMaxErrorRate ::= (λ old, if flt (of_int 0) maxErrorRate then maxErrorRate else old);
           RebuildMinRequestsForErrorRate ::= keep_if_positive minRequests }.

Definition WithSSHConfig (c : option SSHConfig) (b : EnhancedConnectionConfig) := { b with c_SSHConfig := c }.
Definition WithScrapliConfig (c : option ScrapliConfig) (b : EnhancedConnectionConfig) :=
  { b with c_ScrapliConfig := c }.
Definition WithSecurity (c : option SecurityConfig) (b : EnhancedConnectionConfig) :=
  { b with c_SecurityConfig := c }.
Definition WithLabels (labels : gmap string string) (b : EnhancedConnectionConfig) :=
  { b with Labels ::= (λ l, labels ∪ l) }.
Definition WithMetadata (key : string) (v : value) (b : EnhancedConnectionConfig) :=
  { b with Metadata ::= <[key := v]> }.

(** A sequence of checks: the first that fails gives the error. *)
Fixpoint checks (l : list (bool * string)) : option string :=
  match l with
  | [] => None
  | (bad, e) :: l => if bad then Some e else checks l
  end.

Definition one_of (l : list string) (s : string) : bool := existsb (String.eqb s) l.

Definition SSHConfig_Validate (s : SSHConfig) : option string :=
  checks [
    (negb (String.eqb (AuthMethod s) "") &&
       negb (one_of ["password"; "publickey"; "keyboard-interactive"] (AuthMethod s)),
     "invalid auth method: " +:+ AuthMethod s);
    ((CompressionLevel s <? 0) || (9 <? CompressionLevel s),
     "compression level must be between 0 and 9") ].

Definition ScrapliConfig_Validate (s : ScrapliConfig) : option string :=
  checks [
    (negb (String.eqb (TransportType s) "") &&
       negb (one_of ["system"; "ssh2"; "paramiko"] (TransportType s)),
     "invalid transport type: " +:+ TransportType s);
    (CommsReadDelay s <? 0, "comms read delay cannot be negative");
    (TimeoutOpsDefault s <=? 0, "timeout ops default must be positive") ].

Definition rebuild_checks (c : EnhancedConnectionConfig) : list (bool * string) :=
  if SmartRebuildEnabled c then [
    (RebuildMaxUsageCount c <=? 0, "rebuild max usage count must be positive when smart rebuild is enabled");
    (RebuildMaxAge c <=? 0, "rebuild max age must be positive when smart rebuild is enabled");
    (flt (RebuildMaxErrorRate c) (of_int 0) || flt (of_int 1) (RebuildMaxErrorRate c),
     "rebuild max error rate must be between 0 and 1.0");
    (RebuildMinInterval c <=? 0, "rebuild min interval must be positive");
    (RebuildMinRequestsForErrorRate c <? 0, "rebuild min requests for error rate cannot be negative");
    (negb (one_of ["any"; "all"; "usage"; "age"; "error"] (RebuildStrategy c)),
     "invalid rebuild strategy: " +:+ RebuildStrategy c) ]
  else [].

Definition health_checks (c : EnhancedConnectionConfig) : list (bool * string) :=
  if HealthCheckTriggerRebuild c then [
    (UnhealthyFailureThreshold c <=? 0,
     "unhealthy failure threshold must be positive when health check trigger rebuild is enabled");
    (DegradedFailureThreshold c <? 0,
     "degraded failure threshold must be non-negative when health check trigger rebuild is enabled");
    ((UnhealthyThreshold c <=? 0) && (UnhealthyFailureThreshold c <=? 0),
     "either unhealthy_threshold or unhealthy_failure_threshold must be positive");
    ((DegradedLatencyThreshold c <=? 0) && (DegradedThreshold c <=? 0),
     "either degraded_threshold or degraded_latency_threshold must be positive") ]
  else [].

Definition protocol_check (c : EnhancedConnectionConfig) : option string :=
  if String.eqb (c_Protocol c) ProtocolSSH then
    match c_SSHConfig c with
    | Some s => (λ e, "SSH config validation failed: " +:+ e) <$> SSHConfig_Validate s
    | None => None
    end
  else if String.eqb (c_Protocol c) ProtocolScrapli then
    match c_ScrapliConfig c with
    | Some s => (λ e, "Scrapli config validation failed: " +:+ e) <$> ScrapliConfig_Validate s
    | None => None
    end
  else None.

(** [EnhancedConnectionConfig.Validate]; [None] is a nil error. *)
Definition Validate (c : EnhancedConnectionConfig) : option string :=
  match checks (
    [ (String.eqb (Host c) "", "host is required");
      (String.eqb (c_Username c) "", "username is required");
      (String.eqb (c_Password c) "", "password is required");
      (String.eqb (c_Protocol c) "", "protocol is required");
      (String.eqb (c_Platform c) "", "platform is required");
      ((Port c <=? 0) || (65535 <? Port c), "port must be between 1 and 65535");
      (ConnectTimeout c <=? 0, "connect timeout must be positive");
      (MaxConnections c <=? 0, "max connections must be positive");
      (MinConnections c <? 0, "min connections cannot be negative");
      (MaxConnections c <? MinConnections c, "min connections cannot exceed max connections");
      (ConnectionMaxRetries c <? 0, "connection max retries cannot be negative");
      (flt (ConnectionBackoffFactor c) (of_int 1), "connection backoff factor must be >= 1.0");
      (TaskMaxRetries c <? 0, "task max retries cannot be negative");
      (flt (TaskBackoffFactor c) (of_int 1), "task backoff factor must be >= 1.0") ] ++
    rebuild_checks c ++ health_checks c ++
    [ (RebuildCheckInterval c <=? 0, "rebuild check interval must be positive");
      (RebuildBatchSize c <=? 0, "rebuild batch size must be positive");
      (RebuildConcurrency c <=? 0, "rebuild concurrency must be positive") ]) with
  | Some e => Some e
  | None => protocol_check c
  end.

Definition Build (b : EnhancedConnectionConfig) : outcome EnhancedConnectionConfig :=
  match Validate b with
  | Some e => Fail e
  | None => Ret b
  end.

(** [Clone]: the copy shares no map with the original; as values they agree. *)
Definition Clone (c : EnhancedConnectionConfig) : EnhancedConnectionConfig :=
  { c with Extensions := map_fold (λ k v m, <[k := v]> m) ∅ (Extensions c);
           Labels := map_fold (λ k v m, <[k := v]> m) ∅ (Labels c);
           Metadata := map_fold (λ k v m, <[k := v]> m) ∅ (Metadata c) }.

(** [ToLegacyConfig]; the metadata of the configuration overwrites the protocol
    and platform entries. *)
Definition ToLegacyConfig (c : EnhancedConnectionConfig) : string * string * string * Z * Z * gmap string value :=
  (Host c, c_Username c, c_Password c, Port c, ConnectTimeout c,
   Metadata c ∪ {[ "platform" := VStr (c_Platform c) ]} ∪ {[ "protocol" := VStr (c_Protocol c) ]}).

Definition GetConnectionString (c : EnhancedConnectionConfig) : string :=
  c_Protocol c +:+ "://" +:+ c_Username c +:+ "@" +:+ Host c +:+ ":" +:+ itoa (Port c).

Definition IsSecure (c : EnhancedConnectionConfig) : bool :=
  match c_SecurityConfig c with
  | Some s => TLSEnabled s || String.eqb (c_Protocol c) ProtocolSSH
  | None => String.eqb (c_Protocol c) ProtocolSSH
  end.

Definition GetEffectiveTimeout (c : EnhancedConnectionConfig) (timeoutType : string) : Z :=
  if String.eqb timeoutType "connect" then ConnectTimeout c
  else if String.eqb timeoutType "read" then ReadTimeout c
  else if String.eqb timeoutType "write" then WriteTimeout c
  else 0.

(** ** What validation guarantees *)

Lemma checks_None l : checks l = None ↔ Forall (λ c, c.1 = false) l.
Proof.
  induction l as [|[b e] l IH]; simpl; [split; [constructor|done]|].
  rewrite Forall_cons. simpl. destruct b; [naive_solver|]. rewrite IH. naive_solver.
Qed.

Lemma one_of_spec l s : one_of l s = true ↔ s ∈ l.
Proof.
  unfold one_of. rewrite existsb_elem_of. split.
  - intros (x & Hx & ->%String.eqb_eq). done.
  - intros H. exists s. split; [done|]. apply String.eqb_refl.
Qed.

(** A configuration that the pool can work with. *)
Record config_ok (c : EnhancedConnectionConfig) : Prop := {
  ok_host : Host c ≠ "";
  ok_user : c_Username c ≠ "";
  ok_password : c_Password c ≠ "";
  ok_protocol : c_Protocol c ≠ "";
  ok_platform : c_Platform c ≠ "";
  ok_port : 1 ≤ Port c ≤ 65535;
  ok_timeout : 0 < ConnectTimeout c;
  ok_pool : 0 ≤ MinConnections c ≤ MaxConnections c ∧ 0 < MaxConnections c;
  ok_conn_retry : 0 ≤ ConnectionMaxRetries c ∧ flt (ConnectionBackoffFactor c) (of_int 1) = false;
  ok_task_retry : 0 ≤ TaskMaxRetries c ∧ flt (TaskBackoffFactor c) (of_int 1) = false;
  ok_rebuild : SmartRebuildEnabled c = true →
    0 < RebuildMaxUsageCount c ∧ 0 < RebuildMaxAge c ∧
    flt (RebuildMaxErrorRate c) (of_int 0) = false ∧ flt (of_int 1) (RebuildMaxErrorRate c) = false ∧
    0 < RebuildMinInterval c ∧ 0 ≤ RebuildMinRequestsForErrorRate c ∧
    RebuildStrategy c ∈ ["any"; "all"; "usage"; "age"; "error"];
  ok_health : HealthCheckTriggerRebuild c = true →
    0 < UnhealthyFailureThreshold c ∧ 0 ≤ DegradedFailureThreshold c ∧
    (0 < DegradedLatencyThreshold c ∨ 0 < DegradedThreshold c);
  ok_exec : 0 < RebuildCheckInterval c ∧ 0 < RebuildBatchSize c ∧ 0 < RebuildConcurrency c;
  ok_specific : protocol_check c = None }.

Ltac split_checks :=
  repeat match goal with
  | H : Forall _ (_ ++ _) |- _ => apply Forall_app in H as [? ?]
  | H : Forall _ (_ :: _) |- _ => apply Forall_cons in H as [? ?]
  | H : Forall _ [] |- _ => clear H
  end; cbn [fst snd] in *; btrue.

Lemma eqb_false_neq s t : String.eqb s t = false → s ≠ t.
Proof. by apply String.eqb_neq. Qed.
#[export] Hint Resolve eqb_false_neq : ddl.

Lemma Validate_ok c : Validate c = None → config_ok c.
Proof.
  unfold Validate. destruct (checks _) eqn:E; [done|]. intros Hp. apply checks_None in E.
  unfold rebuild_checks, health_checks in E.
  constructor; try (split_checks; by auto with ddl); try (split_checks; lia).
  - intros Hs. rewrite Hs in E. split_checks. rewrite <- one_of_spec. split_and!; done || lia.
  - intros Hh. rewrite Hh in E. split_checks.
    match goal with H : _ && (DegradedThreshold c <=? 0) = false |- _ =>
      apply andb_false_iff in H as [H|H] end; btrue; split_and!; lia.
Qed.

Lemma Validate_complete c : config_ok c → Validate c = None.
Proof.
  intros [? ? ? ? ? ? ? ? ? ? Hr Hh ? Hp]. unfold Validate.
  assert (checks (_ : list (bool * string)) = None) as ->; [|done].
  apply checks_None. rewrite !Forall_app. unfold rebuild_checks, health_checks. split_and!.
  - repeat constructor; cbn [fst]; try (by apply String.eqb_neq); try tauto;
      try (apply orb_false_iff; split); lia.
  - destruct (SmartRebuildEnabled c); [|constructor].
    destruct Hr as (? & ? & E1 & E2 & ? & ? & Hs%one_of_spec); [done|].
    repeat constructor; cbn [fst]; rewrite ?E1, ?E2, ?Hs; try done; lia.
  - destruct (HealthCheckTriggerRebuild c); [|constructor].
    destruct Hh as (? & ? & ?); [done|].
    repeat constructor; cbn [fst]; try apply andb_false_iff; lia.
  - repeat constructor; cbn [fst]; lia.
Qed.


(** A clone equals the original, field by field. *)
Lemma map_copy {V} (m : gmap string V) : map_fold (λ k v m, <[k := v]> m) ∅ m = m.
Proof.
  apply (map_fold_weak_ind (λ r m, r = m)); [done|]. intros k v m1 r _ ->. done.
Qed.

Lemma Clone_eq c : Clone c = c.
Proof. unfold Clone, tset, set. simpl. rewrite !map_copy. by destruct c. Qed.

(** The configuration the router scheduler builds ([router_scheduler.go]). *)
Definition scheduler_config (r : Router) : outcome EnhancedConnectionConfig :=
  Build
    (WithTaskRetryPolicy 0 (500 * Millisecond) (of_int 2)
    (WithConnectionRetryPolicy 1 (1 * Second) (of_int 2)
    (WithConnectionPool 2 1 (5 * Minute + 10 * Second) (3 * Minute + 30 * Second)
    (WithSmartRebuild true 1500 (30 * Minute) (ratio 1 5) 10
    (WithMetadata "protocol" (VProtocol (Lines.Protocol r))
    (WithMetadata "platform" (VPlatform (Lines.Platform r))
    (WithProtocol (Lines.Protocol r) (Lines.Platform r)
    (WithBasicAuth (router_IP r) (Lines.Username r) (Lines.Password r)
     NewConfigBuilder)))))))).

Definition router_named (r : Router) : bool :=
  negb (String.eqb (router_IP r) "") && negb (String.eqb (Lines.Username r) "") &&
  negb (String.eqb (Lines.Password r) "") && negb (String.eqb (Lines.Protocol r) "") &&
  negb (String.eqb (Lines.Platform r) "").

(** The scheduler's configuration is accepted exactly for a router whose five
    fields are all set; its pool then holds between one and two connections, and its
    metadata has the platform. *)
Lemma scheduler_config_spec r :
  if router_named r
  then ∃ c, scheduler_config r = Ret c ∧ MaxConnections c = 2 ∧ MinConnections c = 1 ∧ TaskMaxRetries c = 0 ∧
    (Host c, c_Username c, c_Password c) = (router_IP r, Lines.Username r, Lines.Password r) ∧
    Metadata c !! "platform" = Some (VPlatform (Lines.Platform r))
  else is_ret (scheduler_config r) = false.
Proof.
  unfold router_named, scheduler_config, Build, Validate.
  destruct r as [ip u p pl pr]. cbn -[String.eqb].
  destruct (String.eqb ip ""); [done|]. destruct (String.eqb u ""); [done|].
  destruct (String.eqb p ""); [done|]. destruct (String.eqb pr "") eqn:Epr; [done|].
  destruct (String.eqb pl ""); [done|]. cbn -[String.eqb].
  assert (Hpc : ∀ c, c_SSHConfig c = None → c_ScrapliConfig c = None → protocol_check c = None).
  { intros c E1 E2. unfold protocol_check. rewrite E1, E2. by repeat case_match. }
  rewrite Hpc by done. eexists. split; [done|]. done.
Qed.
