(* ===== verification/ConfigSync.v ===== *)
(** * ConfigSync: the configuration syncer ([src/syncer/syncer.go])

    [Zabbix] is the part that reads the lines from the Zabbix API: the template
    chain of a host, the priority of macros and [fetchLines]. [Changes] is the
    difference of two configurations and [sync]. The API client is an
    interface of the code ([type Client interface]), here the class [Client].
    Go's [sort.Slice] and the order in which a map is ranged over are
    parameters with what the language promises of them as hypotheses. *)
From S2P Require Import Prelude GoStrings Lines.
Local Open Scope Z_scope.

(** ** The objects of the API, with the fields the syncer reads *)

Record UsermacroObject := mk_macro { Macro : string; Value : string }.

Record TemplateObject := mk_template {
  TemplateID : string;
  Macros : list UsermacroObject;
  ParentTemplates : list string }.

Record HostObject := mk_host {
  Host : string;
  host_Macros : list UsermacroObject;
  host_ParentTemplates : list string }.

(** The parameters of [host.get], as [fetchLines] builds them. *)
Record HostGetParams := mk_host_get {
  ProxyIDs : list Z;
  InheritedTags : bool;
  Tags : list (string * string);
  Filter : list (string * string);
  Select : string }.

(** [type Client interface] ([src/syncer/types.go]). *)
Class Client := {
  GetProxyFormHost : string → outcome (list string);
  HostGet : HostGetParams → outcome (list HostObject);
  UsermacroGet : bool → outcome (list UsermacroObject);
  TemplateGet : string → outcome (list TemplateObject) }.

Inductive ChangeType := LineCreate | LineUpdate | LineDelete.

#[global] Instance ChangeType_eq_dec : EqDecision ChangeType.
Proof. solve_decision. Defined.

Record LineChangeEvent := mk_event {
  Type_ : ChangeType;
  ev_Line : Line;
  ev_Version : Z }.

#[global] Instance LineChangeEvent_eq_dec : EqDecision LineChangeEvent.
Proof. solve_decision. Defined.

Record TemplateNode := mk_node {
  node_ID : string;
  Depth : Z;
  node_Macros : gmap string string;
  ParentIDs : list string }.

(** The fields of [ConfigSyncer] that synchronisation reads and writes. *)
Record ConfigSyncer := mk_syncer {
  proxyName : string;
  proxyID : Z;
  lines : gmap string Line;
  version : Z;
  syncInterval : Z;
  stopped : bool }.

(** [NewConfigSyncer] *)
Definition NewConfigSyncer (interval : Z) (name : string) : ConfigSyncer :=
  mk_syncer name 0 ∅ 0 interval false.

Definition set_proxyID (cs : ConfigSyncer) (id : Z) : ConfigSyncer :=
  mk_syncer (proxyName cs) id (lines cs) (version cs) (syncInterval cs) (stopped cs).
Definition set_lines (cs : ConfigSyncer) (m : gmap string Line) (v : Z) : ConfigSyncer :=
  mk_syncer (proxyName cs) (proxyID cs) m v (syncInterval cs) (stopped cs).

(** [parseDurationFromMacro]: seconds, as a 64-bit count of nanoseconds. *)
Definition parseDurationFromMacro (value : string) (defaultVal : Z) : Z :=
  if String.eqb value "" then defaultVal
  else match atoi value with
       | None => defaultVal
       | Some sec => if sec <? 0 then defaultVal else wrap64 (sec * Second)
       end.

(** A map built by assigning the entries of a slice in order. *)
Definition write_macros (m : gmap string string) (ms : list UsermacroObject) : gmap string string :=
  foldl (λ m u, <[Macro u := Value u]> m) m ms.

(** ** Reading the lines *)
Module Zabbix.

Section api.
Context `{Client}.

Definition handleProxyId (cs : ConfigSyncer) : ConfigSyncer * outcome unit :=
  match GetProxyFormHost (proxyName cs) with
  | Panic w => (cs, Panic w)
  | Fail e => (cs, Fail ("proxy query failed: " +:+ e))
  | Ret [] => (cs, Fail "proxy not found")
  | Ret (pid :: _) =>
      match atoi pid with
      | None => (cs, Fail "invalid proxyID")
      | Some id => (set_proxyID cs id, Ret tt)
      end
  end.

(** The state the recursive closure [build] shares: [processed] and [chain]. *)
Record walk := mk_walk { processed : gset string; chain : list TemplateNode }.

(** A loop whose body may fail; [None] stands for fuel that ran out. *)
Fixpoint each {A S} (f : A → S → option (outcome S)) (l : list A) (s : S)
    : option (outcome S) :=
  match l with
  | [] => Some (Ret s)
  | x :: l' =>
      match f x s with
      | Some (Ret s') => each f l' s'
      | r => r
      end
  end.

Definition template_node (t : TemplateObject) (depth : Z) : TemplateNode :=
  mk_node (TemplateID t) depth (write_macros ∅ (Macros t)) (ParentTemplates t).

(** The closure [build] of [buildTemplateChain]. *)
Fixpoint build (fuel : nat) (depth : Z) (templateID : string) (w : walk)
    : option (outcome walk) :=
  match fuel with
  | O => None
  | S fuel =>
      if bool_decide (templateID ∈ processed w) then Some (Ret w)
      else
        let p := {[templateID]} ∪ processed w in
        match TemplateGet templateID with
        | Panic e => Some (Panic e)
        | Fail e => Some (Fail ("failed to get template " +:+ templateID +:+ ": " +:+ e))
        | Ret [] => Some (Fail ("template " +:+ templateID +:+ " not found"))
        | Ret (t :: _) =>
            let node := template_node t depth in
            each (build fuel (depth + 1)) (ParentIDs node) (mk_walk p (chain w ++ [node]))
        end
  end.

Definition buildTemplateChain (fuel : nat) (host : HostObject)
    : option (outcome (list TemplateNode)) :=
  match each (build fuel 1) (host_ParentTemplates host) (mk_walk ∅ []) with
  | None => None
  | Some (Ret w) => Some (Ret (chain w))
  | Some (Fail e) => Some (Fail e)
  | Some (Panic e) => Some (Panic e)
  end.

Section sorting.
Context `{SortSlice TemplateNode}.

(** [mergeMacros]: the log line reads [chain[0].Depth], which panics on an
    empty chain. *)
Definition mergeMacros (globalMacros : list UsermacroObject) (nodes : list TemplateNode)
    (hostMacros : list UsermacroObject) : outcome (gmap string string) :=
  let finalMacros := write_macros ∅ globalMacros in
  let nodes := sort_slice (λ a b, Depth b <? Depth a) nodes in
  let finalMacros := foldl (λ m n, node_Macros n ∪ m) finalMacros nodes in
  match nodes with
  | [] => Panic "index out of range [0] with length 0"
  | _ :: _ => Ret (write_macros finalMacros hostMacros)
  end.

Definition macro (m : gmap string string) (k : string) : string := default "" (m !! k).

(** Step 3.3 of [fetchLines]: the line of a host. *)
Definition line_of (host : HostObject) (m : gmap string string) : Line :=
  ComputeHash (mk_line (macro m "{$LINE_ID}") (Host host)
    (parseDurationFromMacro (macro m "{$LINE_CHECK_INTERVAL}") DefaultInterval)
    (mk_router (macro m "{$LINE_ROUTER_IP}") (macro m "{$LINE_ROUTER_USERNAME}")
       (macro m "{$LINE_ROUTER_PASSWORD}") (macro m "{$LINE_ROUTER_PLATFORM}")
       (macro m "{$LINE_ROUTER_PROTOCOL}")) 0).

Definition host_params (cs : ConfigSyncer) : HostGetParams :=
  mk_host_get [proxyID cs] true [(LineSelectTag, LineSelectValue)] [("status", "0")] "extend".

(** The body of the loop over the hosts. *)
Definition fetch_host (fuel : nat) (globals : list UsermacroObject) (host : HostObject)
    (ls : gmap string Line) : option (outcome (gmap string Line)) :=
  match buildTemplateChain fuel host with
  | None => None
  | Some (Fail _) => Some (Ret ls)
  | Some (Panic e) => Some (Panic e)
  | Some (Ret nodes) =>
      match mergeMacros globals nodes (host_Macros host) with
      | Ret m => Some (Ret (<[IP (line_of host m) := line_of host m]> ls))
      | Fail e => Some (Fail e)
      | Panic e => Some (Panic e)
      end
  end.

(** [fetchLines]; the syncer comes back because it may have learnt its proxy id. *)
Definition fetchLines (fuel : nat) (cs : ConfigSyncer)
    : ConfigSyncer * option (outcome (gmap string Line)) :=
  let '(cs, r) := if proxyID cs =? 0 then handleProxyId cs else (cs, Ret tt) in
  match r with
  | Fail e => (cs, Some (Fail e))
  | Panic e => (cs, Some (Panic e))
  | Ret _ =>
      match UsermacroGet true with
      | Fail e => (cs, Some (Fail ("failed to fetch global macros: " +:+ e)))
      | Panic e => (cs, Some (Panic e))
      | Ret globals =>
          match HostGet (host_params cs) with
          | Fail e => (cs, Some (Fail e))
          | Panic e => (cs, Some (Panic e))
          | Ret hosts => (cs, each (fetch_host fuel globals) hosts ∅)
          end
      end
  end.
End sorting.
End api.
End Zabbix.

(** ** Comparing configurations *)
Module Changes.

Definition countEvents (events : list LineChangeEvent) (typ : ChangeType) : nat :=
  count (λ e, bool_decide (Type_ e = typ)) events.

(** First loop of [detectChanges]: deletions and updates. *)
Definition old_change (newLines : gmap string Line) (kv : string * Line) : list LineChangeEvent :=
  match newLines !! kv.1 with
  | None => [mk_event LineDelete kv.2 0]
  | Some newLine =>
      if negb (Hash kv.2 =? Hash newLine) then [mk_event LineUpdate newLine 0] else []
  end.

(** Second loop: creations. *)
Definition new_change (oldLines : gmap string Line) (kv : string * Line) : list LineChangeEvent :=
  match oldLines !! kv.1 with
  | None => [mk_event LineCreate kv.2 0]
  | Some _ => []
  end.

Section ordered.
(** The orders in which one call ranges over the old and over the new map. *)
Context (range_old range_new : gmap string Line → list (string * Line)).

Definition detectChanges (cs : ConfigSyncer) (newLines : gmap string Line) : list LineChangeEvent :=
  (range_old (lines cs) ≫= old_change newLines) ++
  (range_new newLines ≫= new_change (lines cs)).

(** [sync] after [fetchLines]: the events to announce, stamped with the new version. *)
Definition commit (cs : ConfigSyncer) (newLines : gmap string Line)
    : ConfigSyncer * list LineChangeEvent :=
  let events := detectChanges cs newLines in
  let events :=
    if bool_decide (size (lines cs) = 0%nat)
    then List.filter (λ e, negb (bool_decide (Type_ e = LineCreate))) events else events in
  let v := wrap64 (version cs + 1) in
  (set_lines cs newLines v, (λ e, mk_event (Type_ e) (ev_Line e) v) <$> events).

Section api.
Context `{Client} `{SortSlice TemplateNode}.

Definition sync (fuel : nat) (cs : ConfigSyncer)
    : ConfigSyncer * option (outcome (list LineChangeEvent)) :=
  match Zabbix.fetchLines fuel cs with
  | (cs, Some (Ret newLines)) => let '(cs, ev) := commit cs newLines in (cs, Some (Ret ev))
  | (cs, Some (Fail e)) => (cs, Some (Fail e))
  | (cs, Some (Panic e)) => (cs, Some (Panic e))
  | (cs, None) => (cs, None)
  end.

(** The loop of [Start]: the proxy id, one synchronisation, then one per tick.
    An error of [sync] is logged and the loop goes on; a panic ends the process. *)
Fixpoint ticks (n : nat) (fuel : nat) (cs : ConfigSyncer)
    : ConfigSyncer * option (outcome (list LineChangeEvent)) :=
  match n with
  | O => (cs, Some (Ret []))
  | S n =>
      match sync fuel cs with
      | (cs, Some (Ret ev)) =>
          match ticks n fuel cs with
          | (cs, Some (Ret ev')) => (cs, Some (Ret (ev ++ ev')))
          | r => r
          end
      | (cs, Some (Fail _)) => ticks n fuel cs
      | r => r
      end
  end.

Definition Start (n : nat) (fuel : nat) (cs : ConfigSyncer)
    : ConfigSyncer * option (outcome (list LineChangeEvent)) :=
  if stopped cs then (cs, Some (Ret []))
  else match Zabbix.handleProxyId cs with
       | (cs, Panic e) => (cs, Some (Panic e))
       | (cs, _) => ticks (S n) fuel cs
       end.
End api.
End ordered.
End Changes.

(** ** The template chain: termination and exactness *)
Section chain_facts.
Context `{Client}.
Definition parent (id p : string) : Prop :=
  ∃ t ts, TemplateGet id = Ret (t :: ts) ∧ p ∈ ParentTemplates t.

Definition node_ok (n : TemplateNode) : Prop :=
  ∃ t ts, TemplateGet (node_ID n) = Ret (t :: ts) ∧ n = Zabbix.template_node t (Depth n).

(** What one call adds to the walk: new nodes, each once, each from a template
    in [R], and after which all their parents have been processed. *)
Definition walked (R : string → Prop) (d : Z) (w w' : Zabbix.walk) : Prop :=
  ∃ new, Zabbix.chain w' = Zabbix.chain w ++ new ∧
    Zabbix.processed w' = Zabbix.processed w ∪ list_to_set (node_ID <$> new) ∧
    NoDup (node_ID <$> new) ∧
    (∀ n, n ∈ new → (node_ID n ∉ Zabbix.processed w) ∧ d ≤ Depth n ∧
      node_ok n ∧ R (node_ID n) ∧ (∀ p, p ∈ ParentIDs n → p ∈ Zabbix.processed w')).

Lemma walked_refl R d w : walked R d w w.
Proof.
  exists []. rewrite app_nil_r. repeat split; try constructor; try set_solver.
Qed.

Lemma walked_grows R d w w' : walked R d w w' → Zabbix.processed w ⊆ Zabbix.processed w'.
Proof. intros (new & _ & -> & _). set_solver. Qed.

Lemma walked_trans R d w1 w2 w3 : walked R d w1 w2 → walked R d w2 w3 → walked R d w1 w3.
Proof.
  intros (n1 & C1 & P1 & D1 & A1) H2. pose proof (walked_grows _ _ _ _ H2) as Hg.
  destruct H2 as (n2 & C2 & P2 & D2 & A2).
  exists (n1 ++ n2). rewrite C2, C1, <- app_assoc, fmap_app. split; [done|].
  split; [rewrite P2, P1; set_solver|]. split.
  - apply NoDup_app. split; [done|]. split; [|done].
    intros x Hx Hx2. apply list_elem_of_fmap in Hx2 as (n & -> & Hn).
    destruct (A2 n Hn) as [Hno _]. rewrite P1 in Hno. set_solver.
  - intros n [Hn|Hn]%elem_of_app.
    + destruct (A1 n Hn) as (? & ? & ? & ? & Hp). repeat split; auto.
    + destruct (A2 n Hn) as (Hno & ? & ? & ? & Hp). repeat split; auto. set_solver.
Qed.

Lemma walked_weaken R R' d d' w w' :
  (∀ x, R x → R' x) → d' ≤ d → walked R d w w' → walked R' d' w w'.
Proof.
  intros HR Hd (new & C & P & D & A). exists new. repeat split; auto.
  - by apply A.
  - destruct (A n) as (? & ? & ?); [done|lia].
  - by apply A.
  - by apply HR, A.
  - by apply A.
Qed.

Lemma each_walked {A} (f : A → Zabbix.walk → option (outcome Zabbix.walk)) R d l w w' :
  (∀ x w w', x ∈ l → f x w = Some (Ret w') → walked R d w w') →
  Zabbix.each f l w = Some (Ret w') → walked R d w w'.
Proof.
  revert w. induction l as [|x l IH]; intros w Hf; simpl.
  - intros [= <-]. apply walked_refl.
  - destruct (f x w) as [[w1|e|e]|] eqn:E; try done. intros He.
    eapply walked_trans; [apply (Hf x w w1); [constructor|done]|].
    apply IH; [|done]. intros y ?? Hy. apply Hf. by constructor.
Qed.

(** Every element the loop saw is processed at its end. *)
Lemma each_processed (f : string → Zabbix.walk → option (outcome Zabbix.walk)) R d l w w' :
  (∀ x w w', x ∈ l → f x w = Some (Ret w') → walked R d w w' ∧ x ∈ Zabbix.processed w') →
  Zabbix.each f l w = Some (Ret w') → ∀ x, x ∈ l → x ∈ Zabbix.processed w'.
Proof.
  revert w. induction l as [|y l IH]; intros w Hf; simpl; [by intros _ ? ?%elem_of_nil|].
  destruct (f y w) as [[w1|e|e]|] eqn:E; try done. intros He x [->|Hx]%elem_of_cons.
  - assert (Hw : walked R d w1 w').
    { eapply each_walked; [|exact He]. intros. eapply Hf; [|done]. by constructor. }
    apply (walked_grows _ _ _ _ Hw). eapply Hf; [|exact E]. constructor.
  - eapply IH; [|exact He|done]. intros. eapply Hf; [|done]. by constructor.
Qed.

Lemma each_some {A} (f : A → Zabbix.walk → option (outcome Zabbix.walk)) (I : Zabbix.walk → Prop) l w :
  (∀ x w, x ∈ l → I w → ∃ r, f x w = Some r ∧ ∀ w', r = Ret w' → I w') →
  I w → is_Some (Zabbix.each f l w).
Proof.
  revert w. induction l as [|x l IH]; intros w Hf Hw; simpl; [by eexists|].
  destruct (Hf x w) as (r & -> & Hr); [constructor|done|].
  destruct r; [|by eexists..]. apply IH; [|by apply Hr].
  intros y w1 Hy. apply Hf. by constructor.
Qed.

(** When the API answers for every template, the walk does not fail. *)
Lemma each_no_fail {A} (f : A → Zabbix.walk → option (outcome Zabbix.walk)) l w r :
  (∀ x w r, x ∈ l → f x w = Some r → is_ret r = true) →
  Zabbix.each f l w = Some r → is_ret r = true.
Proof.
  revert w. induction l as [|x l IH]; intros w Hf; simpl; [by intros [= <-]|].
  destruct (f x w) as [[w1|e|e]|] eqn:E; try done.
  - apply IH. intros y ?? Hy. apply Hf. by constructor.
  - intros [= <-]. eapply Hf; [|exact E]. constructor.
  - intros [= <-]. eapply Hf; [|exact E]. constructor.
Qed.

(** [template.get] filtered by an id answers with the template of that id. *)
Hypothesis template_get_id : ∀ id t ts, TemplateGet id = Ret (t :: ts) → TemplateID t = id.

Lemma build_walked fuel d id w w' :
  Zabbix.build fuel d id w = Some (Ret w') →
  walked (rtc parent id) d w w' ∧ id ∈ Zabbix.processed w'.
Proof.
  revert d id w w'. induction fuel as [|fuel IH]; intros d id w w'; simpl; [done|].
  case_bool_decide as Hin; [intros [= <-]; split; [apply walked_refl|done]|].
  destruct (TemplateGet id) as [[|t ts]|e|e] eqn:Et; try done. intros He.
  pose proof (template_get_id _ _ _ Et) as Hid.
  set (w0 := Zabbix.mk_walk _ _) in He.
  assert (Hsub : ∀ x w w', x ∈ ParentTemplates t →
    Zabbix.build fuel (d + 1) x w = Some (Ret w') →
    walked (rtc parent id) d w w' ∧ x ∈ Zabbix.processed w').
  { intros x w1 w2 Hx [Hw Hp]%IH. split; [|done].
    eapply walked_weaken; [|  |exact Hw]; [|lia]. intros y Hy.
    eapply rtc_l; [|exact Hy]. by exists t, ts. }
  pose proof (each_walked _ _ _ _ _ _ (λ x w1 w2 Hx Hf, proj1 (Hsub x w1 w2 Hx Hf)) He) as Hw.
  pose proof (each_processed _ _ _ _ _ _ Hsub He) as Hall.
  assert (Hw' : id ∈ Zabbix.processed w').
  { apply (walked_grows _ _ _ _ Hw). subst w0. simpl. set_solver. }
  split; [|done]. destruct Hw as (new & C & P & D & A). subst w0. simpl in *.
  exists (Zabbix.template_node t d :: new). rewrite fmap_cons. simpl. rewrite Hid.
  split; [rewrite C; by rewrite <- app_assoc|]. split; [rewrite P; set_solver|]. split.
  - constructor; [|done]. intros (n & Hn & Hin')%list_elem_of_fmap.
    destruct (A n Hin') as [Hno _]. set_solver.
  - intros n [->|Hn]%elem_of_cons; simpl.
    + rewrite Hid. repeat split; try done; try lia; try by constructor.
      exists t, ts. simpl. by rewrite Hid.
    + destruct (A n Hn) as (Hno & ? & ? & ? & ?). repeat split; auto. set_solver.
Qed.

Definition closed_universe (U : gset string) : Prop :=
  ∀ id p, id ∈ U → parent id p → p ∈ U.

Lemma build_some U fuel d id w :
  closed_universe U → id ∈ U → (size (U ∖ Zabbix.processed w) < fuel)%nat →
  is_Some (Zabbix.build fuel d id w).
Proof.
  intros HU. revert d id w. induction fuel as [|fuel IH]; intros d id w Hid Hf; simpl; [lia|].
  case_bool_decide as Hin; [by eexists|].
  destruct (TemplateGet id) as [[|t ts]|e|e] eqn:Et; try by eexists.
  apply (each_some _ (λ w1, (size (U ∖ Zabbix.processed w1) < fuel)%nat)).
  - intros x w1 Hx Hw1. destruct (IH (d + 1) x w1) as [r Hr]; [|done|].
    { apply (HU id); [done|]. by exists t, ts. }
    exists r. split; [done|]. intros w2 ->. apply build_walked in Hr as [Hw _].
    apply walked_grows in Hw. eapply Nat.le_lt_trans; [|exact Hw1].
    apply subseteq_size. set_solver.
  - simpl. assert (U ∖ ({[id]} ∪ Zabbix.processed w) ⊂ U ∖ Zabbix.processed w) as Hsub.
    { split; [set_solver|]. intros Hs. specialize (Hs id). set_solver. }
    apply subset_size in Hsub. lia.
Qed.

Lemma build_ret U fuel d id w r :
  closed_universe U → (∀ x, x ∈ U → ∃ t ts, TemplateGet x = Ret (t :: ts)) → id ∈ U →
  Zabbix.build fuel d id w = Some r → is_ret r = true.
Proof.
  intros HU HA. revert d id w r. induction fuel as [|fuel IH]; intros d id w r Hid; simpl; [done|].
  case_bool_decide as Hin; [by intros [= <-]|].
  destruct (HA id Hid) as (t & ts & Et). rewrite Et. apply each_no_fail.
  intros x w1 r1 Hx. apply IH. apply (HU id); [done|]. by exists t, ts.
Qed.
End chain_facts.

(** ** The priority of macros *)

(** The value the last assignment of a slice gives to a macro. *)
Definition last_macro (k : string) (ms : list UsermacroObject) : option string :=
  Value <$> last (List.filter (has_key Macro k) ms).

Lemma write_macros_app m ms1 ms2 :
  write_macros m (ms1 ++ ms2) = write_macros (write_macros m ms1) ms2.
Proof. unfold write_macros. apply foldl_app. Qed.

Lemma last_macro_snoc k ms u :
  last_macro k (ms ++ [u]) = if decide (Macro u = k) then Some (Value u) else last_macro k ms.
Proof.
  unfold last_macro. rewrite List.filter_app. simpl. unfold has_key at 2.
  destruct (decide (Macro u = k)) as [E|E].
  - rewrite bool_decide_eq_true_2 by done. by rewrite last_snoc.
  - rewrite bool_decide_eq_false_2 by done. by rewrite app_nil_r.
Qed.

Lemma write_macros_lookup m ms k :
  write_macros m ms !! k = match last_macro k ms with Some v => Some v | None => m !! k end.
Proof.
  induction ms as [|u ms IH] using rev_ind; [done|].
  rewrite write_macros_app, last_macro_snoc. simpl.
  destruct (decide (Macro u = k)) as [<-|E]; [by rewrite lookup_insert_eq|].
  by rewrite lookup_insert_ne.
Qed.

(** The template loop: the last node that defines a macro gives its value. *)
Definition template_macros (m : gmap string string) (nodes : list TemplateNode) : gmap string string :=
  foldl (λ m n, node_Macros n ∪ m) m nodes.

Lemma template_macros_lookup m nodes k :
  StronglySorted (λ a b, Depth b ≤ Depth a) nodes →
  (∃ n, n ∈ nodes ∧ is_Some (node_Macros n !! k) ∧
     template_macros m nodes !! k = node_Macros n !! k ∧
     ∀ n', n' ∈ nodes → is_Some (node_Macros n' !! k) → Depth n ≤ Depth n') ∨
  ((∀ n, n ∈ nodes → node_Macros n !! k = None) ∧ template_macros m nodes !! k = m !! k).
Proof.
  intros Hs. revert m. induction Hs as [|n ns Hs IH Hn]; intros m.
  - right. split; [by intros n ?%elem_of_nil|done].
  - rewrite Forall_forall in Hn. unfold template_macros. simpl.
    destruct (IH (node_Macros n ∪ m)) as [(n1 & Hin & Hd & Hv & Hmin)|[Hnone Hv]].
    + left. exists n1. split; [by constructor|]. split; [done|]. split; [done|].
      intros n' [->|Hn']%elem_of_cons; [intros _; by apply Hn|by apply Hmin].
    + destruct (node_Macros n !! k) as [v|] eqn:E.
      * left. exists n. split; [by constructor|]. split; [by eexists|]. split.
        { unfold template_macros in Hv. rewrite Hv, E. by apply lookup_union_Some_l. }
        intros n' [->|Hn']%elem_of_cons; [done|]. rewrite (Hnone n' Hn'). by intros [? ?].
      * right. split; [intros n' [->|Hn']%elem_of_cons; auto|].
        unfold template_macros in Hv. rewrite Hv. by apply lookup_union_r.
Qed.

Section merge_facts.
Context `{SortSlice TemplateNode}.

Lemma sort_depth_sorted l :
  StronglySorted (λ a b, Depth b ≤ Depth a) (sort_slice (λ a b, Depth b <? Depth a) l).
Proof.
  assert (Hw : ∀ l', StronglySorted (λ a b, (Depth a <? Depth b) = false) l' →
    StronglySorted (λ a b, Depth b ≤ Depth a) l').
  { intros l' Hl. induction Hl as [|a l' Hl IH Ha]; constructor; [done|].
    eapply Forall_impl; [exact Ha|]. intros b Hb. simpl in Hb. by btrue. }
  apply Hw, (sort_slice_sorted (λ a b, Depth b <? Depth a)). split.
  - intros a b H1. btrue. apply Z.ltb_ge. lia.
  - intros a b c H1 H2. btrue. apply Z.ltb_ge. lia.
Qed.

Definition macro_priority (g : list UsermacroObject) (nodes : list TemplateNode)
    (h : list UsermacroObject) (m : gmap string string) (k : string) : Prop :=
  match last_macro k h with
  | Some v => m !! k = Some v
  | None =>
      (∃ n, n ∈ nodes ∧ is_Some (node_Macros n !! k) ∧ m !! k = node_Macros n !! k ∧
         ∀ n', n' ∈ nodes → is_Some (node_Macros n' !! k) → Depth n ≤ Depth n') ∨
      ((∀ n, n ∈ nodes → node_Macros n !! k = None) ∧ m !! k = last_macro k g)
  end.

Lemma mergeMacros_spec g nodes h :
  nodes ≠ [] →
  ∃ m, Zabbix.mergeMacros g nodes h = Ret m ∧ ∀ k, macro_priority g nodes h m k.
Proof.
  intros Hn. unfold Zabbix.mergeMacros.
  pose proof (sort_depth_sorted nodes) as Hs. pose proof (sort_slice_perm (λ a b, Depth b <? Depth a) nodes) as Hp.
  destruct (sort_slice _ nodes) as [|n0 s0]; [by apply Permutation_nil in Hp|].
  set (s := n0 :: s0) in *. eexists. split; [done|]. intros k. unfold macro_priority.
  rewrite write_macros_lookup. destruct (last_macro k h) as [v|]; [done|].
  destruct (template_macros_lookup (write_macros ∅ g) s k Hs) as [(n & Hin & Hd & Hv & Hmin)|[Hnone Hv]].
  - left. exists n. rewrite <- Hp. repeat split; try done.
    intros n' Hn'. apply Hmin. by rewrite Hp.
  - right. split; [intros n' Hn'; apply Hnone; by rewrite Hp|].
    unfold template_macros in Hv. rewrite Hv, write_macros_lookup. by destruct (last_macro k g).
Qed.

Lemma mergeMacros_empty g h : is_panic (Zabbix.mergeMacros g [] h) = true.
Proof.
  unfold Zabbix.mergeMacros. pose proof (sort_slice_perm (λ a b, Depth b <? Depth a) []) as Hp.
  apply Permutation_nil_r in Hp. by rewrite Hp.
Qed.

(** C25: the macros of a host are merged by Zabbix's priority: the host's own
    value, else the one of a template of least depth that defines the macro,
    else the global one; with no template the merge panics. *)
Theorem mergeMacros_priority g nodes h :
  match Zabbix.mergeMacros g nodes h with
  | Ret m => nodes ≠ [] ∧ ∀ k, macro_priority g nodes h m k
  | Panic _ => nodes = []
  | Fail _ => False
  end.
Proof.
  destruct (decide (nodes = [])) as [->|Hn].
  - pose proof (mergeMacros_empty g h) as Hp. by destruct (Zabbix.mergeMacros _ _ _).
  - destruct (mergeMacros_spec g nodes h Hn) as (m & -> & Hm). done.
Qed.

(** ** [fetchLines] *)
Section fetch_facts.
Context `{Client}.
Hypothesis template_get_id : ∀ id t ts, TemplateGet id = Ret (t :: ts) → TemplateID t = id.
(** The templates that exist: a finite set closed under parents, and the API
    answers for each of them. *)
Variable U : gset string.
Hypothesis U_closed : closed_universe U.
Hypothesis U_answered : ∀ id, id ∈ U → ∃ t ts, TemplateGet id = Ret (t :: ts).

Lemma chain_exact fuel host :
  (∀ id, id ∈ host_ParentTemplates host → id ∈ U) → (size U < fuel)%nat →
  ∃ nodes, Zabbix.buildTemplateChain fuel host = Some (Ret nodes) ∧
    NoDup (node_ID <$> nodes) ∧ Forall node_ok nodes ∧
    ∀ id, id ∈ node_ID <$> nodes ↔ ∃ x, x ∈ host_ParentTemplates host ∧ rtc parent x id.
Proof.
  intros Hroots Hf. unfold Zabbix.buildTemplateChain. set (w0 := Zabbix.mk_walk ∅ []).
  assert (Hsome : is_Some (Zabbix.each (Zabbix.build fuel 1) (host_ParentTemplates host) w0)).
  { apply (each_some _ (λ w, (size (U ∖ Zabbix.processed w) < fuel)%nat)).
    - intros x w Hx Hw.
      destruct (build_some template_get_id U fuel 1 x w U_closed (Hroots x Hx) Hw) as [r Hr].
      exists r. split; [done|]. intros w' ->. apply build_walked in Hr as [Hr _]; [|done].
      apply walked_grows in Hr. eapply Nat.le_lt_trans; [|exact Hw].
      apply subseteq_size. set_solver.
    - subst w0. simpl. by rewrite difference_empty_L. }
  destruct Hsome as [r Hr]. assert (Hret : is_ret r = true).
  { eapply each_no_fail; [|exact Hr]. intros x w r' Hx. apply (build_ret U); auto. }
  destruct r as [w|e|e]; try done. rewrite Hr. exists (Zabbix.chain w). split; [done|].
  set (R := λ id, ∃ x, x ∈ host_ParentTemplates host ∧ rtc parent x id).
  assert (Hb : ∀ x w1 w2, x ∈ host_ParentTemplates host →
    Zabbix.build fuel 1 x w1 = Some (Ret w2) → walked R 1 w1 w2 ∧ x ∈ Zabbix.processed w2).
  { intros x w1 w2 Hx [Hw Hp]%build_walked; [|done]. split; [|done].
    eapply walked_weaken; [| |exact Hw]; [|lia]. intros y Hy. by exists x. }
  pose proof (each_walked _ R 1 _ _ _ (λ x w1 w2 Hx Hf, proj1 (Hb x w1 w2 Hx Hf)) Hr) as Hw.
  pose proof (each_processed _ R 1 _ _ _ Hb Hr) as Hall.
  destruct Hw as (new & C & P & D & A). subst w0. simpl in *. subst R. simpl in *.
  rewrite C. split; [done|]. split; [apply Forall_forall; intros n Hn; by apply A|].
  assert (Hin : ∀ x, x ∈ Zabbix.processed w ↔ x ∈ node_ID <$> new) by (rewrite P; set_solver).
  intros id. split.
  - intros (n & -> & Hn)%list_elem_of_fmap. by apply (A n).
  - intros (x & Hx & Hrt). apply Hin. apply Hall in Hx.
    induction Hrt as [|a b c Hab Hbc IH]; [done|]. apply IH.
    apply Hin, list_elem_of_fmap in Hx as (n & -> & Hn).
    destruct (A n Hn) as (_ & _ & (t & ts & Ht & Hnt) & _ & Hp). apply Hp.
    rewrite Hnt. simpl. destruct Hab as (t' & ts' & Ht' & Hin'). congruence.
Qed.

(** C29: over a finite set of templates closed under parents, each answered by
    the API, the walk up the templates of a host ends (fuel above the number of
    templates is enough, cycles included) and its result holds exactly the
    templates reachable from the host's own, each once. *)
Theorem buildTemplateChain_exact fuel host :
  (∀ id, id ∈ host_ParentTemplates host → id ∈ U) → (size U < fuel)%nat →
  ∃ nodes, Zabbix.buildTemplateChain fuel host = Some (Ret nodes) ∧
    NoDup (node_ID <$> nodes) ∧
    ∀ id, id ∈ node_ID <$> nodes ↔ ∃ x, x ∈ host_ParentTemplates host ∧ rtc parent x id.
Proof.
  intros Hr Hf. destruct (chain_exact fuel host Hr Hf) as (nodes & ? & ? & _ & ?). eauto.
Qed.

Definition templateless (h : HostObject) : bool := bool_decide (host_ParentTemplates h = []).

Lemma chain_nil_iff fuel host nodes :
  (∀ id, id ∈ host_ParentTemplates host → id ∈ U) → (size U < fuel)%nat →
  Zabbix.buildTemplateChain fuel host = Some (Ret nodes) →
  nodes = [] ↔ templateless host = true.
Proof.
  intros Hr Hf Hb. destruct (chain_exact fuel host Hr Hf) as (ns & Hb' & _ & _ & Hiff).
  rewrite Hb in Hb'. simplify_eq. unfold templateless. rewrite bool_decide_eq_true. split.
  - intros ->. destruct (host_ParentTemplates host) as [|x l] eqn:E; [done|]. exfalso.
    assert (x ∈ node_ID <$> ([] : list TemplateNode)) as Hx.
    { apply Hiff. exists x. split; [constructor|done]. }
    by apply elem_of_nil in Hx.
  - intros Hn. destruct ns as [|n ns]; [done|]. exfalso.
    assert (node_ID n ∈ node_ID <$> n :: ns) as Hx by (rewrite fmap_cons; constructor).
    apply Hiff in Hx as (x & Hx & _). rewrite Hn in Hx. by apply elem_of_nil in Hx.
Qed.

(** What the map of lines promises: each line is filed under its own IP and
    carries its fingerprint. *)
Definition lines_ok (m : gmap string Line) : Prop :=
  ∀ k l, m !! k = Some l → IP l = k ∧ hashed l.

Lemma lines_ok_insert m host mac :
  lines_ok m → lines_ok (<[IP (Zabbix.line_of host mac) := Zabbix.line_of host mac]> m).
Proof.
  intros Hm k l [[<- <-]|[_ Hl]]%lookup_insert_Some; [|by apply Hm].
  split; [done|apply ComputeHash_hashed].
Qed.

Lemma fetch_host_spec fuel g host ls :
  (∀ id, id ∈ host_ParentTemplates host → id ∈ U) → (size U < fuel)%nat → lines_ok ls →
  if templateless host
  then ∃ e, Zabbix.fetch_host fuel g host ls = Some (Panic e)
  else ∃ ls', Zabbix.fetch_host fuel g host ls = Some (Ret ls') ∧ lines_ok ls' ∧
         dom ls' = {[Host host]} ∪ dom ls.
Proof.
  intros Hr Hf Hls. destruct (chain_exact fuel host Hr Hf) as (nodes & Hb & _).
  pose proof (chain_nil_iff fuel host nodes Hr Hf Hb) as Hnil.
  unfold Zabbix.fetch_host. rewrite Hb. destruct (templateless host).
  - rewrite (proj2 Hnil eq_refl). pose proof (mergeMacros_empty g (host_Macros host)) as Hp.
    destruct (Zabbix.mergeMacros _ _ _); try done. by eexists.
  - destruct (mergeMacros_spec g nodes (host_Macros host)) as (m & -> & _).
    { intros Hn0. by apply Hnil in Hn0. }
    eexists. split; [done|]. split; [by apply lines_ok_insert|]. by rewrite dom_insert_L.
Qed.

Lemma fetch_hosts_spec fuel g hosts ls :
  (∀ h id, h ∈ hosts → id ∈ host_ParentTemplates h → id ∈ U) → (size U < fuel)%nat → lines_ok ls →
  if existsb templateless hosts
  then ∃ e, Zabbix.each (Zabbix.fetch_host fuel g) hosts ls = Some (Panic e)
  else ∃ ls', Zabbix.each (Zabbix.fetch_host fuel g) hosts ls = Some (Ret ls') ∧
         lines_ok ls' ∧ dom ls' = list_to_set (Host <$> hosts) ∪ dom ls.
Proof.
  intros Hr Hf. revert ls. induction hosts as [|h hosts IH]; intros ls Hls; simpl.
  - exists ls. split; [done|]. split; [done|]. set_solver.
  - pose proof (fetch_host_spec fuel g h ls) as Hh.
    destruct (templateless h); simpl.
    + destruct Hh as [e ->]; eauto. intros; eapply Hr; [constructor|done].
    + destruct Hh as (ls1 & -> & Hls1 & Hd); auto.
      { intros; eapply Hr; [constructor|done]. }
      specialize (IH ltac:(intros; eapply Hr; [by constructor|done]) ls1 Hls1).
      destruct (existsb templateless hosts); [done|].
      destruct IH as (ls2 & -> & Hls2 & Hd2). exists ls2. split; [done|]. split; [done|].
      rewrite Hd2, Hd. set_solver.
Qed.

(** C28: when the API answers, [fetchLines] returns exactly one well-formed line
    per host (filed under the host's name, with its fingerprint) provided every
    host is linked to a template, and it panics as soon as one host is not. *)
Theorem fetchLines_spec fuel cs g hosts :
  proxyID cs ≠ 0 → UsermacroGet true = Ret g → HostGet (Zabbix.host_params cs) = Ret hosts →
  (∀ h id, h ∈ hosts → id ∈ host_ParentTemplates h → id ∈ U) → (size U < fuel)%nat →
  if existsb templateless hosts
  then ∃ e, Zabbix.fetchLines fuel cs = (cs, Some (Panic e))
  else ∃ m, Zabbix.fetchLines fuel cs = (cs, Some (Ret m)) ∧
         lines_ok m ∧ dom m = list_to_set (Host <$> hosts).
Proof.
  intros Hp Hg Hh Hr Hf. unfold Zabbix.fetchLines.
  rewrite (proj2 (Z.eqb_neq _ _) Hp). simpl. rewrite Hg, Hh.
  pose proof (fetch_hosts_spec fuel g hosts ∅ Hr Hf) as Hs.
  destruct (existsb templateless hosts).
  - destruct Hs as [e ->]; [by intros ??; rewrite lookup_empty|]. eauto.
  - destruct Hs as (m & -> & Hm & Hd); [by intros ??; rewrite lookup_empty|].
    exists m. split; [done|]. split; [done|]. rewrite Hd, dom_empty_L. set_solver.
Qed.
End fetch_facts.
End merge_facts.

(** ** What a subscriber can rebuild from the events *)
Section change_facts.
Context (range_old range_new : gmap string Line → list (string * Line)).
(** Ranging over a map visits every entry once, in an order Go leaves open. *)
Hypothesis range_old_perm : ∀ m, range_old m ≡ₚ map_to_list m.
Hypothesis range_new_perm : ∀ m, range_new m ≡ₚ map_to_list m.

Abbreviation detect := (Changes.detectChanges range_old range_new).

Definition event_key (e : LineChangeEvent) : string := IP (ev_Line e).

(** The reader of the events: deletes the line, or files the new one. *)
Definition apply_event (m : gmap string Line) (e : LineChangeEvent) : gmap string Line :=
  match Type_ e with
  | LineDelete => delete (event_key e) m
  | _ => <[event_key e := ev_Line e]> m
  end.
Definition replay (m : gmap string Line) (es : list LineChangeEvent) : gmap string Line :=
  foldl apply_event m es.

Lemma elem_of_detectChanges cs m e :
  e ∈ detect cs m ↔
  (∃ k l, lines cs !! k = Some l ∧ m !! k = None ∧ e = mk_event LineDelete l 0) ∨
  (∃ k l l', lines cs !! k = Some l ∧ m !! k = Some l' ∧ Hash l ≠ Hash l' ∧ e = mk_event LineUpdate l' 0) ∨
  (∃ k l', lines cs !! k = None ∧ m !! k = Some l' ∧ e = mk_event LineCreate l' 0).
Proof.
  unfold Changes.detectChanges. rewrite elem_of_app, !list_elem_of_bind. split.
  - intros [([k l] & He & Hk)|([k l] & He & Hk)].
    + rewrite range_old_perm, elem_of_map_to_list in Hk. unfold Changes.old_change in He. simpl in He.
      destruct (m !! k) as [l'|] eqn:Em.
      * destruct (Z.eqb_spec (Hash l) (Hash l')); simpl in He; [by apply elem_of_nil in He|].
        apply list_elem_of_singleton in He. right; left. eauto 10.
      * apply list_elem_of_singleton in He. left. eauto 10.
    + rewrite range_new_perm, elem_of_map_to_list in Hk. unfold Changes.new_change in He. simpl in He.
      destruct (lines cs !! k) eqn:El; [by apply elem_of_nil in He|].
      apply list_elem_of_singleton in He. right; right. eauto 10.
  - intros [(k & l & Hl & Hm & ->)|[(k & l & l' & Hl & Hm & Hne & ->)|(k & l' & Hl & Hm & ->)]].
    + left. exists (k, l). rewrite range_old_perm, elem_of_map_to_list. split; [|done].
      unfold Changes.old_change. simpl. rewrite Hm. constructor.
    + left. exists (k, l). rewrite range_old_perm, elem_of_map_to_list. split; [|done].
      unfold Changes.old_change. simpl. rewrite Hm. apply Z.eqb_neq in Hne. rewrite Hne. constructor.
    + right. exists (k, l'). rewrite range_new_perm, elem_of_map_to_list. split; [|done].
      unfold Changes.new_change. simpl. rewrite Hl. constructor.
Qed.

Lemma NoDup_bind_keys (f : string * Line → list LineChangeEvent) L :
  (∀ kv e, e ∈ f kv → event_key e = kv.1 ∨ kv ∉ L) → (∀ kv, length (f kv) ≤ 1)%nat →
  NoDup L.*1 → NoDup (event_key <$> (L ≫= f)).
Proof.
  intros Hk Hlen. induction L as [|kv L IH]; simpl; [constructor|].
  intros [Hkv Hnd]%NoDup_cons. rewrite fmap_app. apply NoDup_app. split.
  - specialize (Hlen kv). destruct (f kv) as [|e [|e' es]]; simpl in *; [constructor| |lia].
    apply NoDup_singleton.
  - split.
    + intros x (e & -> & He)%list_elem_of_fmap (e' & Heq & He')%list_elem_of_fmap.
      apply list_elem_of_bind in He' as (kv' & He' & Hin).
      destruct (Hk kv e He) as [E1|Hn]; [|by destruct Hn; constructor].
      destruct (Hk kv' e' He') as [E2|Hn]; [|by destruct Hn; constructor].
      apply Hkv. rewrite <- E1, Heq, E2. by apply list_elem_of_fmap_2.
    + apply IH; [|done]. intros kv' e' He'. destruct (Hk kv' e' He') as [|Hn]; [by left|].
      right. intros ?. apply Hn. by constructor.
Qed.

Lemma old_change_key cs m k l e :
  lines_ok (lines cs) → lines_ok m → (k, l) ∈ range_old (lines cs) →
  e ∈ Changes.old_change m (k, l) → event_key e = k.
Proof.
  intros Hold Hnew Hin He. rewrite range_old_perm, elem_of_map_to_list in Hin.
  unfold Changes.old_change in He. simpl in He.
  destruct (m !! k) as [l'|] eqn:Em; [destruct (negb _); [|by apply elem_of_nil in He]|];
    apply list_elem_of_singleton in He as ->; [by apply (Hnew k l')|by apply (Hold k l)].
Qed.

Lemma new_change_key cs m k l e :
  lines_ok m → (k, l) ∈ range_new m → e ∈ Changes.new_change (lines cs) (k, l) →
  event_key e = k ∧ lines cs !! k = None.
Proof.
  intros Hnew Hin He. rewrite range_new_perm, elem_of_map_to_list in Hin.
  unfold Changes.new_change in He. simpl in He.
  destruct (lines cs !! k) eqn:El; [by apply elem_of_nil in He|].
  apply list_elem_of_singleton in He as ->. split; [by apply (Hnew k l)|done].
Qed.

Lemma detectChanges_keys cs m :
  lines_ok (lines cs) → lines_ok m → NoDup (event_key <$> detect cs m).
Proof.
  intros Hold Hnew. unfold Changes.detectChanges. rewrite fmap_app. apply NoDup_app. split; [|split].
  - apply NoDup_bind_keys.
    + intros [k l] e He. destruct (decide ((k, l) ∈ range_old (lines cs))); [left|by right].
      by eapply old_change_key.
    + intros [k l]. unfold Changes.old_change. simpl. destruct (m !! k); [destruct (negb _)|]; simpl; lia.
    + rewrite range_old_perm. apply NoDup_fst_map_to_list.
  - intros x (e & -> & He)%list_elem_of_fmap (e' & Heq & He')%list_elem_of_fmap.
    apply list_elem_of_bind in He as ([k l] & He & Hin).
    apply list_elem_of_bind in He' as ([k' l'] & He' & Hin').
    pose proof (old_change_key _ _ _ _ _ Hold Hnew Hin He) as E1.
    destruct (new_change_key _ _ _ _ _ Hnew Hin' He') as [E2 Hno].
    rewrite range_old_perm, elem_of_map_to_list in Hin. congruence.
  - apply NoDup_bind_keys.
    + intros [k l] e He. destruct (decide ((k, l) ∈ range_new m)); [left|by right].
      by eapply new_change_key.
    + intros [k l]. unfold Changes.new_change. simpl. destruct (lines cs !! k); simpl; lia.
    + rewrite range_new_perm. apply NoDup_fst_map_to_list.
Qed.

Lemma replay_lookup m es k :
  NoDup (event_key <$> es) →
  replay m es !! k =
  match find_first (has_key event_key k) es with
  | Some e => if bool_decide (Type_ e = LineDelete) then None else Some (ev_Line e)
  | None => m !! k
  end.
Proof.
  revert m. induction es as [|e es IH]; intros m; simpl; [done|].
  intros [Hn Hnd]%NoDup_cons. unfold replay in *. rewrite IH by done. clear IH.
  unfold has_key at 2. case_bool_decide as E.
  - rewrite <- E in *. destruct (find_first (has_key event_key (event_key e)) es) as [e'|] eqn:F.
    { apply find_first_Some in F as [Hin Hk]. unfold has_key in Hk. apply bool_decide_eq_true in Hk.
      destruct Hn. rewrite <- Hk. by apply list_elem_of_fmap_2. }
    unfold apply_event. destruct (Type_ e) eqn:Et; simpl;
      [apply lookup_insert_eq|apply lookup_insert_eq|apply lookup_delete_eq].
  - destruct (find_first _ es); [done|]. unfold apply_event.
    destruct (Type_ e); [by rewrite lookup_insert_ne..|by rewrite lookup_delete_ne].
Qed.

Lemma detect_replay cs m :
  lines_ok (lines cs) → lines_ok m →
  Hash <$> replay (lines cs) (detect cs m) = Hash <$> m.
Proof.
  intros Hold Hnew. apply map_eq. intros k. rewrite !lookup_fmap, replay_lookup by by apply detectChanges_keys.
  destruct (find_first _ _) as [e|] eqn:F.
  - apply find_first_Some in F as [Hin Hk]. unfold has_key in Hk. apply bool_decide_eq_true in Hk.
    unfold event_key in Hk.
    apply elem_of_detectChanges in Hin
      as [(k' & l & Hl & Hm & ->)|[(k' & l & l' & Hl & Hm & Hne & ->)|(k' & l' & Hl & Hm & ->)]]; simpl in *.
    + destruct (Hold k' l Hl) as [Hip _]. by rewrite <- Hk, Hip, Hm.
    + destruct (Hnew k' l' Hm) as [Hip _]. by rewrite <- Hk, Hip, Hm.
    + destruct (Hnew k' l' Hm) as [Hip _]. by rewrite <- Hk, Hip, Hm.
  - assert (Hnone : ∀ e, e ∈ detect cs m → event_key e ≠ k).
    { intros e He Hk. rewrite find_first_None_elem in F. specialize (F e He).
      unfold has_key in F. by apply bool_decide_eq_false in F. }
    destruct (lines cs !! k) as [l|] eqn:El; destruct (m !! k) as [l'|] eqn:Em; simpl; try done.
    + destruct (decide (Hash l = Hash l')) as [->|Hne]; [done|].
      destruct (Hnone (mk_event LineUpdate l' 0)); [|by apply (Hnew k l')].
      apply elem_of_detectChanges. eauto 12.
    + destruct (Hnone (mk_event LineDelete l 0)); [|by apply (Hold k l)].
      apply elem_of_detectChanges. eauto 12.
    + destruct (Hnone (mk_event LineCreate l' 0)); [|by apply (Hnew k l')].
      apply elem_of_detectChanges. eauto 12.
Qed.

(** ** [sync]: versions, the silent first synchronisation *)
Abbreviation commit := (Changes.commit range_old range_new).

Lemma replay_stamp m es v :
  replay m ((λ e, mk_event (Type_ e) (ev_Line e) v) <$> es) = replay m es.
Proof. revert m. induction es as [|e es IH]; intros m; [done|]. rewrite fmap_cons. apply IH. Qed.

Lemma detect_from_empty cs m e :
  lines cs = ∅ → e ∈ detect cs m → Type_ e = LineCreate.
Proof.
  intros He Hin. apply elem_of_detectChanges in Hin as [(k & l & Hl & _)|[(k & l & l' & Hl & _)|(k & l & _ & _ & ->)]];
    [rewrite He in Hl; by rewrite lookup_empty in Hl..|done].
Qed.

(** A synchronisation from a non-empty configuration announces, at the new
    version, events that turn the old configuration into one with the same
    lines and fingerprints as the new one, at most one event per line. *)
Theorem commit_replay cs m :
  lines cs ≠ ∅ → lines_ok (lines cs) → lines_ok m →
  let '(cs', es) := commit cs m in
  lines cs' = m ∧ version cs' = wrap64 (version cs + 1) ∧
  NoDup (event_key <$> es) ∧ Forall (λ e, ev_Version e = version cs') es ∧
  Hash <$> replay (lines cs) es = Hash <$> m.
Proof.
  intros Hne Hold Hnew. unfold Changes.commit. simpl.
  rewrite bool_decide_eq_false_2 by by intros ?%map_size_empty_inv. simpl.
  split; [done|]. split; [done|]. split; [|split].
  - rewrite <- list_fmap_compose. by apply detectChanges_keys.
  - apply Forall_fmap, Forall_true. done.
  - rewrite replay_stamp. by apply detect_replay.
Qed.

(** From an empty configuration a synchronisation announces nothing,
    whatever it has fetched: this silences the start, and equally every later
    moment at which the previous configuration had become empty. *)
Theorem commit_silent_from_empty cs m :
  lines cs = ∅ →
  commit cs m = (set_lines cs m (wrap64 (version cs + 1)), []).
Proof.
  intros He. unfold Changes.commit.
  rewrite bool_decide_eq_true_2 by by rewrite He, map_size_empty.
  f_equal. assert (List.filter (λ e, negb (bool_decide (Type_ e = LineCreate))) (detect cs m) = []) as ->; [|done].
  pose proof (λ e, detect_from_empty cs m e He) as Hc.
  induction (detect cs m) as [|e es IH]; simpl; [done|].
  rewrite bool_decide_eq_true_2 by (apply Hc; constructor). simpl. apply IH.
  intros e' He'. apply Hc. by constructor.
Qed.

Fixpoint commits (cs : ConfigSyncer) (ms : list (gmap string Line)) : ConfigSyncer * list LineChangeEvent :=
  match ms with
  | [] => (cs, [])
  | m :: ms => let '(cs, es) := commit cs m in
               let '(cs, es') := commits cs ms in (cs, es ++ es')
  end.

Lemma replay_hash_eq m1 m2 es :
  Hash <$> m1 = Hash <$> m2 → Hash <$> replay m1 es = Hash <$> replay m2 es.
Proof.
  revert m1 m2. induction es as [|e es IH]; intros m1 m2 Hm; [done|]. apply IH.
  unfold apply_event. destruct (Type_ e); by rewrite ?fmap_insert, ?fmap_delete, Hm.
Qed.


Lemma handleProxyId_keeps `{Client} cs :
  lines (Zabbix.handleProxyId cs).1 = lines cs ∧ version (Zabbix.handleProxyId cs).1 = version cs.
Proof. unfold Zabbix.handleProxyId. by repeat case_match. Qed.

Lemma fetchLines_keeps `{Client} `{SortSlice TemplateNode} fuel cs :
  lines (Zabbix.fetchLines fuel cs).1 = lines cs ∧
  version (Zabbix.fetchLines fuel cs).1 = version cs.
Proof.
  unfold Zabbix.fetchLines. pose proof (handleProxyId_keeps cs) as Hk.
  destruct (proxyID cs =? 0); [destruct (Zabbix.handleProxyId cs) as [cs1 r]|];
    simpl in *; by repeat case_match.
Qed.

(** A synchronisation that fails keeps the configuration and the version. *)
Lemma sync_error_keeps `{Client} `{SortSlice TemplateNode} fuel cs cs' r :
  Changes.sync range_old range_new fuel cs = (cs', r) →
  (∀ ev, r ≠ Some (Ret ev)) → lines cs' = lines cs ∧ version cs' = version cs.
Proof.
  unfold Changes.sync. pose proof (fetchLines_keeps fuel cs) as Hk.
  destruct (Zabbix.fetchLines fuel cs) as [cs1 [[m|e|e]|]]; simpl in *; naive_solver.
Qed.
End change_facts.

(** ** The check interval *)

Lemma parseDuration_seconds n d :
  0 ≤ n ≤ 9223372036 → parseDurationFromMacro (itoa n) d = n * Second.
Proof.
  intros Hn. unfold parseDurationFromMacro.
  assert (Ha : atoi (itoa n) = Some n) by (apply atoi_itoa_nonneg; unfold max_int64; lia).
  destruct (String.eqb_spec (itoa n) "") as [E|_]; [by rewrite E in Ha|].
  rewrite Ha. rewrite (proj2 (Z.ltb_ge n 0)) by lia. apply wrap64_id.
  unfold in_int64, min_int64, max_int64, Second. lia.
Qed.

(** The interval macro is read as a number of seconds: exactly, up to
    9223372036; every unreadable, empty or negative value gives the default;
    above that the product overflows, so that 9223372037 seconds is a negative
    interval. *)
Theorem parseDuration_spec value d :
  match atoi value with
  | Some n =>
      (0 ≤ n ≤ 9223372036 → parseDurationFromMacro value d = n * Second) ∧
      (n < 0 → parseDurationFromMacro value d = d) ∧
      (9223372037 ≤ n ≤ 18446744073 → parseDurationFromMacro value d < 0)
  | None => parseDurationFromMacro value d = d
  end.
Proof.
  unfold parseDurationFromMacro. destruct (String.eqb_spec value "") as [->|_]; [done|].
  destruct (atoi value) as [n|] eqn:Ha; [|done]. repeat split; intros Hn.
  - rewrite (proj2 (Z.ltb_ge n 0)) by lia. apply wrap64_id.
    unfold in_int64, min_int64, max_int64, Second. lia.
  - by rewrite (proj2 (Z.ltb_lt n 0)) by lia.
  - rewrite (proj2 (Z.ltb_ge n 0)) by lia. unfold wrap64, Second, two63, two64.
    assert ((n * 1000000000 + 9223372036854775808) mod 18446744073709551616
      = n * 1000000000 + 9223372036854775808 - 18446744073709551616) as ->; [|lia].
    symmetry. apply Z.mod_unique with 1; lia.
Qed.

(** ** Concrete instances *)
Module Demo.

(** Three templates, two of them inheriting from each other, and a host. *)
Definition templates (id : string) : outcome (list TemplateObject) :=
  if String.eqb id "A" then Ret [mk_template "A" [mk_macro "{$LINE_ID}" "a"] ["B"]]
  else if String.eqb id "B"
       then Ret [mk_template "B" [mk_macro "{$LINE_ID}" "b"; mk_macro "{$LINE_ROUTER_IP}" "10.0.0.1"] ["A"]]
  else if String.eqb id "C" then Ret [mk_template "C" [] []]
  else Ret [].

Definition host1 : HostObject := mk_host "192.168.0.1" [mk_macro "{$LINE_CHECK_INTERVAL}" "60"] ["A"; "C"].
Definition host2 : HostObject := mk_host "192.168.0.2" [] [].

#[export] Instance client : Client := {|
  GetProxyFormHost := λ _, Ret ["17"];
  HostGet := λ _, Ret [host1];
  UsermacroGet := λ _, Ret [mk_macro "{$LINE_ROUTER_USERNAME}" "ops"];
  TemplateGet := templates |}.

#[export] Instance sorter : SortSlice TemplateNode := insertion_SortSlice.

Definition universe : gset string := {["A"; "B"; "C"]}.

Lemma template_get_id id t ts : TemplateGet id = Ret (t :: ts) → TemplateID t = id.
Proof.
  simpl. unfold templates.
  repeat match goal with |- context [String.eqb id ?x] => destruct (String.eqb_spec id x) as [->|_] end;
    naive_solver.
Qed.

Lemma universe_answered id : id ∈ universe → ∃ t ts, TemplateGet id = Ret (t :: ts).
Proof.
  unfold universe. rewrite !elem_of_union, !elem_of_singleton. simpl. unfold templates.
  intros [[->| ->]| ->]; simpl; eauto.
Qed.

Lemma universe_closed : closed_universe universe.
Proof.
  intros id p Hid (t & ts & Ht & Hp). simpl in Ht. unfold templates in Ht.
  repeat match type of Ht with
  | context [String.eqb id ?x] => destruct (String.eqb_spec id x) as [->|_]
  end; simplify_eq/=; repeat (apply elem_of_cons in Hp as [->|Hp]); try by apply elem_of_nil in Hp.
  all: unfold universe; set_solver.
Qed.

Definition syncer1 : ConfigSyncer := set_proxyID (NewConfigSyncer (180 * Second) "proxy") 17.
Definition line1 : Line := ComputeHash (mk_line "1" "192.168.0.1" (60 * Second)
  (mk_router "10.0.0.1" "ops" "" "cisco_iosxe" "ssh") 0).
Definition line2 : Line := ComputeHash (mk_line "1" "192.168.0.1" (120 * Second)
  (mk_router "10.0.0.1" "ops" "" "cisco_iosxe" "ssh") 0).

Lemma lines_ok_singleton l : hashed l → lines_ok {[IP l := l]}.
Proof. intros Hl k l' [<- <-]%lookup_singleton_Some. done. Qed.
End Demo.
Import Demo.

Lemma commit_replay_witness :
  let cs := set_lines Demo.syncer1 {[IP Demo.line1 := Demo.line1]} 3 in
  lines (Changes.commit map_to_list map_to_list cs {[IP Demo.line2 := Demo.line2]}).1
    = {[IP Demo.line2 := Demo.line2]}.
Proof.
  intros cs.
  pose proof (commit_replay map_to_list map_to_list (λ _, reflexivity _) (λ _, reflexivity _)
    cs {[IP Demo.line2 := Demo.line2]} (insert_non_empty _ _ _)
    (Demo.lines_ok_singleton _ (ComputeHash_hashed _)) (Demo.lines_ok_singleton _ (ComputeHash_hashed _))) as Hc.
  destruct (Changes.commit _ _ _ _). apply Hc.
Defined.

Lemma commit_silent_from_empty_witness :
  (Changes.commit map_to_list map_to_list Demo.syncer1 {[IP Demo.line1 := Demo.line1]}).2 = [].
Proof.
  rewrite (commit_silent_from_empty map_to_list map_to_list (λ _, reflexivity _) (λ _, reflexivity _)
    Demo.syncer1 {[IP Demo.line1 := Demo.line1]} eq_refl). reflexivity.
Defined.


Lemma buildTemplateChain_exact_witness :
  ∃ nodes, Zabbix.buildTemplateChain 4 Demo.host1 = Some (Ret nodes) ∧ NoDup (node_ID <$> nodes).
Proof.
  destruct (buildTemplateChain_exact Demo.template_get_id Demo.universe Demo.universe_closed
    Demo.universe_answered 4 Demo.host1) as (nodes & Hb & Hn & _).
  - intros id. simpl. rewrite !elem_of_cons. unfold Demo.universe. set_solver.
  - vm_compute. lia.
  - eauto.
Defined.

Lemma fetchLines_spec_witness :
  ∃ m, Zabbix.fetchLines 4 Demo.syncer1 = (Demo.syncer1, Some (Ret m)) ∧ dom m = {["192.168.0.1"]}.
Proof.
  pose proof (fetchLines_spec Demo.template_get_id Demo.universe Demo.universe_closed
    Demo.universe_answered 4 Demo.syncer1 _ [Demo.host1] ltac:(done) eq_refl eq_refl) as Hf.
  destruct Hf as (m & Hm & _ & Hd).
  - intros h id Hh. apply list_elem_of_singleton in Hh as ->. simpl. unfold Demo.universe. set_solver.
  - vm_compute. lia.
  - exists m. split; [exact Hm|]. rewrite Hd. set_solver.
Defined.

(** Fetching the host that inherits from no template panics. *)
Example templateless_host_panics :
  is_panic (Zabbix.mergeMacros [] [] (host_Macros Demo.host2)) = true.
Proof. reflexivity. Qed.

(** A template linked to the host directly and through another template is
    recorded at the depth of the first visit, not at its least depth. *)
Example first_visit_depth :
  (λ r, (λ o, match o with Ret ns => (λ n, (node_ID n, Depth n)) <$> ns | _ => [] end) <$> r)
    (Zabbix.buildTemplateChain 4 (mk_host "h" [] ["A"; "B"])) = Some [("A", 1); ("B", 2)].
Proof. reflexivity. Qed.
