(* ===== verification/Subscriptions.v ===== *)
(** * Subscriptions: the event channels of the syncer ([src/syncer/syncer.go])

    [Subscribe], [Subscription.Close], [Stop] and [notifyAll] share the list of
    subscriber channels under the syncer's lock, so that each is one step on the
    state [Hub]. A channel is its buffer, the events its reader has taken, and
    whether it is open; sending on a closed channel and closing one twice panic. *)
From S2P Require Import Prelude GoStrings Lines ConfigSync.

Record chan := mk_chan {
  buf : list LineChangeEvent;
  received : list LineChangeEvent;
  is_open : bool }.

(** The channel is named by the number of the [Subscribe] call that made it. *)
Record Hub := mk_hub {
  chans : list chan;
  subscribers : list nat;
  stopOnce : bool;
  subOnce : gset nat }.

Definition NewHub : Hub := mk_hub [] [] false ∅.

(** [make(chan LineChangeEvent, 1000)] *)
Definition chan_cap : nat := 1000.

Definition put_chan (h : Hub) (id : nat) (c : chan) : Hub :=
  mk_hub (<[id := c]> (chans h)) (subscribers h) (stopOnce h) (subOnce h).
Definition set_subscribers (h : Hub) (l : list nat) : Hub :=
  mk_hub (chans h) l (stopOnce h) (subOnce h).

(** [close(ch)] *)
Definition close_chan (h : Hub) (id : nat) : outcome Hub :=
  match chans h !! id with
  | None => Panic "close of nil channel"
  | Some c => if is_open c then Ret (put_chan h id (mk_chan (buf c) (received c) false))
              else Panic "close of closed channel"
  end.

Definition Subscribe (h : Hub) : Hub * nat :=
  let id := length (chans h) in
  (mk_hub (chans h ++ [mk_chan [] [] true]) (subscribers h ++ [id]) (stopOnce h) (subOnce h), id).

(** [Subscription.Close]: once per subscription, and only while it is listed. *)
Definition Close (h : Hub) (id : nat) : outcome Hub :=
  if bool_decide (id ∈ subOnce h) then Ret h
  else
    let h := mk_hub (chans h) (subscribers h) (stopOnce h) ({[id]} ∪ subOnce h) in
    if existsb (Nat.eqb id) (subscribers h)
    then close_chan (set_subscribers h (remove_first (Nat.eqb id) (subscribers h))) id
    else Ret h.

Fixpoint close_all (h : Hub) (ids : list nat) : outcome Hub :=
  match ids with
  | [] => Ret h
  | id :: ids => match close_chan h id with
                 | Ret h => close_all h ids
                 | r => r
                 end
  end.

(** [ConfigSyncer.Stop] *)
Definition Stop (h : Hub) : outcome Hub :=
  if stopOnce h then Ret h
  else match close_all h (subscribers h) with
       | Ret h => Ret (mk_hub (chans h) [] true (subOnce h))
       | r => r
       end.

(** One send of [notifyAll]. When the buffer is full the code waits 100 ms:
    [drained] tells whether the reader takes an event in that time; if it does
    not, the event is dropped. *)
Definition send (drained : LineChangeEvent → nat → bool) (h : Hub) (e : LineChangeEvent) (id : nat) : outcome Hub :=
  match chans h !! id with
  | None => Panic "send on nil channel"
  | Some c =>
      if negb (is_open c) then Panic "send on closed channel"
      else if length (buf c) <? chan_cap
      then Ret (put_chan h id (mk_chan (buf c ++ [e]) (received c) true))
      else if drained e id
      then Ret (put_chan h id (mk_chan (tail (buf c) ++ [e]) (received c ++ take 1 (buf c)) true))
      else Ret h
  end.

Fixpoint send_all (drained : LineChangeEvent → nat → bool) (h : Hub) (e : LineChangeEvent) (ids : list nat) : outcome Hub :=
  match ids with
  | [] => Ret h
  | id :: ids => match send drained h e id with
                 | Ret h => send_all drained h e ids
                 | r => r
                 end
  end.

Fixpoint notifyAll (drained : LineChangeEvent → nat → bool) (h : Hub) (es : list LineChangeEvent) : outcome Hub :=
  match es with
  | [] => Ret h
  | e :: es => match send_all drained h e (subscribers h) with
               | Ret h => notifyAll drained h es
               | r => r
               end
  end.

(** The reader takes one event, when there is one. *)
Definition receive (h : Hub) (id : nat) : Hub :=
  match chans h !! id with
  | Some (mk_chan (e :: b) r o) => put_chan h id (mk_chan b (r ++ [e]) o)
  | _ => h
  end.

(** The calls the program makes on the shared state, in any order. A
    subscription that does not exist cannot be closed. *)
Inductive op :=
  | OSubscribe
  | OClose (id : nat)
  | OStop
  | ONotify (drained : LineChangeEvent → nat → bool) (es : list LineChangeEvent)
  | OReceive (id : nat).

Definition run_op (h : Hub) (o : op) : outcome Hub :=
  match o with
  | OSubscribe => Ret (Subscribe h).1
  | OClose id => if id <? length (chans h) then Close h id else Ret h
  | OStop => Stop h
  | ONotify drained es => notifyAll drained h es
  | OReceive id => Ret (receive h id)
  end.

Fixpoint run (h : Hub) (os : list op) : outcome Hub :=
  match os with
  | [] => Ret h
  | o :: os => match run_op h o with
               | Ret h => run h os
               | r => r
               end
  end.

(** ** The invariant: listed channels are open, each listed once *)

Definition chan_open (h : Hub) (id : nat) : Prop :=
  ∃ c, chans h !! id = Some c ∧ is_open c = true.

Definition hub_ok (h : Hub) : Prop :=
  NoDup (subscribers h) ∧ ∀ id, id ∈ subscribers h → chan_open h id.

Lemma existsb_nat_elem id l : existsb (Nat.eqb id) l = true ↔ id ∈ l.
Proof.
  rewrite existsb_elem_of. split.
  - intros (x & Hx & ->%Nat.eqb_eq). done.
  - intros H. exists id. split; [done|apply Nat.eqb_refl].
Qed.

Lemma put_chan_open h id c id' :
  id < length (chans h) → (id' ≠ id → chan_open h id') → (id' = id → is_open c = true) →
  chan_open (put_chan h id c) id'.
Proof.
  intros Hl Hne He. unfold chan_open, put_chan. simpl. destruct (decide (id' = id)) as [->|Hn].
  - exists c. rewrite list_lookup_insert_eq by done. auto.
  - rewrite list_lookup_insert_ne by done. by apply Hne.
Qed.

Lemma close_chan_ok h id :
  chan_open h id →
  ∃ h', close_chan h id = Ret h' ∧ subscribers h' = subscribers h ∧
    length (chans h') = length (chans h) ∧
    ∀ id', id' ≠ id → chan_open h id' → chan_open h' id'.
Proof.
  intros (c & Hc & Ho). unfold close_chan. rewrite Hc, Ho. eexists. split; [done|].
  split; [done|]. split; [simpl; apply length_insert|].
  intros id' Hne Ho'. apply put_chan_open; [by eapply lookup_lt_Some| |done]. done.
Qed.

Lemma close_all_ok h ids :
  NoDup ids → (∀ id, id ∈ ids → chan_open h id) → is_ret (close_all h ids) = true.
Proof.
  intros Hnd. revert h. induction Hnd as [|id ids Hid Hnd IH]; intros h Ho; [done|]. simpl.
  destruct (close_chan_ok h id) as (h' & -> & _ & _ & Hk); [apply Ho; constructor|].
  apply IH. intros id' Hin. apply Hk; [set_solver|]. apply Ho. by constructor.
Qed.

Lemma send_ok drained h e id :
  hub_ok h → id ∈ subscribers h →
  ∃ h', send drained h e id = Ret h' ∧ hub_ok h' ∧ subscribers h' = subscribers h.
Proof.
  intros [Hnd Ho] Hin. destruct (Ho id Hin) as (c & Hc & Hop). unfold send. rewrite Hc, Hop. simpl.
  assert (Hput : ∀ b r, hub_ok (put_chan h id (mk_chan b r true))).
  { intros b r. split; [done|]. intros id' Hin'. apply put_chan_open; [by eapply lookup_lt_Some| |done].
    intros _. by apply Ho. }
  destruct (length (buf c) <? chan_cap); [eauto|]. destruct (drained e id); [eauto|].
  exists h. split; [done|]. split; [by split|done].
Qed.

Lemma send_all_ok drained h e ids :
  hub_ok h → (∀ id, id ∈ ids → id ∈ subscribers h) →
  ∃ h', send_all drained h e ids = Ret h' ∧ hub_ok h' ∧ subscribers h' = subscribers h.
Proof.
  revert h. induction ids as [|id ids IH]; intros h Hok Hin; simpl; [eauto|].
  destruct (send_ok drained h e id Hok) as (h1 & -> & Hok1 & Hs); [apply Hin; constructor|].
  destruct (IH h1 Hok1) as (h2 & -> & Hok2 & Hs2); [|rewrite Hs in Hs2; eauto].
  intros id' Hid'. rewrite Hs. apply Hin. by constructor.
Qed.

Lemma notifyAll_ok drained h es :
  hub_ok h → ∃ h', notifyAll drained h es = Ret h' ∧ hub_ok h' ∧ subscribers h' = subscribers h.
Proof.
  revert h. induction es as [|e es IH]; intros h Hok; simpl; [eauto|].
  destruct (send_all_ok drained h e (subscribers h) Hok) as (h1 & -> & Hok1 & Hs); [done|].
  destruct (IH h1 Hok1) as (h2 & -> & Hok2 & Hs2). rewrite Hs in Hs2. eauto.
Qed.

Lemma Subscribe_ok h : hub_ok h → hub_ok (Subscribe h).1.
Proof.
  intros [Hnd Ho]. unfold Subscribe. split; simpl.
  - apply NoDup_app. split; [done|]. split; [|apply NoDup_singleton].
    intros id Hin ->%list_elem_of_singleton. destruct (Ho _ Hin) as (c & Hc & _).
    apply lookup_lt_Some in Hc. lia.
  - intros id [Hin| ->%list_elem_of_singleton]%elem_of_app.
    + destruct (Ho id Hin) as (c & Hc & Hop). exists c. split; [|done]. simpl. by apply lookup_app_l_Some.
    + eexists. split; [simpl; by apply list_lookup_middle|done].
Qed.

Lemma Close_ok h id : hub_ok h → ∃ h', Close h id = Ret h' ∧ hub_ok h'.
Proof.
  intros [Hnd Ho]. unfold Close. case_bool_decide; [eexists; by split|]. simpl.
  destruct (existsb (Nat.eqb id) (subscribers h)) eqn:E; [|eexists; split; [done|by split]].
  apply existsb_nat_elem in E.
  set (h1 := set_subscribers _ _). destruct (close_chan_ok h1 id) as (h2 & -> & Hs & _ & Hk); [by apply Ho|].
  exists h2. split; [done|]. split; rewrite Hs; simpl.
  - eapply sublist_NoDup; [exact Hnd|apply remove_first_sublist].
  - intros id' Hin'. apply Hk; [|apply Ho; eauto with ddl].
    intros ->. clear -Hnd Hin' E. induction (subscribers h) as [|x l IH]; simpl in *; [by apply elem_of_nil in E|].
    apply NoDup_cons in Hnd as [Hx Hnd]. destruct (Nat.eqb_spec id x) as [->|Hne]; [done|].
    apply elem_of_cons in E as [->|E]; [done|]. apply elem_of_cons in Hin' as [->|Hin']; [done|]. by apply IH.
Qed.

Lemma Stop_ok h : hub_ok h → ∃ h', Stop h = Ret h' ∧ hub_ok h'.
Proof.
  intros [Hnd Ho]. unfold Stop. destruct (stopOnce h); [eexists; by split|].
  pose proof (close_all_ok h (subscribers h) Hnd Ho) as Hr.
  destruct (close_all h (subscribers h)); try done. eexists. split; [done|].
  split; simpl; [constructor|]. by intros ? ?%elem_of_nil.
Qed.

Lemma receive_ok h id : hub_ok h → hub_ok (receive h id).
Proof.
  intros [Hnd Ho]. unfold receive. destruct (chans h !! id) as [[[|e b] r o]|] eqn:E; try by split.
  split; [done|]. intros id' Hin. apply put_chan_open; [by eapply lookup_lt_Some|intros _; by apply Ho|].
  intros ->. destruct (Ho id Hin) as (c & Hc & Hop). by simplify_eq/=.
Qed.

Lemma run_op_ok h o : hub_ok h → ∃ h', run_op h o = Ret h' ∧ hub_ok h'.
Proof.
  intros Hok. destruct o as [|id| |drained es|id]; cbn [run_op].
  - eauto using Subscribe_ok.
  - destruct (id <? length (chans h)); eauto using Close_ok.
  - by apply Stop_ok.
  - destruct (notifyAll_ok drained h es Hok) as (h' & ? & ? & _). eauto.
  - eauto using receive_ok.
Qed.

Lemma run_ok h os : hub_ok h → ∃ h', run h os = Ret h' ∧ hub_ok h'.
Proof.
  revert h. induction os as [|o os IH]; intros h Hok; simpl; [eauto|].
  destruct (run_op_ok h o Hok) as (h1 & -> & Hok1). by apply IH.
Qed.

Lemma NewHub_ok : hub_ok NewHub.
Proof. split; [constructor|]. by intros ? ?%elem_of_nil. Qed.

(** C30: whatever the order in which subscribers come, close, close again, read,
    and the syncer notifies and stops, no channel is closed twice and nothing is
    sent on a closed channel. *)
Theorem subscriptions_never_panic os :
  ∃ h, run NewHub os = Ret h ∧ ∀ id, id ∈ subscribers h → chan_open h id.
Proof. destruct (run_ok NewHub os NewHub_ok) as (h & Hr & _ & Ho). eauto. Qed.

(** ** Delivery *)

Definition delivered (c : chan) : list LineChangeEvent := received c ++ buf c.

Definition history (h : Hub) (id : nat) : option (list LineChangeEvent) :=
  delivered <$> chans h !! id.

(** Room for [n] more events in every listed channel. *)
Definition has_room (n : nat) (h : Hub) : Prop :=
  ∀ id c, id ∈ subscribers h → chans h !! id = Some c → length (buf c) + n ≤ chan_cap.

Lemma send_all_history drained h e ids n :
  hub_ok h → NoDup ids → (∀ id, id ∈ ids → id ∈ subscribers h) →
  (∀ id c, id ∈ ids → chans h !! id = Some c → length (buf c) + S n ≤ chan_cap) →
  ∃ h', send_all drained h e ids = Ret h' ∧ hub_ok h' ∧ subscribers h' = subscribers h ∧
    (∀ id c', id ∈ ids → chans h' !! id = Some c' → length (buf c') + n ≤ chan_cap) ∧
    ∀ id, (id ∈ ids → history h' id = (.++ [e]) <$> history h id) ∧
          (id ∉ ids → chans h' !! id = chans h !! id).
Proof.
  intros Hok Hnd. revert h Hok. induction Hnd as [|id ids Hid Hnd IH]; intros h Hok Hin Hroom; simpl.
  - exists h. split; [done|]. split; [done|]. split; [done|].
    split; [by intros ? ? ?%elem_of_nil|]. intros id. split; [by intros ?%elem_of_nil|done].
  - destruct (send_ok drained h e id Hok) as (h1 & Hsend & Hok1 & Hs); [apply Hin; constructor|].
    destruct Hok as [_ Ho]. destruct (Ho id) as (c & Hc & Hop); [apply Hin; constructor|].
    pose proof (Hroom id c ltac:(constructor) Hc) as Hlen.
    assert (E1 : h1 = put_chan h id (mk_chan (buf c ++ [e]) (received c) true)).
    { unfold send in Hsend. rewrite Hc, Hop in Hsend. simpl in Hsend.
      rewrite (proj2 (Nat.ltb_lt _ _)) in Hsend by lia. by simplify_eq. }
    rewrite Hsend. pose proof (lookup_lt_Some _ _ _ Hc) as Hlt.
    destruct (IH h1 Hok1) as (h2 & -> & Hok2 & Hs2 & Hr2 & Hh2).
    + intros id' Hid'. rewrite Hs. apply Hin. by constructor.
    + intros id' c' Hid' Hc'. apply (Hroom id'); [by constructor|]. rewrite E1 in Hc'. simpl in Hc'.
      rewrite list_lookup_insert_ne in Hc' by set_solver. done.
    + exists h2. split; [done|]. split; [done|]. split; [congruence|]. split.
      * intros id' c' [->|Hid']%elem_of_cons Hc'; [|by apply (Hr2 id')].
        rewrite (proj2 (Hh2 id) Hid), E1 in Hc'. simpl in Hc'.
        rewrite list_lookup_insert_eq in Hc' by done. simplify_eq/=. rewrite length_app. simpl. lia.
      * intros id'. destruct (Hh2 id') as [Hyes Hno]. destruct (decide (id' = id)) as [->|Hne].
        -- split; [intros _|set_solver]. unfold history. rewrite (Hno Hid), E1, Hc. simpl.
           rewrite list_lookup_insert_eq by done. unfold delivered. simpl. by rewrite app_assoc.
        -- assert (Hkeep : chans h1 !! id' = chans h !! id').
           { rewrite E1. simpl. by rewrite list_lookup_insert_ne. }
           unfold history in *. rewrite Hkeep in *. split; [|set_solver].
           intros [?|Hin']%elem_of_cons; [done|by apply Hyes].
Qed.

(** When the buffers of all subscribers have room for the events of one
    notification, each subscriber is handed all of them, in their order, after
    what it had been handed before, and nobody else is handed anything. *)
Theorem notifyAll_delivers drained h es :
  hub_ok h → has_room (length es) h →
  ∃ h', notifyAll drained h es = Ret h' ∧
    ∀ id, (id ∈ subscribers h → history h' id = (.++ es) <$> history h id) ∧
          (id ∉ subscribers h → chans h' !! id = chans h !! id).
Proof.
  revert h. induction es as [|e es IH]; intros h Hok Hroom; simpl.
  - exists h. split; [done|]. intros id. split; [|done]. intros _. unfold history.
    destruct (chans h !! id); simpl; [by rewrite app_nil_r|done].
  - destruct (send_all_history drained h e (subscribers h) (length es)) as (h1 & -> & Hok1 & Hs1 & Hr1 & Hh1);
      [done|apply Hok|done|exact Hroom|].
    destruct (IH h1 Hok1) as (h2 & -> & Hh2).
    { unfold has_room. by rewrite Hs1. }
    exists h2. split; [done|]. intros id. destruct (Hh1 id) as [Y1 N1]. destruct (Hh2 id) as [Y2 N2].
    rewrite Hs1 in *. split; [|intros Hn; by rewrite N2, N1]. intros Hin.
    rewrite Y2, Y1 by done. unfold history.
    destruct (chans h !! id); simpl; [|done]. by rewrite <- app_assoc.
Qed.

Lemma notifyAll_delivers_witness :
  ∃ h', notifyAll (λ _ _, false) (Subscribe NewHub).1 [mk_event LineCreate Demo.line1 1] = Ret h' ∧
    history h' 0 = Some [mk_event LineCreate Demo.line1 1].
Proof.
  destruct (notifyAll_delivers (λ _ _, false) (Subscribe NewHub).1 [mk_event LineCreate Demo.line1 1])
    as (h' & Hn & Hh).
  - apply Subscribe_ok, NewHub_ok.
  - intros id c Hid Hc. apply list_elem_of_singleton in Hid as ->. simpl in Hc. simplify_eq/=.
    unfold chan_cap. lia.
  - exists h'. split; [exact Hn|]. apply (Hh 0). constructor.
Defined.
