(* ===== verification/Slices.v ===== *)
(** * Slices: Go slices over shared backing arrays

    The manager hands its slice of lines to the scheduler it creates, and both
    go on appending to and deleting from what may be the same backing array; the
    scheduler also keeps a pointer into that array. So these slices are modelled
    with their arrays: a heap of arrays, and a slice as an array number with a
    length (all the slices of the program start at offset 0). *)
From S2P Require Import Prelude.

Section slices.
Context {A : Type} (zero : A).

Record slice := mk_slice { arr : nat; len : nat }.

Definition cells (h : list (list A)) (a : nat) : list A := default [] (h !! a).
Definition cap (h : list (list A)) (s : slice) : nat := length (cells h (arr s)).
Definition contents (h : list (list A)) (s : slice) : list A := take (len s) (cells h (arr s)).

(** [make([]T, 0, n)] *)
Definition make (h : list (list A)) (n : nat) : list (list A) * slice :=
  (h ++ [replicate n zero], mk_slice (length h) 0).

(** [append(s, x)]: in place while there is capacity; otherwise a new array,
    with [spare] cells beyond the new element (the language leaves it open). *)
Definition append (spare : nat) (h : list (list A)) (s : slice) (x : A) : list (list A) * slice :=
  if len s <? cap h s
  then (<[arr s := <[len s := x]> (cells h (arr s))]> h, mk_slice (arr s) (S (len s)))
  else (h ++ [contents h s ++ x :: replicate spare zero], mk_slice (length h) (S (len s))).

(** [s[i] = x] for an index in range. *)
Definition store (h : list (list A)) (s : slice) (i : nat) (x : A) : list (list A) :=
  <[arr s := <[i := x]> (cells h (arr s))]> h.

(** [append(s[:i], s[i+1:]...)]: the tail is moved down in the same array, so
    the last cell keeps its old value, outside the new slice. *)
Definition delete_at (h : list (list A)) (s : slice) (i : nat) : list (list A) * slice :=
  let c := contents h s in
  (<[arr s := take i c ++ drop (S i) c ++ drop (len s - 1) (cells h (arr s))]> h,
   mk_slice (arr s) (len s - 1)).

(** A slice that is really there: its array exists and is long enough. *)
Definition valid (h : list (list A)) (s : slice) : Prop := arr s < length h ∧ len s ≤ cap h s.

Lemma cells_insert_eq h a c : a < length h → cells (<[a := c]> h) a = c.
Proof. intros H. unfold cells. by rewrite list_lookup_insert_eq. Qed.

Lemma cells_insert_ne h a b c : a ≠ b → cells (<[a := c]> h) b = cells h b.
Proof. intros H. unfold cells. by rewrite list_lookup_insert_ne. Qed.

Lemma cells_app_old h c a : a < length h → cells (h ++ [c]) a = cells h a.
Proof. intros H. unfold cells. by rewrite lookup_app_l. Qed.

Lemma cells_app_new h c : cells (h ++ [c]) (length h) = c.
Proof. unfold cells. by rewrite list_lookup_middle. Qed.

Lemma length_contents h s : valid h s → length (contents h s) = len s.
Proof. intros [_ H]. unfold contents, cap in *. rewrite length_take. lia. Qed.

Lemma make_valid h n : valid (make h n).1 (make h n).2.
Proof. unfold valid, make, cap. simpl. rewrite length_app. simpl. lia. Qed.

Lemma make_contents h n : contents (make h n).1 (make h n).2 = [].
Proof. done. Qed.

Lemma append_valid spare h s x :
  valid h s → valid (append spare h s x).1 (append spare h s x).2.
Proof.
  intros Hv. pose proof (length_contents h s Hv) as Hl. destruct Hv as [Ha Hc].
  unfold append. destruct (Nat.ltb_spec (len s) (cap h s)); unfold valid, cap; simpl.
  - rewrite cells_insert_eq, !length_insert by done. unfold cap in *. lia.
  - rewrite cells_app_new, !length_app, Hl. simpl. rewrite length_replicate. lia.
Qed.

Lemma append_contents spare h s x :
  valid h s → contents (append spare h s x).1 (append spare h s x).2 = contents h s ++ [x].
Proof.
  intros Hv. pose proof (length_contents h s Hv) as Hl. destruct Hv as [Ha Hc].
  unfold append. destruct (Nat.ltb_spec (len s) (cap h s)); unfold contents, cap in *; simpl.
  - rewrite cells_insert_eq by done.
    rewrite take_S_r with (x := x) by (apply list_lookup_insert_eq; lia).
    by rewrite take_insert_ge by lia.
  - rewrite cells_app_new, take_app, Hl.
    replace (S (len s) - len s) with 1 by lia. simpl. rewrite take_take.
    by replace (S (len s) `min` len s) with (len s) by lia.
Qed.

(** Appending leaves alone every other array, and the cells of a slice of the
    same array that is no longer than the one appended to. *)
Lemma append_frame spare h s x s' :
  valid h s → valid h s' → arr s' ≠ arr s ∨ len s' ≤ len s →
  contents (append spare h s x).1 s' = contents h s' ∧ valid (append spare h s x).1 s'.
Proof.
  intros [Ha Hc] [Ha' Hc'] Hd. unfold append, contents, valid, cap in *.
  destruct (Nat.ltb_spec (len s) (length (cells h (arr s)))); simpl.
  - rewrite length_insert. destruct (decide (arr s' = arr s)) as [E|E].
    + rewrite E, cells_insert_eq, length_insert by done. rewrite take_insert_ge by lia.
      rewrite E in Hc'. done.
    + by rewrite cells_insert_ne by done.
  - rewrite cells_app_old by done. rewrite length_app. split; [done|]. split; [lia|done].
Qed.

(** The array of the result is the old one or a fresh one. *)
Lemma append_arr spare h s x :
  (append spare h s x).2 = mk_slice (arr s) (S (len s)) ∧ len s < cap h s ∨
  (append spare h s x).2 = mk_slice (length h) (S (len s)) ∧ cap h s ≤ len s.
Proof. unfold append. destruct (Nat.ltb_spec (len s) (cap h s)); simpl; auto. Qed.

Lemma append_length_heap spare h s x : length h ≤ length (append spare h s x).1.
Proof. unfold append. case_match; simpl; rewrite ?length_insert, ?length_app; lia. Qed.

Lemma delete_at_valid h s i : valid h s → i < len s → valid (delete_at h s i).1 (delete_at h s i).2.
Proof.
  intros Hv Hi. pose proof (length_contents h s Hv) as Hl. destruct Hv as [Ha Hc].
  unfold valid, delete_at, cap in *. simpl. rewrite cells_insert_eq, length_insert by done.
  rewrite !length_app, length_take, !length_drop, Hl. lia.
Qed.

Lemma delete_at_contents h s i :
  valid h s → i < len s →
  contents (delete_at h s i).1 (delete_at h s i).2 = take i (contents h s) ++ drop (S i) (contents h s).
Proof.
  intros Hv Hi. pose proof (length_contents h s Hv) as Hl. destruct Hv as [Ha Hc].
  unfold delete_at. unfold contents at 1. simpl. rewrite cells_insert_eq by done.
  rewrite app_assoc. rewrite take_app_length'; [done|].
  rewrite length_app, length_take, length_drop, Hl. lia.
Qed.

(** What another holder of the same array sees of its own, longer slice. *)
Lemma delete_at_cells h s i :
  valid h s →
  cells (delete_at h s i).1 (arr s) =
    take i (contents h s) ++ drop (S i) (contents h s) ++ drop (len s - 1) (cells h (arr s)).
Proof. intros [Ha _]. unfold delete_at. simpl. by rewrite cells_insert_eq. Qed.

(** The array keeps its size, so a holder of the old slice still has one. *)
Lemma delete_at_old_valid h s i : valid h s → i < len s → valid (delete_at h s i).1 s.
Proof.
  intros Hv Hi. pose proof (length_contents h s Hv) as Hl. pose proof (delete_at_cells h s i Hv) as Hc.
  destruct Hv as [Ha Hcap]. unfold valid, cap in *. rewrite Hc. unfold delete_at. simpl.
  rewrite length_insert, !length_app, length_take, !length_drop, Hl. lia.
Qed.

Lemma shorter_contents h s n :
  n ≤ len s → contents h (mk_slice (arr s) n) `sublist_of` contents h s.
Proof.
  intros Hn. unfold contents. simpl.
  replace (take n (cells h (arr s))) with (take n (take (len s) (cells h (arr s)))).
  - apply sublist_take.
  - rewrite take_take. f_equal. lia.
Qed.

Lemma store_frame h s i x s' :
  valid h s → valid h s' → arr s' ≠ arr s →
  contents (store h s i x) s' = contents h s' ∧ valid (store h s i x) s'.
Proof.
  intros _ [Ha' Hc'] Hd. unfold store, contents, valid, cap in *.
  by rewrite length_insert, cells_insert_ne.
Qed.

Lemma store_valid h s i x s' : valid h s' → valid (store h s i x) s'.
Proof.
  intros [Ha Hc]. unfold valid, store, cap in *. rewrite length_insert. split; [done|].
  destruct (decide (arr s' = arr s)) as [E|E].
  - rewrite E in *. rewrite cells_insert_eq by done. by rewrite length_insert.
  - by rewrite cells_insert_ne.
Qed.

Lemma store_contents h s i x :
  valid h s → contents (store h s i x) s = <[i := x]> (contents h s).
Proof.
  intros [Ha Hc]. unfold contents, store. rewrite cells_insert_eq by done.
  destruct (decide (i < len s)).
  - apply take_insert_lt. done.
  - rewrite take_insert_ge by lia. rewrite list_insert_ge; [done|]. rewrite length_take. lia.
Qed.
End slices.
