(* ===== verification/Queue.v ===== *)
(** * Queue: the lines of one interval ([src/manager/interval_queue.go])

    An [IntervalTaskQueue] holds the lines probed at one interval and the
    execution signals its ticker has sent and no worker has consumed. The slice
    of lines is private to the queue (every method copies in and out), so it is
    a list here. *)
From S2P Require Import Prelude GoStrings Lines.

Record IntervalTaskQueue := mk_queue {
  q_id : nat;
  interval : Z;
  q_lines : list Line;
  execNotify : nat;
  q_stopped : bool }.

(** Capacity of the [execNotify] channel. *)
Definition notify_cap : nat := 200.

(** [NewIntervalTaskQueue]; [id] tells apart the objects that successive calls make. *)
Definition NewIntervalTaskQueue (id : nat) (i : Z) : IntervalTaskQueue :=
  mk_queue id (if (i <=? 0)%Z then Nanosecond else i) [] 0 false.

Definition set_q_lines (q : IntervalTaskQueue) (ls : list Line) : IntervalTaskQueue :=
  mk_queue (q_id q) (interval q) ls (execNotify q) (q_stopped q).
Definition set_notify (q : IntervalTaskQueue) (n : nat) : IntervalTaskQueue :=
  mk_queue (q_id q) (interval q) (q_lines q) n (q_stopped q).

(** One firing of the ticker in [schedule]: the signal is dropped when the
    channel is full; after [Stop] there is none. *)
Definition tick (q : IntervalTaskQueue) : IntervalTaskQueue :=
  if q_stopped q then q
  else if execNotify q <? notify_cap then set_notify q (S (execNotify q)) else q.

(** A worker receives from [ExecNotify()]; [None] means that it blocks. *)
Definition consume (q : IntervalTaskQueue) : option IntervalTaskQueue :=
  match execNotify q with
  | O => None
  | S n => Some (set_notify q n)
  end.

Definition GetTasksSnapshot (q : IntervalTaskQueue) : list Line := q_lines q.
Definition IsEmpty (q : IntervalTaskQueue) : bool := length (q_lines q) =? 0.
Definition Remove (q : IntervalTaskQueue) (lineIP : string) : IntervalTaskQueue :=
  set_q_lines q (remove_first (has_key IP lineIP) (q_lines q)).
Definition Contains (q : IntervalTaskQueue) (lineIP : string) : bool :=
  existsb (has_key IP lineIP) (q_lines q).
Definition Stop (q : IntervalTaskQueue) : IntervalTaskQueue :=
  mk_queue (q_id q) (interval q) (q_lines q) (execNotify q) true.
Definition Add (q : IntervalTaskQueue) (l : Line) : IntervalTaskQueue :=
  set_q_lines q (q_lines q ++ [l]).
Definition UpdateTask (q : IntervalTaskQueue) (l : Line) : IntervalTaskQueue :=
  set_q_lines q (update_first (has_key IP (IP l)) l (q_lines q)).
Definition ReplaceAll (q : IntervalTaskQueue) (ls : list Line) : IntervalTaskQueue :=
  set_q_lines q ls.

(** ** The queue is a finite map from line IPs to lines *)

Definition queue_ok (q : IntervalTaskQueue) : Prop :=
  NoDup (IP <$> q_lines q) ∧ (0 < interval q)%Z ∧ execNotify q ≤ notify_cap.

Definition as_map (ls : list Line) : gmap string Line :=
  list_to_map ((λ l, (IP l, l)) <$> ls).

Lemma as_map_fst ls : ((λ l, (IP l, l)) <$> ls).*1 = IP <$> ls.
Proof. by rewrite <- list_fmap_compose. Qed.

Lemma as_map_lookup ls k l :
  NoDup (IP <$> ls) → as_map ls !! k = Some l ↔ l ∈ ls ∧ IP l = k.
Proof.
  intros Hnd. unfold as_map. rewrite <- elem_of_list_to_map by by rewrite as_map_fst.
  rewrite list_elem_of_fmap. split.
  - intros (l' & [= -> ->] & Hin). done.
  - intros [Hin <-]. eauto.
Qed.

Lemma as_map_None ls k : as_map ls !! k = None ↔ k ∉ IP <$> ls.
Proof. unfold as_map. by rewrite <- not_elem_of_list_to_map, as_map_fst. Qed.

Lemma as_map_ext ls m :
  NoDup (IP <$> ls) → (∀ k l, l ∈ ls ∧ IP l = k ↔ m !! k = Some l) → as_map ls = m.
Proof. intros Hnd H. apply map_eq. intros k. apply option_eq. intros l. by rewrite as_map_lookup. Qed.

Lemma as_map_app_new ls l :
  NoDup (IP <$> ls) → IP l ∉ IP <$> ls → as_map (ls ++ [l]) = <[IP l := l]> (as_map ls).
Proof.
  intros Hnd Hn. apply as_map_ext.
  - rewrite fmap_app. apply NoDup_app. split; [done|]. split; [|apply NoDup_singleton].
    intros x Hx ->%list_elem_of_singleton. done.
  - intros k l'. rewrite elem_of_app, list_elem_of_singleton, lookup_insert_Some, as_map_lookup by done.
    split.
    + intros [[Hin| ->] <-]; [|by left]. destruct (decide (IP l = IP l')) as [E|E]; [|by right].
      destruct Hn. rewrite E. by apply list_elem_of_fmap_2.
    + intros [[<- <-]|[Hne [Hin Hk]]]; auto.
Qed.

Lemma as_map_remove ls k :
  NoDup (IP <$> ls) → as_map (remove_first (has_key IP k) ls) = delete k (as_map ls).
Proof.
  intros Hnd. apply as_map_ext; [by apply NoDup_remove_first|]. intros k' l.
  rewrite elem_of_remove_first_key, lookup_delete_Some, as_map_lookup by done. naive_solver.
Qed.

Lemma as_map_update ls l :
  NoDup (IP <$> ls) → IP l ∈ IP <$> ls →
  as_map (update_first (has_key IP (IP l)) l ls) = <[IP l := l]> (as_map ls).
Proof.
  intros Hnd Hin. apply as_map_ext; [by rewrite update_first_keys|]. intros k' l'.
  rewrite elem_of_update_first_key, lookup_insert_Some, as_map_lookup by done. naive_solver.
Qed.

Lemma as_map_perm l1 l2 :
  NoDup (IP <$> l1) → l1 ≡ₚ l2 → as_map l1 = as_map l2.
Proof.
  intros Hnd Hp. unfold as_map. apply list_to_map_proper; [by rewrite as_map_fst|by rewrite Hp].
Qed.

(** C20: a queue implements a finite map keyed by line IP: adding a line that is
    not queued inserts it, updating a queued line overwrites it and updating an
    unknown one does nothing, removing deletes it; membership and emptiness are
    those of the map, and every operation keeps the queue well formed. *)
Theorem queue_refines_map q l :
  queue_ok q →
  (Contains q (IP l) = false →
     queue_ok (Add q l) ∧ as_map (q_lines (Add q l)) = <[IP l := l]> (as_map (q_lines q))) ∧
  queue_ok (UpdateTask q l) ∧
  (as_map (q_lines (UpdateTask q l)) =
     if Contains q (IP l) then <[IP l := l]> (as_map (q_lines q)) else as_map (q_lines q)) ∧
  queue_ok (Remove q (IP l)) ∧
  as_map (q_lines (Remove q (IP l))) = delete (IP l) (as_map (q_lines q)) ∧
  Contains q (IP l) = bool_decide (is_Some (as_map (q_lines q) !! IP l)) ∧
  IsEmpty q = bool_decide (as_map (q_lines q) = ∅).
Proof.
  intros (Hnd & Hi & Hc).
  assert (Hcont : Contains q (IP l) = true ↔ is_Some (as_map (q_lines q) !! IP l)).
  { unfold Contains. rewrite existsb_has_key. split.
    - intros (l' & Hk & Hin)%list_elem_of_fmap. exists l'. by apply as_map_lookup.
    - intros [l' Hl']. apply as_map_lookup in Hl' as [Hin <-]; [|done]. by apply list_elem_of_fmap_2. }
  split_and!.
  - intros Hno. unfold Contains in Hno. rewrite existsb_has_key_false in Hno.
    split; [|by apply as_map_app_new]. split; [|done]. simpl. rewrite fmap_app. apply NoDup_app.
    split; [done|]. split; [|apply NoDup_singleton]. by intros x Hx ->%list_elem_of_singleton.
  - split; [|done]. simpl. by rewrite update_first_keys.
  - simpl. destruct (Contains q (IP l)) eqn:E; unfold Contains in E.
    + apply existsb_has_key in E. by apply as_map_update.
    + by rewrite update_first_none.
  - split; [|done]. by apply NoDup_remove_first.
  - by apply as_map_remove.
  - apply eq_true_iff_eq. rewrite bool_decide_eq_true. exact Hcont.
  - unfold IsEmpty. destruct (q_lines q) as [|l0 ls]; simpl; [done|].
    symmetry. apply bool_decide_eq_false. apply insert_non_empty.
Qed.

Lemma queue_refines_map_witness :
  let l := mk_line "1" "10.1.1.1" Minute (mk_router "10.0.0.1" "u" "p" "cisco_iosxe" "ssh") 0 in
  as_map (q_lines (Add (NewIntervalTaskQueue 0 Minute) l)) = {[ "10.1.1.1" := l ]}.
Proof.
  intros l. destruct (queue_refines_map (NewIntervalTaskQueue 0 Minute) l) as [H _].
  - split; [constructor|]. split; [done|]. simpl. lia.
  - destruct H as [_ H]; [reflexivity|]. rewrite H. reflexivity.
Defined.

(** The ticker and the workers keep the number of pending signals within the channel. *)
Lemma tick_ok q : queue_ok q → queue_ok (tick q).
Proof.
  unfold queue_ok, tick. intros (? & ? & ?). destruct (q_stopped q); [done|].
  destruct (Nat.ltb_spec (execNotify q) notify_cap); simpl; [|done]. split_and!; [done..|lia].
Qed.

Lemma consume_ok q q' : queue_ok q → consume q = Some q' → queue_ok q' ∧ S (execNotify q') = execNotify q.
Proof.
  unfold queue_ok, consume. intros (? & ? & ?). destruct (execNotify q) eqn:E; [done|].
  intros [= <-]. simpl. split_and!; [done..|lia|lia].
Qed.

Lemma NewIntervalTaskQueue_ok id i : queue_ok (NewIntervalTaskQueue id i).
Proof.
  split; [constructor|]. split; [|simpl; lia]. simpl. destruct (Z.leb_spec i 0); [done|lia].
Qed.

#[export] Hint Resolve tick_ok NewIntervalTaskQueue_ok : ddl.
