(* ===== verification/Scheduler.v ===== *)
(** * Scheduler: the line handlers of a router scheduler ([src/manager/router_scheduler.go])

    A [RouterScheduler] files the lines of one router into a queue per interval
    and keeps a slice of the lines it knows. That slice is the one its creator
    handed over, so the handlers work on the heap of [Slices]. The queue
    workers are started once, by [Start]; a queue is named by its number so that
    a queue made later under the same interval is a different one. *)
From S2P Require Import Prelude GoStrings Types Lines Config Queue Slices.
Local Open Scope Z_scope.

Definition no_line : Line := mk_line "" "" 0 (mk_router "" "" "" "" "") 0.

Record RouterScheduler := mk_scheduler {
  router_cell : nat;                   (* the array whose first cell [router] points into *)
  s_lines : slice;
  queues : gmap Z IntervalTaskQueue;
  next_queue : nat;
  workers : list nat;                  (* queues with a worker *)
  destroy_timers : list Z;             (* pending 10-minute timers, by interval *)
  s_stopped : bool }.

Section scheduler.
(** How many spare cells an array gets when [append] grows it. *)
Context (spare : nat → nat).

Definition push (h : list (list Line)) (s : slice) (l : Line) : list (list Line) * slice :=
  append no_line (spare (cap h s)) h s l.

(** [if _, exists := s.queues[i]; !exists { ... }; s.queues[i].Add(line)] *)
Definition enqueue (s : RouterScheduler) (l : Line) : RouterScheduler :=
  match queues s !! Interval l with
  | Some q => { s with queues ::= <[Interval l := Add q l]> }
  | None => { s with queues ::= <[Interval l := Add (NewIntervalTaskQueue (next_queue s) (Interval l)) l]>;
                     next_queue ::= S }
  end.

Definition initializeQueues (h : list (list Line)) (s : RouterScheduler) : RouterScheduler :=
  foldl enqueue s (contents h (s_lines s)).

(** [NewRouterScheduler], the part that concerns lines; it fails when the
    configuration of the router is rejected. [router] is [&lines[0].Router]. *)
Definition NewRouterScheduler (h : list (list Line)) (router : Router) (initialLines : slice)
    : outcome RouterScheduler :=
  match scheduler_config router with
  | Ret _ => Ret (initializeQueues h (mk_scheduler (arr initialLines) initialLines ∅ 0 [] [] false))
  | Fail e => Fail ("failed to build connection config: " +:+ e)
  | Panic e => Panic e
  end.

(** The router the scheduler sees now, through its pointer. *)
Definition current_router (h : list (list Line)) (s : RouterScheduler) : option Router :=
  line_Router <$> head (cells h (router_cell s)).

(** [Start]: a worker for every queue there is. *)
Definition Start (s : RouterScheduler) : RouterScheduler :=
  { s with workers ::= (.++ ((λ kv, q_id kv.2) <$> map_to_list (queues s))) }.

(** [Stop]: the channel is closed and the queues' tickers stop. *)
Definition Stop (s : RouterScheduler) : RouterScheduler :=
  { s with s_stopped := true; queues ::= fmap Queue.Stop; workers := [] }.

Definition lineExistsLocked (h : list (list Line)) (s : RouterScheduler) (lineIP : string) : bool :=
  existsb (has_key IP lineIP) (contents h (s_lines s)).

Definition OnLineCreated (h : list (list Line)) (s : RouterScheduler) (l : Line)
    : list (list Line) * RouterScheduler :=
  if lineExistsLocked h s (IP l) then (h, s)
  else
    let s := enqueue s l in
    let '(h, sl) := push h (s_lines s) l in
    (h, { s with s_lines := sl }).

(** Scenario 1 of [OnLineUpdated]: the line moves to another queue; scenario 2:
    it is updated in place. *)
Definition requeue (s : RouterScheduler) (oldLine newLine : Line) : RouterScheduler :=
  if negb (Interval oldLine =? Interval newLine) then
    let s := match queues s !! Interval oldLine with
             | Some q => { s with queues ::= <[Interval oldLine := Remove q (IP oldLine)]> }
             | None => s
             end in
    enqueue s newLine
  else
    match queues s !! Interval oldLine with
    | Some q => { s with queues ::= <[Interval oldLine := UpdateTask q newLine]> }
    | None => s
    end.

Definition OnLineUpdated (h : list (list Line)) (s : RouterScheduler) (oldLine newLine : Line)
    : list (list Line) * RouterScheduler :=
  let s := requeue s oldLine newLine in
  match find_index (has_key IP (IP oldLine)) (contents h (s_lines s)) with
  | Some i => (store h (s_lines s) i newLine, s)
  | None => (h, s)
  end.

Definition OnLineDeleted (s : RouterScheduler) (l : Line) : RouterScheduler :=
  match queues s !! Interval l with
  | None => s
  | Some q =>
      if negb (Contains q (IP l)) then s
      else
        let q := Remove q (IP l) in
        let s := { s with queues ::= <[Interval l := q]> } in
        if IsEmpty q then { s with destroy_timers ::= (Interval l ::.) } else s
  end.

(** The function of [time.AfterFunc(10*time.Minute, ...)]. *)
Definition destroy_queue (s : RouterScheduler) (i : Z) : RouterScheduler :=
  match queues s !! i with
  | Some q => if IsEmpty q then { s with queues ::= delete i } else s
  | None => s
  end.

Definition OnLineReset (h : list (list Line)) (s : RouterScheduler) (newLines : list Line)
    : list (list Line) * RouterScheduler :=
  let '(h, sl) := make no_line h (length newLines) in
  let s := { s with queues := ∅; s_lines := sl } in
  foldl (λ '(h, s) l,
    let s := enqueue s l in
    let '(h, sl) := push h (s_lines s) l in
    (h, { s with s_lines := sl })) (h, s) newLines.

(** [GetSchedulerHealth]: the counts it reports. *)
Definition GetSchedulerHealth (h : list (list Line)) (s : RouterScheduler)
    : nat * nat * list (Z * nat * bool) :=
  (length (contents h (s_lines s)), size (queues s),
   (λ kv, (kv.1, length (q_lines kv.2), IsEmpty kv.2)) <$> map_to_list (queues s)).

(** ** The lines that are queued *)

Definition in_queue (s : RouterScheduler) (l : Line) : Prop :=
  ∃ q, queues s !! Interval l = Some q ∧ l ∈ q_lines q.

(** A line is probed when its queue has a worker. *)
Definition served (s : RouterScheduler) (l : Line) : Prop :=
  ∃ q, queues s !! Interval l = Some q ∧ l ∈ q_lines q ∧ q_id q ∈ workers s.

(** Each queue holds lines of its own interval, and the queues together hold
    exactly the lines of [M], a map from line IPs to lines. *)
Definition queues_hold (qs : gmap Z IntervalTaskQueue) (M : gmap string Line) : Prop :=
  (∀ k l, M !! k = Some l → IP l = k) ∧
  ∀ i l, (∃ q, qs !! i = Some q ∧ l ∈ q_lines q) ↔ (M !! IP l = Some l ∧ Interval l = i).

Definition queues_nodup (qs : gmap Z IntervalTaskQueue) : Prop :=
  ∀ i q, qs !! i = Some q → NoDup (IP <$> q_lines q).

Lemma queues_hold_in s M l :
  queues_hold (queues s) M → in_queue s l ↔ M !! IP l = Some l.
Proof. intros [_ H]. unfold in_queue. rewrite H. naive_solver. Qed.

(** The lines under interval [i] after its queue has been replaced by [ls]. *)
Lemma queues_hold_insert qs M M' i q :
  queues_hold qs M → (∀ k l, M' !! k = Some l → IP l = k) →
  (∀ l, l ∈ q_lines q ↔ M' !! IP l = Some l ∧ Interval l = i) →
  (∀ l, Interval l ≠ i → (M' !! IP l = Some l ↔ M !! IP l = Some l)) →
  queues_hold (<[i := q]> qs) M'.
Proof.
  intros [_ H] Hk Hq Hrest. split; [done|]. intros j l. destruct (decide (j = i)) as [->|Hj].
  - rewrite <- Hq. setoid_rewrite lookup_insert_eq. naive_solver.
  - setoid_rewrite lookup_insert_ne; [|done]. rewrite H. split; intros [? <-]; split; auto;
      apply Hrest; auto.
Qed.

Lemma queues_hold_empty : queues_hold ∅ ∅.
Proof.
  split; [by intros ??; rewrite lookup_empty|]. intros i l. split.
  - intros (q & Hq & _). by rewrite lookup_empty in Hq.
  - intros [Hl _]. by rewrite lookup_empty in Hl.
Qed.

Lemma queues_nodup_empty : queues_nodup ∅.
Proof. intros i q Hq. by rewrite lookup_empty in Hq. Qed.

Lemma queues_nodup_insert qs i q :
  queues_nodup qs → NoDup (IP <$> q_lines q) → queues_nodup (<[i := q]> qs).
Proof. intros H Hq j q'. rewrite lookup_insert_Some. intros [[_ <-]|[_ ?]]; [done|by eapply H]. Qed.

Lemma queues_hold_lookup qs M i q l :
  queues_hold qs M → qs !! i = Some q → l ∈ q_lines q ↔ M !! IP l = Some l ∧ Interval l = i.
Proof. intros [_ H] Hq. rewrite <- H. naive_solver. Qed.

Lemma queues_hold_no_queue qs M i l :
  queues_hold qs M → qs !! i = None → M !! IP l = Some l → Interval l ≠ i.
Proof. intros [_ H] Hq Hl Hi. destruct (proj2 (H i l) (conj Hl Hi)) as (q & ? & _). congruence. Qed.

Lemma queue_keys_fresh qs M i q l :
  queues_hold qs M → qs !! i = Some q → M !! IP l = None → IP l ∉ IP <$> q_lines q.
Proof.
  intros Hh Hq Hn (l' & Hip & Hin)%list_elem_of_fmap.
  apply (queues_hold_lookup qs M i q) in Hin as [Hl' _]; [|done..]. congruence.
Qed.

Lemma enqueue_holds s M l :
  queues_hold (queues s) M → queues_nodup (queues s) → M !! IP l = None →
  queues_hold (queues (enqueue s l)) (<[IP l := l]> M) ∧ queues_nodup (queues (enqueue s l)).
Proof.
  intros Hh Hnd Hn.
  assert (Hk : ∀ k l', <[IP l:=l]> M !! k = Some l' → IP l' = k).
  { intros k l' [[<- <-]|[_ Hl']]%lookup_insert_Some; [done|]. by apply Hh. }
  assert (Hrest : ∀ l', Interval l' ≠ Interval l → (<[IP l:=l]> M !! IP l' = Some l' ↔ M !! IP l' = Some l')).
  { intros l' Hi. rewrite lookup_insert_Some. split; [naive_solver|].
    intros Hl'. right. split; [congruence|done]. }
  assert (Hq : ∀ ls, (∀ l', l' ∈ ls ↔ M !! IP l' = Some l' ∧ Interval l' = Interval l) →
    ∀ l', l' ∈ ls ++ [l] ↔ <[IP l:=l]> M !! IP l' = Some l' ∧ Interval l' = Interval l).
  { intros ls Hls l'. rewrite elem_of_app, list_elem_of_singleton, Hls, lookup_insert_Some. split.
    - intros [[H1 H2]| ->]; [|naive_solver]. split; [right; split; [congruence|done]|done].
    - intros [[[_ <-]|[_ ?]] ?]; auto. }
  assert (Hnd' : ∀ ls, NoDup (IP <$> ls) → IP l ∉ IP <$> ls → NoDup (IP <$> (ls ++ [l]))).
  { intros ls H1 H2. rewrite fmap_app. apply NoDup_app. split; [done|]. split; [|apply NoDup_singleton].
    by intros x Hx ->%list_elem_of_singleton. }
  unfold enqueue. destruct (queues s !! Interval l) as [q|] eqn:E; simpl; split.
  - eapply queues_hold_insert; [exact Hh|done| |done]. apply Hq. intros l'. by eapply queues_hold_lookup.
  - apply queues_nodup_insert; [done|]. apply Hnd'; [by eapply Hnd|by eapply queue_keys_fresh].
  - eapply queues_hold_insert; [exact Hh|done| |done]. apply (Hq []). intros l'. split; [by intros ?%elem_of_nil|].
    intros [Hl' Hi]. by destruct (queues_hold_no_queue _ _ _ _ Hh E Hl').
  - apply queues_nodup_insert; [done|]. apply NoDup_singleton.
Qed.

Lemma remove_holds qs M i q k :
  queues_hold qs M → queues_nodup qs → qs !! i = Some q →
  (∀ l, M !! k = Some l → Interval l = i) →
  queues_hold (<[i := Remove q k]> qs) (delete k M) ∧ queues_nodup (<[i := Remove q k]> qs).
Proof.
  intros Hh Hnd Hq Hi. pose proof (Hnd i q Hq) as Hn. split.
  - eapply queues_hold_insert; [exact Hh| | |].
    + intros k' l [_ Hl]%lookup_delete_Some. by apply Hh.
    + intros l. simpl. rewrite elem_of_remove_first_key by done.
      rewrite (queues_hold_lookup qs M i q) by done. rewrite lookup_delete_Some. naive_solver.
    + intros l Hne. rewrite lookup_delete_Some. split; [naive_solver|]. intros Hl. split; [|done].
      intros ->. by apply Hne, Hi.
  - apply queues_nodup_insert; [done|]. by apply NoDup_remove_first.
Qed.

Lemma update_holds qs M i q l0 l :
  queues_hold qs M → queues_nodup qs → qs !! i = Some q →
  M !! IP l = Some l0 → Interval l0 = i → Interval l = i →
  queues_hold (<[i := UpdateTask q l]> qs) (<[IP l := l]> M) ∧ queues_nodup (<[i := UpdateTask q l]> qs).
Proof.
  intros Hh Hnd Hq Hl0 Hi0 Hi. pose proof (Hnd i q Hq) as Hn.
  assert (Hin : IP l ∈ IP <$> q_lines q).
  { pose proof (proj1 Hh _ _ Hl0) as Hip. rewrite <- Hip. apply list_elem_of_fmap_2.
    apply (queues_hold_lookup qs M i q); [done..|]. split; [|done]. by rewrite Hip. }
  split.
  - eapply queues_hold_insert; [exact Hh| | |].
    + intros k l' [[<- <-]|[_ Hl']]%lookup_insert_Some; [done|]. by apply Hh.
    + intros l'. simpl. rewrite elem_of_update_first_key by done.
      rewrite (queues_hold_lookup qs M i q) by done. rewrite lookup_insert_Some. naive_solver.
    + intros l' Hne. rewrite lookup_insert_Some. split; [naive_solver|]. intros Hl'. right.
      split; [|done]. intros E. rewrite <- E in Hl'. congruence.
  - apply queues_nodup_insert; [done|]. simpl. by rewrite update_first_keys.
Qed.

(** ** The handlers implement operations on the map of monitored lines *)

(** The state of a scheduler that monitors [M]: besides the queues, the slice of
    known lines covers the IPs of [M]. *)
Definition monitors (h : list (list Line)) (s : RouterScheduler) (M : gmap string Line) : Prop :=
  queues_hold (queues s) M ∧ queues_nodup (queues s) ∧ valid h (s_lines s) ∧
  ∀ k, is_Some (M !! k) → k ∈ IP <$> contents h (s_lines s).

Definition known (h : list (list Line)) (s : RouterScheduler) (k : string) : Prop :=
  k ∈ IP <$> contents h (s_lines s).

Lemma enqueue_s_lines s l : s_lines (enqueue s l) = s_lines s.
Proof. unfold enqueue. by destruct (queues s !! Interval l). Qed.

Lemma lineExistsLocked_known h s k : lineExistsLocked h s k = true ↔ known h s k.
Proof. apply existsb_has_key. Qed.

Lemma create_monitors h s M l :
  monitors h s M → M !! IP l = None →
  let '(h', sl) := push h (s_lines s) l in
  monitors h' { enqueue s l with s_lines := sl } (<[IP l := l]> M).
Proof.
  intros (Hh & Hnd & Hv & Hk) Hn. destruct (enqueue_holds s M l Hh Hnd Hn) as [Hh' Hnd'].
  unfold push. pose proof (append_valid no_line (spare (cap h (s_lines s))) h (s_lines s) l Hv) as Hv'.
  pose proof (append_contents no_line (spare (cap h (s_lines s))) h (s_lines s) l Hv) as Hc.
  destruct (append _ _ _ _ _) as [h' sl]. simpl in *. split_and!; [done..|].
  intros k Hs. simpl. rewrite Hc, fmap_app, elem_of_app.
  destruct (decide (k = IP l)) as [->|Hne]; [right; constructor|left]. apply Hk.
  by rewrite lookup_insert_ne in Hs.
Qed.

Lemma OnLineCreated_known h s l : known h s (IP l) → OnLineCreated h s l = (h, s).
Proof. intros H%lineExistsLocked_known. unfold OnLineCreated. by rewrite H. Qed.

Lemma OnLineCreated_monitors h s M l :
  monitors h s M → ¬ known h s (IP l) →
  monitors (OnLineCreated h s l).1 (OnLineCreated h s l).2 (<[IP l := l]> M).
Proof.
  intros Hm Hn. unfold OnLineCreated.
  rewrite (not_true_is_false (lineExistsLocked h s (IP l))) by by rewrite lineExistsLocked_known.
  rewrite enqueue_s_lines. assert (M !! IP l = None) as HM.
  { apply eq_None_not_Some. intros Hs. apply Hn. by apply Hm. }
  pose proof (create_monitors h s M l Hm HM) as H. destruct (push h (s_lines s) l). done.
Qed.

Lemma requeue_holds s M old new :
  queues_hold (queues s) M → queues_nodup (queues s) → M !! IP old = Some old → IP new = IP old →
  queues_hold (queues (requeue s old new)) (<[IP new := new]> M) ∧
  queues_nodup (queues (requeue s old new)) ∧ s_lines (requeue s old new) = s_lines s.
Proof.
  intros Hh Hnd Hold Hip. unfold requeue.
  destruct (proj2 (proj2 Hh (Interval old) old) (conj Hold eq_refl)) as (q & Hq & Hin).
  rewrite Hq. destruct (Z.eqb_spec (Interval old) (Interval new)) as [Ei|Ei]; simpl.
  - destruct (update_holds (queues s) M (Interval old) q old new) as [? ?]; try done.
    by rewrite Hip.
  - destruct (remove_holds (queues s) M (Interval old) q (IP old)) as [H1 H2]; try done.
    { intros l Hl. congruence. }
    set (s1 := tset _ _).
    destruct (enqueue_holds s1 (delete (IP old) M) new) as [H3 H4]; [done..| |].
    { rewrite Hip. apply lookup_delete_eq. }
    rewrite Hip, insert_delete_eq in H3. rewrite Hip. split; [done|]. split; [done|].
    by rewrite enqueue_s_lines.
Qed.

Lemma find_index_key k (l : list Line) :
  k ∈ IP <$> l → ∃ i x, find_index (has_key IP k) l = Some i ∧ l !! i = Some x ∧ IP x = k.
Proof.
  induction l as [|x l IH]; [by intros ?%elem_of_nil|]. rewrite fmap_cons, elem_of_cons.
  intros H. simpl. unfold has_key at 1. case_bool_decide as E; [by exists 0%nat, x|].
  destruct H as [->|H]; [done|]. destruct (IH H) as (i & y & -> & ? & ?). by exists (S i), y.
Qed.

Lemma OnLineUpdated_monitors h s M old new :
  monitors h s M → M !! IP old = Some old → IP new = IP old →
  monitors (OnLineUpdated h s old new).1 (OnLineUpdated h s old new).2 (<[IP new := new]> M).
Proof.
  intros (Hh & Hnd & Hv & Hk) Hold Hip. destruct (requeue_holds s M old new) as (H1 & H2 & H3); try done.
  unfold OnLineUpdated. rewrite H3.
  destruct (find_index_key (IP old) (contents h (s_lines s))) as (i & x & -> & Hx & Hxip); [apply Hk; eauto|].
  assert (Hc : IP <$> contents (store h (s_lines s) i new) (s_lines s) = IP <$> contents h (s_lines s)).
  { rewrite store_contents by done. rewrite list_fmap_insert. apply list_insert_id.
    rewrite list_lookup_fmap, Hx. simpl. congruence. }
  split_and!; simpl; try done.
  - rewrite H3. destruct Hv as [Ha Hlen]. unfold valid, store, cap in *. rewrite length_insert.
    split; [done|]. rewrite cells_insert_eq by done. by rewrite length_insert.
  - intros k Hs. simpl. rewrite H3, Hc. apply Hk. destruct (decide (k = IP new)) as [->|Hne].
    + rewrite Hip. eauto.
    + by rewrite lookup_insert_ne in Hs.
Qed.

Lemma OnLineDeleted_queues s M l :
  queues_hold (queues s) M → queues_nodup (queues s) →
  (∀ l', M !! IP l = Some l' → Interval l' = Interval l) →
  queues_hold (queues (OnLineDeleted s l)) (delete (IP l) M) ∧ queues_nodup (queues (OnLineDeleted s l)).
Proof.
  intros Hh Hnd Hi.
  assert (Hgone : (∀ q, queues s !! Interval l = Some q → Contains q (IP l) = false) → delete (IP l) M = M).
  { intros Hno. apply delete_id, eq_None_not_Some. intros [l' Hl'].
    destruct (proj2 (proj2 Hh (Interval l) l')) as (q & Hq & Hin); [split; [|auto]|].
    { by rewrite (proj1 Hh _ _ Hl'). }
    specialize (Hno q Hq). unfold Contains in Hno. apply existsb_has_key_false in Hno. apply Hno.
    rewrite <- (proj1 Hh _ _ Hl'). by apply list_elem_of_fmap_2. }
  unfold OnLineDeleted. destruct (queues s !! Interval l) as [q|] eqn:Eq; [|by rewrite Hgone].
  destruct (Contains q (IP l)) eqn:Ec; simpl; [|by rewrite Hgone; [|naive_solver]].
  destruct (remove_holds (queues s) M (Interval l) q (IP l)) as [H1 H2]; try done.
  by destruct (IsEmpty _).
Qed.

Lemma OnLineDeleted_s_lines s l : s_lines (OnLineDeleted s l) = s_lines s.
Proof.
  unfold OnLineDeleted. destruct (queues s !! Interval l) as [q|]; [|done].
  destruct (negb _); [done|]. by destruct (IsEmpty _).
Qed.

Lemma OnLineDeleted_monitors h s M l :
  monitors h s M → (∀ l', M !! IP l = Some l' → Interval l' = Interval l) →
  monitors h (OnLineDeleted s l) (delete (IP l) M).
Proof.
  intros (Hh & Hnd & Hv & Hk) Hi. destruct (OnLineDeleted_queues s M l) as [H1 H2]; try done.
  split_and!; try done; rewrite OnLineDeleted_s_lines; try done.
  intros k [x Hx]. apply lookup_delete_Some in Hx as [_ Hx]. eauto.
Qed.

Lemma create_all_monitors ls h s M :
  monitors h s M → NoDup (IP <$> ls) → (∀ l, l ∈ ls → M !! IP l = None) →
  let '(h', s') := foldl (λ '(h, s) l,
    let s := enqueue s l in let '(h, sl) := push h (s_lines s) l in (h, { s with s_lines := sl })) (h, s) ls in
  monitors h' s' (as_map ls ∪ M).
Proof.
  revert h s M. induction ls as [|l ls IH]; intros h s M Hm; simpl.
  - intros _ _. unfold as_map. simpl. by rewrite (left_id_L ∅ (∪)).
  - intros [Hl Hnd]%NoDup_cons Hfresh. rewrite enqueue_s_lines.
    pose proof (create_monitors h s M l Hm (Hfresh l ltac:(constructor))) as H1.
    destruct (push h (s_lines s) l) as [h1 sl1]. specialize (IH h1 _ _ H1 Hnd).
    assert (Hm' : as_map (l :: ls) ∪ M = as_map ls ∪ <[IP l:=l]> M).
    { unfold as_map. rewrite fmap_cons. simpl. rewrite <- insert_union_l, insert_union_r; [done|].
      apply (proj2 (as_map_None ls (IP l))). done. }
    rewrite Hm'. apply IH. intros l' Hl'. rewrite lookup_insert_ne; [apply Hfresh; by constructor|].
    intros E. apply Hl. rewrite E. by apply list_elem_of_fmap_2.
Qed.

Lemma OnLineReset_monitors h s ls :
  NoDup (IP <$> ls) → monitors (OnLineReset h s ls).1 (OnLineReset h s ls).2 (as_map ls).
Proof.
  intros Hnd. unfold OnLineReset. pose proof (make_valid no_line h (length ls)) as Hv.
  destruct (make no_line h (length ls)) as [h1 sl]. simpl in Hv.
  set (s1 := tset _ _).
  pose proof (create_all_monitors ls h1 s1 ∅) as H. destruct (foldl _ _ ls) as [h2 s2].
  rewrite (right_id_L ∅ (∪)) in H. apply H; [|done|by intros; apply lookup_empty].
  split_and!.
  - exact queues_hold_empty.
  - exact queues_nodup_empty.
  - done.
  - intros k [x Hx]. by rewrite lookup_empty in Hx.
Qed.

Lemma enqueue_all_holds ls s M :
  queues_hold (queues s) M → queues_nodup (queues s) → NoDup (IP <$> ls) →
  (∀ l, l ∈ ls → M !! IP l = None) →
  queues_hold (queues (foldl enqueue s ls)) (as_map ls ∪ M) ∧ queues_nodup (queues (foldl enqueue s ls)) ∧
  s_lines (foldl enqueue s ls) = s_lines s ∧ workers (foldl enqueue s ls) = workers s.
Proof.
  revert s M. induction ls as [|l ls IH]; intros s M Hh Hnd; simpl.
  - intros _ _. unfold as_map. simpl. by rewrite (left_id_L ∅ (∪)).
  - intros [Hl Hn]%NoDup_cons Hfresh.
    destruct (enqueue_holds s M l Hh Hnd (Hfresh l ltac:(constructor))) as [H1 H2].
    destruct (IH _ _ H1 H2 Hn) as (H3 & H4 & H5 & H6).
    { intros l' Hl'. rewrite lookup_insert_ne; [apply Hfresh; by constructor|].
      intros E. apply Hl. rewrite E. by apply list_elem_of_fmap_2. }
    assert (Hm' : as_map (l :: ls) ∪ M = as_map ls ∪ <[IP l:=l]> M).
    { unfold as_map. rewrite fmap_cons. simpl. rewrite <- insert_union_l, insert_union_r; [done|].
      apply (proj2 (as_map_None ls (IP l))). done. }
    rewrite Hm', H5, H6, enqueue_s_lines. split_and!; try done. unfold enqueue.
    by destruct (queues s !! Interval l).
Qed.

Lemma NewRouterScheduler_monitors h r sl s :
  valid h sl → NoDup (IP <$> contents h sl) → NewRouterScheduler h r sl = Ret s →
  monitors h s (as_map (contents h sl)) ∧ s_lines s = sl ∧ workers s = [].
Proof.
  unfold NewRouterScheduler. intros Hv Hnd. destruct (scheduler_config r); try done.
  intros [= <-]. unfold initializeQueues. simpl.
  set (s0 := mk_scheduler _ _ _ _ _ _ _).
  destruct (enqueue_all_holds (contents h sl) s0 ∅ queues_hold_empty queues_nodup_empty)
    as (H1 & H2 & H3 & H4); [done|by intros; apply lookup_empty|].
  - rewrite (right_id_L ∅ (∪)) in H1. split; [|by split].
    unfold monitors. rewrite H3. split; [done|]. split; [done|]. split; [done|].
    intros k [l Hl]. simpl. apply as_map_lookup in Hl as [Hin <-]; [|done].
    by apply list_elem_of_fmap_2.
Qed.

(** C22: the handlers of a scheduler implement a map of monitored lines: a
    created line it does not know is added (one it knows changes nothing), an
    updated line is replaced and moves to the queue of its new interval, a
    deleted line is removed, a reset replaces them all; and at every moment the
    queue of an interval holds exactly the monitored lines of that interval. *)
Theorem scheduler_refines_map h s M :
  monitors h s M →
  (∀ i l, (∃ q, queues s !! i = Some q ∧ l ∈ q_lines q) ↔ M !! IP l = Some l ∧ Interval l = i) ∧
  (∀ l, known h s (IP l) → OnLineCreated h s l = (h, s)) ∧
  (∀ l, ¬ known h s (IP l) →
     monitors (OnLineCreated h s l).1 (OnLineCreated h s l).2 (<[IP l := l]> M)) ∧
  (∀ old new, M !! IP old = Some old → IP new = IP old →
     monitors (OnLineUpdated h s old new).1 (OnLineUpdated h s old new).2 (<[IP new := new]> M)) ∧
  (∀ l, M !! IP l = Some l → monitors h (OnLineDeleted s l) (delete (IP l) M)) ∧
  (∀ ls, NoDup (IP <$> ls) →
     monitors (OnLineReset h s ls).1 (OnLineReset h s ls).2 (as_map ls)).
Proof.
  intros Hm. split; [apply Hm|]. split; [intros l; apply OnLineCreated_known|].
  split; [intros l; by apply OnLineCreated_monitors|].
  split; [intros old new; by apply OnLineUpdated_monitors|].
  split; [|intros ls; apply OnLineReset_monitors].
  intros l Hl. apply OnLineDeleted_monitors; [done|]. intros l' ?. congruence.
Qed.

(** ** Workers *)

(** Queue numbers are handed out once. *)
Definition numbered (s : RouterScheduler) : Prop :=
  (∀ i q, queues s !! i = Some q → (q_id q < next_queue s)%nat) ∧
  ∀ w, w ∈ workers s → (w < next_queue s)%nat.

Lemma enqueue_numbered s l : numbered s → numbered (enqueue s l).
Proof.
  intros [Hq Hw]. unfold enqueue. destruct (queues s !! Interval l) as [q|] eqn:E; split; simpl.
  - intros i q'. rewrite lookup_insert_Some. intros [[_ <-]|[_ ?]]; simpl; by eapply Hq.
  - done.
  - intros i q'. rewrite lookup_insert_Some. intros [[_ <-]|[_ Hq']]; simpl; [lia|].
    apply Hq in Hq'. lia.
  - intros w Hw'. apply Hw in Hw'. lia.
Qed.

Lemma enqueue_all_numbered ls s : numbered s → numbered (foldl enqueue s ls).
Proof. revert s. induction ls as [|l ls IH]; intros s Hs; simpl; [done|]. by apply IH, enqueue_numbered. Qed.

Lemma Start_numbered s : numbered s → numbered (Start s).
Proof.
  intros [Hq Hw]. split; [exact Hq|]. simpl. intros w [Hin|Hin]%elem_of_app; [by apply Hw|].
  apply list_elem_of_fmap in Hin as ([i q] & -> & Hin%elem_of_map_to_list). by eapply Hq.
Qed.

Lemma Start_serves s M l :
  queues_hold (queues s) M → M !! IP l = Some l → served (Start s) l.
Proof.
  intros [_ Hh] Hl. destruct (proj2 (Hh (Interval l) l) (conj Hl eq_refl)) as (q & Hq & Hin).
  exists q. split; [done|]. split; [done|]. simpl. apply elem_of_app. right.
  apply list_elem_of_fmap. exists (Interval l, q). split; [done|]. by apply elem_of_map_to_list.
Qed.

(** C32: once started, a scheduler probes every line it monitors; a line created
    later is queued, but it is probed if and only if its interval already had a
    queue when the scheduler was started: no worker is ever started for an
    interval that is new. *)
Theorem late_interval_never_probed h s M l :
  monitors h s M → numbered s → ¬ known h s (IP l) →
  let s1 := Start s in
  (∀ l', M !! IP l' = Some l' → served s1 l') ∧
  in_queue (OnLineCreated h s1 l).2 l ∧
  (served (OnLineCreated h s1 l).2 l ↔ is_Some (queues s !! Interval l)).
Proof.
  intros Hm Hnum Hn s1. split; [intros l' Hl'; eapply Start_serves; [apply Hm|done]|].
  assert (Hm1 : monitors h s1 M) by exact Hm.
  pose proof (OnLineCreated_monitors h s1 M l Hm1 Hn) as Hc. split.
  - eapply queues_hold_in; [apply Hc|]. apply lookup_insert_eq.
  - unfold OnLineCreated. rewrite (not_true_is_false (lineExistsLocked h s1 (IP l)))
      by by rewrite lineExistsLocked_known.
    destruct (push h (s_lines (enqueue s1 l)) l) as [h' sl]. cbn [snd].
    unfold served. simpl. unfold enqueue. change (queues s1) with (queues s).
    destruct (queues s !! Interval l) as [q|] eqn:E; simpl; rewrite lookup_insert_eq.
    + split; [by eexists|]. intros _. eexists. split; [done|]. simpl. split; [set_solver|].
      apply elem_of_app. right. apply list_elem_of_fmap. exists (Interval l, q). split; [done|].
      by apply elem_of_map_to_list.
    + split; [|by intros [? ?]]. intros (q & [= <-] & _ & Hin). simpl in Hin.
      apply (proj2 (Start_numbered s Hnum)) in Hin. simpl in Hin. lia.
Qed.
End scheduler.

(** ** A concrete scheduler: two lines over an array with no spare cell *)
Definition demo_router : Router := mk_router "10.0.0.1" "ops" "secret" "cisco_iosxe" "scrapli".
Definition demo_line (ip : string) (i : Z) : Line := ComputeHash (mk_line ip ip i demo_router 0).

Definition demo_heap : list (list Line) := [[demo_line "10.1.1.1" Minute; demo_line "10.1.1.2" (2 * Minute)]].
Definition demo_slice : slice := mk_slice 0 2.
Definition demo_scheduler : RouterScheduler :=
  initializeQueues demo_heap (mk_scheduler 0 demo_slice ∅ 0 [] [] false).

Lemma demo_NoDup : NoDup (IP <$> contents demo_heap demo_slice).
Proof. apply (bool_decide_unpack _). vm_compute. done. Qed.

Lemma demo_valid : valid demo_heap demo_slice.
Proof. unfold valid, cap. simpl. lia. Qed.

Lemma demo_new : NewRouterScheduler demo_heap demo_router demo_slice = Ret demo_scheduler.
Proof. unfold NewRouterScheduler. by vm_compute (scheduler_config _). Qed.

Lemma demo_monitors : monitors demo_heap demo_scheduler (as_map (contents demo_heap demo_slice)).
Proof. apply (NewRouterScheduler_monitors _ demo_router _ _ demo_valid demo_NoDup demo_new). Qed.

Lemma demo_numbered : numbered demo_scheduler.
Proof.
  apply enqueue_all_numbered. split; simpl; [intros i q Hq; by rewrite lookup_empty in Hq|].
  by intros w ?%elem_of_nil.
Qed.

Lemma scheduler_refines_map_witness :
  let l := demo_line "10.1.1.1" Minute in
  monitors demo_heap (OnLineDeleted demo_scheduler l) (delete (IP l) (as_map (contents demo_heap demo_slice))).
Proof.
  intros l. apply (scheduler_refines_map (λ n, n) _ _ _ demo_monitors). vm_compute. reflexivity.
Defined.

Lemma late_interval_never_probed_witness :
  let l := demo_line "10.1.1.3" (3 * Minute) in
  ¬ served (OnLineCreated (λ n, n) demo_heap (Start demo_scheduler) l).2 l.
Proof.
  intros l Hs.
  destruct (late_interval_never_probed (λ n, n) _ _ _ l demo_monitors demo_numbered) as (_ & _ & H).
  - unfold known. apply (bool_decide_unpack _). vm_compute. done.
  - apply H in Hs. destruct Hs as [q Hq]. vm_compute in Hq. discriminate Hq.
Defined.
