(* ===== verification/Manager.v ===== *)
(** * Manager: one scheduler per router ([src/manager/manager.go])

    The manager groups the lines by router, gives each router a scheduler and
    turns the syncer's events into handler calls. Its lock makes each event, each
    full synchronisation and each expiry of a timer one step. Schedulers are
    objects with identity, since goroutines hold on to them after they have left
    the map; the slices of lines live in the heap of [Slices], shared with the
    schedulers. *)
From S2P Require Import Prelude GoStrings Types Lines Config ConfigSync Queue Slices Scheduler.
Local Open Scope nat_scope.

Record Manager := mk_manager {
  heap : list (list Line);
  routerLines : gmap string slice;
  schedulers : gmap string nat;              (* the scheduler of a router, by number *)
  objects : gmap nat RouterScheduler;        (* every scheduler made so far *)
  next_object : nat;
  starting : list nat;                       (* goroutines that will call Start *)
  pending_deletes : list (string * nat);     (* 10-minute goroutines *)
  m_stopped : bool }.

Definition NewManager : Manager := mk_manager [] ∅ ∅ ∅ 0 [] [] false.

Section manager.
Context (spare : nat → nat).

Definition lines_of (m : Manager) (ip : string) : list Line :=
  match routerLines m !! ip with
  | Some sl => contents (heap m) sl
  | None => []
  end.

(** [append(nil, x)] *)
Definition append_nil (h : list (list Line)) (x : Line) : list (list Line) * slice :=
  (h ++ [x :: replicate (spare 0) no_line], mk_slice (length h) 1).

(** [m.routerLines[ip] = append(m.routerLines[ip], l)] *)
Definition append_line (m : Manager) (ip : string) (l : Line) : Manager :=
  let '(h, sl) := match routerLines m !! ip with
                  | Some sl => push spare (heap m) sl l
                  | None => append_nil (heap m) l
                  end in
  { m with heap := h; routerLines ::= <[ip := sl]> }.

(** [ensureScheduler]: nothing when there is one, or when the creation fails;
    [&lines[0]] panics on an empty slice. *)
Definition ensureScheduler (m : Manager) (ip : string) (sl : slice) : outcome Manager :=
  match schedulers m !! ip with
  | Some _ => Ret m
  | None =>
      match contents (heap m) sl with
      | [] => Panic "index out of range [0] with length 0"
      | l0 :: _ =>
          match NewRouterScheduler (heap m) (line_Router l0) sl with
          | Ret s =>
              Ret { m with schedulers ::= <[ip := next_object m]>;
                           objects ::= <[next_object m := s]>;
                           next_object ::= S;
                           starting ::= (next_object m ::.) }
          | _ => Ret m
          end
      end
  end.

(** The goroutine that starts a new scheduler. *)
Definition run_start (m : Manager) (sid : nat) : Manager :=
  { m with objects ::= alter Scheduler.Start sid;
           starting ::= remove_first (Nat.eqb sid) }.

(** A handler of the scheduler of [ip], when it has one. *)
Definition with_scheduler (m : Manager) (ip : string)
    (f : list (list Line) → RouterScheduler → list (list Line) * RouterScheduler) : Manager :=
  match schedulers m !! ip with
  | None => m
  | Some sid =>
      match objects m !! sid with
      | None => m
      | Some s => let '(h, s) := f (heap m) s in { m with heap := h; objects ::= <[sid := s]> }
      end
  end.

Definition create_event (m : Manager) (l : Line) : outcome Manager :=
  let ip := router_IP (line_Router l) in
  let m := match routerLines m !! ip with
           | Some _ => m
           | None => let '(h, sl) := make no_line (heap m) 0 in
                     { m with heap := h; routerLines ::= <[ip := sl]> }
           end in
  if existsb (has_key IP (IP l)) (lines_of m ip) then Ret m
  else
    let m := append_line m ip l in
    match match schedulers m !! ip, routerLines m !! ip with
          | None, Some sl => ensureScheduler m ip sl
          | _, _ => Ret m
          end with
    | Ret m => Ret (with_scheduler m ip (λ h s, OnLineCreated spare h s l))
    | r => r
    end.

Definition update_event (m : Manager) (l : Line) : Manager :=
  let ip := router_IP (line_Router l) in
  match routerLines m !! ip with
  | None => m
  | Some sl =>
      let c := contents (heap m) sl in
      match find_index (has_key IP (IP l)) c with
      | None => m
      | Some i =>
          let oldLine := default no_line (c !! i) in
          let m := { m with heap ::= (λ h, store h sl i l) } in
          with_scheduler m ip (λ h s, OnLineUpdated h s oldLine l)
      end
  end.

Definition delete_event (m : Manager) (l : Line) : Manager :=
  let ip := router_IP (line_Router l) in
  let m := match routerLines m !! ip with
           | None => m
           | Some sl =>
               match find_index (has_key IP (IP l)) (contents (heap m) sl) with
               | None => m
               | Some i => let '(h, sl) := delete_at (heap m) sl i in
                           { m with heap := h; routerLines ::= <[ip := sl]> }
               end
           end in
  match schedulers m !! ip with
  | None => m
  | Some sid =>
      let m := with_scheduler m ip (λ h s, (h, OnLineDeleted s l)) in
      if length (lines_of m ip) =? 0 then { m with pending_deletes ::= ((ip, sid) ::.) } else m
  end.

Definition processLineEvent (m : Manager) (e : LineChangeEvent) : outcome Manager :=
  match Type_ e with
  | LineCreate => create_event m (ev_Line e)
  | LineUpdate => Ret (update_event m (ev_Line e))
  | LineDelete => Ret (delete_event m (ev_Line e))
  end.

(** The goroutine of a delayed deletion, when its timer fires. Once a stop has
    been signalled it returns, unless the timer has expired too and [select]
    happens to choose it ([timer_first]). *)
Definition fire_delete (timer_first : bool) (m : Manager) (ip : string) (sid : nat) : Manager :=
  let m := { m with pending_deletes ::= remove_first (λ p, bool_decide (p = (ip, sid))) } in
  if m_stopped m && negb timer_first then m
  else if length (lines_of m ip) =? 0
  then { m with objects ::= alter Scheduler.Stop sid; schedulers ::= delete ip; routerLines ::= delete ip }
  else m.

(** [fullSync]: [polls] are the successive answers of [GetLines], one at once and
    then one every two seconds, at most 150 times while they are empty. *)
Fixpoint wait_lines (checks : nat) (polls : list (gmap string Line)) : option (gmap string Line) :=
  match polls with
  | [] => None
  | p :: polls =>
      if bool_decide (size p = 0) then
        match checks with O => None | S checks => wait_lines checks polls end
      else Some p
  end.

Section sync.
(** The orders in which the maps of lines and of routers are ranged over. *)
Context (range_lines : gmap string Line → list (string * Line)).
Context (range_routers : gmap string slice → list (string * slice)).

(** Grouping by router: appends to slices of a fresh map. *)
Definition group_line (hr : list (list Line) * gmap string slice) (l : Line) : list (list Line) * gmap string slice :=
  let '(h, r) := hr in
  let ip := router_IP (line_Router l) in
  let '(h, sl) := match r !! ip with
                  | Some sl => push spare h sl l
                  | None => append_nil h l
                  end in
  (h, <[ip := sl]> r).

Definition group_lines (h : list (list Line)) (ls : list Line) : list (list Line) * gmap string slice :=
  foldl group_line (h, ∅) ls.

Fixpoint ensure_all (m : Manager) (rs : list (string * slice)) : outcome Manager :=
  match rs with
  | [] => Ret m
  | (ip, sl) :: rs => match ensureScheduler m ip sl with
                      | Ret m => ensure_all m rs
                      | r => r
                      end
  end.

(** Schedulers of routers without lines are stopped and forgotten. *)
Definition drop_schedulers (m : Manager) : Manager :=
  let gone := filter (λ kv, routerLines m !! kv.1 = None) (schedulers m) in
  { m with objects := map_fold (λ _ sid o, alter Scheduler.Stop sid o) (objects m) gone;
           schedulers ::= (λ s, s ∖ gone) }.

Definition fullSync (m : Manager) (polls : list (gmap string Line)) : outcome Manager :=
  match wait_lines 150 polls with
  | None => Ret m
  | Some ls =>
      let '(h, r) := group_lines (heap m) (range_lines ls).*2 in
      let m := { m with heap := h; routerLines := r } in
      match ensure_all m (range_routers r) with
      | Ret m => Ret (drop_schedulers m)
      | r => r
      end
  end.
End sync.

(** [Stop]: the schedulers are stopped, and stay in the map. *)
Definition Stop (m : Manager) : Manager :=
  { m with m_stopped := true;
           objects := map_fold (λ _ sid o, alter Scheduler.Stop sid o) (objects m) (schedulers m) }.

(** [GetSimpleStats] and [GetDetailedStats]: the figures that do not come from
    the runtime: schedulers, routers, lines, and the routers' details. *)
Definition total_lines (m : Manager) : nat :=
  map_fold (λ _ sl n, length (contents (heap m) sl) + n) 0 (routerLines m).
Definition GetSimpleStats (m : Manager) : nat * nat * bool := (size (schedulers m), total_lines m, negb (m_stopped m)).
Definition GetDetailedStats (m : Manager) : nat * nat * nat * list (string * nat * bool) :=
  (size (schedulers m), size (routerLines m), total_lines m,
   (λ kv, (kv.1, length (contents (heap m) kv.2), bool_decide (is_Some (schedulers m !! kv.1))))
     <$> map_to_list (routerLines m)).

Record CleanupReport := mk_report {
  uncleaned_schedulers : list string;
  empty_lines_with_scheduler : list string;
  stopchan_closed : bool;
  cleanup_complete : bool }.

Definition CheckResourceCleanup (m : Manager) : CleanupReport :=
  let un := (map_to_list (schedulers m)).*1 in
  let empty := (filter (λ kv, length (contents (heap m) kv.2) = 0 ∧ is_Some (schedulers m !! kv.1))
                  (map_to_list (routerLines m))).*1 in
  mk_report un empty (m_stopped m)
    ((length un =? 0) && (length empty =? 0) && m_stopped m).
End manager.

(** ** A manager and the scheduler of one router in step *)
Section in_step.
Context (spare : nat → nat).

(** The router [ip] has the slice [sl] and the scheduler [s], which monitors the
    very lines of the slice. *)
Definition in_sync (m : Manager) (ip : string) (sl : slice) (sid : nat) (s : RouterScheduler) : Prop :=
  routerLines m !! ip = Some sl ∧ schedulers m !! ip = Some sid ∧ objects m !! sid = Some s ∧
  valid (heap m) sl ∧ NoDup (IP <$> lines_of m ip) ∧
  monitors (heap m) s (as_map (lines_of m ip)).

(** The two slices are the same or do not share an array: the state after a
    scheduler has been made, and after every creation that follows. *)
Definition aligned (sl : slice) (s : RouterScheduler) : Prop :=
  s_lines s = sl ∨ arr (s_lines s) ≠ arr sl.

Lemma monitors_frame h h' s M :
  monitors h s M → contents h' (s_lines s) = contents h (s_lines s) ∧ valid h' (s_lines s) →
  monitors h' s M.
Proof. intros (H1 & H2 & H3 & H4) [Hc Hv]. split_and!; try done. by rewrite Hc. Qed.

Lemma lines_of_eq m ip sl : routerLines m !! ip = Some sl → lines_of m ip = contents (heap m) sl.
Proof. intros H. unfold lines_of. by rewrite H. Qed.

(** The append of the manager, as the scheduler sees it. *)
Lemma append_seen h sl s l :
  valid h sl → valid h (s_lines s) → aligned sl s →
  let '(h1, sl1) := push spare h sl l in
  contents h1 (s_lines s) = contents h (s_lines s) ∧ valid h1 (s_lines s).
Proof.
  intros Hv Hvs Ha. unfold push. pose proof (append_frame no_line (spare (cap h sl)) h sl l (s_lines s) Hv Hvs) as Hf.
  destruct (append _ _ _ _ _) as [h1 sl1]. apply Hf. destruct Ha as [->|Ha]; [right; lia|by left].
Qed.

(** The two appends of a creation: the manager's, then the scheduler's. *)
Lemma double_append h sl s l :
  valid h sl → valid h (s_lines s) → aligned sl s →
  let '(h1, sl1) := push spare h sl l in
  let '(h2, sl2) := push spare h1 (s_lines s) l in
  contents h2 sl1 = contents h sl ++ [l] ∧ valid h2 sl1 ∧ (sl2 = sl1 ∨ arr sl2 ≠ arr sl1).
Proof.
  intros Hv Hvs Ha. pose proof (append_seen h sl s l Hv Hvs Ha) as Hseen. unfold push in *.
  set (n := spare (cap h sl)) in *.
  pose proof (append_valid no_line n h sl l Hv) as Hv1.
  pose proof (append_contents no_line n h sl l Hv) as Hc1.
  pose proof (append_arr no_line n h sl l) as Harr. pose proof (append_length_heap no_line n h sl l) as Hlen.
  destruct (append no_line n h sl l) as [h1 sl1] eqn:E1. simpl in *. destruct Hseen as [Hc Hvs1].
  set (n2 := spare (cap h1 (s_lines s))) in *.
  pose proof (append_frame no_line n2 h1 (s_lines s) l sl1 Hvs1 Hv1) as Hf.
  destruct Ha as [Hs|Hs]; destruct Harr as [[-> Hcap]|[-> Hcap]]; simpl in *.
  - (* same array, in place: the scheduler writes the same cell again *)
    rewrite Hs in *. destruct Hv as [Hva Hvc].
    assert (Hcell : cells h1 (arr sl) !! len sl = Some l).
    { pose proof (length_contents h sl ltac:(done)) as Hl.
      assert (Hlk : contents h1 (mk_slice (arr sl) (S (len sl))) !! len sl = Some l).
      { rewrite Hc1, lookup_app_r by lia. by rewrite Hl, Nat.sub_diag. }
      unfold contents in Hlk. simpl in Hlk. by rewrite lookup_take_lt in Hlk by lia. }
    assert (Hcap1 : len sl < cap h1 sl) by (apply lookup_lt_Some in Hcell; exact Hcell).
    unfold append. rewrite (proj2 (Nat.ltb_lt _ _) Hcap1).
    rewrite (list_insert_id (cells h1 (arr sl))) by done.
    assert (Hid : <[arr sl := cells h1 (arr sl)]> h1 = h1).
    { apply list_insert_id. unfold cells. destruct Hv1 as [Hv1 _]. simpl in Hv1.
      destruct (lookup_lt_is_Some_2 h1 (arr sl) Hv1) as [c Hc2]. by rewrite Hc2. }
    rewrite Hid. simpl. split; [done|]. split; [done|by left].
  - rewrite Hs in *. pose proof (append_arr no_line n2 h1 sl l) as Harr2.
    assert (Hcap2 : cap h1 sl = cap h sl).
    { destruct Hv as [Hva _]. unfold append in E1.
      rewrite (proj2 (Nat.ltb_ge _ _) Hcap) in E1. simplify_eq. unfold cap. by rewrite cells_app_old. }
    destruct (append no_line n2 h1 sl l) as [h2 sl2]. simpl in *.
    destruct Hf as [Hf1 Hf2]; [left; destruct Hv; lia|]. rewrite Hf1, Hc1. split; [done|]. split; [done|].
    right. destruct Harr2 as [[-> ?]|[-> _]]; simpl; [lia|]. destruct Hv1. simpl in *. lia.
  - pose proof (append_arr no_line n2 h1 (s_lines s) l) as Harr2.
    destruct (append no_line n2 h1 (s_lines s) l) as [h2 sl2]. simpl in *.
    destruct Hf as [Hf1 Hf2]; [left; congruence|]. rewrite Hf1, Hc1. split; [done|]. split; [done|].
    right. destruct Hv. destruct Harr2 as [[-> _]|[-> _]]; simpl; [done|lia].
  - pose proof (append_arr no_line n2 h1 (s_lines s) l) as Harr2.
    destruct (append no_line n2 h1 (s_lines s) l) as [h2 sl2]. simpl in *.
    destruct Hf as [Hf1 Hf2]; [left; destruct Hvs; lia|]. rewrite Hf1, Hc1. split; [done|]. split; [done|].
    right. destruct Hvs, Hv1. destruct Harr2 as [[-> _]|[-> _]]; simpl in *; lia.
Qed.

Lemma with_scheduler_some m ip sid s f :
  schedulers m !! ip = Some sid → objects m !! sid = Some s →
  with_scheduler m ip f =
    { m with heap := (f (heap m) s).1; objects ::= <[sid := (f (heap m) s).2]> }.
Proof. intros H1 H2. unfold with_scheduler. rewrite H1, H2. by destruct (f (heap m) s). Qed.

Lemma not_in_as_map m ip k : as_map (lines_of m ip) !! k = None ↔ existsb (has_key IP k) (lines_of m ip) = false.
Proof. by rewrite as_map_None, existsb_has_key_false. Qed.

(** A creation for a router in step with its scheduler, neither of which
    has the line, leaves them in step: the manager's slice grows by the line and
    the scheduler queues it; nothing else is lost from either. *)
Theorem create_event_in_sync m ip sl sid s l :
  in_sync m ip sl sid s → aligned sl s → router_IP (line_Router l) = ip →
  ¬ known (heap m) s (IP l) → IP l ∉ IP <$> lines_of m ip →
  ∃ m' sl' s', create_event spare m l = Ret m' ∧ in_sync m' ip sl' sid s' ∧ aligned sl' s' ∧
    lines_of m' ip = lines_of m ip ++ [l] ∧ in_queue s' l ∧
    ∀ k, known (heap m') s' k → known (heap m) s k ∨ k = IP l.
Proof.
  intros (Hsl & Hsid & Hs & Hv & Hnd & Hm) Ha Hip Hunk Hnew.
  unfold create_event. rewrite Hip, Hsl. rewrite (proj2 (existsb_has_key_false IP _ _) Hnew).
  unfold append_line. rewrite Hsl. rewrite (lines_of_eq _ _ _ Hsl) in *.
  pose proof (append_seen _ sl s l Hv (proj1 (proj2 (proj2 Hm))) Ha) as Hseen.
  pose proof (double_append _ sl s l Hv (proj1 (proj2 (proj2 Hm))) Ha) as Hdbl.
  destruct (push spare (heap m) sl l) as [h1 sl1].
  pose proof (monitors_frame _ h1 _ _ Hm Hseen) as Hm1.
  assert (Hunk1 : ¬ known h1 s (IP l)) by (unfold known; by rewrite (proj1 Hseen)).
  pose proof (OnLineCreated_monitors spare h1 s _ l Hm1 Hunk1) as Hm2.
  unfold OnLineCreated in Hm2.
  rewrite (not_true_is_false (lineExistsLocked h1 s (IP l))) in Hm2 by by rewrite lineExistsLocked_known.
  rewrite enqueue_s_lines in Hm2.
  cbn -[with_scheduler]. rewrite Hsid.
  rewrite (with_scheduler_some _ _ sid s) by done. cbn [heap tset set].
  unfold OnLineCreated. simpl.
  rewrite (not_true_is_false (lineExistsLocked h1 s (IP l))) by by rewrite lineExistsLocked_known.
  rewrite enqueue_s_lines.
  assert (Hlast : contents (push spare h1 (s_lines s) l).1 (push spare h1 (s_lines s) l).2 = contents h1 (s_lines s) ++ [l])
    by (apply append_contents, Hm1).
  destruct (push spare h1 (s_lines s) l) as [h2 sl2]. simpl in *.
  destruct Hdbl as (Hc & Hv2 & Hal).
  eexists _, sl1, _. split; [reflexivity|].
  unfold in_sync, lines_of. simpl. rewrite !lookup_insert_eq, Hc.
  assert (Hmap : as_map (contents (heap m) sl ++ [l]) = <[IP l := l]> (as_map (contents (heap m) sl))).
  { apply as_map_app_new; [done|]. done. }
  rewrite Hmap. split; [|split; [|split]].
  - refine (conj eq_refl (conj Hsid (conj eq_refl (conj Hv2 (conj _ Hm2))))).
    rewrite fmap_app. apply NoDup_app. split; [done|]. split; [|apply NoDup_singleton].
    by intros x Hx ->%list_elem_of_singleton.
  - exact Hal.
  - done.
  - split; [eapply queues_hold_in; [apply Hm2|]; apply lookup_insert_eq|].
    intros k. unfold known. simpl. rewrite Hlast, (proj1 Hseen), fmap_app, elem_of_app. intros [?|Hk]; [by left|right]. by apply list_elem_of_singleton in Hk.
Qed.

Lemma find_index_spec {A} (p : A → bool) l i :
  find_index p l = Some i → ∃ x, l !! i = Some x ∧ p x = true ∧ i < length l.
Proof.
  revert i. induction l as [|x l IH]; intros i; simpl; [done|]. destruct (p x) eqn:E.
  - intros [= <-]. exists x. split; [done|]. split; [done|lia].
  - destruct (find_index p l) as [j|]; [|done]. intros [= <-].
    destruct (IH j eq_refl) as (y & ? & ? & ?). exists y. split; [done|]. split; [done|lia].
Qed.

Lemma cut_remove_first (ls : list Line) k i :
  find_index (has_key IP k) ls = Some i → take i ls ++ drop (S i) ls = remove_first (has_key IP k) ls.
Proof.
  revert i. induction ls as [|x ls IH]; intros i; simpl; [done|]. destruct (has_key IP k x) eqn:E.
  - intros [= <-]. done.
  - destruct (find_index _ ls) as [j|]; [|done]. intros [= <-]. simpl. by rewrite IH.
Qed.

(** The manager's half of a deletion, and what a scheduler that holds the old
    slice over the same array goes on seeing. *)
Lemma delete_seen h s M sl l0 i :
  monitors h s M → s_lines s = sl → find_index (has_key IP (IP l0)) (contents h sl) = Some i →
  NoDup (IP <$> contents h sl) → M = as_map (contents h sl) → l0 ∈ contents h sl →
  let '(h1, sl1) := delete_at h sl i in
  sl1 = mk_slice (arr sl) (len sl - 1) ∧ 0 < len sl ∧ valid h1 sl ∧
  contents h1 sl1 = remove_first (has_key IP (IP l0)) (contents h sl) ∧
  monitors h1 (OnLineDeleted s l0) (delete (IP l0) M).
Proof.
  intros (H1 & H2 & Hv & H4) Hs Hfi Hnd -> Hin. rewrite Hs in Hv.
  destruct (find_index_spec _ _ _ Hfi) as (_ & _ & _ & Hlt). rewrite length_contents in Hlt by done.
  pose proof (delete_at_contents h sl i Hv Hlt) as Hc1. pose proof (delete_at_old_valid h sl i Hv Hlt) as Hv1.
  rewrite (cut_remove_first _ _ _ Hfi) in Hc1.
  destruct (delete_at h sl i) as [h1 sl1] eqn:E1.
  assert (sl1 = mk_slice (arr sl) (len sl - 1)) as Hsl1 by (unfold delete_at in E1; by simplify_eq).
  simpl in *. split; [done|]. split; [lia|]. split; [done|]. split; [done|].
  destruct (OnLineDeleted_queues s _ l0 H1 H2) as [H5 H6].
  { intros l' Hl'. assert (as_map (contents h sl) !! IP l0 = Some l0) by (by apply as_map_lookup). congruence. }
  split; [done|]. split; [done|]. rewrite OnLineDeleted_s_lines, Hs. split; [done|].
  intros k [y Hy]. rewrite <- as_map_remove in Hy by done.
  apply as_map_lookup in Hy as [Hy <-]; [|by apply NoDup_remove_first].
  eapply elem_of_submseteq; [apply list_elem_of_fmap_2; exact Hy|].
  rewrite <- Hc1, Hsl1. apply fmap_submseteq, sublist_submseteq, shorter_contents. lia.
Qed.

(** The state after a deletion: the manager has one line less, the scheduler
    monitors the rest, but its own slice is still the old one. *)
Lemma delete_event_shared m ip sid s l0 sl :
  in_sync m ip sl sid s → s_lines s = sl → l0 ∈ lines_of m ip → router_IP (line_Router l0) = ip →
  let m1 := delete_event m l0 in
  let s1 := OnLineDeleted s l0 in
  routerLines m1 !! ip = Some (mk_slice (arr sl) (len sl - 1)) ∧ schedulers m1 !! ip = Some sid ∧
  objects m1 !! sid = Some s1 ∧ s_lines s1 = sl ∧ 0 < len sl ∧ valid (heap m1) sl ∧
  lines_of m1 ip = remove_first (has_key IP (IP l0)) (lines_of m ip) ∧
  monitors (heap m1) s1 (as_map (lines_of m1 ip)).
Proof.
  intros (Hsl & Hsid & Hs & Hv & Hnd & Hm) Hshare Hin Hip. rewrite (lines_of_eq _ _ _ Hsl) in *.
  destruct (find_index_key (IP l0) (contents (heap m) sl)) as (i & x & Hfi & _ & _).
  { by apply list_elem_of_fmap_2. }
  pose proof (delete_seen _ s _ sl l0 i Hm Hshare Hfi Hnd eq_refl Hin) as Hd.
  unfold delete_event. rewrite Hip, Hsl, Hfi. destruct (delete_at (heap m) sl i) as [h1 sl1].
  destruct Hd as (-> & Hlen & Hv1 & Hc1 & Hm1). simpl. rewrite Hsid, (with_scheduler_some _ _ sid s) by done.
  rewrite <- as_map_remove, <- Hc1 in Hm1 by done.
  case_match; unfold lines_of; simpl; rewrite !lookup_insert_eq, Hc1, OnLineDeleted_s_lines;
    rewrite Hc1 in Hm1; done.
Qed.

(** C33: once a line of a router has been deleted, the next line created for it
    is lost when manager and scheduler still share their array (as they do from
    the scheduler's creation on): the manager writes the new line into the cell
    the scheduler's longer slice still covers, the scheduler takes it for a
    duplicate, and the line, though listed by the manager, is in no queue. *)
Theorem create_after_delete_lost m ip sl sid s l0 l :
  in_sync m ip sl sid s → s_lines s = sl → l0 ∈ lines_of m ip →
  router_IP (line_Router l0) = ip → router_IP (line_Router l) = ip →
  IP l ∉ IP <$> lines_of (delete_event m l0) ip →
  ∃ m2, create_event spare (delete_event m l0) l = Ret m2 ∧
    lines_of m2 ip = lines_of (delete_event m l0) ip ++ [l] ∧
    objects m2 !! sid = Some (OnLineDeleted s l0) ∧ ¬ in_queue (OnLineDeleted s l0) l.
Proof.
  intros Hsync Hshare Hin Hip0 Hip Hnew.
  destruct (delete_event_shared m ip sid s l0 sl) as (Hsl & Hsid & Hs & Hss & Hlen & Hv & _ & Hm); try done.
  set (m1 := delete_event m l0) in *. set (s1 := OnLineDeleted s l0) in *.
  set (sl1 := mk_slice (arr sl) (len sl - 1)) in *.
  assert (Hv1 : valid (heap m1) sl1) by (destruct Hv; split; unfold cap in *; simpl; lia).
  unfold create_event. rewrite Hip, Hsl, (proj2 (existsb_has_key_false IP _ _) Hnew).
  unfold append_line. rewrite Hsl. unfold push.
  pose proof (append_contents no_line (spare (cap (heap m1) sl1)) (heap m1) sl1 l Hv1) as Hc.
  assert (Hin_place : append no_line (spare (cap (heap m1) sl1)) (heap m1) sl1 l =
    (<[arr sl := <[len sl1 := l]> (cells (heap m1) (arr sl))]> (heap m1), sl)).
  { unfold append. rewrite (proj2 (Nat.ltb_lt _ _)) by (destruct Hv; unfold cap in *; simpl; lia).
    f_equal. destruct sl. unfold sl1. simpl in *. f_equal. lia. }
  rewrite Hin_place in Hc |- *. clear Hin_place.
  set (h2 := <[arr sl := <[len sl1 := l]> (cells (heap m1) (arr sl))]> (heap m1)) in *. clearbody h2.
  simpl in Hc |- *. rewrite Hsid.
  rewrite (with_scheduler_some _ _ sid s1) by done.
  assert (Hknown : known h2 s1 (IP l)).
  { unfold known. rewrite Hss, Hc, fmap_app. apply elem_of_app. right. constructor. }
  rewrite OnLineCreated_known by exact Hknown. eexists. split; [reflexivity|].
  unfold lines_of at 1. simpl. rewrite !lookup_insert_eq, Hc, (lines_of_eq _ _ _ Hsl).
  split; [done|]. split; [done|]. rewrite (queues_hold_in s1 _ l (proj1 Hm)).
  rewrite (proj2 (as_map_None _ _) Hnew). done.
Qed.

(** An update that moves a line to another router is lost: the manager looks
    for the line among the lines of the new router, does not find it, and
    leaves its whole state as it was. *)
Theorem moved_router_update_lost m l v :
  IP l ∉ IP <$> lines_of m (router_IP (line_Router l)) →
  processLineEvent spare m (mk_event LineUpdate l v) = Ret m.
Proof.
  intros Hn. unfold processLineEvent, update_event. simpl. unfold lines_of in Hn.
  destruct (routerLines m !! _) as [sl|]; [|done].
  destruct (find_index _ _) as [i|] eqn:E; [|done].
  destruct (find_index_spec _ _ _ E) as (x & Hx & Hk & _). destruct Hn.
  unfold has_key in Hk. apply bool_decide_eq_true in Hk. rewrite <- Hk.
  apply list_elem_of_fmap_2. by eapply list_elem_of_lookup_2.
Qed.
End in_step.

(** ** Full synchronisation *)
Section full_sync.
Context (spare : nat → nat).

Definition routed_to (ip : string) (l : Line) : bool := String.eqb (router_IP (line_Router l)) ip.

(** The groups made so far, over the lines [done], in fresh arrays of their own. *)
Definition grouped (h0 h : list (list Line)) (r : gmap string slice) (done : list Line) : Prop :=
  length h0 ≤ length h ∧ (∀ a, a < length h0 → h !! a = h0 !! a) ∧
  (∀ ip, match r !! ip with
         | Some sl => length h0 ≤ arr sl ∧ valid h sl ∧ contents h sl = List.filter (routed_to ip) done ∧
                      List.filter (routed_to ip) done ≠ []
         | None => List.filter (routed_to ip) done = []
         end) ∧
  ∀ ip ip' sl sl', r !! ip = Some sl → r !! ip' = Some sl' → ip ≠ ip' → arr sl ≠ arr sl'.

Lemma filter_routed_other ip done l :
  router_IP (line_Router l) ≠ ip →
  List.filter (routed_to ip) (done ++ [l]) = List.filter (routed_to ip) done.
Proof.
  intros Hne. rewrite List.filter_app. simpl. unfold routed_to at 2.
  rewrite (proj2 (String.eqb_neq _ _) Hne). apply app_nil_r.
Qed.

Lemma filter_routed_same done l :
  List.filter (routed_to (router_IP (line_Router l))) (done ++ [l]) =
  List.filter (routed_to (router_IP (line_Router l))) done ++ [l].
Proof. rewrite List.filter_app. simpl. unfold routed_to at 2. by rewrite String.eqb_refl. Qed.

(** A group that grows to [sl1] in heap [h1], leaving the other groups alone. *)
Lemma grouped_insert h0 h r done l h1 sl1 :
  grouped h0 h r done → length h ≤ length h1 → (∀ a, a < length h0 → h1 !! a = h !! a) →
  length h0 ≤ arr sl1 → valid h1 sl1 →
  contents h1 sl1 = List.filter (routed_to (router_IP (line_Router l))) done ++ [l] →
  (∀ ip sl, r !! ip = Some sl → ip ≠ router_IP (line_Router l) →
     arr sl ≠ arr sl1 ∧ contents h1 sl = contents h sl ∧ valid h1 sl) →
  grouped h0 h1 (<[router_IP (line_Router l) := sl1]> r) (done ++ [l]).
Proof.
  intros (Hl & Hold & Hg & Hd) Hl1 Hold1 Ha Hv Hc Hother. set (ip0 := router_IP (line_Router l)) in *.
  split; [lia|]. split; [intros a Hlt; by rewrite Hold1, Hold by done|]. split.
  - intros ip. destruct (decide (ip = ip0)) as [->|Hne].
    + rewrite lookup_insert_eq. unfold ip0. rewrite filter_routed_same. fold ip0.
      split; [done|]. split; [done|]. split; [done|]. by destruct (List.filter _ done).
    + rewrite lookup_insert_ne by done. rewrite filter_routed_other by done. specialize (Hg ip).
      destruct (r !! ip) as [sl|] eqn:E; [|done]. destruct Hg as (? & _ & Hcs & ?).
      destruct (Hother ip sl E Hne) as (_ & Hc1 & Hv1). rewrite Hc1. done.
  - intros ip ip' sl sl'. rewrite !lookup_insert_Some.
    intros [[<- <-]|[? E]] [[<- <-]|[? E']] Hne; try done.
    + intros Heq. by destruct (Hother ip' sl' E') as [? _].
    + by destruct (Hother ip sl E) as [? _].
    + by eapply Hd.
Qed.

Lemma group_line_grouped h0 h r done l :
  grouped h0 h r done →
  grouped h0 (group_line spare (h, r) l).1 (group_line spare (h, r) l).2 (done ++ [l]).
Proof.
  intros Hgr. pose proof Hgr as (Hl & Hold & Hg & Hd). unfold group_line.
  set (ip0 := router_IP (line_Router l)) in *. pose proof (Hg ip0) as Hg0.
  destruct (r !! ip0) as [sl|] eqn:Er.
  - destruct Hg0 as (Ha & Hv & Hc & _). unfold push. set (n := spare _).
    pose proof (append_valid no_line n h sl l Hv) as Hv1.
    pose proof (append_contents no_line n h sl l Hv) as Hc1. rewrite Hc in Hc1.
    pose proof (append_length_heap no_line n h sl l) as Hlh.
    pose proof (append_arr no_line n h sl l) as Harr.
    assert (Hframe : ∀ ip sl', r !! ip = Some sl' → ip ≠ ip0 →
      arr sl' ≠ arr sl ∧ contents (append no_line n h sl l).1 sl' = contents h sl' ∧
      valid (append no_line n h sl l).1 sl').
    { intros ip sl' E Hne. pose proof (Hd _ _ _ _ E Er Hne) as Hdis. specialize (Hg ip). rewrite E in Hg.
      destruct Hg as (_ & Hv' & _). split; [done|]. apply append_frame; auto. }
    assert (Holds : ∀ a, a < length h0 → (append no_line n h sl l).1 !! a = h !! a).
    { intros a Hlt. unfold append. case_match; simpl.
      - apply list_lookup_insert_ne. lia.
      - apply lookup_app_l. lia. }
    destruct (append no_line n h sl l) as [h1 sl1]. simpl in *.
    apply (grouped_insert h0 h r); try done.
    + destruct Harr as [[-> _]|[-> _]]; simpl; lia.
    + intros ip sl' E Hne. destruct (Hframe ip sl' E Hne) as (? & ? & ?). split; [|done].
      specialize (Hg ip). rewrite E in Hg. destruct Hg as (_ & [Hv' _] & _).
      destruct Harr as [[-> _]|[-> _]]; simpl; lia.
  - unfold append_nil. simpl. apply (grouped_insert h0 h r); try done; simpl.
    + rewrite length_app. lia.
    + intros a Hlt. apply lookup_app_l. lia.
    + unfold valid, cap. simpl. rewrite cells_app_new, length_app. simpl. lia.
    + fold ip0. rewrite Hg0. unfold contents. simpl. by rewrite cells_app_new.
    + intros ip sl' E Hne. specialize (Hg ip). rewrite E in Hg. destruct Hg as (_ & [Hv1 Hv2] & _).
      split; [lia|]. unfold contents, valid, cap in *. rewrite cells_app_old, length_app by done.
      split; [done|]. split; [lia|done].
Qed.

Lemma group_lines_grouped h0 ls :
  grouped h0 (group_lines spare h0 ls).1 (group_lines spare h0 ls).2 ls.
Proof.
  unfold group_lines. induction ls as [|l ls IH] using rev_ind.
  - simpl. split; [done|]. split; [done|]. split; [by intros ip; rewrite lookup_empty|].
    intros ip ip' sl sl' E. by rewrite lookup_empty in E.
  - rewrite foldl_app. simpl. destruct (foldl (group_line spare) (h0, ∅) ls) as [h r].
    by apply group_line_grouped.
Qed.

(** ** Schedulers made and dropped *)

(** Scheduler numbers are handed out once, to one router each. *)
Definition numbered_objects (m : Manager) : Prop :=
  (∀ ip sid, schedulers m !! ip = Some sid → sid < next_object m) ∧
  ∀ ip ip' sid, schedulers m !! ip = Some sid → schedulers m !! ip' = Some sid → ip = ip'.

(** What [ensureScheduler] may change. *)
Definition ensured (m m' : Manager) : Prop :=
  heap m' = heap m ∧ routerLines m' = routerLines m ∧ next_object m ≤ next_object m' ∧
  numbered_objects m' ∧
  (∀ ip sid, schedulers m !! ip = Some sid → schedulers m' !! ip = Some sid) ∧
  (∀ sid, sid < next_object m → objects m' !! sid = objects m !! sid) ∧
  (∀ ip sid, schedulers m' !! ip = Some sid → schedulers m !! ip = Some sid ∨ next_object m ≤ sid) ∧
  pending_deletes m' = pending_deletes m ∧ m_stopped m' = m_stopped m.

Lemma ensured_refl m : numbered_objects m → ensured m m.
Proof. intros H. split_and!; auto. Qed.

Lemma ensured_trans m1 m2 m3 : ensured m1 m2 → ensured m2 m3 → ensured m1 m3.
Proof.
  intros (A1 & B1 & C1 & D1 & E1 & F1 & G1 & H1 & I1) (A2 & B2 & C2 & D2 & E2 & F2 & G2 & H2 & I2).
  split; [congruence|]. split; [congruence|]. split; [lia|]. split; [done|]. split; [auto|].
  split; [intros sid Hs; rewrite F2 by lia; by apply F1|]. split; [|split; congruence].
  intros ip sid [Hs|Hs]%G2; [by apply G1|right; lia].
Qed.

(** The scheduler of a router after [ensureScheduler]: the old one, a new one that
    monitors the lines it was given, or none when the configuration is refused. *)
Definition has_scheduler (m m' : Manager) (ip : string) (sl : slice) : Prop :=
  match schedulers m !! ip with
  | Some sid => schedulers m' !! ip = Some sid
  | None =>
      match head (contents (heap m) sl) with
      | Some l0 =>
          if is_ret (scheduler_config (line_Router l0))
          then ∃ sid s, schedulers m' !! ip = Some sid ∧ objects m' !! sid = Some s ∧
                 next_object m ≤ sid < next_object m' ∧
                 NewRouterScheduler (heap m) (line_Router l0) sl = Ret s
          else schedulers m' !! ip = None
      | None => True
      end
  end.

Lemma ensureScheduler_spec m ip sl :
  numbered_objects m → contents (heap m) sl ≠ [] →
  ∃ m', ensureScheduler m ip sl = Ret m' ∧ ensured m m' ∧ has_scheduler m m' ip sl ∧
    ∀ ip', ip' ≠ ip → schedulers m' !! ip' = schedulers m !! ip'.
Proof.
  intros Hn Hne. unfold ensureScheduler, has_scheduler.
  destruct (schedulers m !! ip) as [sid|] eqn:Es; [exists m; auto using ensured_refl|].
  destruct (contents (heap m) sl) as [|l0 ls] eqn:Ec; [done|]. simpl.
  unfold NewRouterScheduler. destruct (scheduler_config (line_Router l0)) as [c|e|e]; simpl;
    [|exists m; auto using ensured_refl..].
  eexists. split; [done|]. destruct Hn as [Hlt Hinj]. split; [|split].
  - split; [done|]. split; [done|]. simpl. split; [lia|]. split; [split; simpl|split].
    + intros ip' sid. rewrite lookup_insert_Some. intros [[_ <-]|[_ H]]; [lia|]. apply Hlt in H. lia.
    + intros ip1 ip2 sid. rewrite !lookup_insert_Some.
      intros [[<- <-]|[_ H1]] [[<- E]|[_ H2]]; [done|apply Hlt in H2; lia|apply Hlt in H1; lia|by eapply Hinj].
    + intros ip' sid H. rewrite lookup_insert_ne; [done|congruence].
    + split; [intros sid H; rewrite lookup_insert_ne; [done|lia]|]. split; [|done].
      intros ip' sid. rewrite lookup_insert_Some. intros [[_ <-]|[_ ?]]; [right; lia|by left].
  - simpl. rewrite lookup_insert_eq. eexists _, _. split; [done|]. rewrite lookup_insert_eq.
    split; [done|]. split; [lia|done].
  - intros ip' H. simpl. by rewrite lookup_insert_ne.
Qed.

Lemma has_scheduler_new m m' ip sl l0 :
  schedulers m !! ip = None → head (contents (heap m) sl) = Some l0 →
  is_ret (scheduler_config (line_Router l0)) = true → has_scheduler m m' ip sl →
  ∃ sid s, schedulers m' !! ip = Some sid ∧ objects m' !! sid = Some s ∧
    NewRouterScheduler (heap m) (line_Router l0) sl = Ret s.
Proof.
  unfold has_scheduler. intros -> Hh Hacc H. destruct (head _) as [l|]; [|done].
  injection Hh as ->. rewrite Hacc in H.
  destruct H as (sid & s & H1 & H2 & _ & H3). exists sid, s. split; [exact H1|]. split; [exact H2|exact H3].
Qed.

Lemma ensure_all_spec rs m :
  numbered_objects m → NoDup rs.*1 → (∀ ip sl, (ip, sl) ∈ rs → contents (heap m) sl ≠ []) →
  ∃ m', ensure_all m rs = Ret m' ∧ ensured m m' ∧
    (∀ ip sl, (ip, sl) ∈ rs → has_scheduler m m' ip sl) ∧
    ∀ ip, ip ∉ rs.*1 → schedulers m' !! ip = schedulers m !! ip.
Proof.
  revert m. induction rs as [|[ip sl] rs IH]; intros m Hn Hnd Hc; simpl.
  - exists m. split; [done|]. split; [by apply ensured_refl|]. split; [by intros ?? ?%elem_of_nil|done].
  - simpl in Hnd. apply NoDup_cons in Hnd as [Hip Hnd].
    destruct (ensureScheduler_spec m ip sl Hn) as (m1 & -> & He1 & Hh1 & Ho1); [eapply Hc; constructor|].
    pose proof He1 as (Hheap & _ & Hnext & Hn1 & Hkeep & Hobj & _).
    destruct (IH m1 Hn1 Hnd) as (m2 & -> & He2 & Hh2 & Ho2).
    { intros ip' sl' Hin. rewrite Hheap. eapply Hc. by constructor. }
    exists m2. split; [done|]. split; [by eapply ensured_trans|]. pose proof He2 as (_ & _ & Hnext2 & _ & Hkeep2 & Hobj2 & _).
    split.
    + intros ip' sl' [[= -> ->]|Hin]%elem_of_cons.
      * unfold has_scheduler in *. destruct (schedulers m !! ip) as [sid|]; [by apply Hkeep2|].
        destruct (head _) as [l0|]; [|done]. destruct (is_ret _).
        { destruct Hh1 as (sid & s & H1 & H2 & H3 & H4). exists sid, s.
          split; [by apply Hkeep2|]. split; [by rewrite Hobj2 by lia|]. split; [lia|done]. }
        by rewrite Ho2.
      * pose proof (Hh2 ip' sl' Hin) as H2. unfold has_scheduler in *.
        assert (ip' ≠ ip) as Hne by (intros ->; apply Hip, list_elem_of_fmap; by exists (ip, sl')).
        rewrite Ho1, Hheap in H2 by done. destruct (schedulers m !! ip'); [done|].
        destruct (head (contents (heap m) sl')) as [l0|]; [|done].
        destruct (is_ret (scheduler_config (line_Router l0))); [|done].
        destruct H2 as (sid & s & ? & ? & ? & ?). exists sid, s. split_and!; try done; lia.
    + intros ip' Hnin. apply not_elem_of_cons in Hnin as [Hne Hnin]. rewrite Ho2, Ho1 by done. done.
Qed.

(** Stopping the schedulers of [g] touches no other object. *)
Lemma stop_all_lookup (o : gmap nat RouterScheduler) (g : gmap string nat) sid :
  (∀ ip, g !! ip ≠ Some sid) → map_fold (λ _ sid o, alter Scheduler.Stop sid o) o g !! sid = o !! sid.
Proof.
  apply (map_fold_weak_ind (λ r g, (∀ ip, g !! ip ≠ Some sid) → r !! sid = o !! sid)); [done|].
  intros ip sid' g' r Hip IH Hg. assert (sid' ≠ sid) as Hne.
  { intros ->. apply (Hg ip). apply lookup_insert_eq. }
  rewrite lookup_alter_ne by done. apply IH. intros ip' E. apply (Hg ip').
  rewrite lookup_insert_ne; [done|]. congruence.
Qed.

Lemma drop_heap m : heap (drop_schedulers m) = heap m.
Proof. done. Qed.
Lemma drop_routerLines m : routerLines (drop_schedulers m) = routerLines m.
Proof. done. Qed.

Lemma drop_keeps m ip sid :
  numbered_objects m → schedulers m !! ip = Some sid → is_Some (routerLines m !! ip) →
  schedulers (drop_schedulers m) !! ip = Some sid ∧ objects (drop_schedulers m) !! sid = objects m !! sid.
Proof.
  intros [_ Hinj] Hs [sl Hr]. unfold drop_schedulers. simpl. split.
  - apply lookup_difference_Some. split; [done|]. apply map_lookup_filter_None. right.
    intros sid' _ Hn. simpl in Hn. congruence.
  - apply stop_all_lookup. intros ip' [Hs' Hn]%map_lookup_filter_Some. simpl in Hn.
    rewrite (Hinj ip ip' sid Hs Hs') in Hr. congruence.
Qed.

Lemma drop_only_routers m ip sid :
  schedulers (drop_schedulers m) !! ip = Some sid →
  schedulers m !! ip = Some sid ∧ is_Some (routerLines m !! ip).
Proof.
  unfold drop_schedulers. simpl. rewrite lookup_difference_Some, map_lookup_filter_None.
  intros [Hs [Hn|Hn]]; [congruence|]. split; [done|]. destruct (routerLines m !! ip) eqn:E; [eauto|].
  by destruct (Hn sid Hs).
Qed.

Lemma filter_IPs_NoDup (p : Line → bool) ls : NoDup (IP <$> ls) → NoDup (IP <$> List.filter p ls).
Proof.
  intros H. eapply sublist_NoDup; [exact H|]. apply sublist_keys. clear H.
  induction ls as [|l ls IH]; simpl; [constructor|]. destruct (p l); by constructor.
Qed.

Lemma ranged_IPs (L : list (string * Line)) ls :
  lines_ok ls → L ≡ₚ map_to_list ls → NoDup (IP <$> L.*2) ∧ ∀ l, l ∈ L.*2 ↔ ∃ k, ls !! k = Some l.
Proof.
  intros Hok Hp. split.
  - assert (IP <$> L.*2 = L.*1) as ->.
    { rewrite <- list_fmap_compose. apply list_fmap_ext. intros i [k l] Hi. simpl.
      apply (Hok k l). apply elem_of_map_to_list. rewrite <- Hp. by eapply list_elem_of_lookup_2. }
    rewrite Hp. apply NoDup_fst_map_to_list.
  - intros l. rewrite list_elem_of_fmap. split.
    + intros ([k l'] & -> & Hin). rewrite Hp, elem_of_map_to_list in Hin. eauto.
    + intros [k Hk]. exists (k, l). split; [done|]. by rewrite Hp, elem_of_map_to_list.
Qed.

(** The state a full synchronisation leaves, router by router: [L] is the lines it ranged
    over, each router's group of them a fresh array. *)
Record synced (m m' : Manager) (L : list Line) : Prop := {
  sy_groups : ∀ ip, match routerLines m' !! ip with
                    | Some sl => length (heap m) ≤ arr sl ∧ valid (heap m') sl ∧
                                 contents (heap m') sl = List.filter (routed_to ip) L ∧ List.filter (routed_to ip) L ≠ []
                    | None => List.filter (routed_to ip) L = []
                    end;
  sy_apart : ∀ ip ip' sl sl', routerLines m' !! ip = Some sl → routerLines m' !! ip' = Some sl' → ip ≠ ip' → arr sl ≠ arr sl';
  sy_heap : length (heap m) ≤ length (heap m') ∧ ∀ a, a < length (heap m) → heap m' !! a = heap m !! a;
  sy_numbered : numbered_objects m' ∧ next_object m ≤ next_object m';
  sy_kept : ∀ ip sid, schedulers m !! ip = Some sid → List.filter (routed_to ip) L ≠ [] →
              schedulers m' !! ip = Some sid ∧ objects m' !! sid = objects m !! sid;
  sy_dropped : ∀ ip, List.filter (routed_to ip) L = [] → schedulers m' !! ip = None;
  sy_new : ∀ ip l0 rest, List.filter (routed_to ip) L = l0 :: rest → schedulers m !! ip = None →
             is_ret (scheduler_config (line_Router l0)) = true →
             ∃ sid s sl, in_sync m' ip sl sid s ∧ s_lines s = sl;
  sy_old : ∀ ip sid, schedulers m' !! ip = Some sid → schedulers m !! ip = Some sid ∨ next_object m ≤ sid;
  sy_rest : pending_deletes m' = pending_deletes m ∧ m_stopped m' = m_stopped m }.

Lemma synced_lines m m' L ip : synced m m' L → lines_of m' ip = List.filter (routed_to ip) L.
Proof.
  intros H. unfold lines_of. pose proof (sy_groups _ _ _ H ip) as Hg. destruct (routerLines m' !! ip); [apply Hg|done].
Qed.

Lemma fullSync_synced range_lines range_routers m polls ls :
  wait_lines 150 polls = Some ls → lines_ok ls →
  range_lines ls ≡ₚ map_to_list ls → (∀ r, range_routers r ≡ₚ map_to_list r) → numbered_objects m →
  ∃ m', fullSync spare range_lines range_routers m polls = Ret m' ∧ synced m m' (range_lines ls).*2.
Proof.
  intros Hw Hok Hrl Hrr Hnum. destruct (ranged_IPs _ ls Hok Hrl) as [Hnd _].
  unfold fullSync. rewrite Hw. set (L := (range_lines ls).*2) in *.
  destruct (group_lines_grouped (heap m) L) as (Hlen & Hold & Hg & Hdis).
  destruct (group_lines spare (heap m) L) as [h r]. simpl in *.
  set (m0 := tset _ _). assert (Hn0 : numbered_objects m0) by exact Hnum.
  assert (Em0 : routerLines m0 = r ∧ heap m0 = h ∧ schedulers m0 = schedulers m ∧ objects m0 = objects m ∧
    next_object m0 = next_object m ∧ pending_deletes m0 = pending_deletes m ∧ m_stopped m0 = m_stopped m) by done.
  clearbody m0. destruct Em0 as (Er0 & Eh0 & Es0 & Eo0 & En0 & Ep0 & Et0).
  destruct (ensure_all_spec (range_routers r) m0 Hn0) as (m1 & -> & He & Hh & Ho).
  { rewrite Hrr. apply NoDup_fst_map_to_list. }
  { intros ip sl Hr. rewrite Hrr, elem_of_map_to_list in Hr. specialize (Hg ip). rewrite Hr in Hg.
    destruct Hg as (_ & _ & Hc & Hne). by rewrite Eh0, Hc. }
  destruct He as (Eh & Er & Enext & Hn1 & Hkeep & Hobj & Hfresh & Ep & Et).
  assert (Hrouters : ∀ ip, is_Some (routerLines m1 !! ip) ↔ List.filter (routed_to ip) L ≠ []).
  { intros ip. rewrite Er, Er0. specialize (Hg ip). destruct (r !! ip); [split; [intros _; apply Hg|eauto]|].
    rewrite Hg. split; [by intros [? ?]|done]. }
  exists (drop_schedulers m1). split; [done|]. rewrite Es0, En0 in *.
  assert (Hin1 : ∀ ip sid, schedulers (drop_schedulers m1) !! ip = Some sid →
    schedulers m1 !! ip = Some sid ∧ is_Some (routerLines m1 !! ip)) by apply drop_only_routers.
  constructor; rewrite ?drop_routerLines, ?drop_heap, ?Er, ?Eh, ?Er0, ?Eh0.
  - exact Hg.
  - exact Hdis.
  - done.
  - split; [|exact Enext]. destruct Hn1 as [Hlt Hinj]. split.
    + intros ip sid [Hs _]%Hin1. by eapply Hlt.
    + intros ip ip' sid [Hs _]%Hin1 [Hs' _]%Hin1. by eapply Hinj.
  - intros ip sid Hs Hne. apply Hrouters in Hne.
    destruct (drop_keeps m1 ip sid Hn1 (Hkeep _ _ Hs) Hne) as [? Heq]. split; [done|].
    rewrite Heq, <- Eo0. apply Hobj. by eapply (proj1 Hnum).
  - intros ip Hne. destruct (schedulers (drop_schedulers m1) !! ip) as [sid|] eqn:E; [|done].
    apply Hin1 in E as [_ Hs]. by apply Hrouters in Hs.
  - intros ip l0 rest Hl0 Hnone Hacc. pose proof (Hg ip) as Hgi.
    destruct (r !! ip) as [sl|] eqn:Erip; [|by rewrite Hgi in Hl0]. destruct Hgi as (_ & Hv & Hc & _).
    assert (Hhs : has_scheduler m0 m1 ip sl) by (apply Hh; by rewrite Hrr, elem_of_map_to_list).
    destruct (has_scheduler_new m0 m1 ip sl l0) as (sid & s & Hs & Hos & Hnew);
      [by rewrite Es0|by rewrite Eh0, Hc, Hl0|done..|]. rewrite Eh0 in Hnew.
    assert (Hndc : NoDup (IP <$> contents h sl)) by (rewrite Hc; by apply filter_IPs_NoDup).
    destruct (NewRouterScheduler_monitors h _ sl s Hv Hndc Hnew) as (Hm & Hss & _).
    destruct (drop_keeps m1 ip sid Hn1 Hs) as [Hs2 Hos2]; [rewrite Er, Er0; eauto|].
    assert (Hlo : lines_of (drop_schedulers m1) ip = contents h sl).
    { unfold lines_of. by rewrite drop_routerLines, drop_heap, Er, Eh, Er0, Eh0, Erip. }
    exists sid, s, sl. split; [|done]. unfold in_sync. rewrite Hlo, Hos2, drop_routerLines, drop_heap, Er, Eh, Er0, Eh0.
    split; [exact Erip|]. split; [exact Hs2|]. split; [exact Hos|]. split; [exact Hv|]. split; [exact Hndc|exact Hm].
  - intros ip sid [Hs _]%Hin1. by apply Hfresh.
  - change (pending_deletes m1 = pending_deletes m ∧ m_stopped m1 = m_stopped m). split; congruence.
Qed.

(** C34: a full synchronisation that gets lines files each line under its router
    and nothing else, keeps a scheduler only for routers that have lines, gives
    a new, synchronised scheduler to each router that had none and whose
    configuration is accepted, and leaves every surviving scheduler exactly as
    it was: lines that changed between two synchronisations do not reach it. *)
Theorem fullSync_spec range_lines range_routers m polls ls :
  wait_lines 150 polls = Some ls → lines_ok ls →
  range_lines ls ≡ₚ map_to_list ls → (∀ r, range_routers r ≡ₚ map_to_list r) → numbered_objects m →
  ∃ m', fullSync spare range_lines range_routers m polls = Ret m' ∧
    (∀ ip l, l ∈ lines_of m' ip ↔ (∃ k, ls !! k = Some l) ∧ router_IP (line_Router l) = ip) ∧
    (∀ ip sid, schedulers m' !! ip = Some sid → lines_of m' ip ≠ []) ∧
    (∀ ip sid, schedulers m !! ip = Some sid → lines_of m' ip ≠ [] →
       schedulers m' !! ip = Some sid ∧ objects m' !! sid = objects m !! sid) ∧
    ∀ ip l0 rest, lines_of m' ip = l0 :: rest → schedulers m !! ip = None →
      is_ret (scheduler_config (line_Router l0)) = true →
      ∃ sid s sl, in_sync m' ip sl sid s ∧ s_lines s = sl.
Proof.
  intros Hw Hok Hrl Hrr Hnum. destruct (ranged_IPs _ ls Hok Hrl) as [Hnd Hin].
  destruct (fullSync_synced range_lines range_routers m polls ls) as (m' & Hm' & Hsy); [done..|].
  exists m'. split; [done|]. split; [|split; [|split]].
  - intros ip l. rewrite (synced_lines m m' _ ip Hsy), list_elem_of_In, filter_In, <- list_elem_of_In, Hin.
    unfold routed_to. by rewrite String.eqb_eq.
  - intros ip sid Hs. rewrite (synced_lines m m' _ ip Hsy). intros Hnil. by rewrite (sy_dropped _ _ _ Hsy ip Hnil) in Hs.
  - intros ip sid Hs. rewrite (synced_lines m m' _ ip Hsy). by apply (sy_kept _ _ _ Hsy).
  - intros ip l0 rest. rewrite (synced_lines m m' _ ip Hsy). by apply (sy_new _ _ _ Hsy).
Qed.
End full_sync.

(** ** A concrete run *)

Definition demo_lines : gmap string Line :=
  {[ "10.1.1.1" := demo_line "10.1.1.1" Minute; "10.1.1.2" := demo_line "10.1.1.2" (2 * Minute)%Z ]}.

Definition demo_manager : Manager :=
  match fullSync (λ n, n) map_to_list map_to_list NewManager [demo_lines] with Ret m => m | _ => NewManager end.

Lemma demo_lines_ok : lines_ok demo_lines.
Proof.
  intros k l. unfold demo_lines. rewrite lookup_insert_Some, lookup_singleton_Some.
  by intros [[<- <-]|[_ [<- <-]]].
Qed.

Lemma fullSync_spec_witness :
  ∃ sid s sl, in_sync demo_manager "10.0.0.1" sl sid s ∧ s_lines s = sl.
Proof.
  destruct (fullSync_spec (λ n, n) map_to_list map_to_list NewManager [demo_lines] demo_lines)
    as (m' & Hm & Hl & _ & _ & Hnew).
  - reflexivity.
  - exact demo_lines_ok.
  - reflexivity.
  - reflexivity.
  - split; [intros ip sid H|intros ip ip' sid H]; simpl in H; by rewrite lookup_empty in H.
  - assert (E : demo_manager = m') by (unfold demo_manager; by rewrite Hm).
    rewrite <- E in *. destruct (lines_of demo_manager "10.0.0.1") as [|l0 rest] eqn:El.
    + vm_compute in El. discriminate El.
    + assert (El' : head (lines_of demo_manager "10.0.0.1") = Some l0) by by rewrite El.
      apply (Hnew _ l0 rest El); [reflexivity|].
      assert (line_Router l0 = demo_router) as ->; [|reflexivity].
      assert (∃ k, demo_lines !! k = Some l0) as [k Hk].
      { apply (Hl "10.0.0.1"). rewrite El. constructor. }
      unfold demo_lines in Hk. rewrite lookup_insert_Some, lookup_singleton_Some in Hk.
      by destruct Hk as [[_ <-]|[_ [_ <-]]].
Defined.

(** The state that synchronisation leaves: both slices are the second array. *)
Lemma demo_in_sync :
  ∃ s, in_sync demo_manager "10.0.0.1" (mk_slice 1 2) 0 s ∧ s_lines s = mk_slice 1 2 ∧
    IP <$> contents (heap demo_manager) (mk_slice 1 2) = ["10.1.1.1"; "10.1.1.2"].
Proof.
  set (s := default demo_scheduler (objects demo_manager !! 0)). exists s.
  assert (Hnd : NoDup (IP <$> contents (heap demo_manager) (mk_slice 1 2))).
  { apply (bool_decide_unpack _). vm_compute. done. }
  assert (Hv : valid (heap demo_manager) (mk_slice 1 2)) by (split; vm_compute; lia).
  destruct (NewRouterScheduler_monitors (heap demo_manager) demo_router (mk_slice 1 2) s Hv Hnd) as (Hm & Hs & _).
  { vm_compute. reflexivity. }
  split; [|split; [exact Hs|vm_compute; reflexivity]].
  assert (Hl : lines_of demo_manager "10.0.0.1" = contents (heap demo_manager) (mk_slice 1 2)) by (vm_compute; reflexivity).
  unfold in_sync. rewrite Hl. split; [vm_compute; reflexivity|]. split; [vm_compute; reflexivity|].
  split; [vm_compute; reflexivity|]. split; [exact Hv|]. split; [exact Hnd|exact Hm].
Qed.

Lemma create_event_in_sync_witness :
  ∃ m' sl' s', create_event (λ n, n) demo_manager (demo_line "10.1.1.3" Minute) = Ret m' ∧
    in_sync m' "10.0.0.1" sl' 0 s' ∧ in_queue s' (demo_line "10.1.1.3" Minute).
Proof.
  destruct demo_in_sync as (s & Hsync & Hs & Hips).
  assert (Hnew : IP (demo_line "10.1.1.3" Minute) ∉ IP <$> contents (heap demo_manager) (mk_slice 1 2)).
  { rewrite Hips. apply (bool_decide_unpack _). vm_compute. done. }
  destruct (create_event_in_sync (λ n, n) demo_manager "10.0.0.1" _ 0 s (demo_line "10.1.1.3" Minute) Hsync)
    as (m' & sl' & s' & Hc & Hs' & _ & _ & Hq & _).
  - by left.
  - reflexivity.
  - unfold known. by rewrite Hs.
  - rewrite (lines_of_eq _ _ _ (proj1 Hsync)). exact Hnew.
  - exists m', sl', s'. split; [exact Hc|]. split; [exact Hs'|exact Hq].
Defined.

Lemma create_after_delete_lost_witness :
  ∃ m2 s1, create_event (λ n, n) (delete_event demo_manager (demo_line "10.1.1.1" Minute))
      (demo_line "10.1.1.3" Minute) = Ret m2 ∧
    objects m2 !! 0 = Some s1 ∧ ¬ in_queue s1 (demo_line "10.1.1.3" Minute).
Proof.
  destruct demo_in_sync as (s & Hsync & Hs & Hips).
  destruct (create_after_delete_lost (λ n, n) demo_manager "10.0.0.1" _ 0 s (demo_line "10.1.1.1" Minute)
    (demo_line "10.1.1.3" Minute) Hsync Hs) as (m2 & Hc & _ & Ho & Hq).
  - rewrite (lines_of_eq _ _ _ (proj1 Hsync)). apply (bool_decide_unpack _). vm_compute. done.
  - reflexivity.
  - reflexivity.
  - apply (bool_decide_unpack _). vm_compute. done.
  - exists m2, (OnLineDeleted s (demo_line "10.1.1.1" Minute)). split; [exact Hc|]. split; [exact Ho|exact Hq].
Defined.

Lemma moved_router_update_lost_witness :
  let l := set_router (demo_line "10.1.1.1" Minute) (mk_router "10.0.0.2" "ops" "secret" "cisco_iosxe" "scrapli") in
  processLineEvent (λ n, n) demo_manager (mk_event LineUpdate l 2) = Ret demo_manager.
Proof.
  intros l. apply (moved_router_update_lost (λ n, n) demo_manager l 2).
  apply (bool_decide_unpack _). vm_compute. done.
Defined.
