(* ===== verification/Task.v ===== *)
(** * Task: tasks and their registry ([src/task/interface.go], [src/task/registry.go])

    A [Task] is the interface of the code: its metadata, the validation of its
    parameters, the command it builds and the parsing of the output. The
    registry finds the task that serves a platform, protocol and command type. *)
From S2P Require Import Prelude GoStrings GoFloat GoContext Types.
Local Open Scope string_scope.

(** [map[string]interface{}] *)
Abbreviation data := (gmap string value).

(** The payload of a command: lines, interactive events (input and expected
    prompt), or anything else. *)
Inductive payload :=
  | Commands (l : list string)
  | Events (l : list (string * string))
  | OtherPayload.

Record Command := mk_command { cmd_Type : string; Payload : payload }.

Record Result := mk_result { Success : bool; Data : data; Error : string }.

Record TaskContext := mk_task_context {
  TaskType : string;
  Platform : string;
  Protocol : string;
  CommandType : string;
  Params : data;
  Ctx : option Context }.                    (* [None]: nil *)

Definition WithContext (tc : TaskContext) (c : Context) : TaskContext := { tc with Ctx := Some c }.

Record ParamSpec := mk_param { Name : string; ptype : string; Required : bool; Default : value }.

Section meta.
Context {T : Type}.

Record CommandTypeSupport := mk_cts { cts_CommandType : string; ImplFactory : T; cts_Params : list ParamSpec }.
Record ProtocolSupport := mk_ps { ps_Protocol : string; CommandTypes : list CommandTypeSupport }.
Record PlatformSupport := mk_pls { pls_Platform : string; Protocols : list ProtocolSupport }.
Record TaskMeta := mk_meta { meta_Type : string; Description : string; Platforms : list PlatformSupport }.

(** [DefaultRegistry] *)
Abbreviation Registry := (gmap string TaskMeta).
Definition NewDefaultRegistry : Registry := ∅.

(** [Register]: a type is registered once. *)
Definition Register (r : Registry) (meta : TaskMeta) : outcome Registry :=
  match r !! meta_Type meta with
  | Some _ => Fail ("task '" +:+ meta_Type meta +:+ "' already registered")
  | None => Ret (<[meta_Type meta := meta]> r)
  end.

(** The nested loops of [Discover]: the first support that matches all three. *)
Fixpoint find_map {A B} (f : A → option B) (l : list A) : option B :=
  match l with
  | [] => None
  | x :: l => match f x with Some y => Some y | None => find_map f l end
  end.

Definition match_command (ct : string) (c : CommandTypeSupport) : option T :=
  if String.eqb (cts_CommandType c) ct then Some (ImplFactory c) else None.
Definition match_protocol (pr ct : string) (p : ProtocolSupport) : option T :=
  if String.eqb (ps_Protocol p) pr then find_map (match_command ct) (CommandTypes p) else None.
Definition match_platform (pl pr ct : string) (p : PlatformSupport) : option T :=
  if String.eqb (pls_Platform p) pl then find_map (match_protocol pr ct) (Protocols p) else None.

Definition Discover (r : Registry) (taskType platform protocol commandType : string) : outcome T :=
  match r !! taskType with
  | None => Fail ("task type '" +:+ taskType +:+ "' not found")
  | Some meta =>
      match find_map (match_platform platform protocol commandType) (Platforms meta) with
      | Some t => Ret t
      | None => Fail ("no matching task for platform '" +:+ platform +:+ "', protocol '" +:+ protocol +:+
                      "', command type '" +:+ commandType +:+ "'")
      end
  end.

(** [ListPlatforms], over the task types in the order of the range. *)
Definition ListPlatforms (range : Registry → list (string * TaskMeta)) (r : Registry) (platform : string) : list string :=
  (List.filter (λ kv, existsb (λ p, String.eqb (pls_Platform p) platform) (Platforms kv.2)) (range r)).*1.

Definition supports (meta : TaskMeta) (pl pr ct : string) (t : T) : Prop :=
  ∃ p q c, p ∈ Platforms meta ∧ pls_Platform p = pl ∧ q ∈ Protocols p ∧ ps_Protocol q = pr ∧
    c ∈ CommandTypes q ∧ cts_CommandType c = ct ∧ ImplFactory c = t.

Lemma find_map_Some {A B} (f : A → option B) l y :
  find_map f l = Some y → ∃ x, x ∈ l ∧ f x = Some y.
Proof.
  induction l as [|x l IH]; simpl; [done|]. destruct (f x) eqn:E.
  - intros [= <-]. exists x. split; [constructor|done].
  - intros H. destruct (IH H) as (x' & ? & ?). exists x'. split; [by constructor|done].
Qed.

Lemma find_map_None {A B} (f : A → option B) l : find_map f l = None ↔ ∀ x, x ∈ l → f x = None.
Proof.
  induction l as [|x l IH]; simpl; [split; [by intros _ ? ?%elem_of_nil|done]|].
  destruct (f x) eqn:E; [split; [done|]|rewrite IH].
  - intros H. specialize (H x ltac:(constructor)). congruence.
  - split; [intros H y [->|Hy]%elem_of_cons; auto|intros H y Hy; apply H; by constructor].
Qed.

(** Discovery returns a task that is registered for exactly the platform,
    protocol and command type asked for, and fails only when there is none. *)
Theorem Discover_spec r ty pl pr ct :
  match Discover r ty pl pr ct with
  | Ret t => ∃ meta, r !! ty = Some meta ∧ supports meta pl pr ct t
  | Fail _ => ∀ meta t, r !! ty = Some meta → ¬ supports meta pl pr ct t
  | Panic _ => False
  end.
Proof.
  unfold Discover. destruct (r !! ty) as [meta|]; [|done].
  destruct (find_map _ _) as [t|] eqn:E.
  - exists meta. split; [done|]. apply find_map_Some in E as (p & Hp & E). unfold match_platform in E.
    destruct (String.eqb_spec (pls_Platform p) pl) as [E1|]; [|done].
    apply find_map_Some in E as (q & Hq & E). unfold match_protocol in E.
    destruct (String.eqb_spec (ps_Protocol q) pr) as [E2|]; [|done].
    apply find_map_Some in E as (c & Hc & E). unfold match_command in E.
    destruct (String.eqb_spec (cts_CommandType c) ct) as [E3|]; [|done]. injection E as E.
    exists p, q, c. done.
  - intros meta' t [= <-] (p & q & c & Hp & E1 & Hq & E2 & Hc & E3 & _).
    rewrite find_map_None in E. specialize (E p Hp). unfold match_platform in E.
    rewrite E1, String.eqb_refl, find_map_None in E. specialize (E q Hq). unfold match_protocol in E.
    rewrite E2, String.eqb_refl, find_map_None in E. specialize (E c Hc). unfold match_command in E.
    by rewrite E3, String.eqb_refl in E.
Qed.

(** A type keeps its first registration. *)
Lemma Register_once r meta meta' r' :
  Register r meta = Ret r' → meta_Type meta' = meta_Type meta → is_ret (Register r' meta') = false.
Proof.
  unfold Register. destruct (r !! meta_Type meta); [done|]. intros [= <-] ->.
  by rewrite lookup_insert_eq.
Qed.
End meta.
Arguments CommandTypeSupport T : clear implicits.
Arguments ProtocolSupport T : clear implicits.
Arguments PlatformSupport T : clear implicits.
Arguments TaskMeta T : clear implicits.

(** [type Task interface]; the world [W] is what running commands acts on. *)
Record Task := mk_task {
  ValidateParams : data → option string;
  BuildCommand : TaskContext → outcome Command;
  ParseOutput : TaskContext → value → Result * option string }.
