(* ===== verification/ManagerLoop.v ===== *)
(** * ManagerLoop: how changes reach the manager ([src/manager/manager.go])

    [handleLineChanges] moves the events of its subscription into a buffer, from which
    the event processor applies them; full synchronisations, the goroutines that start
    schedulers and the timers of deletions come in between. The manager's lock makes
    each of these one step ([Manager]); an execution is a list of actions. *)
From S2P Require Import Prelude GoStrings Types Lines Config ConfigSync Queue Slices Scheduler Manager.
From S2P Require Task.
Local Open Scope nat_scope.

(** What is done to the manager under its lock. *)
Inductive work :=
  | Apply (e : LineChangeEvent)
  | Sync (polls : list (gmap string Line))
  | RunStart (sid : nat)
  | Fire (timer_first : bool) (ip : string) (sid : nat).

(** The buffer holds what was received; [None] is the zero event of a closed channel,
    whose type is none of the three. *)
Record Loop := mk_loop {
  subscription : list LineChangeEvent;
  sub_open : bool;
  published : list LineChangeEvent;          (* all that was put into the subscription *)
  eventBuffer : list (option LineChangeEvent);
  dropped : list (option LineChangeEvent);
  forwarding : bool;                         (* [handleLineChanges] runs *)
  processing : bool;                         (* the event processor runs *)
  stopping : bool;                           (* [appCtx] cancelled or [stopChan] closed *)
  mgr : Manager;
  journal : list work }.

Section loop.
Context (spare : nat → nat).
Context (range_lines : gmap string Line → list (string * Line)).
Context (range_routers : gmap string slice → list (string * slice)).

Definition do_work (m : Manager) (w : work) : outcome Manager :=
  match w with
  | Apply e => processLineEvent spare m e
  | Sync polls => fullSync spare range_lines range_routers m polls
  | RunStart sid => Ret (run_start m sid)
  | Fire timer_first ip sid => Ret (fire_delete timer_first m ip sid)
  end.

Fixpoint replay (m : Manager) (l : list work) : outcome Manager :=
  match l with
  | [] => Ret m
  | w :: l => match do_work m w with Ret m => replay m l | r => r end
  end.

(** [Manager.Start] up to here: the first synchronisation, and the subscription. *)
Definition new_loop (m : Manager) : Loop := mk_loop [] true [] [] [] true true false m [].

Inductive action :=
  | Publish (e : LineChangeEvent)
  | CloseSubscription
  | StopSignal
  | Receive
  | SeeStop
  | Process
  | Background (w : work).

Definition buffer_cap : nat := 500.

(** [select] with a default. *)
Definition buffer_event (x : option LineChangeEvent) (s : Loop) : Loop :=
  if length (eventBuffer s) <? buffer_cap then { s with eventBuffer ::= (.++ [x]) } else { s with dropped ::= (.++ [x]) }.

(** One turn of the loop that takes an event; a closed channel always gives one. *)
Definition receive (s : Loop) : option Loop :=
  if negb (forwarding s) then None
  else match subscription s with
       | e :: l => Some (buffer_event (Some e) ({ s with subscription := l }))
       | [] => if sub_open s then None else Some (buffer_event None s)
       end.

(** One turn of the event processor; a panic is not recovered. *)
Definition process (s : Loop) : option (outcome Loop) :=
  if negb (processing s) then None
  else match eventBuffer s with
       | Some e :: l => Some (match processLineEvent spare (mgr s) e with
                              | Ret m => Ret { s with eventBuffer := l; mgr := m; journal ::= (.++ [Apply e]) }
                              | Fail x => Fail x
                              | Panic x => Panic x
                              end)
       | None :: l => Some (Ret { s with eventBuffer := l })
       | [] => if forwarding s then None else Some (Ret { s with processing := false })
       end.

Definition step (s : Loop) (a : action) : option (outcome Loop) :=
  match a with
  | Publish e => if sub_open s then Some (Ret { s with subscription ::= (.++ [e]); published ::= (.++ [e]) }) else None
  | CloseSubscription => if sub_open s then Some (Ret { s with sub_open := false }) else None
  | StopSignal => Some (Ret { s with stopping := true })
  | Receive => Ret <$> receive s
  | SeeStop => if forwarding s && stopping s then Some (Ret { s with forwarding := false }) else None
  | Process => process s
  | Background (Apply _) => None
  | Background w => match do_work (mgr s) w with
                    | Ret m => Some (Ret { s with mgr := m; journal ::= (.++ [w]) })
                    | _ => None
                    end
  end.

Fixpoint run (s : Loop) (l : list action) : option (outcome Loop) :=
  match l with
  | [] => Some (Ret s)
  | a :: l => match step s a with Some (Ret s) => run s l | r => r end
  end.

(** ** What the manager has seen *)

Definition event_of (w : work) : option LineChangeEvent := match w with Apply e => Some e | _ => None end.
Definition applied (s : Loop) : list LineChangeEvent := omap event_of (journal s).
(** Applied, or still in the buffer. *)
Definition kept (s : Loop) : list LineChangeEvent := (applied s ++ omap id (eventBuffer s))%list.

Record loop_ok (m0 : Manager) (s : Loop) : Prop := {
  ok_replay : replay m0 (journal s) = Ret (mgr s);
  ok_received : ∃ received, published s = (received ++ subscription s)%list ∧ kept s `sublist_of` received ∧
    (kept s ++ omap id (dropped s))%list ≡ₚ received;
  ok_room : length (eventBuffer s) <= buffer_cap;
  ok_open : sub_open s = true → (None ∉ eventBuffer s) ∧ (None ∉ dropped s);
  ok_forward : forwarding s = false → stopping s = true;
  ok_end : processing s = false → forwarding s = false ∧ eventBuffer s = [] }.

Lemma replay_snoc m l w m1 : replay m l = Ret m1 → replay m (l ++ [w]) = do_work m1 w.
Proof.
  revert m. induction l as [|w' l IH]; intros m; cbn; [intros [= ->]; by destruct (do_work m1 w)|].
  destruct (do_work m w'); [apply IH|done..].
Qed.

Lemma omap_snoc {A B} (f : A → option B) (l : list A) x :
  omap f (l ++ [x]) = (omap f l ++ match f x with Some y => [y] | None => [] end)%list.
Proof. rewrite omap_app. cbn. by destruct (f x). Qed.

(** An event that is received is kept or dropped. *)
Lemma loop_receive_ok m0 s s' : loop_ok m0 s → receive s = Some s' → loop_ok m0 s'.
Proof.
  intros [H1 (received & E & Hs & Hp) H3 H4 H5 H6] H. unfold receive in H.
  destruct (forwarding s) eqn:Ef; [|done]. cbn in H.
  assert (Hpr : processing s = true) by (destruct (processing s); [done|by destruct H6]).
  destruct (subscription s) as [|e l] eqn:El; [destruct (sub_open s) eqn:Eo; [done|]|]; injection H as <-; unfold buffer_event; cbn -[Nat.ltb buffer_cap].
  - destruct (Nat.ltb_spec (length (eventBuffer s)) buffer_cap) as [Hl|Hl].
    + split; cbn -[buffer_cap]; try done; [|rewrite length_app; cbn -[buffer_cap]; lia|rewrite Eo; done|congruence|congruence].
      exists received. unfold kept, applied in *. cbn. rewrite omap_snoc, El. cbn. by rewrite !app_nil_r in *.
    + split; cbn; try done; [|rewrite Eo; done|congruence|congruence].
      exists received. unfold kept, applied in *. cbn. rewrite omap_snoc, El. cbn. by rewrite !app_nil_r in *.
  - rewrite (cons_middle e received l), app_assoc in E. destruct (Nat.ltb_spec (length (eventBuffer s)) buffer_cap) as [Hl|Hl].
    + split; cbn -[buffer_cap]; try done; [|rewrite length_app; cbn -[buffer_cap]; lia| |congruence|congruence].
      * exists (received ++ [e])%list. unfold kept, applied in *. cbn. rewrite omap_snoc. cbn. rewrite app_assoc. split; [done|]. split.
        -- by apply sublist_app.
        -- rewrite <- Hp, <- !app_assoc. do 2 apply Permutation_app_head. by rewrite Permutation_app_comm.
      * intros Ho. destruct (H4 Ho) as [H7 H8]. split; [|done]. intros [?|?%list_elem_of_singleton]%elem_of_app; done.
    + split; cbn; try done; [| |congruence|congruence].
      * exists (received ++ [e])%list. unfold kept, applied in *. cbn. rewrite omap_snoc. cbn. split; [done|]. split.
        -- by apply sublist_inserts_r.
        -- by rewrite app_assoc, Hp.
      * intros Ho. destruct (H4 Ho) as [H7 H8]. split; [done|]. intros [?|?%list_elem_of_singleton]%elem_of_app; done.
Qed.

Lemma loop_process_ok m0 s s' : loop_ok m0 s → process s = Some (Ret s') → loop_ok m0 s'.
Proof.
  intros [H1 (received & E & Hs & Hp) H3 H4 H5 H6] H. unfold process in H. destruct (processing s) eqn:Ep; [|done]. cbn in H.
  destruct (eventBuffer s) as [|[e|] l] eqn:Eb.
  - destruct (forwarding s) eqn:Ef; [done|]. injection H as <-. unfold kept, applied in *. rewrite Eb in *.
    split; unfold kept, applied; cbn; rewrite ?Eb; try done; [by exists received|auto].
  - destruct (processLineEvent spare (mgr s) e) as [m| |] eqn:Em; try done. injection H as <-.
    unfold kept, applied in *. rewrite Eb in *. split; cbn in *.
    + rewrite (replay_snoc _ _ _ _ H1). exact Em.
    + exists received. unfold kept, applied. cbn. rewrite omap_snoc, <- app_assoc. done.
    + lia.
    + intros Ho. destruct (H4 Ho) as [H7 H8]. split; [|done]. set_solver.
    + done.
    + congruence.
  - injection H as <-. unfold kept, applied in *. rewrite Eb in *. split; cbn in *; try done.
    + by exists received.
    + lia.
    + intros Ho. destruct (H4 Ho) as [H7 H8]. split; [|done]. set_solver.
    + congruence.
Qed.

Lemma loop_step_ok m0 s a s' : loop_ok m0 s → step s a = Some (Ret s') → loop_ok m0 s'.
Proof.
  intros Hok H. destruct a as [e| | | | | |w]; cbn in H.
  - destruct Hok as [H1 (received & E & Hs & Hp) H3 H4 H5 H6]. destruct (sub_open s) eqn:Eo; [|done]. injection H as <-.
    split; cbn; try done; [|by rewrite Eo]. exists received. by rewrite E, app_assoc.
  - destruct Hok as [H1 H2 H3 H4 H5 H6]. destruct (sub_open s) eqn:Eo; [|done]. by injection H as <-.
  - injection H as <-. destruct Hok. by split.
  - destruct (receive s) as [s1|] eqn:E; [|done]. injection H as <-. by eapply loop_receive_ok.
  - destruct Hok as [H1 H2 H3 H4 H5 H6]. destruct (forwarding s) eqn:Ef, (stopping s) eqn:Es; try done. injection H as <-.
    split; cbn; try done. intros Hp. by destruct (H6 Hp).
  - by eapply loop_process_ok.
  - assert (Hbg : ∀ w, event_of w = None → match do_work (mgr s) w with Ret m => Some (Ret { s with mgr := m; journal ::= (.++ [w])%list }) | _ => None end = Some (Ret s') → loop_ok m0 s').
    { clear w H. intros w Hw H. destruct Hok as [H1 (received & E & Hs & Hp) H3 H4 H5 H6].
      destruct (do_work (mgr s) w) as [m| |] eqn:Em; try done. injection H as <-. split; cbn; try done.
      - by rewrite (replay_snoc _ _ _ _ H1).
      - exists received. unfold kept, applied in *. cbn. by rewrite omap_snoc, Hw, app_nil_r. }
    destruct w as [e|polls|sid|first ip sid];
      [done|exact (Hbg (Sync polls) eq_refl H)|exact (Hbg (RunStart sid) eq_refl H)|exact (Hbg (Fire first ip sid) eq_refl H)].
Qed.

Lemma loop_run_ok m0 s l s' : loop_ok m0 s → run s l = Some (Ret s') → loop_ok m0 s'.
Proof.
  revert s. induction l as [|a l IH]; intros s Hok H; cbn in H; [by injection H as <-|].
  destruct (step s a) as [[s1| |]|] eqn:E; try done. eapply IH; [|done]. by eapply loop_step_ok.
Qed.

Lemma new_loop_ok m0 : loop_ok m0 (new_loop m0).
Proof. split; cbn; try done; [by exists []|lia|by split; intros ?%elem_of_nil]. Qed.

Lemma sublist_full {A} (l k : list A) : l `sublist_of` k → l ≡ₚ k → l = k.
Proof.
  intros H Hp%Permutation_length. induction H as [|x l k H IH|x l k H IH]; [done| |].
  - f_equal. apply IH. by injection Hp.
  - apply sublist_length in H. simpl in Hp. lia.
Qed.

End loop.

(** A line is moved although the manager does not know it; the stop comes while the
    event is in the buffer. *)
Definition moved_line : LineChangeEvent := mk_event LineUpdate (demo_line "10.1.1.9" Minute) 1.
Definition stopped_run : list action :=
  [Publish moved_line; Receive; StopSignal; SeeStop; Background (Fire false "10.0.0.1" 0); Process; Process].


(** ** The goroutines of the manager *)

(** [safeExecute] and [safeExecuteWithError]: a panic is recovered; the error that is
    returned then is nil. *)
Definition safeExecute (o : outcome unit) : outcome unit := match o with Panic _ => Ret () | r => r end.
Definition safeExecuteWithError (o : outcome (option string)) : outcome (option string) :=
  match o with Panic _ => Ret None | r => r end.

Lemma panic_without_error w : safeExecuteWithError (Panic w) = Ret None.
Proof. done. Qed.

(** [shouldStop]: both mechanisms. *)
Definition shouldStop (ctx_done stop_closed : bool) : bool := ctx_done || stop_closed.

(** What a [select] finds in one turn: the two signals and the timer; [stop_first] is its
    choice when both kinds are ready. *)
Record turn := mk_turn { t_ctx : bool; t_stop : bool; t_timer : bool; stop_first : bool }.

(** [waitForStopOrTimer]: [None] while it waits. *)
Fixpoint waitForStopOrTimer (turns : list turn) : option bool :=
  match turns with
  | [] => None
  | t :: turns =>
      if shouldStop (t_ctx t) (t_stop t) && (stop_first t || negb (t_timer t)) then Some true
      else if t_timer t then Some false
      else waitForStopOrTimer turns
  end.

(** [runPeriodicWithContext]: how often the work is done, and whether it has returned. *)
Fixpoint runPeriodicWithContext (turns : list turn) : nat * bool :=
  match turns with
  | [] => (0, false)
  | t :: turns =>
      if shouldStop (t_ctx t) (t_stop t) && (stop_first t || negb (t_timer t)) then (0, true)
      else let '(n, returned) := runPeriodicWithContext turns in ((if t_timer t then S n else n), returned)
  end.

(** Without a signal it works at every tick and does not return. *)
Lemma periodic_goes_on turns :
  Forall (λ t, shouldStop (t_ctx t) (t_stop t) = false) turns →
  runPeriodicWithContext turns = (length (List.filter t_timer turns), false).
Proof.
  induction 1 as [|t turns Ht _ IH]; cbn [runPeriodicWithContext]; [done|]. rewrite Ht, IH. cbn. by destruct (t_timer t).
Qed.

(** With a signal in the first turn it does at most one more piece of work in it. *)
Lemma wait_decides turns b : waitForStopOrTimer turns = Some b → ∃ t, t ∈ turns ∧
  (if b then shouldStop (t_ctx t) (t_stop t) = true else t_timer t = true).
Proof.
  induction turns as [|t turns IH]; cbn [waitForStopOrTimer]; [done|].
  destruct (shouldStop _ _ && _) eqn:Es; [|destruct (t_timer t) eqn:Et].
  - intros [= <-]. exists t. split; [left|]. by apply andb_prop in Es as [-> _].
  - intros [= <-]. exists t. split; [left|done].
  - intros H. destruct (IH H) as (t' & Hin & Ht'). exists t'. split; [by right|done].
Qed.

(** What [Start] sets going. *)
Inductive started :=
  | FirstSync
  | Periodic (name : string) (interval : Z)
  | Subscribe
  | HandleLineChanges.

Section start.
Context {T : Type}.

Definition Start (has_aggregator : bool) (registry : gmap string (Task.TaskMeta T)) (ping : Task.TaskMeta T) :
    gmap string (Task.TaskMeta T) * list started :=
  if negb has_aggregator then (registry, [])
  else match Task.Register registry ping with
       | Ret registry =>
           (registry, [FirstSync; Periodic "periodicSync" (6 * 60 * Minute); Subscribe; HandleLineChanges;
                       Periodic "statusMonitor" (5 * Minute)])
       | _ => (registry, [])
       end.

(** A second start finds the ping task registered and starts nothing. *)
Lemma Start_once registry ping :
  let '(r1, l1) := Start true registry ping in (Start true r1 ping).2 = [].
Proof.
  unfold Start. cbn [negb]. destruct (Task.Register registry ping) as [r| |] eqn:E; [|by rewrite E|by rewrite E].
  pose proof (Task.Register_once registry ping ping r E eq_refl) as H. by destruct (Task.Register r ping).
Qed.
End start.

(** The warnings of the status monitor, in megabytes. *)
Definition status_warnings (goroutines heap_inuse : Z) : list string :=
  ((if 100 <? goroutines then ["many goroutines"] else []) ++ (if 512 <? heap_inuse then ["much heap memory"] else []))%Z%list.

Record SystemInfo := mk_system { goroutine_count : Z; num_cpu : Z; alloc_mb : Z; heap_inuse_mb : Z; gc_count : Z }.
Definition DumpDebugInfo (m : Manager) (sys : SystemInfo) :=
  (GetDetailedStats m, CheckResourceCleanup m, sys).
