(* ===== verification/Follow.v ===== *)
(** * Follow: the manager follows the syncer ([src/manager/manager.go])

    [Manager] has the effect of each operation on one router. Here is the whole manager
    under a series of operations: line events, expired deletion timers, started
    schedulers and full synchronisations. Each operation is local to a router, whose
    arrays no other router shares; the lines of all routers are then those that the
    announced changes lead to, and each is in the queue of its interval. *)
From S2P Require Import Prelude GoStrings Types Lines Config ConfigSync Queue Slices Scheduler Manager ManagerLoop.
Local Open Scope nat_scope.

(** ** Operations are local to a router *)

(** The arrays of a router: those of the manager's slice and of its scheduler's. *)
Definition owned (m : Manager) (ip : string) (a : nat) : Prop :=
  (∃ sl, routerLines m !! ip = Some sl ∧ arr sl = a) ∨
  (∃ sid s, schedulers m !! ip = Some sid ∧ objects m !! sid = Some s ∧ arr (s_lines s) = a).

(** Scheduler numbers, those of the waiting deletions included, belong to one router. *)
Definition numbered (m : Manager) : Prop :=
  numbered_objects m ∧
  ∀ p, p ∈ pending_deletes m → p.2 < next_object m ∧ ∀ ip, schedulers m !! ip = Some p.2 → ip = p.1.

Record local (m m' : Manager) (ip : string) : Prop := {
  lo_maps : ∀ ip', ip' ≠ ip → routerLines m' !! ip' = routerLines m !! ip' ∧ schedulers m' !! ip' = schedulers m !! ip';
  lo_objects : ∀ ip' sid, ip' ≠ ip → schedulers m !! ip' = Some sid → objects m' !! sid = objects m !! sid;
  lo_heap : length (heap m) ≤ length (heap m') ∧
            ∀ a, a < length (heap m) → ¬ owned m ip a → heap m' !! a = heap m !! a;
  lo_owned : ∀ a, owned m' ip a → owned m ip a ∨ length (heap m) ≤ a;
  lo_numbered : numbered m';
  lo_running : m_stopped m' = m_stopped m }.

Lemma local_refl m ip : numbered m → local m m ip.
Proof. intros H. constructor; auto. Qed.

Lemma local_trans m1 m2 m3 ip : local m1 m2 ip → local m2 m3 ip → local m1 m3 ip.
Proof.
  intros H1 H2. constructor.
  - intros ip' Hne. destruct (lo_maps _ _ _ H1 ip' Hne), (lo_maps _ _ _ H2 ip' Hne). split; congruence.
  - intros ip' sid Hne Hs. rewrite (lo_objects _ _ _ H2 ip' sid Hne); [by eapply lo_objects|].
    by rewrite (proj2 (lo_maps _ _ _ H1 ip' Hne)).
  - destruct (lo_heap _ _ _ H1) as [L1 F1], (lo_heap _ _ _ H2) as [L2 F2]. split; [lia|]. intros a Ha Hn.
    rewrite F2; [by apply F1|lia|]. intros [?|?]%(lo_owned _ _ _ H1); [done|lia].
  - intros a [Ho|Ha]%(lo_owned _ _ _ H2); [by apply (lo_owned _ _ _ H1)|]. right. destruct (lo_heap _ _ _ H1). lia.
  - apply H2.
  - rewrite (lo_running _ _ _ H2). apply H1.
Qed.

(** What an operation on a heap and a slice may change. *)
Definition frame (h : list (list Line)) (a : nat) (h' : list (list Line)) (a' : nat) : Prop :=
  length h ≤ length h' ∧ (∀ b, b < length h → b ≠ a → h' !! b = h !! b) ∧ (a' = a ∨ length h ≤ a').

Lemma append_local n h sl l : let '(h', sl') := append no_line n h sl l in frame h (arr sl) h' (arr sl').
Proof.
  unfold append, frame. destruct (len sl <? cap h sl); simpl.
  - rewrite length_insert. split; [done|]. split; [|by left]. intros b _ Hb. by rewrite list_lookup_insert_ne.
  - rewrite length_app. split; [lia|]. split; [|by right]. intros b Hb _. by rewrite lookup_app_l.
Qed.

Lemma store_local h sl i l : frame h (arr sl) (store h sl i l) (arr sl).
Proof.
  unfold store, frame. rewrite length_insert. split; [done|]. split; [|by left]. intros b _ Hb. by rewrite list_lookup_insert_ne.
Qed.

Lemma delete_local h sl i : let '(h', sl') := delete_at h sl i in frame h (arr sl) h' (arr sl').
Proof.
  unfold delete_at, frame. simpl. rewrite length_insert. split; [done|]. split; [|by left]. intros b _ Hb.
  by rewrite list_lookup_insert_ne.
Qed.

Lemma enqueue_all_lines ls s : s_lines (foldl enqueue s ls) = s_lines s.
Proof. revert s. induction ls as [|l ls IH]; intros s; [done|]. simpl. by rewrite IH, enqueue_s_lines. Qed.

Lemma NewRouterScheduler_lines h r sl s : NewRouterScheduler h r sl = Ret s → s_lines s = sl.
Proof.
  unfold NewRouterScheduler. destruct (scheduler_config r); try done. intros [= <-]. unfold initializeQueues.
  by rewrite enqueue_all_lines.
Qed.

Lemma requeue_lines s old new : s_lines (requeue s old new) = s_lines s.
Proof. unfold requeue. destruct (negb _); [rewrite enqueue_s_lines|]; by destruct (queues s !! _). Qed.

Section follow.
Context (spare : nat → nat).

Lemma handler_frames h s l old :
  frame h (arr (s_lines s)) (OnLineCreated spare h s l).1 (arr (s_lines (OnLineCreated spare h s l).2)) ∧
  frame h (arr (s_lines s)) (OnLineUpdated h s old l).1 (arr (s_lines (OnLineUpdated h s old l).2)) ∧
  frame h (arr (s_lines s)) h (arr (s_lines (OnLineDeleted s l))).
Proof.
  split; [|split].
  - unfold OnLineCreated. destruct (lineExistsLocked h s (IP l)); [by split; [|split; [|left]]|].
    rewrite enqueue_s_lines. unfold push. pose proof (append_local (spare (cap h (s_lines s))) h (s_lines s) l) as H.
    by destruct (append _ _ _ _ _).
  - unfold OnLineUpdated. rewrite requeue_lines.
    destruct (find_index _ _); simpl; rewrite requeue_lines; [apply store_local|by split; [|split; [|left]]].
  - rewrite OnLineDeleted_s_lines. by split; [|split; [|left]].
Qed.

(** ** The manager's own part of an operation *)

Lemma local_lines m ip h sl a :
  numbered m → frame (heap m) a h (arr sl) → (owned m ip a ∨ length (heap m) ≤ a) →
  local m { m with heap := h; routerLines ::= <[ip := sl]> } ip.
Proof.
  intros Hn (Hl & Hf & Ha') Ha. constructor; cbn.
  - intros ip' Hne. by rewrite lookup_insert_ne.
  - done.
  - split; [done|]. intros b Hb Ho. apply Hf; [done|]. intros ->. destruct Ha; [done|lia].
  - intros b [(sl' & Hsl' & <-)|Ho]; [|left; by right]. simpl in Hsl'. rewrite lookup_insert_eq in Hsl'. injection Hsl' as <-.
    destruct Ha' as [->|?]; [|by right]. exact Ha.
  - done.
  - done.
Qed.

Lemma local_store m ip sl i l :
  numbered m → routerLines m !! ip = Some sl → local m { m with heap ::= (λ h, store h sl i l) } ip.
Proof.
  intros Hn Hsl. destruct (store_local (heap m) sl i l) as (Hl & Hf & _). constructor; simpl; try done; [|auto].
  split; [done|]. intros b Hb Ho. apply Hf; [done|]. intros ->. apply Ho. left. eauto.
Qed.

Lemma local_with_scheduler m ip f :
  numbered m →
  (∀ sid s, schedulers m !! ip = Some sid → objects m !! sid = Some s →
     frame (heap m) (arr (s_lines s)) (f (heap m) s).1 (arr (s_lines (f (heap m) s).2))) →
  local m (with_scheduler m ip f) ip.
Proof.
  intros Hn Hf. unfold with_scheduler.
  destruct (schedulers m !! ip) as [sid|] eqn:Es; [|by apply local_refl].
  destruct (objects m !! sid) as [s|] eqn:Eo; [|by apply local_refl].
  destruct (Hf sid s eq_refl Eo) as (Hl & Hfr & Ha). destruct (f (heap m) s) as [h' s']. cbn [fst snd] in *.
  assert (Hown : owned m ip (arr (s_lines s))) by (right; eauto).
  constructor; simpl.
  - done.
  - intros ip' sid' Hne Hs'. rewrite lookup_insert_ne; [done|]. intros <-. apply Hne. by apply (proj2 (proj1 Hn) ip' ip sid).
  - split; [done|]. intros b Hb Ho. apply Hfr; [done|]. by intros ->.
  - intros b [Ho|(sid' & s1 & Hs1 & Ho1 & <-)]; [left; by left|]. simpl in Hs1, Ho1. rewrite Es in Hs1. injection Hs1 as <-.
    rewrite lookup_insert_eq in Ho1. injection Ho1 as <-. destruct Ha as [->|?]; [by left|by right].
  - done.
  - done.
Qed.

Lemma local_pending m ip sid :
  numbered m → schedulers m !! ip = Some sid → local m { m with pending_deletes ::= ((ip, sid) ::.) } ip.
Proof.
  intros [Hn Hp] Hs. constructor; simpl; try done; [auto|]. split; [done|]. intros p [->|Hin]%elem_of_cons; [|by apply Hp].
  cbn. split; [by apply (proj1 Hn ip)|]. intros ip' Hs'. by apply (proj2 Hn ip' ip sid).
Qed.

Lemma local_ensure m m' ip sl :
  numbered m → routerLines m !! ip = Some sl → contents (heap m) sl ≠ [] → ensureScheduler m ip sl = Ret m' → local m m' ip.
Proof.
  intros [Hn Hp] Hsl Hne E. destruct (ensureScheduler_spec m ip sl Hn Hne) as (m1 & E1 & He & Hh & Hother).
  rewrite E in E1. injection E1 as <-. destruct He as (Eh & Er & Enx & Hn' & Hkeep & Hobj & Hfresh & Ep & Et). constructor.
  - intros ip' Hi. rewrite Er. auto.
  - intros ip' sid _ Hs. apply Hobj. by apply (proj1 Hn ip').
  - rewrite Eh. auto.
  - intros a [(sl' & Hsl' & <-)|(sid & s & Hs & Ho & <-)]; left.
    + rewrite Er in Hsl'. left. eauto.
    + unfold has_scheduler in Hh. destruct (schedulers m !! ip) as [sid'|] eqn:Es.
      * rewrite Hh in Hs. injection Hs as ->. right. exists sid, s. split; [done|]. split; [|done]. rewrite <- Hobj; [done|].
        by apply (proj1 Hn ip).
      * destruct (head (contents (heap m) sl)) as [l0|] eqn:Ehd; [|by destruct (contents (heap m) sl)].
        destruct (is_ret (scheduler_config (line_Router l0))); [|congruence].
        destruct Hh as (sid' & s' & Hs' & Ho' & _ & Hnew). rewrite Hs in Hs'. injection Hs' as <-. rewrite Ho in Ho'. injection Ho' as <-.
        left. exists sl. split; [exact Hsl|]. by rewrite (NewRouterScheduler_lines _ _ _ _ Hnew).
  - split; [done|]. intros p. rewrite Ep. intros Hin. destruct (Hp p Hin) as [Hlt Hu]. split; [lia|].
    intros ip' [Hs|Hs]%Hfresh; [by apply Hu|lia].
  - done.
Qed.

Lemma create_local m m' l :
  numbered m → (∀ sl, routerLines m !! router_IP (line_Router l) = Some sl → valid (heap m) sl) →
  create_event spare m l = Ret m' → local m m' (router_IP (line_Router l)).
Proof.
  set (ip := router_IP (line_Router l)). intros Hn Hv E. unfold create_event in E. fold ip in E.
  set (m0 := match routerLines m !! ip with Some _ => m | None => _ end) in E.
  assert (H0 : local m m0 ip ∧ ∃ sl, routerLines m0 !! ip = Some sl ∧ valid (heap m0) sl).
  { unfold m0. destruct (routerLines m !! ip) as [sl|] eqn:Er; [split; [by apply local_refl|eauto]|]. unfold make. split.
    - apply local_lines with (a := length (heap m)); [done| |by right]. unfold frame. simpl. rewrite length_app.
      split; [lia|]. split; [|by left]. intros b Hb _. by rewrite lookup_app_l.
    - eexists. simpl. rewrite lookup_insert_eq. split; [done|]. apply (make_valid no_line (heap m) 0). }
  clearbody m0. destruct H0 as (H0 & sl & Hsl & Hvs). destruct (existsb _ _); [injection E as <-; exact H0|].
  unfold append_line in E. rewrite Hsl in E. pose proof (append_local (spare (cap (heap m0) sl)) (heap m0) sl l) as Hf.
  pose proof (append_contents no_line (spare (cap (heap m0) sl)) (heap m0) sl l Hvs) as Hc. fold (push spare (heap m0) sl l) in Hf, Hc.
  destruct (push spare (heap m0) sl l) as [h1 sl1]. simpl in Hc.
  match type of E with context [schedulers ?x !! ip] => set (m1 := x) in E end.
  assert (H1 : local m0 m1 ip).
  { apply local_lines with (a := arr sl); [apply H0|exact Hf|]. left. left. eauto. }
  assert (Hsl1 : routerLines m1 !! ip = Some sl1 ∧ heap m1 = h1) by (unfold m1; simpl; by rewrite lookup_insert_eq).
  clearbody m1. destruct Hsl1 as [Hsl1 Hh1].
  assert (Hfin : ∀ m2, local m1 m2 ip → local m (with_scheduler m2 ip (λ h s, OnLineCreated spare h s l)) ip).
  { intros m2 H2. eapply local_trans; [exact H0|]. eapply local_trans; [exact H1|]. eapply local_trans; [exact H2|].
    apply local_with_scheduler; [apply H2|]. intros sid s _ _. apply (handler_frames _ _ l l). }
  rewrite Hsl1 in E. destruct (schedulers m1 !! ip) as [sid|].
  - injection E as <-. apply Hfin, local_refl, H1.
  - destruct (ensureScheduler m1 ip sl1) as [m2|e|e] eqn:Ee; [|done..]. injection E as <-. apply Hfin.
    eapply local_ensure; [apply H1|exact Hsl1| |exact Ee]. rewrite Hh1, Hc. by destruct (contents (heap m0) sl).
Qed.

Lemma update_local m l : numbered m → local m (update_event m l) (router_IP (line_Router l)).
Proof.
  set (ip := router_IP (line_Router l)). intros Hn. unfold update_event. fold ip.
  destruct (routerLines m !! ip) as [sl|] eqn:Er; [|by apply local_refl].
  destruct (find_index _ _) as [i|]; [|by apply local_refl].
  pose proof (local_store m ip sl i l Hn Er) as H1. eapply local_trans; [exact H1|].
  apply local_with_scheduler; [apply H1|]. intros sid s _ _. apply (handler_frames _ _ l).
Qed.

Lemma delete_event_local m l : numbered m → local m (delete_event m l) (router_IP (line_Router l)).
Proof.
  set (ip := router_IP (line_Router l)). intros Hn. unfold delete_event. fold ip.
  match goal with |- local _ (match schedulers ?x !! ip with _ => _ end) _ => set (m1 := x) end.
  assert (H1 : local m m1 ip).
  { unfold m1. destruct (routerLines m !! ip) as [sl|] eqn:Er; [|by apply local_refl].
    destruct (find_index _ _) as [i|]; [|by apply local_refl].
    pose proof (delete_local (heap m) sl i) as Hf. destruct (delete_at (heap m) sl i) as [h1 sl1].
    apply local_lines with (a := arr sl); [done|exact Hf|]. left. left. eauto. }
  clearbody m1. destruct (schedulers m1 !! ip) as [sid|] eqn:Es; [|exact H1].
  assert (H2 : local m1 (with_scheduler m1 ip (λ h s, (h, OnLineDeleted s l))) ip).
  { apply local_with_scheduler; [apply H1|]. intros sid' s _ _. apply (handler_frames _ _ l l). }
  assert (Hs2 : schedulers (with_scheduler m1 ip (λ h s, (h, OnLineDeleted s l))) !! ip = Some sid).
  { unfold with_scheduler. rewrite Es. by destruct (objects m1 !! sid). }
  eapply local_trans; [exact H1|]. case_match; [|exact H2].
  eapply local_trans; [exact H2|]. apply local_pending; [apply H2|exact Hs2].
Qed.

(** ** What the manager and the scheduler of one router have *)

(** Over one array the scheduler's slice is at least as long. *)
Definition covers (sl : slice) (s : RouterScheduler) : Prop := arr (s_lines s) = arr sl → len sl ≤ len (s_lines s).

(** Router [ip] has the lines [L]; [ok] when its scheduler takes new lines: it knows no
    others, and does not see what the manager appends. *)
Definition view (m : Manager) (ip : string) (L : gmap string Line) (ok : Prop) : Prop :=
  match routerLines m !! ip with
  | None => L = ∅ ∧ schedulers m !! ip = None
  | Some sl =>
      as_map (lines_of m ip) = L ∧ (L = ∅ → ¬ ok) ∧
      ∃ sid s, in_sync m ip sl sid s ∧ covers sl s ∧
        (ok → aligned sl s ∧ ∀ k, known (heap m) s k → is_Some (L !! k))
  end.

Lemma same_cells (h h' : list (list Line)) sl :
  arr sl < length h' → h' !! arr sl = h !! arr sl → valid h sl → contents h' sl = contents h sl ∧ valid h' sl.
Proof. intros Hl E [_ Hv]. unfold contents, valid, cap, cells in *. by rewrite E. Qed.

Lemma view_other m m' ip ip' L ok :
  local m m' ip → (∀ a, owned m ip a → ¬ owned m ip' a) → ip' ≠ ip → view m ip' L ok → view m' ip' L ok.
Proof.
  intros Hlo Hap Hne Hv. destruct (lo_maps _ _ _ Hlo ip' Hne) as [Er Es]. destruct (lo_heap _ _ _ Hlo) as [Hlen Hfr].
  unfold view in *. unfold lines_of in *. rewrite Er, Es. destruct (routerLines m !! ip') as [sl|] eqn:Esl; [|exact Hv].
  destruct Hv as (HL & Hnil & sid & s & Hsync & Hcov & Hok). pose proof Hsync as (_ & Hs & Ho & Hvs & Hnd & Hm).
  assert (Hsame : ∀ sl', owned m ip' (arr sl') → valid (heap m) sl' → contents (heap m') sl' = contents (heap m) sl' ∧ valid (heap m') sl').
  { intros sl' How Hv'. pose proof Hv' as [Hlt _]. apply same_cells; [lia| |done]. apply Hfr; [done|]. intros Hin. by apply (Hap _ Hin). }
  destruct (Hsame sl) as [Hc Hv']; [left; eauto|done|]. rewrite Hc. split; [done|]. split; [done|].
  destruct (Hsame (s_lines s)) as [Hcs Hvs']; [right; eauto|apply Hm|].
  exists sid, s. split; [|split; [done|]].
  - unfold in_sync, lines_of in *. rewrite Er, Es, Esl in *. rewrite Hc in *. split; [done|]. split; [done|].
    split; [by rewrite (lo_objects _ _ _ Hlo ip' sid Hne Hs)|]. split; [done|]. split; [done|]. by eapply monitors_frame.
  - intros H. destruct (Hok H) as [Ha Hk]. split; [done|]. unfold known. by rewrite Hcs.
Qed.

Lemma view_weaken m ip L (ok ok' : Prop) : (ok' → ok) → view m ip L ok → view m ip L ok'.
Proof.
  intros Hi. unfold view. destruct (routerLines m !! ip) as [sl|]; [|done].
  intros (HL & Hn & sid & s & H1 & H2 & H3). split; [done|]. split; [by intros E Hok%Hi; apply Hn|]. exists sid, s. auto.
Qed.

(** Where the router is known, the lines it has. *)
Lemma view_lines m ip L ok sl :
  view m ip L ok → routerLines m !! ip = Some sl → NoDup (IP <$> lines_of m ip) ∧ as_map (lines_of m ip) = L.
Proof. unfold view. intros Hv Hr. rewrite Hr in Hv. destruct Hv as (HL & _ & sid & s & Hs & _). split; [apply Hs|done]. Qed.

Lemma aligned_covers sl s : aligned sl s → covers sl s.
Proof. intros [Ha|Ha] E; [by rewrite Ha|done]. Qed.

Lemma create_known m ip L l sl :
  view m ip L True → routerLines m !! ip = Some sl → router_IP (line_Router l) = ip → L !! IP l = None →
  ∃ m', create_event spare m l = Ret m' ∧ view m' ip (<[IP l := l]> L) True.
Proof.
  unfold view. intros Hv Hr Hip Hl. rewrite Hr in Hv. destruct Hv as (HL & _ & sid & s & Hs & _ & Hok).
  destruct (Hok I) as [Ha Hk]. pose proof Hs as (_ & _ & _ & _ & Hnd & _).
  assert (Hnew : IP l ∉ IP <$> lines_of m ip) by (apply as_map_None; by rewrite HL).
  destruct (create_event_in_sync spare m ip sl sid s l Hs Ha Hip) as (m' & sl' & s' & E & Hs' & Ha' & Hlines & _ & Hk'); [|done|].
  { intros Hkn. apply Hk in Hkn. rewrite Hl in Hkn. by destruct Hkn. }
  exists m'. split; [done|]. rewrite (proj1 Hs'), Hlines, as_map_app_new, HL by done.
  split; [done|]. split; [by intros ?%insert_non_empty|]. exists sid, s'. split; [done|]. split; [by apply aligned_covers|].
  intros _. split; [done|]. intros k [Hkn| ->]%Hk'; [|by rewrite lookup_insert_eq].
  destruct (decide (k = IP l)) as [->|]; [by rewrite lookup_insert_eq|]. rewrite lookup_insert_ne by done. by apply Hk.
Qed.

Lemma create_first m ip L ok l :
  view m ip L ok → routerLines m !! ip = None → router_IP (line_Router l) = ip → numbered_objects m →
  is_ret (scheduler_config (line_Router l)) = true →
  ∃ m', create_event spare m l = Ret m' ∧ view m' ip (<[IP l := l]> L) True.
Proof.
  unfold view at 1. intros Hv Hr Hip Hn Hacc. rewrite Hr in Hv. destruct Hv as [-> Hsch].
  unfold create_event. rewrite Hip, Hr. unfold make.
  match goal with |- context [append_line spare ?x ip l] => set (m0 := x) end.
  assert (Hsl : routerLines m0 !! ip = Some (mk_slice (length (heap m)) 0)) by (unfold m0; simpl; by rewrite lookup_insert_eq).
  assert (Hlo : lines_of m0 ip = []) by (unfold lines_of; rewrite Hsl; done). rewrite Hlo. cbn [existsb].
  unfold append_line. rewrite Hsl. set (sl := mk_slice (length (heap m)) 0) in *.
  assert (Hv0 : valid (heap m0) sl) by apply (make_valid no_line (heap m) 0).
  pose proof (append_valid no_line (spare (cap (heap m0) sl)) (heap m0) sl l Hv0) as Hv1.
  pose proof (append_contents no_line (spare (cap (heap m0) sl)) (heap m0) sl l Hv0) as Hc1.
  fold (push spare (heap m0) sl l) in Hv1, Hc1. destruct (push spare (heap m0) sl l) as [h1 sl1]. cbn [fst snd] in Hv1, Hc1.
  assert (Hc2 : contents h1 sl1 = [l]) by (rewrite Hc1; unfold lines_of in Hlo; rewrite Hsl in Hlo; by rewrite Hlo).
  match goal with |- context [schedulers ?x !! ip] => set (m1 := x) end.
  assert (E1 : heap m1 = h1 ∧ routerLines m1 !! ip = Some sl1 ∧ schedulers m1 !! ip = None ∧ numbered_objects m1).
  { split; [done|]. split; [simpl; by rewrite lookup_insert_eq|]. split; [exact Hsch|exact Hn]. }
  clearbody m1. destruct E1 as (Eh & Er & Es & En). rewrite Es, Er.
  destruct (ensureScheduler_spec m1 ip sl1 En) as (m2 & -> & He & Hh & _); [by rewrite Eh, Hc2|].
  destruct (has_scheduler_new m1 m2 ip sl1 l Es) as (sid & s & Hs & Ho & Hnew); [by rewrite Eh, Hc2|done|done|].
  destruct He as (Eh2 & Er2 & _). rewrite Eh in *.
  assert (Hnd : NoDup (IP <$> contents h1 sl1)) by (rewrite Hc2; apply NoDup_singleton).
  destruct (NewRouterScheduler_monitors h1 _ sl1 s Hv1 Hnd Hnew) as (Hm & Hss & _).
  assert (Hk : known h1 s (IP l)) by (unfold known; rewrite Hss, Hc2; constructor).
  rewrite (with_scheduler_some _ _ sid s) by done. rewrite Eh2, (OnLineCreated_known spare h1 s l Hk). cbn [fst snd].
  eexists. split; [done|]. unfold view, lines_of, in_sync. simpl. rewrite Er2, Er. unfold lines_of. simpl. rewrite Er2, Er, Hs, Hc2.
  assert (Hmap : as_map [l] = <[IP l := l]> (∅ : gmap string Line)) by done. rewrite Hmap.
  split; [done|]. split; [by intros ?%insert_non_empty|]. exists sid, s. split; [|split].
  - split; [done|]. split; [done|]. split; [by rewrite lookup_insert_eq|]. split; [done|]. split; [apply NoDup_singleton|].
    by rewrite <- Hmap, <- Hc2.
  - by intros _; rewrite Hss.
  - intros _. split; [by left|]. unfold known. rewrite Hss, Hc2. intros k ->%list_elem_of_singleton. by rewrite lookup_insert_eq.
Qed.

(** A line stored over one with its address: what every slice sees of the addresses. *)
Lemma store_IPs h sl i x l sl' :
  valid h sl → contents h sl !! i = Some x → IP x = IP l →
  IP <$> contents (store h sl i l) sl' = IP <$> contents h sl'.
Proof.
  intros [Hlt _] Hx Hip. destruct (decide (arr sl' = arr sl)) as [E|E].
  - unfold contents, store in *. rewrite E, cells_insert_eq by done. rewrite !fmap_take, list_fmap_insert. f_equal.
    apply list_insert_id. rewrite list_lookup_fmap, <- Hip. apply lookup_take_Some in Hx as [-> _]. done.
  - unfold contents, store. by rewrite cells_insert_ne.
Qed.

Lemma monitors_IPs h h' s M :
  monitors h s M → IP <$> contents h' (s_lines s) = IP <$> contents h (s_lines s) → valid h' (s_lines s) → monitors h' s M.
Proof. intros (H1 & H2 & H3 & H4) E Hv. split; [done|]. split; [done|]. split; [done|]. by rewrite E. Qed.

(** The two stores of an update: the manager's at [i] and the scheduler's at [j]. *)
Lemma stores_seen h sl s2 i j x y l :
  let h1 := store h sl i l in let h2 := store h1 s2 j l in
  valid h sl → valid h1 s2 → NoDup (IP <$> contents h sl) →
  contents h sl !! i = Some x → IP x = IP l → contents h1 s2 !! j = Some y → IP y = IP l →
  contents h2 sl = <[i := l]> (contents h sl) ∧ ∀ sl', IP <$> contents h2 sl' = IP <$> contents h sl'.
Proof.
  intros h1 h2 Hv Hv2 Hnd Hx Hxip Hy Hyip.
  assert (HI1 : ∀ sl', IP <$> contents h1 sl' = IP <$> contents h sl') by (intros sl'; by apply (store_IPs _ _ _ x)).
  split; [|intros sl'; rewrite <- HI1; by apply (store_IPs _ _ _ y)].
  assert (Hc1 : contents h1 sl = <[i := l]> (contents h sl)) by by apply store_contents.
  rewrite <- Hc1. destruct (decide (arr sl = arr s2)) as [E|E]; [|unfold contents, h2, store; by rewrite cells_insert_ne].
  unfold contents, h2, store. rewrite E, cells_insert_eq by apply Hv2. rewrite <- E.
  destruct (decide (j < len sl)) as [Hj|Hj]; [|by rewrite take_insert_ge by lia].
  rewrite take_insert_lt by done. fold (contents h1 sl). apply list_insert_id.
  assert (Hyj : contents h1 sl !! j = Some y).
  { unfold contents in Hy |- *. rewrite E. apply lookup_take_Some in Hy as [Hy _]. by rewrite lookup_take_lt. }
  assert (j = i) as ->.
  { apply (NoDup_lookup (IP <$> contents h sl) j i (IP l) Hnd).
    - by rewrite <- (HI1 sl), list_lookup_fmap, Hyj, <- Hyip.
    - by rewrite list_lookup_fmap, Hx, <- Hxip. }
  rewrite Hc1. apply list_lookup_insert_eq. by apply lookup_lt_Some in Hx.
Qed.

Lemma as_map_store c i x l :
  NoDup (IP <$> c) → c !! i = Some x → IP x = IP l →
  NoDup (IP <$> <[i := l]> c) ∧ as_map (<[i := l]> c) = <[IP l := l]> (as_map c).
Proof.
  intros Hnd Hx Hxip. assert (HI : IP <$> <[i := l]> c = IP <$> c).
  { rewrite list_fmap_insert. apply list_insert_id. by rewrite list_lookup_fmap, Hx, <- Hxip. }
  split; [by rewrite HI|]. apply as_map_ext; [by rewrite HI|]. intros k l'. rewrite lookup_insert_Some, as_map_lookup by done. split.
  - intros [Hin' <-]. apply list_elem_of_lookup in Hin' as [i' Hi']. apply list_lookup_insert_Some in Hi' as [(<- & <- & _)|[Hne Hi']].
    + by left.
    + right. split; [|split; [by eapply list_elem_of_lookup_2|done]]. intros E. apply Hne.
      apply (NoDup_lookup (IP <$> c) i i' (IP l) Hnd); rewrite list_lookup_fmap, ?Hx, ?Hi'; simpl; congruence.
  - intros [[<- <-]|[Hne [Hin' <-]]].
    + split; [|done]. eapply list_elem_of_lookup_2, list_lookup_insert_eq. by apply lookup_lt_Some in Hx.
    + split; [|done]. apply list_elem_of_lookup in Hin' as [i' Hi']. eapply list_elem_of_lookup_2.
      rewrite list_lookup_insert_ne; [exact Hi'|]. intros <-. congruence.
Qed.

Lemma view_update m ip L ok l l0 :
  view m ip L ok → L !! IP l = Some l0 → router_IP (line_Router l) = ip →
  view (update_event m l) ip (<[IP l := l]> L) ok.
Proof.
  intros Hview Hl Hip. unfold view in Hview.
  destruct (routerLines m !! ip) as [sl|] eqn:Hr; [|by destruct Hview as [-> _]; rewrite lookup_empty in Hl].
  destruct Hview as (HL & _ & sid & s & Hsync & Hcov & Hok).
  pose proof Hsync as (_ & Hs & Ho & Hv & Hnd & Hm). rewrite HL in Hm.
  unfold lines_of in HL, Hnd. rewrite Hr in HL, Hnd. set (c := contents (heap m) sl) in *.
  rewrite <- HL in Hl. apply as_map_lookup in Hl as [Hin Hip0]; [|done].
  destruct (find_index_key (IP l) c) as (i & x & Hfi & Hx & Hxip); [rewrite <- Hip0; by apply list_elem_of_fmap_2|].
  assert (x = l0) as ->.
  { assert (Ex : as_map c !! IP l = Some x) by (apply as_map_lookup; [done|]; split; [by eapply list_elem_of_lookup_2|done]).
    assert (El : as_map c !! IP l = Some l0) by by apply as_map_lookup. congruence. }
  unfold update_event. rewrite Hip, Hr. fold c. rewrite Hfi, Hx. cbn [default].
  set (h1 := store (heap m) sl i l). assert (Hl0 : L !! IP l0 = Some l0) by (rewrite <- HL; by apply as_map_lookup).
  match goal with |- context [with_scheduler ?x ip _] => set (m1 := x) end.
  assert (Em1 : heap m1 = h1 ∧ routerLines m1 = routerLines m ∧ schedulers m1 = schedulers m ∧ objects m1 = objects m) by done.
  clearbody m1. destruct Em1 as (Eh & Er & Es & Eo). rewrite (with_scheduler_some _ _ sid s) by congruence.
  cbv beta. change (id l0) with l0. rewrite Eh.
  assert (Hm1 : monitors h1 s L) by (eapply monitors_IPs; [exact Hm|by apply (store_IPs _ _ _ l0)|apply store_valid, Hm]).
  pose proof (OnLineUpdated_monitors h1 s L l0 l Hm1 Hl0 (eq_sym Hxip)) as Hm2.
  destruct (find_index_key (IP l0) (contents h1 (s_lines s))) as (j & y & Hfj & Hy & Hyip); [apply Hm1; eauto|].
  set (h2 := store h1 (s_lines s) j l) in *.
  assert (Hup : OnLineUpdated h1 s l0 l = (h2, requeue s l0 l)) by (unfold OnLineUpdated; by rewrite requeue_lines, Hfj).
  rewrite Hup in Hm2 |- *. cbn [fst snd] in Hm2 |- *.
  destruct (stores_seen (heap m) sl (s_lines s) i j l0 y l) as [Hc2 HI2]; [done|apply Hm1|done|done|done|done|congruence|].
  fold h1 in Hc2, HI2. fold h2 in Hc2, HI2. fold c in Hc2. destruct (as_map_store c i l0 l Hnd Hx Hxip) as [Hnd2 Hmap].
  unfold view, in_sync, lines_of. simpl. rewrite Er, Es, Hr, Hc2, Hmap, HL.
  split; [done|]. split; [by intros ?%insert_non_empty|]. eexists sid, _. split; [|split].
  - split; [done|]. split; [done|]. split; [by rewrite lookup_insert_eq|]. split; [by apply store_valid, store_valid|]. split; [done|exact Hm2].
  - unfold covers. rewrite requeue_lines. exact Hcov.
  - intros H. destruct (Hok H) as [Ha Hk]. split; [unfold aligned; by rewrite requeue_lines|]. unfold known. rewrite requeue_lines, HI2.
    intros k Hkn. destruct (decide (k = IP l)) as [->|]; [by rewrite lookup_insert_eq|]. rewrite lookup_insert_ne by done. by apply Hk.
Qed.

(** The manager's half of a deletion, and what a scheduler whose slice covers the manager's
    goes on seeing. *)
Lemma delete_covered h sl s L l i :
  valid h sl → NoDup (IP <$> contents h sl) → as_map (contents h sl) = L → monitors h s L → covers sl s → l ∈ contents h sl →
  find_index (has_key IP (IP l)) (contents h sl) = Some i →
  let '(h1, sl1) := delete_at h sl i in
  sl1 = mk_slice (arr sl) (len sl - 1) ∧ valid h1 sl1 ∧ contents h1 sl1 = remove_first (has_key IP (IP l)) (contents h sl) ∧
  monitors h1 (OnLineDeleted s l) (delete (IP l) L).
Proof.
  intros Hv Hnd HL (Hq & Hqn & Hvs & Hk) Hcov Hin Hfi.
  destruct (find_index_spec _ _ _ Hfi) as (_ & _ & _ & Hlt). rewrite length_contents in Hlt by done.
  pose proof (delete_at_contents h sl i Hv Hlt) as Hc1. rewrite (cut_remove_first _ _ _ Hfi) in Hc1.
  pose proof (delete_at_valid h sl i Hv Hlt) as Hv1. pose proof (delete_local h sl i) as Hfr.
  pose proof (delete_at_old_valid h sl i Hv Hlt) as Hvo.
  assert (Hcap : cap (delete_at h sl i).1 sl = cap h sl).
  { unfold delete_at, cap. simpl. rewrite cells_insert_eq by apply Hv. destruct Hv as [_ Hv]. unfold cap in Hv.
    rewrite !length_app, length_take, !length_drop. unfold contents. rewrite length_take. lia. }
  assert (Hsl1 : (delete_at h sl i).2 = mk_slice (arr sl) (len sl - 1)) by done.
  destruct (delete_at h sl i) as [h1 sl1]. cbn [fst snd] in *. split; [done|]. split; [done|]. split; [done|].
  destruct (OnLineDeleted_queues s L l Hq Hqn) as [H5 H6].
  { intros l' Hl'. rewrite <- HL in Hl'. apply as_map_lookup in Hl' as [Hin' Hip']; [|done].
    assert (as_map (contents h sl) !! IP l = Some l) by by apply as_map_lookup. assert (as_map (contents h sl) !! IP l = Some l') by by apply as_map_lookup. congruence. }
  split; [done|]. split; [done|]. rewrite OnLineDeleted_s_lines. destruct (decide (arr (s_lines s) = arr sl)) as [E|E].
  - split; [split; [rewrite E; apply Hvo|]|].
    + transitivity (cap h (s_lines s)); [apply Hvs|]. unfold cap in *. by rewrite E, Hcap.
    + intros k [y Hy]. rewrite <- HL, <- as_map_remove in Hy by done.
      apply as_map_lookup in Hy as [Hy <-]; [|by apply NoDup_remove_first]. rewrite <- Hc1 in Hy.
      eapply elem_of_submseteq; [apply list_elem_of_fmap_2; exact Hy|]. apply fmap_submseteq, sublist_submseteq.
      rewrite Hsl1, <- E. apply shorter_contents. pose proof (Hcov E). lia.
  - destruct Hfr as (Hl1 & Hf1 & _). pose proof Hvs as [Ha _].
    destruct (same_cells h h1 (s_lines s)) as [Hc' Hv']; [lia|by apply Hf1|done|]. split; [done|].
    rewrite Hc'. intros k [y Hy]. apply lookup_delete_Some in Hy as [_ Hy]. apply Hk. eauto.
Qed.

Lemma view_delete m ip L ok l :
  view m ip L ok → L !! IP l = Some l → router_IP (line_Router l) = ip →
  view (delete_event m l) ip (delete (IP l) L) False.
Proof.
  intros Hview Hl Hip. unfold view in Hview.
  destruct (routerLines m !! ip) as [sl|] eqn:Hr; [|by destruct Hview as [-> _]; rewrite lookup_empty in Hl].
  destruct Hview as (HL & _ & sid & s & Hsync & Hcov & _).
  pose proof Hsync as (_ & Hs & Ho & Hv & Hnd & Hm). rewrite HL in Hm.
  unfold lines_of in HL, Hnd. rewrite Hr in HL, Hnd.
  assert (Hin : l ∈ contents (heap m) sl) by (rewrite <- HL in Hl; by apply as_map_lookup in Hl as [Hin _]).
  destruct (find_index_key (IP l) (contents (heap m) sl)) as (i & x & Hfi & _ & _); [by apply list_elem_of_fmap_2|].
  pose proof (delete_covered (heap m) sl s L l i Hv Hnd HL Hm Hcov Hin Hfi) as Hd.
  unfold delete_event. rewrite Hip, Hr, Hfi. destruct (delete_at (heap m) sl i) as [h1 sl1]. destruct Hd as (-> & Hv1 & Hc1 & Hm1).
  set (sl1 := mk_slice (arr sl) (len sl - 1)) in *.
  match goal with |- view (match schedulers ?y !! ip with _ => _ end) _ _ _ => set (m1 := y) end.
  assert (Em1 : heap m1 = h1 ∧ routerLines m1 !! ip = Some sl1 ∧ schedulers m1 !! ip = Some sid ∧ objects m1 !! sid = Some s).
  { unfold m1. simpl. by rewrite lookup_insert_eq. }
  clearbody m1. destruct Em1 as (Eh & Er & Es & Eo). rewrite Es.
  rewrite (with_scheduler_some _ _ sid s) by done. cbv beta. cbn [fst snd]. rewrite Eh.
  assert (Hfinal : ∀ m2, heap m2 = h1 → routerLines m2 !! ip = Some sl1 → schedulers m2 !! ip = Some sid →
    objects m2 !! sid = Some (OnLineDeleted s l) → view m2 ip (delete (IP l) L) False).
  { intros m2 F1 F2 F3 F4. unfold view, in_sync, lines_of. rewrite F1, F2, F3, Hc1, as_map_remove, HL by done.
    split; [done|]. split; [tauto|]. exists sid, (OnLineDeleted s l). split; [|split; [|done]].
    - split; [done|]. split; [done|]. split; [done|]. split; [done|]. split; [by apply NoDup_remove_first|done].
    - unfold covers. rewrite OnLineDeleted_s_lines. intros E. pose proof (Hcov E). simpl. lia. }
  case_match; apply Hfinal; try done; simpl; apply lookup_insert_eq.
Qed.

(** ** The whole manager *)

(** The lines of a configuration that router [ip] probes. *)
Definition routed (ip : string) (M : gmap string Line) : gmap string Line :=
  filter (λ kv : string * Line, router_IP (line_Router kv.2) = ip) M.

Lemma routed_lookup ip M k l : routed ip M !! k = Some l ↔ M !! k = Some l ∧ router_IP (line_Router l) = ip.
Proof. apply map_lookup_filter_Some. Qed.

Lemma routed_insert M l : routed (router_IP (line_Router l)) (<[IP l := l]> M) = <[IP l := l]> (routed (router_IP (line_Router l)) M).
Proof. apply map_eq. intros k. apply option_eq. intros x. rewrite routed_lookup, !lookup_insert_Some, routed_lookup. naive_solver. Qed.

Lemma routed_insert_other M l ip :
  ip ≠ router_IP (line_Router l) → (∀ l0, M !! IP l = Some l0 → router_IP (line_Router l0) ≠ ip) →
  routed ip (<[IP l := l]> M) = routed ip M.
Proof. intros H H0. apply map_eq. intros k. apply option_eq. intros x. rewrite !routed_lookup, lookup_insert_Some. naive_solver. Qed.

Lemma routed_delete M k ip : routed ip (delete k M) = delete k (routed ip M).
Proof. apply map_eq. intros k'. apply option_eq. intros x. rewrite !routed_lookup, !lookup_delete_Some, routed_lookup. naive_solver. Qed.

(** The manager has the lines of [M], and each scheduler its own; [d] is the routers
    whose schedulers may not take new lines, after a deletion. *)
Record follows (m : Manager) (M : gmap string Line) (d : gset string) : Prop := {
  fo_views : ∀ ip, view m ip (routed ip M) (ip ∉ d);
  fo_keys : lines_ok M;
  fo_apart : ∀ ip ip' a, owned m ip a → owned m ip' a → ip = ip';
  fo_numbered : numbered m;
  fo_running : m_stopped m = false }.

Lemma owned_bound m M d ip a : follows m M d → owned m ip a → a < length (heap m).
Proof.
  intros Hf Ho. pose proof (fo_views _ _ _ Hf ip) as Hv. unfold view in Hv.
  destruct (routerLines m !! ip) as [sl|] eqn:Er.
  - destruct Hv as (_ & _ & sid & s & (_ & Hs & Hos & [Hva _] & _ & Hm) & _).
    destruct Ho as [(sl' & E & <-)|(sid' & s' & E & Eo & <-)]; [congruence|].
    assert (s' = s) as -> by congruence. apply Hm.
  - destruct Hv as [_ Hn]. destruct Ho as [(sl' & E & _)|(sid' & s' & E & _)]; congruence.
Qed.

Lemma follows_step m M d m' M' d' ip :
  follows m M d → local m m' ip → lines_ok M' → view m' ip (routed ip M') (ip ∉ d') →
  (∀ ip', ip' ≠ ip → routed ip' M' = routed ip' M ∧ (ip' ∉ d' → ip' ∉ d)) → follows m' M' d'.
Proof.
  intros Hf Hlo Hk Hv Hother. pose proof (fo_apart _ _ _ Hf) as Hap.
  assert (Hown : ∀ ip' a, ip' ≠ ip → owned m' ip' a → owned m ip' a).
  { intros ip' a Hne [(sl & E & <-)|(sid & s & E & Eo & <-)]; destruct (lo_maps _ _ _ Hlo ip' Hne) as [Er Es].
    - left. rewrite Er in E. eauto.
    - right. rewrite Es in E. rewrite (lo_objects _ _ _ Hlo ip' sid Hne E) in Eo. eauto. }
  assert (Hsep : ∀ ip' a, ip' ≠ ip → owned m' ip' a → ¬ owned m' ip a).
  { intros ip' a Hne Ho' Ho. apply (Hown _ _ Hne) in Ho'. apply (lo_owned _ _ _ Hlo) in Ho as [Ho|Ho]; [by apply Hne, (Hap _ _ a)|].
    apply (owned_bound _ _ _ _ _ Hf) in Ho'. lia. }
  constructor; [|done| |apply Hlo|by rewrite (lo_running _ _ _ Hlo), (fo_running _ _ _ Hf)].
  - intros ip'. destruct (decide (ip' = ip)) as [->|Hne]; [done|]. destruct (Hother ip' Hne) as [-> Hd].
    eapply view_weaken; [exact Hd|]. eapply view_other; [exact Hlo| |done|apply Hf].
    intros a Ho Ho'. by apply Hne, (Hap _ _ a).
  - intros ip1 ip2 a H1 H2. destruct (decide (ip1 = ip)) as [->|N1], (decide (ip2 = ip)) as [->|N2]; [done| | |].
    + by destruct (Hsep ip2 a N2 H2).
    + by destruct (Hsep ip1 a N1 H1).
    + by apply (Hap _ _ a); apply Hown.
Qed.

Lemma view_valid m ip L ok sl : view m ip L ok → routerLines m !! ip = Some sl → valid (heap m) sl.
Proof. unfold view. intros Hv Hr. rewrite Hr in Hv. destruct Hv as (_ & _ & sid & s & Hs & _). apply Hs. Qed.

Lemma lines_ok_new M l : lines_ok M → hashed l → lines_ok (<[IP l := l]> M).
Proof. intros H Hl k l'. rewrite lookup_insert_Some. intros [[<- <-]|[_ E]]; [done|by apply H]. Qed.

Lemma follows_create m M d l :
  follows m M d → hashed l → M !! IP l = None → router_IP (line_Router l) ∉ d → is_ret (scheduler_config (line_Router l)) = true →
  ∃ m', create_event spare m l = Ret m' ∧ follows m' (<[IP l := l]> M) d.
Proof.
  set (ip := router_IP (line_Router l)). intros Hf Hh Hl Hd Hacc. pose proof (fo_views _ _ _ Hf ip) as Hv.
  assert (HL : routed ip M !! IP l = None).
  { apply eq_None_not_Some. intros [x [Hx _]%routed_lookup]. congruence. }
  assert (Hv1 : view m ip (routed ip M) True) by (eapply view_weaken; [|exact Hv]; done).
  assert (Hc : ∃ m', create_event spare m l = Ret m' ∧ view m' ip (<[IP l := l]> (routed ip M)) True).
  { destruct (routerLines m !! ip) as [sl|] eqn:Er; [by eapply create_known|].
    eapply create_first; [exact Hv|done|done|apply Hf|done]. }
  destruct Hc as (m' & E & Hv'). exists m'. split; [done|]. eapply (follows_step m M d m' _ _ ip); [done| | | |].
  - eapply create_local; [apply Hf| |exact E]. intros sl Hsl. by eapply view_valid.
  - apply lines_ok_new; [apply Hf|done].
  - unfold ip in *. rewrite routed_insert. by eapply view_weaken; [|exact Hv'].
  - intros ip' Hne. split; [|done]. apply routed_insert_other; [done|]. intros l0 E0. congruence.
Qed.

Lemma follows_update m M d l l0 :
  follows m M d → hashed l → M !! IP l = Some l0 → line_Router l0 = line_Router l → follows (update_event m l) (<[IP l := l]> M) d.
Proof.
  set (ip := router_IP (line_Router l)). intros Hf Hh Hl Hr.
  eapply (follows_step m M d _ _ _ ip); [done|apply update_local, Hf|apply lines_ok_new; [apply Hf|done]| |].
  - unfold ip. rewrite routed_insert. eapply view_update; [apply Hf| |done]. apply routed_lookup. split; [exact Hl|by rewrite Hr].
  - intros ip' Hne. split; [|done]. apply routed_insert_other; [done|]. intros l1 E1. rewrite Hl in E1. injection E1 as <-. rewrite Hr. intros E. by apply Hne.
Qed.

Lemma follows_delete m M d l :
  follows m M d → M !! IP l = Some l → follows (delete_event m l) (delete (IP l) M) ({[router_IP (line_Router l)]} ∪ d).
Proof.
  set (ip := router_IP (line_Router l)). intros Hf Hl.
  eapply (follows_step m M d _ _ _ ip); [done|apply delete_event_local, Hf| | |].
  - intros k x [_ Hx]%lookup_delete_Some. by apply Hf.
  - rewrite routed_delete. eapply view_weaken; [|eapply view_delete; [apply Hf| |done]].
    + intros Hn. apply Hn. set_solver.
    + by apply routed_lookup.
  - intros ip' Hne. split; [|set_solver]. rewrite routed_delete. apply delete_id, eq_None_not_Some. intros [x [Hx Hrx]%routed_lookup].
    rewrite Hl in Hx. injection Hx as <-. by apply Hne.
Qed.

(** A change of the scheduler objects that leaves their lines alone. *)
Lemma follows_start m M d sid : follows m M d → follows (run_start m sid) M d.
Proof.
  intros Hf. set (m' := run_start m sid).
  assert (Hobj : ∀ i s, objects m !! i = Some s → ∃ s', objects m' !! i = Some s' ∧ s_lines s' = s_lines s ∧ queues s' = queues s).
  { intros i s Hs. unfold m', run_start. simpl. destruct (decide (i = sid)) as [->|Hne].
    - rewrite lookup_alter_eq, Hs. by exists (Scheduler.Start s).
    - rewrite lookup_alter_ne by done. by exists s. }
  assert (Hback : ∀ i s', objects m' !! i = Some s' → ∃ s, objects m !! i = Some s ∧ s_lines s' = s_lines s).
  { intros i s' Hs'. destruct (objects m !! i) as [s|] eqn:E.
    - exists s. destruct (Hobj i s E) as (s1 & E1 & Hl & _). split; [done|]. congruence.
    - unfold m', run_start in Hs'. simpl in Hs'. apply lookup_alter_Some in Hs' as [(-> & s & Hs & _)|[_ Hs]]; congruence. }
  assert (Hown : ∀ ip a, owned m' ip a → owned m ip a).
  { intros ip a [Ho|(i & s' & Hi & Hs' & <-)]; [by left|right]. destruct (Hback i s' Hs') as (s & Hs & Hl). exists i, s. by rewrite Hl. }
  constructor; [|apply Hf|intros ip ip' a H1 H2; by eapply (fo_apart _ _ _ Hf); apply Hown|apply Hf|apply Hf].
  intros ip. pose proof (fo_views _ _ _ Hf ip) as Hv. unfold view in *. change (routerLines m') with (routerLines m).
  destruct (routerLines m !! ip) as [sl|] eqn:Er; [|exact Hv]. destruct Hv as (HL & Hn & i & s & Hs & Hcov & Hok).
  split; [exact HL|]. split; [exact Hn|]. destruct Hs as (H1 & H2 & H3 & H4 & H5 & H6). destruct (Hobj i s H3) as (s' & E & Hl & Hq).
  exists i, s'. split; [|unfold covers, aligned, known in *; by rewrite Hl].
  split; [done|]. split; [done|]. split; [done|]. split; [done|]. split; [done|]. unfold monitors in *. by rewrite Hl, Hq.
Qed.

Lemma as_map_cons x (c : list Line) : as_map (x :: c) ≠ ∅.
Proof. unfold as_map. rewrite fmap_cons. simpl. apply insert_non_empty. Qed.

Lemma routed_empty m M d ip : follows m M d → routed ip M = ∅ ↔ lines_of m ip = [].
Proof.
  intros Hf. pose proof (fo_views _ _ _ Hf ip) as Hv. unfold view in Hv. unfold lines_of in *.
  destruct (routerLines m !! ip) as [sl|] eqn:Er; [|naive_solver]. destruct Hv as (<- & _). split; [|by intros ->].
  destruct (contents (heap m) sl) as [|x c]; [done|]. by intros ?%as_map_cons.
Qed.

Lemma follows_fire m M d timer_first ip sid :
  follows m M d → (ip, sid) ∈ pending_deletes m →
  follows (fire_delete timer_first m ip sid) M (if decide (routed ip M = ∅) then d ∖ {[ip]} else d).
Proof.
  intros Hf Hin. unfold fire_delete.
  match goal with |- context [m_stopped ?x] => set (m1 := x) end.
  assert (Hf1 : follows m1 M d).
  { destruct Hf as [H1 H2 H3 [H4 H5] H6]. constructor; try done. split; [done|]. intros p Hp. apply H5. exact (remove_first_subset _ _ _ Hp). }
  rewrite (fo_running _ _ _ Hf1). cbn [andb]. change (lines_of m1 ip) with (lines_of m ip).
  pose proof (routed_empty m M d ip Hf) as He.
  destruct (Nat.eqb_spec (length (lines_of m ip)) 0) as [E|E].
  2: { rewrite decide_False; [done|]. rewrite He. by destruct (lines_of m ip). }
  apply nil_length_inv in E. rewrite decide_True by by apply He. apply He in E as HE.
  destruct (proj2 (fo_numbered _ _ _ Hf) _ Hin) as [_ Huniq]. cbn [fst snd] in Huniq.
  match goal with |- follows ?y _ _ => set (m2 := y) end.
  pose proof (fo_numbered _ _ _ Hf1) as [[Hlt Hinj] Hp].
  assert (Hs2 : ∀ ip' i, schedulers m2 !! ip' = Some i → ip' ≠ ip ∧ schedulers m !! ip' = Some i).
  { intros ip' i Hi. unfold m2 in Hi. simpl in Hi. apply lookup_delete_Some in Hi as [Hne Hi]. done. }
  eapply (follows_step m1 M d m2 M _ ip); [done| |apply Hf| |].
  - constructor.
    + intros ip' Hne. unfold m2. simpl. by rewrite !lookup_delete_ne.
    + intros ip' i Hne Hi. unfold m2. simpl. rewrite lookup_alter_ne; [done|]. intros ->. by apply Hne, Huniq.
    + done.
    + intros a [(sl & Hsl & _)|(i & s & Hi & _)].
      * unfold m2 in Hsl. simpl in Hsl. by rewrite lookup_delete_eq in Hsl.
      * by destruct (Hs2 _ _ Hi).
    + split; [split|].
      * intros ip' i Hi. by eapply Hlt, Hs2.
      * intros ip1 ip2 i H1 H2. eapply Hinj; by apply Hs2.
      * intros p Hpin. destruct (Hp p Hpin) as [H1 H2]. split; [done|]. intros ip' Hi. by apply H2, Hs2.
    + done.
  - unfold view, m2. simpl. by rewrite !lookup_delete_eq.
  - intros ip' Hne. split; [done|]. set_solver.
Qed.

(** A timer of an earlier scheduler takes the router's present one out of the map and
    stops its own: the present one goes on, known to nobody. *)
Lemma stale_timer_forgets timer_first m ip sid sid' :
  schedulers m !! ip = Some sid' → sid ≠ sid' → m_stopped m = false → lines_of m ip = [] →
  schedulers (fire_delete timer_first m ip sid) !! ip = None ∧
  objects (fire_delete timer_first m ip sid) !! sid' = objects m !! sid'.
Proof.
  intros Hs Hne Hrun Hl. unfold fire_delete.
  match goal with |- context [m_stopped ?x] => set (m1 := x) end.
  change (m_stopped m1) with (m_stopped m). change (lines_of m1 ip) with (lines_of m ip). rewrite Hrun, Hl. simpl.
  by rewrite lookup_delete_eq, lookup_alter_ne.
Qed.

(** Between the lines the manager has and those it is given at a full synchronisation. *)
Definition sync_fits (M ls : gmap string Line) (d : gset string) : Prop :=
  ∀ ip, routed ip ls = ∅ ∨ routed ip ls = routed ip M ∨ (routed ip M = ∅ ∧ ip ∉ d).

Lemma as_map_routed (L : list (string * Line)) ls ip :
  lines_ok ls → L ≡ₚ map_to_list ls →
  NoDup (IP <$> List.filter (routed_to ip) L.*2) ∧ as_map (List.filter (routed_to ip) L.*2) = routed ip ls.
Proof.
  intros Hok Hp. destruct (ranged_IPs L ls Hok Hp) as [Hnd Hin].
  assert (H : NoDup (IP <$> List.filter (routed_to ip) L.*2)) by by apply filter_IPs_NoDup. split; [exact H|].
  apply as_map_ext; [exact H|]. intros k l. rewrite routed_lookup, list_elem_of_In, filter_In, <- list_elem_of_In, Hin.
  unfold routed_to. rewrite String.eqb_eq. split.
  - intros [[[k' Hk'] Hr] <-]. split; [|done]. by destruct (Hok _ _ Hk') as [<- _].
  - intros [Hk Hr]. destruct (Hok _ _ Hk) as [<- _]. eauto.
Qed.

Lemma in_sync_known m ip sl sid s k :
  in_sync m ip sl sid s → s_lines s = sl → known (heap m) s k → is_Some (as_map (lines_of m ip) !! k).
Proof.
  intros (Hr & _) Hs Hk. unfold lines_of. rewrite Hr. apply not_eq_None_Some. rewrite as_map_None. unfold known in Hk. rewrite Hs in Hk.
  by intros Hn.
Qed.

(** A synchronised router is in view again. *)
Lemma view_synced m m' M d (L : list (string * Line)) ls ip :
  follows m M d → synced m m' L.*2 → lines_ok ls → L ≡ₚ map_to_list ls → sync_fits M ls d →
  (∀ k l, ls !! k = Some l → is_ret (scheduler_config (line_Router l)) = true) →
  view m' ip (routed ip ls) (ip ∉ filter (λ ip, routed ip ls ≠ ∅) d) ∧
  ∀ a, owned m' ip a → (∃ sl, routerLines m' !! ip = Some sl ∧ arr sl = a) ∨ owned m ip a.
Proof.
  intros Hf Hsy Hok Hp Hfit Hacc. destruct (as_map_routed L ls ip Hok Hp) as [Hnd Hmap]. destruct (ranged_IPs L ls Hok Hp) as [_ Hin].
  pose proof (sy_groups _ _ _ Hsy ip) as Hg. pose proof (synced_lines _ _ _ ip Hsy) as Hlo.
  pose proof (fo_views _ _ _ Hf ip) as Hv. unfold view in *. rewrite Hlo, Hmap.
  destruct (routerLines m' !! ip) as [sl|] eqn:Er'.
  2: { pose proof (sy_dropped _ _ _ Hsy ip Hg) as Hs. rewrite Hg in Hmap. split; [by rewrite <- Hmap|].
       intros a [(sl & E & _)|(sid & s & E & _)]; congruence. }
  destruct Hg as (Harr & Hvs & Hc & Hne).
  assert (Hls : routed ip ls ≠ ∅).
  { rewrite <- Hmap. destruct (List.filter _ _); [done|]. apply as_map_cons. }
  assert (Hcase : (∃ sid s, in_sync m' ip sl sid s ∧ covers sl s ∧ (ip ∉ d → aligned sl s ∧ ∀ k, known (heap m') s k → is_Some (routed ip ls !! k)) ∧
    (arr (s_lines s) = arr sl ∨ owned m ip (arr (s_lines s))))).
  { destruct (Hfit ip) as [?|[Heq|[Hem Hd]]]; [done| |].
    - rewrite <- Heq in Hv. destruct (routerLines m !! ip) as [sl0|] eqn:Er; [|by destruct Hv].
      destruct Hv as (_ & _ & sid & s & (_ & Hs & Ho & _ & _ & Hm) & Hcov & Hk).
      destruct (sy_kept _ _ _ Hsy ip sid Hs Hne) as [Hs' Ho']. rewrite <- Ho' in Ho. destruct (sy_heap _ _ _ Hsy) as [Hlen Hfr].
      assert (Hown : owned m ip (arr (s_lines s))) by (right; exists sid, s; by rewrite <- Ho').
      pose proof (owned_bound _ _ _ _ _ Hf Hown) as Hb.
      destruct (same_cells (heap m) (heap m') (s_lines s)) as [Hcs Hvs']; [lia|by apply Hfr|apply Hm|].
      assert (Hna : arr (s_lines s) ≠ arr sl) by lia.
      assert (HM : as_map (lines_of m ip) = routed ip ls) by (pose proof (fo_views _ _ _ Hf ip) as Hv2; unfold view in Hv2; rewrite Er, <- Heq in Hv2; apply Hv2).
      exists sid, s. split; [|split; [|split]].
      + unfold in_sync. rewrite Hlo. split; [done|]. split; [done|]. split; [done|]. split; [done|]. split; [done|].
        rewrite Hmap, <- HM. by eapply monitors_frame.
      + by intros E.
      + intros Hd. destruct (Hk Hd) as [_ Hk2]. split; [by right|]. unfold known. by rewrite Hcs.
      + by right.
    - rewrite Hem in Hv. destruct (routerLines m !! ip) as [sl0|] eqn:Er; [by destruct Hv as (_ & Hn & _); destruct (Hn eq_refl)|].
      destruct Hv as [_ Hs]. destruct (List.filter (routed_to ip) L.*2) as [|l0 rest] eqn:EL; [done|].
      assert (Hl0 : ∃ k, ls !! k = Some l0).
      { apply Hin. assert (Hin0 : l0 ∈ List.filter (routed_to ip) L.*2) by (rewrite EL; left).
        apply list_elem_of_In, filter_In in Hin0 as [Hin0 _]. by apply list_elem_of_In. }
      destruct Hl0 as [k Hk]. destruct (sy_new _ _ _ Hsy ip l0 rest EL Hs (Hacc _ _ Hk)) as (sid & s & sl1 & Hsync & Hss).
      assert (sl1 = sl) as -> by (destruct Hsync as [E _]; congruence).
      exists sid, s. split; [done|]. split; [by intros _; rewrite Hss|]. split; [|left; by rewrite Hss].
      intros _. split; [by left|]. intros k' Hk'. rewrite <- Hmap, <- Hlo. by eapply in_sync_known. }
  destruct Hcase as (sid & s & Hsync & Hcov & Hk & Hown). split.
  - split; [done|]. split; [done|]. exists sid, s. split; [done|]. split; [done|]. intros Hd. apply Hk. intros Hin'. apply Hd. apply elem_of_filter. done.
  - intros a [Ho|(sid' & s' & Hs' & Ho' & <-)]; [left; destruct Ho as (sl0 & E & <-); exists sl0; split; [congruence|done]|]. destruct Hsync as (_ & Hs & Ho & _).
    assert (s' = s) as -> by congruence. destruct Hown as [E|Hown]; [left; exists sl; by rewrite E|by right].
Qed.

Section orders.
(** The orders in which the maps are ranged over. *)
Context (range_lines : gmap string Line → list (string * Line)).
Context (range_routers : gmap string slice → list (string * slice)).
Context (range_lines_perm : ∀ ls, range_lines ls ≡ₚ map_to_list ls) (range_routers_perm : ∀ r, range_routers r ≡ₚ map_to_list r).

Lemma follows_sync m M d polls ls :
  follows m M d → wait_lines 150 polls = Some ls → lines_ok ls → sync_fits M ls d →
  (∀ k l, ls !! k = Some l → is_ret (scheduler_config (line_Router l)) = true) →
  ∃ m', fullSync spare range_lines range_routers m polls = Ret m' ∧ follows m' ls (filter (λ ip, routed ip ls ≠ ∅) d).
Proof.
  intros Hf Hw Hok Hfit Hacc. pose proof (fo_numbered _ _ _ Hf) as [Hn Hp].
  destruct (fullSync_synced spare range_lines range_routers m polls ls Hw Hok (range_lines_perm ls) range_routers_perm Hn) as (m' & E & Hsy).
  exists m'. split; [exact E|]. assert (Hv := λ ip, view_synced m m' M d (range_lines ls) ls ip Hf Hsy Hok (range_lines_perm ls) Hfit Hacc).
  destruct (sy_numbered _ _ _ Hsy) as [Hn' Hlt]. destruct (sy_rest _ _ _ Hsy) as [Epd Est]. constructor.
  - intros ip. apply Hv.
  - done.
  - intros ip ip' a H1%(proj2 (Hv ip)) H2%(proj2 (Hv ip')).
    assert (Hfresh : ∀ ip sl, routerLines m' !! ip = Some sl → length (heap m) ≤ arr sl).
    { intros i sl Hsl. pose proof (sy_groups _ _ _ Hsy i) as Hg. rewrite Hsl in Hg. apply Hg. }
    destruct H1 as [(sl & Hsl & <-)|H1], H2 as [(sl' & Hsl' & E')|H2].
    + destruct (decide (ip = ip')) as [|Hne]; [done|]. by destruct (sy_apart _ _ _ Hsy ip ip' sl sl' Hsl Hsl' Hne).
    + apply (owned_bound _ _ _ _ _ Hf) in H2. pose proof (Hfresh _ _ Hsl). lia.
    + apply (owned_bound _ _ _ _ _ Hf) in H1. pose proof (Hfresh _ _ Hsl'). lia.
    + by eapply (fo_apart _ _ _ Hf).
  - split; [done|]. rewrite Epd. intros p Hin. destruct (Hp p Hin) as [H1 H2]. split; [lia|].
    intros ip [Hs|Hs]%(sy_old _ _ _ Hsy); [by apply H2|lia].
  - by rewrite Est, (fo_running _ _ _ Hf).
Qed.

(** What an operation does to the syncer's lines and to the routers that may not get new
    ones; [m] is the manager before it, for the deletions that wait. *)
Inductive tracked (m : Manager) : work → gmap string Line * gset string → gmap string Line * gset string → Prop :=
  | t_create l v M d :
      hashed l → M !! IP l = None → router_IP (line_Router l) ∉ d → is_ret (scheduler_config (line_Router l)) = true →
      tracked m (Apply (mk_event LineCreate l v)) (M, d) (<[IP l := l]> M, d)
  | t_update l l0 v M d :
      hashed l → M !! IP l = Some l0 → line_Router l0 = line_Router l →
      tracked m (Apply (mk_event LineUpdate l v)) (M, d) (<[IP l := l]> M, d)
  | t_delete l v M d :
      M !! IP l = Some l →
      tracked m (Apply (mk_event LineDelete l v)) (M, d) (delete (IP l) M, {[router_IP (line_Router l)]} ∪ d)
  | t_start sid x : tracked m (RunStart sid) x x
  | t_fire timer_first ip sid M d :
      (ip, sid) ∈ pending_deletes m →
      tracked m (Fire timer_first ip sid) (M, d) (M, if decide (routed ip M = ∅) then d ∖ {[ip]} else d)
  | t_sync polls ls M d :
      wait_lines 150 polls = Some ls → lines_ok ls → sync_fits M ls d →
      (∀ k l, ls !! k = Some l → is_ret (scheduler_config (line_Router l)) = true) →
      tracked m (Sync polls) (M, d) (ls, filter (λ ip, routed ip ls ≠ ∅) d)
  | t_no_lines polls x : wait_lines 150 polls = None → tracked m (Sync polls) x x.

Fixpoint tracked_all (m : Manager) (l : list work) (x y : gmap string Line * gset string) : Prop :=
  match l with
  | [] => x = y
  | w :: l => ∃ z, tracked m w x z ∧
      ∀ m', do_work spare range_lines range_routers m w = Ret m' → tracked_all m' l z y
  end.

Lemma follows_work m w x y :
  follows m x.1 x.2 → tracked m w x y →
  ∃ m', do_work spare range_lines range_routers m w = Ret m' ∧ follows m' y.1 y.2.
Proof.
  intros Hf Ht. destruct Ht; cbn [fst snd] in *.
  - by apply follows_create.
  - eexists. split; [reflexivity|]. by eapply follows_update.
  - eexists. split; [reflexivity|]. by apply follows_delete.
  - eexists. split; [reflexivity|]. by apply follows_start.
  - eexists. split; [reflexivity|]. by apply follows_fire.
  - by apply (follows_sync m M d).
  - exists m. split; [|done]. cbn [do_work]. unfold fullSync. by rewrite H.
Qed.

Lemma follows_all m l x y :
  follows m x.1 x.2 → tracked_all m l x y →
  ∃ m', replay spare range_lines range_routers m l = Ret m' ∧ follows m' y.1 y.2.
Proof.
  revert m x. induction l as [|w l IH]; intros m x Hf; cbn [tracked_all replay]; [intros <-; by exists m|].
  intros (z & Ht & Hrest). destruct (follows_work m w x z Hf Ht) as (m1 & E & Hf1). rewrite E. by apply (IH m1 z), Hrest.
Qed.

Lemma follows_new : follows NewManager ∅ ∅.
Proof.
  assert (Hs : ∀ ip sid, schedulers NewManager !! ip ≠ Some sid) by (intros ip sid; exact (lookup_empty_Some ip sid)).
  assert (Hr : ∀ ip sl, routerLines NewManager !! ip ≠ Some sl) by (intros ip sl; exact (lookup_empty_Some ip sl)).
  constructor; try done.
  - intros ip ip' a [(sl & E & _)|(sid & s & E & _)]; [by apply Hr in E|by apply Hs in E].
  - split; [split|]; [intros ip sid E|intros ip ip' sid E|intros p Hp; by apply elem_of_nil in Hp]; by apply Hs in E.
Qed.

(** The queues of the scheduler of a router. *)
Definition queued (m : Manager) (ip : string) (l : Line) : Prop :=
  ∃ sid s, schedulers m !! ip = Some sid ∧ objects m !! sid = Some s ∧ in_queue s l.

Lemma follows_queued m M d l : follows m M d → M !! IP l = Some l ↔ queued m (router_IP (line_Router l)) l.
Proof.
  intros Hf. set (ip := router_IP (line_Router l)). pose proof (fo_views _ _ _ Hf ip) as Hv. unfold view in Hv.
  assert (Hr : M !! IP l = Some l ↔ routed ip M !! IP l = Some l) by (rewrite routed_lookup; naive_solver).
  rewrite Hr. destruct (routerLines m !! ip) as [sl|].
  - destruct Hv as (HL & _ & sid & s & (_ & Hs & Ho & _ & _ & Hm) & _). rewrite HL in Hm. rewrite <- (queues_hold_in s _ l (proj1 Hm)). split.
    + intros Hq. by exists sid, s.
    + intros (sid' & s' & Hs' & Ho' & Hq). assert (s' = s) as <- by congruence. done.
  - destruct Hv as [-> Hs]. rewrite lookup_empty. split; [done|]. intros (sid & s & E & _). congruence.
Qed.

(** C1: the manager from its creation on. As long as a line is created only for routers
    none of whose lines was deleted since their scheduler was made, lines do not move
    between routers, and full synchronisations bring new lines only for routers without
    any, no operation panics, and after each of them every router's lines are those that
    the syncer's configuration gives it, and a line is in the queues of its router's
    scheduler, under its interval, exactly when it is in that configuration. *)
Theorem manager_follows l M d :
  tracked_all NewManager l (∅, ∅) (M, d) →
  ∃ m, replay spare range_lines range_routers NewManager l = Ret m ∧
    (∀ ip, as_map (lines_of m ip) = routed ip M) ∧
    ∀ x, M !! IP x = Some x ↔ queued m (router_IP (line_Router x)) x.
Proof.
  intros H. destruct (follows_all NewManager l (∅, ∅) (M, d) follows_new H) as (m & E & Hf). cbn [fst snd] in Hf. exists m. split; [done|].
  split; [|intros x; by eapply follows_queued]. intros ip. pose proof (fo_views _ _ _ Hf ip) as Hv. unfold view, lines_of in *.
  destruct (routerLines m !! ip); [apply Hv|]. by destruct Hv as [-> _].
Qed.

End orders.
End follow.

(** ** A run from the start *)
Module Run.
Definition line3 : Line := demo_line "10.1.1.3" Minute.
Definition faster : Line := demo_line "10.1.1.2" Minute.
Definition gone : Line := demo_line "10.1.1.1" Minute.
Definition works : list work :=
  [Sync [∅; demo_lines]; RunStart 0; Apply (mk_event LineCreate line3 2); Apply (mk_event LineUpdate faster 2);
   Apply (mk_event LineDelete gone 3)].
Definition lines_then : gmap string Line :=
  delete "10.1.1.1" (<["10.1.1.2" := faster]> (<["10.1.1.3" := line3]> demo_lines)).

Lemma accepted k l : demo_lines !! k = Some l → is_ret (scheduler_config (line_Router l)) = true.
Proof.
  unfold demo_lines. rewrite lookup_insert_Some, lookup_singleton_Some.
  intros [[_ <-]|[_ [_ <-]]]; vm_compute; reflexivity.
Qed.

Lemma fits : sync_fits ∅ demo_lines ∅.
Proof. intros ip. right; right. split; [apply map_filter_empty|apply not_elem_of_empty]. Qed.

Lemma synced_start : follows demo_manager demo_lines (filter (λ ip, routed ip demo_lines ≠ ∅) ∅).
Proof.
  destruct (follows_sync (λ n, n) map_to_list map_to_list (λ _, reflexivity _) (λ _, reflexivity _) NewManager ∅ ∅ [demo_lines] demo_lines)
    as (m & E & Hf); [apply follows_new|reflexivity|apply demo_lines_ok|apply fits|apply accepted|].
  assert (demo_manager = m) as ->; [|exact Hf]. unfold demo_manager. by rewrite E.
Qed.
End Run.

Lemma manager_follows_witness :
  ∃ m, replay (λ n, n) map_to_list map_to_list NewManager Run.works = Ret m ∧
    (∀ ip, as_map (lines_of m ip) = routed ip Run.lines_then) ∧ queued m "10.0.0.1" Run.faster ∧ ¬ queued m "10.0.0.1" Run.gone.
Proof.
  destruct (manager_follows (λ n, n) map_to_list map_to_list (λ _, reflexivity _) (λ _, reflexivity _) Run.works Run.lines_then
    ({["10.0.0.1"]} ∪ filter (λ ip, routed ip demo_lines ≠ ∅) ∅)) as (m & E & Hl & Hq).
  - eexists. split; [apply (t_sync _ _ demo_lines); [reflexivity|apply demo_lines_ok|apply Run.fits|apply Run.accepted]|].
    intros m1 _. eexists. split; [apply t_start|]. intros m2 _.
    assert (Hd : ∀ ip, ip ∉ filter (λ ip, routed ip demo_lines ≠ ∅) (∅ : gset string)).
    { intros ip [_ Hin]%elem_of_filter. by apply not_elem_of_empty in Hin. }
    eexists. split; [apply t_create; [reflexivity|reflexivity|apply Hd|vm_compute; reflexivity]|]. intros m3 _.
    eexists. split; [apply (t_update _ _ (demo_line "10.1.1.2" (2 * Minute)%Z)); [reflexivity|reflexivity|reflexivity]|]. intros m4 _.
    eexists. split; [apply t_delete; reflexivity|]. intros m5 _. reflexivity.
  - exists m. split; [exact E|]. split; [exact Hl|]. split; [by apply (Hq Run.faster)|].
    intros H%(Hq Run.gone). vm_compute in H. discriminate H.
Defined.

