(* ===== verification/Ping.v ===== *)
(** * Ping: the ping task ([src/task/ping.go])

    Validation of parameters, the commands per platform, and the five parsers of
    device output. A parser reads the output line by line and writes entries of
    the result's data; it returns whether it found a result. *)
From Stdlib Require Import Ascii String.
From S2P Require Import Prelude GoStrings GoFloat Types Task.
Local Open Scope string_scope.
Local Open Scope Z_scope.

Definition StatusCheckFinished : string := "CheckFinished".
Definition StatusCheckTimeout : string := "CheckTimeout".
Definition StatusParseFailed : string := "ParseResultFailed".
Definition StatusConnectionError : string := "ConnectionError".
Definition StatusExecutionError : string := "ExecutionError".
Definition StatusRequestTimeout : string := "RequestTimeout".
Definition StatusNoRouteToHost : string := "NoRouteToHost".
Definition StatusMissingStatusField : string := "MissingStatusField".
Definition StatusPacketLossOutOfRange : string := "PacketLossOutOfRange".
Definition StatusInvalidPacketLossData : string := "InvalidPacketLossData".

(** ** Parameters *)

Definition check_target_ip (params : data) : option string :=
  match params !! "target_ip" with
  | None => Some "target_ip parameter is required"
  | Some (VStr s) => if String.eqb s "" then Some "target_ip cannot be empty" else None
  | Some _ => Some "target_ip must be a string"
  end.

Definition check_repeat (params : data) : option string :=
  match params !! "repeat" with
  | None => None
  | Some (VInt r) => if (r <=? 0) || (100 <? r) then Some "repeat must be between 1 and 100" else None
  | Some _ => Some "repeat must be an integer"
  end.

Definition check_timeout (params : data) : option string :=
  match params !! "timeout" with
  | None => None
  | Some (VDur t) => if (t <=? 0) || (60 * Second <? t) then Some "timeout must be between 1ms and 60s" else None
  | Some _ => Some "timeout must be a time.Duration"
  end.

Definition check_enable (params : data) : option string :=
  match params !! "enable_password" with
  | None => None
  | Some (VStr _) => None
  | Some _ => Some "enable_password must be a string"
  end.

Definition PingTask_ValidateParams (params : data) : option string :=
  match check_target_ip params with
  | Some e => Some e
  | None =>
      match check_repeat params with
      | Some e => Some e
      | None =>
          match check_timeout params with
          | Some e => Some e
          | None => check_enable params
          end
      end
  end.

(** ** Commands *)

(** [int(timeout.Seconds())] and [int(timeout.Milliseconds())] *)
Definition int_seconds (d : Z) : Z := truncate (seconds d).
Definition int_milliseconds (d : Z) : Z := Z.quot d Millisecond.

Definition buildCiscoEvent (targetIP : string) (repeat timeout : Z) (enablePassword : string) : list (string * string) :=
  let prompt := if String.eqb enablePassword "" then ">" else "#" in
  [("ping " +:+ targetIP +:+ " repeat " +:+ itoa repeat +:+ " timeout " +:+ itoa (int_seconds timeout), prompt)].

Definition vrp_command (targetIP : string) (repeat timeout : Z) : string :=
  "ping -c " +:+ itoa repeat +:+ " -t " +:+ itoa (int_milliseconds timeout) +:+ " " +:+ targetIP.

Definition buildHuaweiEvent (targetIP : string) (repeat timeout : Z) : list (string * string) :=
  [(vrp_command targetIP repeat timeout, ">")].
Definition buildH3CEvent (targetIP : string) (repeat timeout : Z) : list (string * string) :=
  [(vrp_command targetIP repeat timeout, ">")].

Definition buildCiscoCommand (targetIP : string) (repeat timeout : Z) (enablePassword : string) : list string :=
  (if String.eqb enablePassword "" then [] else ["enable"; enablePassword]) ++
  ["ping " +:+ targetIP +:+ " timeout " +:+ itoa (int_seconds timeout)].
Definition buildHuaweiCommand (targetIP : string) (repeat timeout : Z) : list string :=
  [vrp_command targetIP repeat timeout].
Definition buildH3CCommand (targetIP : string) (repeat timeout : Z) : list string :=
  [vrp_command targetIP repeat timeout].

(** The platforms of the switch statements. *)
Definition is_cisco (p : string) : bool :=
  String.eqb p PlatformCiscoIOSXE || String.eqb p PlatformCiscoIOSXR || String.eqb p PlatformCiscoNXOS.

Definition int_param (params : data) (k : string) (d : Z) (e : string) : outcome Z :=
  match params !! k with
  | None => Ret d
  | Some (VInt z) => Ret z
  | Some _ => Fail e
  end.
Definition dur_param (params : data) (k : string) (d : Z) (e : string) : outcome Z :=
  match params !! k with
  | None => Ret d
  | Some (VDur z) => Ret z
  | Some _ => Fail e
  end.

Section build.
Local Open Scope ddl_scope.

Definition PingTask_BuildCommand (ctx : TaskContext) : outcome Command :=
  match Params ctx !! "target_ip" with
  | None => Fail "target_ip parameter is required"
  | Some (VStr targetIP) =>
      let? repeat := int_param (Params ctx) "repeat" 5 "repeat must be integer" in
      let? timeout := dur_param (Params ctx) "timeout" (2 * Second) "timeout must be time.Duration" in
      let enablePassword := match Params ctx !! "enable_password" with Some (VStr s) => s | _ => "" end in
      let p := Platform ctx in
      if String.eqb (CommandType ctx) CommandTypeCommands then
        if is_cisco p then Ret (mk_command CommandTypeCommands (Commands (buildCiscoCommand targetIP repeat timeout enablePassword)))
        else if String.eqb p PlatformHuaweiVRP then Ret (mk_command CommandTypeCommands (Commands (buildHuaweiCommand targetIP repeat timeout)))
        else if String.eqb p PlatformH3CComware then Ret (mk_command CommandTypeCommands (Commands (buildH3CCommand targetIP repeat timeout)))
        else Fail ("unsupported platform for commands: " +:+ p)
      else if String.eqb (CommandType ctx) CommandTypeInteractiveEvent then
        if is_cisco p then Ret (mk_command CommandTypeInteractiveEvent (Events (buildCiscoEvent targetIP repeat timeout enablePassword)))
        else if String.eqb p PlatformHuaweiVRP then Ret (mk_command CommandTypeInteractiveEvent (Events (buildHuaweiEvent targetIP repeat timeout)))
        else if String.eqb p PlatformH3CComware then Ret (mk_command CommandTypeInteractiveEvent (Events (buildH3CEvent targetIP repeat timeout)))
        else Fail ("unsupported platform: " +:+ p)
      else Fail ("unsupported command type: " +:+ CommandType ctx)
  | Some _ => Fail "target_ip must be string"
  end.
End build.

(** ** Parsers *)

(** The entries a recognised summary writes. *)
Definition set_rates (loss rate : Z) (d : data) : data :=
  <["success_rate" := VInt rate]> (<["packet_loss" := VInt loss]> d).
Definition set_status (s : string) (d : data) : data := <["status" := VStr s]> d.
Definition finished (loss rate : Z) (d : data) : data * bool :=
  (set_status StatusCheckFinished (set_rates loss rate d), true).
Definition failed (d : data) : data * bool := (set_status StatusParseFailed d, false).

(** [100 - n] on 64-bit integers. *)
Definition hundred_minus (n : Z) : Z := wrap64 (100 - n).

(** The loop over the lines: a step either goes on with the data or returns. *)
Fixpoint scan (step : string → data → data + (data * bool)) (ls : list string) (d : data) : data * bool :=
  match ls with
  | [] => failed d
  | l :: ls => match step (trim_space l) d with
               | inl d => scan step ls d
               | inr r => r
               end
  end.

Definition note_rtt (l : string) (d : data) : data :=
  if contains l "round-trip" && contains l "min/avg/max" then <["rtt_info" := VStr l]> d else d.

(** The word before the first "percent" that is not the first word. *)
Fixpoint before_percent (prev : option string) (parts : list string) : option string :=
  match parts with
  | [] => None
  | p :: ps => match prev with
               | Some w => if String.eqb p "percent" then Some w else before_percent (Some p) ps
               | None => before_percent (Some p) ps
               end
  end.

Definition cisco_step (l : string) (d : data) : data + (data * bool) :=
  if contains l "Success rate is" then
    inr (if contains l "100 percent" then finished 0 100 d
         else if contains l "0 percent" then finished 100 0 d
         else match before_percent None (fields l) with
              | None => (set_status StatusCheckFinished d, true)
              | Some w => match atoi w with
                          | Some rate => finished (hundred_minus rate) rate d
                          | None => failed d
                          end
              end)
  else inl (note_rtt l d).

Definition parseCiscoOutput (output : string) (d : data) : data * bool := scan cisco_step (split_lines output) d.

(** The first word with suffix "%" that contains "packet". *)
Definition nxos_word (w : string) : bool := has_suffix w "%" && contains w "packet".

Definition nxos_step (l : string) (d : data) : data + (data * bool) :=
  if contains l "packet loss" then
    inr (if contains l "0.00% packet loss" then finished 0 100 d
         else if contains l "100.00% packet loss" then finished 100 0 d
         else match find_first nxos_word (fields l) with
              | None => (set_status StatusCheckFinished d, true)
              | Some w =>
                  let s := trim_suffix w "%" in
                  if String.eqb s "" then (set_status StatusCheckFinished d, true)
                  else match atoi (trim_suffix s ".00") with
                       | Some loss => finished loss (hundred_minus loss) d
                       | None => failed d
                       end
              end)
  else
    let d := note_rtt l d in
    inl (if contains l "packets transmitted" && contains l "packets received"
         then <["packet_stats" := VStr l]> d else d).

Definition parseCiscoNxosOutput (output : string) (d : data) : data * bool := scan nxos_step (split_lines output) d.

Definition huawei_step (l : string) (d : data) : data + (data * bool) :=
  if contains (to_lower l) "request time out" then inr (finished 100 0 d)
  else if contains l "packet loss" then
    inr (if contains l "100% packet loss" then finished 100 0 d
         else if contains l "0% packet loss" then finished 0 100 d
         else match find_first (λ w, has_suffix w "%") (fields l) with
              | None => (set_status StatusCheckFinished d, true)
              | Some w =>
                  let s := trim_suffix w "%" in
                  if String.eqb s "" then (set_status StatusCheckFinished d, true)
                  else match atoi s with
                       | Some loss => finished loss (hundred_minus loss) d
                       | None => failed d
                       end
              end)
  else inl (if contains l "min/avg/max" then <["rtt_info" := VStr l]> d else d).

Definition parseHuaweiOutput (output : string) (d : data) : data * bool := scan huawei_step (split_lines output) d.

(** The regular expression [(\d+(?:\.\d+)?)\s*%\s*packet\s*loss], leftmost match.
    Its repetitions are followed by characters they cannot contain, so greedy
    matching never has to give anything back. *)
Fixpoint span_digits (s : string) : string * string :=
  match s with
  | String c s' => if is_digit c then let '(ds, r) := span_digits s' in (String c ds, r) else ("", s)
  | EmptyString => ("", "")
  end.

(** [\s]: tab, newline, form feed, carriage return, blank. *)
Definition is_re_space (c : Ascii.ascii) : bool :=
  let n := ascii_code c in (n =? 32)%nat || (n =? 9)%nat || (n =? 10)%nat || (n =? 12)%nat || (n =? 13)%nat.

Fixpoint skip_re_space (s : string) : string :=
  match s with
  | String c s' => if is_re_space c then skip_re_space s' else s
  | EmptyString => ""
  end.

Fixpoint strip_prefix (p s : string) : option string :=
  match p, s with
  | EmptyString, _ => Some s
  | String a p', String b s' => if Ascii.eqb a b then strip_prefix p' s' else None
  | String _ _, EmptyString => None
  end.

(** What follows the number: [\s*%\s*packet\s*loss]. *)
Definition loss_tail (s : string) : bool :=
  match strip_prefix "%" (skip_re_space s) with
  | None => false
  | Some s => match strip_prefix "packet" (skip_re_space s) with
              | None => false
              | Some s => match strip_prefix "loss" (skip_re_space s) with Some _ => true | None => false end
              end
  end.

(** A match that starts here; the result is the group: whole digits and fraction. *)
Definition match_loss (s : string) : option (string * string) :=
  let '(ds, r) := span_digits s in
  if String.eqb ds "" then None
  else
    let '(fs, r) := match r with
                    | String "."%char r' => let '(fs, r'') := span_digits r' in
                                            if String.eqb fs "" then ("", r) else (fs, r'')
                    | _ => ("", r)
                    end in
    if loss_tail r then Some (ds, fs) else None.

Fixpoint find_loss (s : string) : option (string * string) :=
  match match_loss s with
  | Some g => Some g
  | None => match s with EmptyString => None | String _ s' => find_loss s' end
  end.

(** [strconv.ParseFloat] of digits with a fraction; [None] when out of range. *)
Definition parse_decimal (g : string * string) : option float64 :=
  let n := default 0 (parse_digits (g.1 +:+ g.2)) in
  match ratio n (10 ^ Z.of_nat (String.length g.2)) with
  | SpecFloat.S754_infinity _ => None
  | f => Some f
  end.

(** Clamped to 0..100 and truncated. *)
Definition clamp_loss (f : float64) : Z :=
  if flt f (of_int 0) then 0 else if flt (of_int 100) f then 100 else truncate f.

(** First round: the first line with a match decides. *)
Fixpoint h3c_summary (ls : list string) : option (option float64) :=
  match ls with
  | [] => None
  | l :: ls => match find_loss l with
               | Some g => Some (parse_decimal g)
               | None => h3c_summary ls
               end
  end.

Definition parseH3COutput (output : string) (d : data) : data * bool :=
  let ls := split_lines output in
  match h3c_summary ls with
  | Some (Some f) =>
      let loss := clamp_loss f in
      let '(d, _) := finished loss (hundred_minus loss) d in
      match find_first (λ l, contains l "round-trip" && contains l "min/avg/max") ls with
      | Some l => (<["rtt_info" := VStr (trim_space l)]> d, true)
      | None => (d, true)
      end
  | Some None => failed d
  | None => failed d
  end.

Definition successPatterns : list string := ["0% packet loss"; "0% loss"; "100 percent"; "success rate is 100"].
Definition failPatterns : list string :=
  ["100% packet loss"; "100% loss"; "0 percent"; "destination host unreachable"; "request timeout"; "no route to host"].

Definition parseGenericOutput (output : string) (d : data) : data * bool :=
  let low := to_lower output in
  if existsb (contains low) successPatterns then finished 0 100 d
  else if existsb (contains low) failPatterns then finished 100 0 d
  else failed d.

(** The parser of a platform. *)
Definition parser (p : string) : string → data → data * bool :=
  if String.eqb p PlatformCiscoIOSXE then parseCiscoOutput
  else if String.eqb p PlatformCiscoIOSXR then parseCiscoOutput
  else if String.eqb p PlatformCiscoNXOS then parseCiscoNxosOutput
  else if String.eqb p PlatformHuaweiVRP then parseHuaweiOutput
  else if String.eqb p PlatformH3CComware then parseH3COutput
  else parseGenericOutput.

Definition status_only (s : string) : data := {[ "status" := VStr s ]}.

Definition parse_text (ctx : TaskContext) (output : string) : Result * option string :=
  match Params ctx !! "target_ip" with
  | Some (VStr targetIP) =>
      let '(d, ok) := parser (Platform ctx) output
                        {[ "target_ip" := VStr targetIP; "raw_output" := VStr output ]} in
      (mk_result ok d "", None)
  | _ => (mk_result false (status_only StatusParseFailed) "target_ip parameter missing or invalid",
          Some "target_ip parameter missing or invalid")
  end.

Definition PingTask_ParseOutput (ctx : TaskContext) (raw : value) : Result * option string :=
  match raw with
  | VStr s => parse_text ctx s
  | VBytes s => parse_text ctx s
  | _ => (mk_result false (status_only StatusParseFailed) "unsupported output type",
          Some ("unsupported output type: " +:+ type_name raw))
  end.

Definition PingTask : Task := mk_task PingTask_ValidateParams PingTask_BuildCommand PingTask_ParseOutput.

(** ** [Meta] *)
Definition ping_params (with_enable : bool) : list ParamSpec :=
  [ mk_param "target_ip" "string" true VNil; mk_param "repeat" "int" false (VInt 5);
    mk_param "timeout" "duration" false (VDur (2 * Second)) ] ++
  (if with_enable then [mk_param "enable_password" "string" false (VStr "")] else []).

Definition ping_platform (p : string) (with_enable : bool) : PlatformSupport Task :=
  mk_pls p [mk_ps ProtocolScrapli
    [mk_cts CommandTypeInteractiveEvent PingTask (ping_params with_enable);
     mk_cts CommandTypeCommands PingTask (ping_params with_enable)]].

Definition Meta : TaskMeta Task :=
  mk_meta "ping" "Ping task for network devices"
    [ping_platform PlatformCiscoIOSXE true; ping_platform PlatformCiscoIOSXR true;
     ping_platform PlatformCiscoNXOS true; ping_platform PlatformHuaweiVRP true;
     ping_platform PlatformH3CComware false].
