(* ===== verification/PingParse.v ===== *)
(** * PingParse: what the ping parsers report

    For each platform the theorems give the reported loss as a function of the
    percentage [n] printed in the summary line of the device, for every [n] from
    0 to 100 and whatever surrounds the summary. *)
From Stdlib Require Import Ascii String.
From S2P Require Import Prelude GoStrings GoFloat Types Task Ping.
Local Open Scope string_scope.
Local Open Scope Z_scope.

(** ** Finite checks *)

Lemma range_check (P : Z → bool) (k : Z) :
  forallb P (seqZ 0 (k + 1)) = true → ∀ n, 0 ≤ n ≤ k → P n = true.
Proof.
  intros H n Hn. rewrite forallb_forall in H. apply H. apply list_elem_of_In, elem_of_seqZ. lia.
Qed.

(** ** The data a parser leaves *)

Definition agree (d d' : data) : Prop :=
  d' !! "packet_loss" = d !! "packet_loss" ∧ d' !! "success_rate" = d !! "success_rate" ∧
  d' !! "status" = d !! "status".

(** The entries after a parse: loss and rate, or neither. *)
Definition reports (r : data * bool) (loss : Z) : Prop :=
  r.2 = true ∧ r.1 !! "packet_loss" = Some (VInt loss) ∧
  r.1 !! "success_rate" = Some (VInt (hundred_minus loss)) ∧
  r.1 !! "status" = Some (VStr StatusCheckFinished).

Lemma finished_reports loss d : reports (finished loss (hundred_minus loss) d) loss.
Proof. unfold reports, finished, set_status, set_rates. simpl. split_and!; by simplify_map_eq. Qed.

Lemma hundred_minus_small n : 0 ≤ n ≤ 100 → hundred_minus n = 100 - n.
Proof. intros H. apply wrap64_id. unfold in_int64, min_int64, max_int64. lia. Qed.

Lemma hundred_minus_inv n : in_int64 n → hundred_minus (hundred_minus n) = n.
Proof.
  intros H. rewrite <- (wrap64_id n) at 2 by done. unfold hundred_minus, wrap64. f_equal.
  rewrite <- (Zplus_mod_idemp_l (100 - _)).
  replace (100 - ((100 - n + two63) mod two64 - two63)) with (100 + two63 - (100 - n + two63) mod two64) by lia.
  rewrite Zminus_mod_idemp_r, Zplus_mod_idemp_l. f_equal. lia.
Qed.

Lemma agree_insert d k v :
  k ≠ "packet_loss" → k ≠ "success_rate" → k ≠ "status" → agree d (<[k := v]> d).
Proof. intros. unfold agree. by rewrite !lookup_insert_ne. Qed.

Lemma agree_refl d : agree d d.
Proof. done. Qed.

Lemma agree_trans d1 d2 d3 : agree d1 d2 → agree d2 d3 → agree d1 d3.
Proof. unfold agree. intros (-> & -> & ->) (? & ? & ?). by split_and!. Qed.

#[local] Hint Resolve agree_insert agree_refl agree_trans : ddl.

Lemma note_rtt_agree l d : agree d (note_rtt l d).
Proof. unfold note_rtt. case_match; [by apply agree_insert|done]. Qed.

(** A step that goes on does not touch the reported entries. *)
Definition quiet (step : string → data → data + (data * bool)) : Prop :=
  ∀ l d d', step l d = inl d' → agree d d'.

Lemma cisco_quiet : quiet cisco_step.
Proof. intros l d d'. unfold cisco_step. case_match; [done|]. intros [= <-]. apply note_rtt_agree. Qed.

Lemma nxos_quiet : quiet nxos_step.
Proof.
  intros l d d'. unfold nxos_step. case_match; [done|]. intros [= <-].
  eapply agree_trans; [apply note_rtt_agree|]. case_match; [by apply agree_insert|apply agree_refl].
Qed.

Lemma huawei_quiet : quiet huawei_step.
Proof.
  intros l d d'. unfold huawei_step. case_match; [done|]. case_match; [done|]. intros [= <-].
  case_match; [by apply agree_insert|apply agree_refl].
Qed.

(** Lines on which the step goes on can be skipped. *)
Definition passes (step : string → data → data + (data * bool)) (l : string) : Prop :=
  ∀ d, ∃ d', step (trim_space l) d = inl d'.

Lemma scan_passes step pre ls d :
  quiet step → Forall (passes step) pre → ∃ d', agree d d' ∧ scan step (pre ++ ls) d = scan step ls d'.
Proof.
  intros Hq Hpre. revert d. induction Hpre as [|l pre Hl Hpre IH]; intros d; simpl; [by exists d|].
  destruct (Hl d) as [d1 E1]. rewrite E1. destruct (IH d1) as (d2 & Ha & E2). exists d2. split; [|done].
  eapply agree_trans; [by eapply Hq|done].
Qed.

Lemma scan_stops step pre raw post d r :
  quiet step → Forall (passes step) pre → (∀ d', agree d d' → step (trim_space raw) d' = inr (r d')) →
  ∃ d', agree d d' ∧ scan step (pre ++ raw :: post) d = r d'.
Proof.
  intros Hq Hpre Hr. destruct (scan_passes step pre (raw :: post) d Hq Hpre) as (d' & Ha & ->).
  exists d'. split; [done|]. simpl. by rewrite Hr.
Qed.

(** ** Cisco IOS *)

Definition cisco_line (n : Z) : string := "Success rate is " +:+ itoa n +:+ " percent (".

(** What the summary of [n] percent is taken for. *)
Definition cisco_reading (n : Z) : Z :=
  if n =? 100 then 100 else if n mod 10 =? 0 then 0 else n.

Lemma before_percent_app prev l1 l2 w :
  before_percent prev l1 = Some w → before_percent prev (l1 ++ l2) = Some w.
Proof.
  revert prev. induction l1 as [|p l1 IH]; intros prev; simpl; [done|]. destruct prev as [v|]; [|apply IH].
  destruct (String.eqb p "percent"); [done|apply IH].
Qed.

Definition cisco_check (n : Z) : bool :=
  let s := cisco_line n in
  contains s "Success rate is" &&
  Bool.eqb (contains s "100 percent") (n =? 100) && negb (overlap s "100 percent") &&
  (contains s "100 percent" || Bool.eqb (contains s "0 percent") (n mod 10 =? 0)) &&
  negb (overlap s "0 percent") &&
  bool_decide (before_percent None (fields ("Success rate is " +:+ itoa n +:+ " percent")) = Some (itoa n)).

Lemma cisco_checked : forallb cisco_check (seqZ 0 101) = true.
Proof. vm_compute. reflexivity. Qed.

Lemma no_percent t p : contains p "percent" = true → contains t "percent" = false → contains t p = false.
Proof.
  intros Hp Ht. apply not_true_is_false. intros Hc. rewrite (contains_trans t p "percent") in Ht; done.
Qed.

Lemma contains_app_dec s t p :
  contains t p = false → overlap s p = false → contains (s +:+ t) p = contains s p.
Proof.
  intros Ht Ho. destruct (contains s p) eqn:E; [by apply contains_app_r|by apply contains_app_false].
Qed.

Lemma cisco_facts n :
  0 ≤ n ≤ 100 →
  contains (cisco_line n) "Success rate is" = true ∧
  contains (cisco_line n) "100 percent" = (n =? 100) ∧ overlap (cisco_line n) "100 percent" = false ∧
  ((n =? 100) = false → contains (cisco_line n) "0 percent" = (n mod 10 =? 0)) ∧
  overlap (cisco_line n) "0 percent" = false ∧
  before_percent None (fields ("Success rate is " +:+ itoa n +:+ " percent")) = Some (itoa n).
Proof.
  intros Hn. pose proof (range_check cisco_check 100 cisco_checked n Hn) as Hc.
  unfold cisco_check in Hc. rewrite !andb_true_iff in Hc. destruct Hc as [[[[[H1 H2] H3] H4] H5] H6].
  apply Bool.eqb_prop in H2. split_and!; auto using negb_true_iff.
  - by apply negb_true_iff.
  - intros E. rewrite H2, E in H4. by apply Bool.eqb_prop.
  - by apply negb_true_iff.
  - by apply bool_decide_eq_true in H6.
Qed.

Lemma cisco_step_summary n t d :
  0 ≤ n ≤ 100 → contains t "percent" = false →
  cisco_step (cisco_line n +:+ t) d =
    inr (finished (hundred_minus (cisco_reading n)) (cisco_reading n) d).
Proof.
  intros Hn Ht. destruct (cisco_facts n Hn) as (H1 & H2 & H3 & H4 & H5 & H6).
  unfold cisco_step. rewrite contains_app_r by done.
  rewrite (contains_app_dec _ _ "100 percent") by (done || by apply no_percent).
  rewrite (contains_app_dec _ _ "0 percent") by (done || by apply no_percent).
  rewrite H2. unfold cisco_reading. destruct (n =? 100) eqn:E100; [done|].
  rewrite H4 by done. destruct (n mod 10 =? 0); [done|].
  assert (Hf : cisco_line n +:+ t =
    ("Success rate is " +:+ itoa n +:+ " percent") +:+ String blank ("(" +:+ t)).
  { unfold cisco_line. by rewrite !string_app_assoc. }
  rewrite Hf, fields_app, (before_percent_app _ _ _ _ H6), atoi_itoa_nonneg; [done|].
  unfold max_int64. lia.
Qed.

(** On Cisco IOS the first summary "Success rate is n percent (..." is read
    as n, except that every other multiple of ten is read as 0: at 10, 20, ...,
    90 percent of answered pings the monitor reports a total loss. *)
Theorem cisco_summary_reading n t output pre raw post d :
  0 ≤ n ≤ 100 → contains t "percent" = false →
  split_lines output = (pre ++ raw :: post)%list → trim_space raw = cisco_line n +:+ t →
  Forall (λ l, contains (trim_space l) "Success rate is" = false) pre →
  let rate := if n =? 100 then 100 else if n mod 10 =? 0 then 0 else n in
  reports (parseCiscoOutput output d) (100 - rate).
Proof.
  intros Hn Ht Ho Hraw Hpre. cbv zeta. fold (cisco_reading n).
  assert (Hr : 0 ≤ cisco_reading n ≤ 100) by (unfold cisco_reading; repeat case_match; lia).
  unfold parseCiscoOutput. rewrite Ho.
  destruct (scan_stops cisco_step pre raw post d (λ d, finished (hundred_minus (cisco_reading n)) (cisco_reading n) d))
    as (d' & _ & ->).
  - apply cisco_quiet.
  - eapply Forall_impl; [exact Hpre|]. intros l Hl d0. unfold cisco_step. rewrite Hl. eauto.
  - intros d' _. rewrite Hraw. by apply cisco_step_summary.
  - rewrite hundred_minus_small by done.
    replace (cisco_reading n) with (hundred_minus (100 - cisco_reading n)) at 2.
    + apply finished_reports.
    + rewrite hundred_minus_small; lia.
Qed.

Lemma cisco_summary_reading_witness :
  let out := "Sending 5, 100-byte ICMP Echos" +:+ String newline "Success rate is 80 percent (4/5)" in
  reports (parseCiscoOutput out ∅) 100.
Proof.
  intros out. apply (cisco_summary_reading 80 "4/5)" out ["Sending 5, 100-byte ICMP Echos"]
    "Success rate is 80 percent (4/5)" [] ∅); [lia|reflexivity|reflexivity|reflexivity|].
  repeat constructor.
Defined.

(** ** A summary with one percent sign *)

Definition percent : ascii := "%".

Lemma no_percent_words P ws :
  (∀ w, P w = true → has_suffix w "%" = true) → Forall (λ w, has_char percent w = false) ws →
  find_first P ws = None.
Proof.
  intros HP H. apply find_first_None_elem. intros w Hw. rewrite Forall_forall in H.
  apply not_true_is_false. intros Hs%HP.
  pose proof (has_suffix_char percent w (H w Hw)) as Hn. change (String percent "") with "%" in Hn. congruence.
Qed.

Lemma find_first_skip {A} (P : A → bool) l1 l2 :
  find_first P l1 = None → find_first P (l1 ++ l2) = find_first P l2.
Proof. induction l1 as [|x l1 IH]; simpl; [done|]. destruct (P x); [done|apply IH]. Qed.

(** The words of a line [u w% t]. *)
Lemma percent_line_words P u w t :
  (∀ x, P x = true → has_suffix x "%" = true) →
  has_char percent u = false → has_char percent t = false →
  find_first P (fields (u +:+ String blank (w +:+ String percent (String blank t)))) =
  find_first P (fields (w +:+ "%")).
Proof.
  intros HP Hu Ht. rewrite fields_app, find_first_skip by (apply no_percent_words; [done|by apply fields_no_char]).
  replace (w +:+ String percent (String blank t)) with ((w +:+ "%") +:+ String blank t)
    by by rewrite string_app_assoc.
  rewrite fields_app. destruct (find_first P (fields (w +:+ "%"))) eqn:E.
  - revert E. generalize (fields (w +:+ "%")). intros l. induction l as [|x l IH]; simpl; [done|].
    destruct (P x); [done|apply IH].
  - rewrite find_first_skip by done. apply no_percent_words; [done|by apply fields_no_char].
Qed.

(** The pattern [p% packet loss] in a line [u w% packet loss t]. *)
Lemma percent_line_contains u w p t :
  has_char percent u = false → has_char percent w = false → has_char percent p = false →
  has_char percent t = false → has_char blank p = false →
  contains (u +:+ String blank (w +:+ String percent (" packet loss" +:+ t))) (p +:+ "% packet loss") =
  has_suffix w p.
Proof.
  intros Hu Hw Hp Ht Hl. apply eq_true_iff_eq. split.
  - intros Hc. rewrite <- (has_suffix_word u) by done.
    apply (contains_around percent _ (" packet loss" +:+ t) p " packet loss").
    + rewrite has_char_app, Hu. exact Hw.
    + rewrite has_char_app, Ht. reflexivity.
    + done.
    + rewrite string_app_assoc. exact Hc.
  - intros [x ->]%has_suffix_spec.
    replace (u +:+ String blank ((x +:+ p) +:+ String percent (" packet loss" +:+ t)))
      with ((u +:+ String blank x) +:+ ((p +:+ "% packet loss") +:+ t)).
    + apply contains_app_l, contains_app_r. apply contains_prefix, prefix_spec. exists "". by rewrite string_app_nil_r.
    + rewrite !string_app_assoc. rewrite string_cons_app. do 4 f_equal.
Qed.

(** A line [u n% packet loss t] that the theorems below are about. *)
Definition loss_line (u w t : string) : string :=
  u +:+ String blank (w +:+ String percent (" packet loss" +:+ t)).

Lemma loss_line_marker u w t : contains (loss_line u w t) "packet loss" = true.
Proof.
  unfold loss_line.
  replace (u +:+ String blank (w +:+ String percent (" packet loss" +:+ t)))
    with ((u +:+ String blank (w +:+ "% ")) +:+ ("packet loss" +:+ t)).
  - by apply contains_app_l, contains_app_r.
  - by rewrite !string_app_assoc, string_cons_app, !string_app_assoc.
Qed.

Lemma loss_line_words P u w t :
  (∀ x, P x = true → has_suffix x "%" = true) → has_char percent u = false → has_char percent t = false →
  find_first P (fields (loss_line u w t)) = find_first P (fields (w +:+ "%")).
Proof. intros HP Hu Ht. by apply (percent_line_words P u w ("packet loss" +:+ t)). Qed.

(** ** Cisco NX-OS *)

Definition nxos_check (n : Z) : bool :=
  let w := itoa n +:+ ".00" in
  negb (has_char percent w) &&
  Bool.eqb (has_suffix w "0.00") (n mod 10 =? 0) &&
  match find_first nxos_word (fields (w +:+ "%")) with None => true | Some _ => false end.

Lemma nxos_checked : forallb nxos_check (seqZ 0 101) = true.
Proof. vm_compute. reflexivity. Qed.

Lemma nxos_hundred n : 0 ≤ n ≤ 100 → (n mod 10 =? 0) = false → has_suffix (itoa n +:+ ".00") "100.00" = false.
Proof.
  intros Hn Hm. pose proof (range_check nxos_check 100 nxos_checked n Hn) as Hc.
  unfold nxos_check in Hc. rewrite !andb_true_iff in Hc. destruct Hc as [[_ Hs%Bool.eqb_prop] _].
  apply not_true_is_false. intros [x Hx]%has_suffix_spec.
  rewrite Hm in Hs. apply not_true_iff_false in Hs. apply Hs, has_suffix_spec.
  exists (x +:+ "10"). by rewrite Hx, string_app_assoc.
Qed.

Lemma nxos_step_summary u n t d :
  0 ≤ n ≤ 100 → has_char percent u = false → has_char percent t = false →
  nxos_step (loss_line u (itoa n +:+ ".00") t) d =
    inr (if n mod 10 =? 0 then finished 0 100 d else (set_status StatusCheckFinished d, true)).
Proof.
  intros Hn Hu Ht. pose proof (range_check nxos_check 100 nxos_checked n Hn) as Hc.
  unfold nxos_check in Hc. rewrite !andb_true_iff in Hc. destruct Hc as [[H1 H3] H4].
  apply negb_true_iff in H1. apply Bool.eqb_prop in H3.
  unfold nxos_step. rewrite loss_line_marker.
  assert (H0 : contains (loss_line u (itoa n +:+ ".00") t) "0.00% packet loss" = (n mod 10 =? 0)).
  { rewrite <- H3. by apply (percent_line_contains u _ "0.00" t). }
  rewrite H0. destruct (n mod 10 =? 0) eqn:Em; [done|].
  assert (H100 : contains (loss_line u (itoa n +:+ ".00") t) "100.00% packet loss" = false).
  { apply not_true_is_false. intros Hc. apply not_true_iff_false in H0. apply H0.
    by apply (contains_trans _ "100.00% packet loss"). }
  rewrite H100, loss_line_words by (done || by (intros x [? _]%andb_true_iff)).
  by destruct (find_first nxos_word _).
Qed.

(** On Cisco NX-OS a printed loss of a multiple of ten, 100 included, is
    reported as no loss at all; any other loss is not reported: the check is
    finished, without a packet loss. The branches for "100.00%" and for the
    other numbers are never taken. *)
Theorem nxos_summary_reading u n t output pre raw post d :
  0 ≤ n ≤ 100 → has_char percent u = false → has_char percent t = false →
  split_lines output = (pre ++ raw :: post)%list →
  trim_space raw = loss_line u (itoa n +:+ ".00") t →
  Forall (λ l, contains (trim_space l) "packet loss" = false) pre →
  if n mod 10 =? 0 then reports (parseCiscoNxosOutput output d) 0
  else (parseCiscoNxosOutput output d).2 = true ∧
       (parseCiscoNxosOutput output d).1 !! "status" = Some (VStr StatusCheckFinished) ∧
       (parseCiscoNxosOutput output d).1 !! "packet_loss" = d !! "packet_loss".
Proof.
  intros Hn Hu Ht Ho Hraw Hpre. unfold parseCiscoNxosOutput. rewrite Ho.
  destruct (scan_stops nxos_step pre raw post d
      (λ d, if n mod 10 =? 0 then finished 0 100 d else (set_status StatusCheckFinished d, true)))
    as (d' & (Ha & _) & ->).
  - apply nxos_quiet.
  - eapply Forall_impl; [exact Hpre|]. intros l Hl d0. unfold nxos_step. rewrite Hl. eauto.
  - intros d' _. rewrite Hraw. by apply nxos_step_summary.
  - destruct (n mod 10 =? 0).
    + apply (finished_reports 0 d').
    + unfold set_status. simpl. split_and!; [done|by simplify_map_eq|by rewrite lookup_insert_ne].
Qed.

Lemma nxos_summary_reading_witness :
  let out := "PING 10.1.1.1" +:+ String newline "5 packets transmitted, 0 packets received, 100.00% packet loss" in
  reports (parseCiscoNxosOutput out ∅) 0.
Proof.
  intros out. apply (nxos_summary_reading "5 packets transmitted, 0 packets received," 100 "" out
    ["PING 10.1.1.1"] "5 packets transmitted, 0 packets received, 100.00% packet loss" [] ∅);
    [lia|reflexivity..|repeat constructor].
Defined.

(** ** Huawei VRP *)

(** What a printed loss of [n] percent is taken for. *)
Definition huawei_reading (n : Z) : Z := if n =? 100 then 100 else if n mod 10 =? 0 then 0 else n.

Definition huawei_check (n : Z) : bool :=
  let w := itoa n in
  negb (has_char percent w) && Bool.eqb (has_suffix w "100") (n =? 100) &&
  Bool.eqb (has_suffix w "0") (n mod 10 =? 0) &&
  bool_decide (find_first (λ x, has_suffix x "%") (fields (w +:+ "%")) = Some (w +:+ "%")) &&
  String.eqb (trim_suffix (w +:+ "%") "%") w && negb (String.eqb w "").

Lemma huawei_checked : forallb huawei_check (seqZ 0 101) = true.
Proof. vm_compute. reflexivity. Qed.

Lemma huawei_step_summary u n t d :
  0 ≤ n ≤ 100 → has_char percent u = false → has_char percent t = false →
  contains (to_lower (loss_line u (itoa n) t)) "request time out" = false →
  huawei_step (loss_line u (itoa n) t) d =
    inr (finished (huawei_reading n) (hundred_minus (huawei_reading n)) d).
Proof.
  intros Hn Hu Ht Hto. pose proof (range_check huawei_check 100 huawei_checked n Hn) as Hc.
  unfold huawei_check in Hc. rewrite !andb_true_iff in Hc. destruct Hc as [[[[[H1 H2] H3] H4] H5] H6].
  apply negb_true_iff in H1, H6. apply Bool.eqb_prop in H2, H3. apply bool_decide_eq_true in H4.
  apply String.eqb_eq in H5. unfold huawei_step. rewrite Hto, loss_line_marker.
  assert (E100 : contains (loss_line u (itoa n) t) "100% packet loss" = (n =? 100)).
  { rewrite <- H2. by apply (percent_line_contains u _ "100" t). }
  assert (E0 : contains (loss_line u (itoa n) t) "0% packet loss" = (n mod 10 =? 0)).
  { rewrite <- H3. by apply (percent_line_contains u _ "0" t). }
  rewrite E100, E0. unfold huawei_reading. destruct (n =? 100); [done|].
  destruct (n mod 10 =? 0); [done|].
  rewrite loss_line_words, H4 by done. cbv zeta. rewrite H5, H6, atoi_itoa_nonneg; [done|].
  unfold max_int64. lia.
Qed.

(** On Huawei VRP the first line that speaks of a time-out or of a packet
    loss decides. A "request time out" line makes the loss 100 whatever the
    summary says; without one, a printed loss of 10, 20, ..., 90 percent is
    reported as no loss and every other value as it is printed. *)
Theorem huawei_summary_reading u n t output pre raw post d :
  0 ≤ n ≤ 100 → has_char percent u = false → has_char percent t = false →
  split_lines output = (pre ++ raw :: post)%list →
  trim_space raw = loss_line u (itoa n) t →
  Forall (λ l, contains (trim_space l) "packet loss" = false) pre →
  let timed_out l := contains (to_lower (trim_space l)) "request time out" in
  reports (parseHuaweiOutput output d)
    (if existsb timed_out (pre ++ [raw]) then 100
     else if n =? 100 then 100 else if n mod 10 =? 0 then 0 else n).
Proof.
  intros Hn Hu Ht Ho Hraw Hpre timed_out. unfold parseHuaweiOutput. rewrite Ho.
  fold (huawei_reading n). clear Ho. revert d.
  induction Hpre as [|l pre Hl Hpre IH]; intros d.
  - simpl. rewrite orb_false_r. destruct (timed_out raw) eqn:E.
    + unfold huawei_step. unfold timed_out in E. rewrite E. apply (finished_reports 100 d).
    + rewrite Hraw, huawei_step_summary by (done || by rewrite <- Hraw). apply finished_reports.
  - simpl. destruct (timed_out l) eqn:E; simpl.
    + unfold huawei_step. unfold timed_out in E. rewrite E. apply (finished_reports 100 d).
    + unfold huawei_step at 1. unfold timed_out in E. rewrite E, Hl. apply IH.
Qed.

Lemma huawei_summary_reading_witness :
  let out := "5 packet(s) transmitted, 4 packet(s) received, 20% packet loss" in
  reports (parseHuaweiOutput out ∅) 0.
Proof.
  intros out. apply (huawei_summary_reading "5 packet(s) transmitted, 4 packet(s) received," 20 "" out []
    out [] ∅); [lia|reflexivity..|constructor].
Defined.

(** ** H3C Comware *)

Fixpoint all_chars (P : ascii → bool) (s : string) : bool :=
  match s with
  | EmptyString => true
  | String c s' => P c && all_chars P s'
  end.

Lemma all_chars_app P (a b : string) : all_chars P (a +:+ b) = all_chars P a && all_chars P b.
Proof. induction a as [|c a IH]; [done|]. rewrite string_cons_app. simpl. by rewrite IH, andb_assoc. Qed.

Lemma all_chars_no P c s : P c = false → all_chars P s = true → has_char c s = false.
Proof.
  intros Hc. induction s as [|d s IH]; simpl; [done|]. intros [Hd Hs]%andb_true_iff.
  rewrite (IH Hs), orb_false_r. apply Ascii.eqb_neq. congruence.
Qed.

Lemma span_digits_spec s : (span_digits s).1 +:+ (span_digits s).2 = s ∧ all_chars is_digit (span_digits s).1 = true.
Proof.
  induction s as [|c s [IH1 IH2]]; simpl; [done|]. destruct (is_digit c) eqn:E; simpl; [|done].
  destruct (span_digits s) as [a b]. simpl in *. rewrite string_cons_app, IH1, E. done.
Qed.

Lemma span_digits_stop a c r :
  all_chars is_digit a = true → is_digit c = false → span_digits (a +:+ String c r) = (a, String c r).
Proof.
  intros Ha Hc. induction a as [|d a IH].
  - change ("" +:+ String c r) with (String c r). simpl. by rewrite Hc.
  - simpl in Ha. apply andb_true_iff in Ha as [Hd Ha]. rewrite string_cons_app. simpl. by rewrite Hd, IH.
Qed.

Lemma skip_re_space_spec s : ∃ sp, s = sp +:+ skip_re_space s ∧ all_chars is_re_space sp = true.
Proof.
  induction s as [|c s (sp & IH1 & IH2)]; simpl; [by exists ""|]. destruct (is_re_space c) eqn:E; [|by exists ""].
  exists (String c sp). rewrite string_cons_app, <- IH1. simpl. by rewrite E.
Qed.

Definition is_number_char (c : ascii) : bool := is_digit c || Ascii.eqb c ".".

Lemma number_chars a : all_chars is_digit a = true → all_chars is_number_char a = true.
Proof.
  induction a as [|c a IH]; simpl; [done|]. intros [Hc Ha]%andb_true_iff. unfold is_number_char at 1.
  by rewrite Hc, IH.
Qed.

Lemma match_loss_number s g :
  match_loss s = Some g →
  ∃ num r, s = num +:+ r ∧ all_chars is_number_char num = true ∧ loss_tail r = true.
Proof.
  unfold match_loss. destruct (span_digits s) as [ds r] eqn:Es.
  pose proof (span_digits_spec s) as [Hs Hd]. rewrite Es in Hs, Hd. simpl in Hs, Hd.
  destruct (String.eqb ds ""); [done|].
  assert (Hwhole : ∀ x, (if loss_tail r then Some x else None) = Some g → ∃ num r, s = num +:+ r ∧
    all_chars is_number_char num = true ∧ loss_tail r = true).
  { intros x H. destruct (loss_tail r) eqn:Et; [|done]. exists ds, r.
    split_and!; [done|by apply number_chars|done]. }
  destruct r as [|c r']; [apply Hwhole|].
  destruct (Ascii.eqb_spec c ".") as [->|Hne].
  - destruct (span_digits r') as [fs r''] eqn:Ef.
    pose proof (span_digits_spec r') as [Hs' Hd']. rewrite Ef in Hs', Hd'. simpl in Hs', Hd'.
    destruct (String.eqb fs ""); [apply Hwhole|].
    destruct (loss_tail r'') eqn:Et; [|done]. intros _. exists (ds +:+ String "." fs), r''.
    rewrite all_chars_app. simpl. rewrite !number_chars by done.
    split; [|done]. by rewrite string_app_assoc, string_cons_app, Hs'.
  - destruct c as [[] [] [] [] [] [] [] []]; try apply Hwhole. done.
Qed.

(** A match is a number, spaces, and a percent sign. *)
Lemma match_loss_shape s g :
  match_loss s = Some g →
  ∃ num sp y, s = (num +:+ sp) +:+ String percent y ∧
    all_chars is_number_char num = true ∧ all_chars is_re_space sp = true.
Proof.
  intros (num & r & -> & Hn & Ht)%match_loss_number.
  destruct (skip_re_space_spec r) as (sp & Er & Hsp). unfold loss_tail in Ht.
  destruct (skip_re_space r) as [|c y]; [done|]. cbn [strip_prefix] in Ht.
  destruct (Ascii.eqb_spec "%" c) as [<-|]; [|done].
  exists num, sp, y. split; [|done]. by rewrite Er at 1; rewrite string_app_assoc.
Qed.

Lemma number_not_space c : is_number_char c = true → is_re_space c = false.
Proof. destruct c as [[] [] [] [] [] [] [] []]; done. Qed.

(** A number with a blank before it is not the end of another number. *)
Lemma number_boundary x w num sp :
  w ≠ "" → all_chars is_number_char w = true → all_chars is_number_char num = true →
  all_chars is_re_space sp = true → x +:+ String blank w ≠ num +:+ sp.
Proof.
  intros Hw Haw Hn Hs. revert x. induction num as [|c num IH]; intros x E.
  - change ("" +:+ sp) with sp in E. rewrite <- E, all_chars_app in Hs. simpl in Hs.
    apply andb_true_iff in Hs as [_ Hs]. destruct w as [|c w]; [done|]. simpl in *.
    apply andb_true_iff in Haw as [Hc%number_not_space _]. by rewrite Hc in Hs.
  - simpl in Hn. apply andb_true_iff in Hn as [Hc Hn]. rewrite string_cons_app in E.
    destruct x as [|d x].
    + change ("" +:+ String blank w) with (String blank w) in E. injection E as <- _. done.
    + rewrite string_cons_app in E. injection E as _ E. by apply (IH Hn x).
Qed.

Lemma match_loss_no_percent s : has_char percent s = false → match_loss s = None.
Proof.
  intros Hs. destruct (match_loss s) eqn:E; [|done].
  apply match_loss_shape in E as (num & sp & y & -> & _ & _). rewrite !has_char_app in Hs. simpl in Hs.
  by rewrite !orb_true_r in Hs.
Qed.

Lemma find_loss_no_percent s : has_char percent s = false → find_loss s = None.
Proof.
  induction s as [|c s IH]; intros Hs; cbn [find_loss]; rewrite match_loss_no_percent by done; [done|].
  simpl in Hs. apply orb_false_iff in Hs as [_ Hs]. by apply IH.
Qed.

(** A search for the leftmost match of a matcher that wants a number before a
    percent sign starts, in a line with one percent sign, at the last word before it. *)
Lemma find_skip {X} (m f : string → option X) u w y :
  (∀ s, f s = match m s with
              | Some g => Some g
              | None => match s with EmptyString => None | String _ s' => f s' end
              end) →
  (∀ s g, m s = Some g → ∃ num sp y, s = (num +:+ sp) +:+ String percent y ∧
     all_chars is_number_char num = true ∧ all_chars is_re_space sp = true) →
  w ≠ "" → all_chars is_number_char w = true → has_char percent u = false →
  f (u +:+ String blank (w +:+ String percent y)) = f (w +:+ String percent y).
Proof.
  intros Hf Hm Hw Haw.
  assert (Hmiss : ∀ u, has_char percent u = false → m (u +:+ String blank (w +:+ String percent y)) = None).
  { intros v Hv. destruct (m _) eqn:E; [exfalso|done].
    apply Hm in E as (num & sp & y' & E & Hn & Hs).
    replace (v +:+ String blank (w +:+ String percent y)) with ((v +:+ String blank w) +:+ String percent y) in E
      by by rewrite string_app_assoc.
    apply first_split in E as [E _].
    - by apply (number_boundary v w num sp).
    - rewrite has_char_app, Hv. simpl. by apply (all_chars_no is_number_char).
    - rewrite has_char_app. rewrite (all_chars_no is_number_char _ num) by done.
      by rewrite (all_chars_no is_re_space _ sp). }
  induction u as [|c u IH]; intros Hu; rewrite Hf, Hmiss by done; [reflexivity|].
  rewrite string_cons_app. apply IH. simpl in Hu. by apply orb_false_iff in Hu as [_ Hu].
Qed.

Lemma find_loss_skip u w y :
  w ≠ "" → all_chars is_number_char w = true → has_char percent u = false →
  find_loss (u +:+ String blank (w +:+ String percent y)) = find_loss (w +:+ String percent y).
Proof. apply (find_skip match_loss); [by destruct s|apply match_loss_shape]. Qed.

(** [n.k] as the devices print it. *)
Definition decimal (n k : Z) : string := itoa n +:+ "." +:+ itoa k.

Definition h3c_check (n k : Z) : bool :=
  all_chars is_digit (itoa n) && all_chars is_digit (itoa k) &&
  negb (String.eqb (itoa n) "") && negb (String.eqb (itoa k) "") &&
  match parse_decimal (itoa n, itoa k) with Some f => clamp_loss f =? n | None => false end.

Lemma h3c_checked : forallb (λ n, forallb (h3c_check n) (seqZ 0 100)) (seqZ 0 101) = true.
Proof. vm_compute. reflexivity. Qed.

Lemma find_loss_decimal n k u t :
  0 ≤ n ≤ 100 → 0 ≤ k ≤ 99 → has_char percent u = false →
  ∃ f, find_loss (loss_line u (decimal n k) t) = Some (itoa n, itoa k) ∧
       parse_decimal (itoa n, itoa k) = Some f ∧ clamp_loss f = n.
Proof.
  intros Hn Hk Hu. pose proof (range_check _ 100 h3c_checked n Hn) as Hc.
  apply (range_check _ 99) with (n := k) in Hc; [|done]. unfold h3c_check in Hc.
  rewrite !andb_true_iff in Hc. destruct Hc as [[[[H1 H2] H3] H4] H5].
  apply negb_true_iff in H3, H4. destruct (parse_decimal _) as [f|]; [|done]. apply Z.eqb_eq in H5.
  exists f. split; [|done]. unfold loss_line. rewrite find_loss_skip; [| | |done].
  - assert (Hm : match_loss (decimal n k +:+ String percent (" packet loss" +:+ t)) = Some (itoa n, itoa k)).
    { unfold decimal. rewrite !string_app_assoc.
      change ("." +:+ ?x) with (String "." x). unfold match_loss.
      rewrite span_digits_stop by done. rewrite H3, span_digits_stop by done. by rewrite H4. }
    destruct (decimal n k +:+ _); cbn [find_loss]; by rewrite Hm.
  - unfold decimal. destruct (itoa n); [done|]. by rewrite string_cons_app.
  - unfold decimal. rewrite !all_chars_app. change (all_chars is_number_char ".") with true. by rewrite !number_chars.
Qed.

Lemma h3c_reports u n k t output pre raw post d :
  0 ≤ n ≤ 100 → 0 ≤ k ≤ 99 → has_char percent u = false →
  split_lines output = (pre ++ raw :: post)%list →
  raw = loss_line u (decimal n k) t →
  Forall (λ l, has_char percent l = false) pre →
  reports (parseH3COutput output d) n.
Proof.
  intros Hn Hk Hu Ho Hraw Hpre. unfold parseH3COutput. cbv zeta. rewrite Ho.
  destruct (find_loss_decimal n k u t Hn Hk Hu) as (f & Hf & Hp & Hc).
  assert (Hs : h3c_summary (pre ++ raw :: post) = Some (Some f)).
  { clear Ho. induction Hpre as [|l pre Hl Hpre IH]; simpl.
    - by rewrite Hraw, Hf, Hp.
    - by rewrite find_loss_no_percent. }
  rewrite Hs, Hc.
  pose proof (finished_reports n d) as (H1 & H2 & H3 & H4). unfold finished in *. simpl in *.
  destruct (find_first _ _); [|by split_and!]. unfold reports. simpl. by rewrite !lookup_insert_ne.
Qed.

(** On H3C Comware the printed loss [n.k] percent of the first line with a
    percentage is reported as [n], for every [n] up to 100. *)
Theorem h3c_summary_reading u n k t output pre raw post d :
  0 ≤ n ≤ 100 → 0 ≤ k ≤ 99 → has_char percent u = false →
  split_lines output = (pre ++ raw :: post)%list →
  raw = loss_line u (decimal n k) t →
  Forall (λ l, has_char percent l = false) pre →
  reports (parseH3COutput output d) n.
Proof. apply h3c_reports. Qed.

Lemma h3c_summary_reading_witness :
  let out := "Ping 10.1.1.1: 56 data bytes" +:+ String newline
             "5 packet(s) transmitted, 0 packet(s) received, 100.0% packet loss" in
  reports (parseH3COutput out ∅) 100.
Proof.
  intros out. apply (h3c_summary_reading "5 packet(s) transmitted, 0 packet(s) received," 100 0 "" out
    ["Ping 10.1.1.1: 56 data bytes"] "5 packet(s) transmitted, 0 packet(s) received, 100.0% packet loss" [] ∅);
    [lia|lia|reflexivity..|repeat constructor].
Defined.

(** ** What every parser leaves *)

(** A parse is consistent: success means the check is finished, failure that the
    result could not be parsed; a reported loss comes with its success rate. *)
Definition consistent (d : data) (r : data * bool) : Prop :=
  r.1 !! "status" = Some (VStr (if r.2 then StatusCheckFinished else StatusParseFailed)) ∧
  ((r.1 !! "packet_loss" = d !! "packet_loss" ∧ r.1 !! "success_rate" = d !! "success_rate") ∨
   ∃ loss rate, r.1 !! "packet_loss" = Some (VInt loss) ∧ r.1 !! "success_rate" = Some (VInt rate) ∧
     in_int64 loss ∧ rate = hundred_minus loss ∧ r.2 = true).

Lemma consistent_status d s (ok : bool) :
  s = (if ok then StatusCheckFinished else StatusParseFailed) → consistent d (set_status s d, ok).
Proof.
  intros ->. unfold consistent, set_status. simpl. split; [by simplify_map_eq|]. left.
  by rewrite !lookup_insert_ne.
Qed.

Lemma consistent_failed d : consistent d (failed d).
Proof. by apply consistent_status. Qed.

Lemma consistent_finished d loss rate :
  in_int64 loss → rate = hundred_minus loss → consistent d (finished loss rate d).
Proof.
  intros Hl ->. unfold consistent, finished, set_status, set_rates. simpl.
  split; [by simplify_map_eq|]. right. exists loss, (hundred_minus loss). by simplify_map_eq.
Qed.

Lemma consistent_agree d d' r : agree d d' → consistent d' r → consistent d r.
Proof.
  intros (Hp & Hr & _) [Hs H]. split; [done|]. destruct H as [[-> ->]|H]; [left; by rewrite Hp, Hr|by right].
Qed.

#[local] Hint Resolve consistent_failed consistent_status : ddl.

Lemma scan_consistent step ls d :
  quiet step → (∀ l d r, step l d = inr r → consistent d r) → consistent d (scan step ls d).
Proof.
  intros Hq Hs. revert d. induction ls as [|l ls IH]; intros d; simpl; [apply consistent_failed|].
  destruct (step _ _) as [d'|r] eqn:E; [|by eapply Hs].
  eapply consistent_agree; [by eapply Hq|apply IH].
Qed.

Ltac consistent_cases :=
  repeat match goal with
  | |- consistent _ (if ?b then _ else _) => destruct b
  | |- consistent _ (match ?x with _ => _ end) => let E := fresh "E" in destruct x eqn:E
  end;
  first [ apply consistent_failed | by apply consistent_status
        | apply consistent_finished; [by eauto using atoi_range with ddl|]; reflexivity ].

Lemma cisco_consistent l d r : cisco_step l d = inr r → consistent d r.
Proof.
  unfold cisco_step. destruct (contains l _); [|done]. intros [= <-].
  destruct (contains l "100 percent"); [by apply consistent_finished|].
  destruct (contains l "0 percent"); [by apply consistent_finished|].
  destruct (before_percent _ _); [|by apply consistent_status].
  destruct (atoi _) as [rate|] eqn:E; [|apply consistent_failed].
  apply consistent_finished; [apply wrap64_range|]. by rewrite hundred_minus_inv by by eapply atoi_range.
Qed.

Lemma nxos_consistent l d r : nxos_step l d = inr r → consistent d r.
Proof. unfold nxos_step. destruct (contains l _); [|done]. intros [= <-]. cbv zeta. consistent_cases. Qed.

Lemma huawei_consistent l d r : huawei_step l d = inr r → consistent d r.
Proof.
  unfold huawei_step. destruct (contains (to_lower l) _); [intros [= <-]; by apply consistent_finished|].
  destruct (contains l _); [|done]. intros [= <-]. cbv zeta. consistent_cases.
Qed.

Lemma clamp_loss_range f : in_int64 (clamp_loss f).
Proof. unfold clamp_loss. case_tests; [done..|apply truncate_range]. Qed.

Lemma parser_consistent p output d :
  consistent d (parser p output d).
Proof.
  unfold parser. case_tests.
  - apply scan_consistent; [apply cisco_quiet|apply cisco_consistent].
  - apply scan_consistent; [apply cisco_quiet|apply cisco_consistent].
  - apply scan_consistent; [apply nxos_quiet|apply nxos_consistent].
  - apply scan_consistent; [apply huawei_quiet|apply huawei_consistent].
  - unfold parseH3COutput. cbv zeta. destruct (h3c_summary _) as [[f|]|]; [|apply consistent_failed..].
    pose proof (consistent_finished d _ _ (clamp_loss_range f) eq_refl) as [Hs Hc].
    destruct (find_first _ _); [|done]. split; simpl; by rewrite !lookup_insert_ne.
  - unfold parseGenericOutput. cbv zeta. consistent_cases.
Qed.

(** C24: whatever the platform and the output, a parser reports the check as
    finished exactly when it succeeds, and a loss never without the success rate
    that complements it; a parse that fails leaves the entries alone. *)
Theorem parsers_consistent p output d :
  let '(d', ok) := parser p output d in
  d' !! "status" = Some (VStr (if ok then StatusCheckFinished else StatusParseFailed)) ∧
  ((d' !! "packet_loss" = d !! "packet_loss" ∧ d' !! "success_rate" = d !! "success_rate") ∨
   (ok = true ∧ ∃ loss, d' !! "packet_loss" = Some (VInt loss) ∧
     d' !! "success_rate" = Some (VInt (hundred_minus loss)))).
Proof.
  destruct (parser_consistent p output d) as [Hs Hc]. destruct (parser p output d) as [d' ok]. simpl in *.
  split; [done|]. destruct Hc as [Hc|(loss & rate & H1 & H2 & _ & -> & H3)]; [by left|right; eauto].
Qed.

(** ** Commands *)

Definition known_platform (p : string) : bool :=
  is_cisco p || String.eqb p PlatformHuaweiVRP || String.eqb p PlatformH3CComware.

Definition known_command_type (ct : string) : bool :=
  String.eqb ct CommandTypeCommands || String.eqb ct CommandTypeInteractiveEvent.

Lemma int_param_ok params k d e : check_repeat params = None → k = "repeat" → ∃ z, int_param params k d e = Ret z.
Proof.
  unfold check_repeat, int_param. intros H ->. destruct (params !! "repeat") as [[]|]; try done; eauto.
Qed.

Lemma dur_param_ok params k d e : check_timeout params = None → k = "timeout" → ∃ z, dur_param params k d e = Ret z.
Proof.
  unfold check_timeout, dur_param. intros H ->. destruct (params !! "timeout") as [[]|]; try done; eauto.
Qed.

(** C35: with validated parameters a command is built exactly for the known
    platforms and command types, and it has the command type asked for. *)
Theorem validated_command_builds ctx :
  PingTask_ValidateParams (Params ctx) = None →
  match PingTask_BuildCommand ctx with
  | Ret c => known_platform (Platform ctx) = true ∧ known_command_type (CommandType ctx) = true ∧
             cmd_Type c = CommandType ctx
  | Fail _ => known_platform (Platform ctx) && known_command_type (CommandType ctx) = false
  | Panic _ => False
  end.
Proof.
  intros Hv. unfold PingTask_ValidateParams in Hv.
  destruct (check_target_ip _) eqn:Et; [done|]. destruct (check_repeat _) eqn:Er; [done|].
  destruct (check_timeout _) eqn:Ed; [done|]. unfold PingTask_BuildCommand.
  destruct (int_param_ok _ "repeat" 5 "repeat must be integer" Er eq_refl) as [r ->].
  destruct (dur_param_ok _ "timeout" (2 * Second) "timeout must be time.Duration" Ed eq_refl) as [t ->].
  unfold check_target_ip in Et. destruct (Params ctx !! "target_ip") as [[]|]; try done. simpl.
  unfold known_platform, known_command_type.
  destruct (String.eqb_spec (CommandType ctx) CommandTypeCommands) as [->|];
    [|destruct (String.eqb_spec (CommandType ctx) CommandTypeInteractiveEvent) as [->|]];
    destruct (is_cisco _), (String.eqb (Platform ctx) PlatformHuaweiVRP),
      (String.eqb (Platform ctx) PlatformH3CComware); done.
Qed.

Lemma validated_command_builds_witness :
  let ctx := mk_task_context "ping" PlatformH3CComware ProtocolScrapli CommandTypeCommands
    (<["target_ip" := VStr "10.0.0.1"]> (<["repeat" := VInt 3]> ∅)) None in
  match PingTask_BuildCommand ctx with
  | Ret c => known_platform (Platform ctx) = true ∧ known_command_type (CommandType ctx) = true ∧
             cmd_Type c = CommandType ctx
  | Fail _ => known_platform (Platform ctx) && known_command_type (CommandType ctx) = false
  | Panic _ => False
  end.
Proof. intros ctx. apply (validated_command_builds ctx). reflexivity. Defined.
