(* ===== verification/Executor.v ===== *)
(** * Executor: running a task on a connection ([src/task/executor.go])

    An [ExecutorFunc] runs a task in a world: the clock, the connection it uses
    and what its middlewares have logged and measured. The core validates,
    builds the command, has the driver execute it and parses the answer; a
    middleware wraps such a function. The driver is the interface
    [ProtocolDriver] of the code, here a class. *)
From S2P Require Import Prelude GoStrings GoFloat GoContext Types Task Ping PingParse.
Local Open Scope string_scope.
Local Open Scope Z_scope.

(** [type ProtocolDriver interface] ([src/connection/interfaces.go]), the methods
    the executor uses. [Execute] gets the context, the command and the time; it
    gives back the driver, the time it took and the raw data or the error. *)
Class ProtocolDriver (D : Type) := {
  GetCapability : D → ProtocolCapability;
  drv_Execute : option Context → Command → Z → D → D * Z * (string + string) }.

Record World (D : Type) := mk_world {
  now : Z;
  driver : D;
  logged : list (string * string);
  measured : list (string * string * bool * Z) }.
Arguments mk_world {D}.
Arguments now {D}.
Arguments driver {D}.
Arguments logged {D}.
Arguments measured {D}.

(** [fmt] of a list of strings with [%v]. *)
Fixpoint words (l : list string) : string :=
  match l with
  | [] => ""
  | [x] => x
  | x :: l => x +:+ " " +:+ words l
  end.

Definition validateCapability (caps : ProtocolCapability) (ctx : TaskContext) : option string :=
  if negb (existsb (String.eqb (Platform ctx)) (Types.PlatformSupport caps)) then
    Some ("platform " +:+ Platform ctx +:+ " not supported (supported: [" +:+
          words (Types.PlatformSupport caps) +:+ "])")
  else if negb (SupportsCommandType caps (CommandType ctx)) then
    Some ("command type " +:+ CommandType ctx +:+ " not supported")
  else None.

Section executor.
Context {D : Type} `{ProtocolDriver D}.

(** The result and the error; [Panic] ends the program. *)
Definition ExecutorFunc : Type := Task → TaskContext → World D → World D * outcome (Result * option string).
Definition Middleware : Type := ExecutorFunc → ExecutorFunc.

Definition exec_error (status msg : string) : outcome (Result * option string) :=
  Ret (mk_result false (status_only status) msg, Some msg).

(** The status of an error of the driver. *)
Definition failure_status (ctx : TaskContext) (t : Z) (msg : string) : string :=
  let timed_out := match Ctx ctx with
                   | Some c => match ctx_Err c t with Some DeadlineExceeded => true | _ => false end
                   | None => false
                   end in
  let low := to_lower msg in
  if timed_out then StatusCheckTimeout
  else if contains low "connection" || contains low "connect" || contains low "timeout"
  then StatusConnectionError
  else StatusExecutionError.

Definition ensure_status (s : string) (r : Result) : Result :=
  match Data r !! "status" with
  | Some _ => r
  | None => { r with Data ::= <["status" := VStr s]> }
  end.

Definition pass_time (d : Z) (w : World D) : World D := { w with now ::= Z.add (Z.max 0 d) }.

Definition call_driver (ctx : TaskContext) (cmd : Command) (w : World D) : World D * (string + string) :=
  let '(drv, t, r) := drv_Execute (Ctx ctx) cmd (now w) (driver w) in
  (pass_time t { w with driver := drv }, r).

(** The function [core] of [NewExecutor]. *)
Definition core : ExecutorFunc := λ task ctx w,
  match ValidateParams task (Params ctx) with
  | Some e => (w, exec_error StatusExecutionError e)
  | None =>
      match validateCapability (GetCapability (driver w)) ctx with
      | Some e => (w, exec_error StatusConnectionError e)
      | None =>
          match BuildCommand task ctx with
          | Panic p => (w, Panic p)
          | Fail e => (w, exec_error StatusExecutionError e)
          | Ret cmd =>
              match Payload cmd with
              | OtherPayload => (w, exec_error StatusExecutionError "unsupported payload type")
              | _ =>
                  let '(w, r) := call_driver ctx cmd w in
                  match r with
                  | inr e => (w, exec_error (failure_status ctx (now w) e) e)
                  | inl raw =>
                      let '(res, err) := ParseOutput task ctx (VBytes raw) in
                      match err with
                      | Some _ => (w, Ret (ensure_status StatusParseFailed res, err))
                      | None => (w, Ret (res, err))
                      end
                  end
              end
          end
      end
  end.

(** [coreExecute], which nothing calls: [core] without its two checks, and with a
    status for every result. *)
Definition coreExecute (conn_nil : bool) : ExecutorFunc := λ task ctx w,
  if conn_nil then (w, Ret (mk_result false ∅ "connection driver is nil", Some "connection driver is nil"))
  else
    match BuildCommand task ctx with
    | Panic p => (w, Panic p)
    | Fail e => (w, exec_error StatusExecutionError e)
    | Ret cmd =>
        match Payload cmd with
        | OtherPayload => (w, exec_error StatusExecutionError "unsupported payload type")
        | _ =>
            let '(w, r) := call_driver ctx cmd w in
            match r with
            | inr e => (w, exec_error (failure_status ctx (now w) e) e)
            | inl raw =>
                let '(res, err) := ParseOutput task ctx (VBytes raw) in
                (w, Ret (ensure_status (match err with
                                        | Some _ => StatusParseFailed
                                        | None => if Success res then StatusCheckFinished else StatusExecutionError
                                        end) res, err))
            end
        end
    end.

(** ** Middlewares *)

Definition WithTimeout (d : Z) : Middleware := λ next task ctx w,
  match Ctx ctx with
  | None => (w, Panic "cannot create context from nil parent")
  | Some c => next task (WithContext ctx (with_timeout c (now w) d)) w
  end.

Definition WithSmartTimeout (defaultTimeout : Z) : Middleware :=
  WithTimeout (if defaultTimeout =? 0 then 60 * Second else defaultTimeout).

Definition succeeded (r : Result) (err : option string) : bool :=
  match err with None => Success r | Some _ => false end.

(** The loop of both retry middlewares; [pause] is what happens between attempt
    [attempt] and the next, and whether the loop goes on. *)
Fixpoint retry_loop (pause : Z → World D → World D * outcome bool) (next : World D → World D * outcome (Result * option string))
    (maxRetries : Z) (attempts : nat) (attempt : Z) (last : Result * option string) (w : World D)
    : World D * outcome (Result * option string) :=
  match attempts with
  | O => (w, Ret last)
  | S attempts =>
      match next w with
      | (w, Ret (res, err)) =>
          if succeeded res err then (w, Ret (res, None))
          else if attempt <? maxRetries then
            match pause attempt w with
            | (w, Ret true) => retry_loop pause next maxRetries attempts (attempt + 1) (res, err) w
            | (w, Ret false) => (w, Ret (res, err))
            | (w, Fail e) => (w, Fail e)
            | (w, Panic p) => (w, Panic p)
            end
          else retry_loop pause next maxRetries attempts (attempt + 1) (res, err) w
      | r => r
      end
  end.

Definition zero_result : Result * option string := (mk_result false ∅ "", None).

(** [time.Sleep] *)
Definition sleep (d : Z) (_ : Z) (w : World D) : World D * outcome bool := (pass_time d w, Ret true).

Definition WithRetry (maxRetries delay : Z) : Middleware := λ next task ctx,
  retry_loop (sleep delay) (next task ctx) maxRetries (Z.to_nat (wrap64 (1 + maxRetries))) 0 zero_result.

(** [math.Pow], and which case of a [select] is taken when both are ready. *)
Context (math_pow : float64 → float64 → float64) (done_first : bool).

Definition backoff_delay (baseDelay : Z) (backoffFactor : float64) (attempt : Z) : Z :=
  truncate (fmul (of_int baseDelay) (math_pow backoffFactor (of_int attempt))).

(** [select] between [ctx.Ctx.Done()] and [time.After(delay)]. *)
Definition wait_or_done (c : option Context) (delay : Z) (w : World D) : World D * outcome bool :=
  match c with
  | None => (w, Panic "invalid memory address or nil pointer dereference")
  | Some c =>
      let timer := now w + Z.max 0 delay in
      match ctx_end c with
      | Some t =>
          if (t <? timer) || ((t =? timer) && done_first)
          then ({ w with now ::= Z.max t }, Ret false)
          else ({ w with now := timer }, Ret true)
      | None => ({ w with now := timer }, Ret true)
      end
  end.

Definition WithExponentialRetry (maxRetries baseDelay : Z) (backoffFactor : float64) : Middleware := λ next task ctx,
  retry_loop (λ attempt, wait_or_done (Ctx ctx) (backoff_delay baseDelay backoffFactor attempt))
    (next task ctx) maxRetries (Z.to_nat (wrap64 (1 + maxRetries))) 0 zero_result.

(** Durations in messages are formatted by [fmt]. *)
Context (show_duration : Z → string).

Definition log (level msg : string) (w : World D) : World D := { w with logged ::= (.++ [(level, msg)]) }.

Definition WithLogging : Middleware := λ next task ctx w,
  let start := now w in
  let w := log "INFO" ("Starting task " +:+ TaskType ctx +:+ " for platform " +:+ Platform ctx) w in
  match next task ctx w with
  | (w, Ret (res, err)) =>
      let d := show_duration (now w - start) in
      let w := match err with
               | Some e => log "ERROR" ("Task " +:+ TaskType ctx +:+ " failed after " +:+ d +:+ ": " +:+ e) w
               | None =>
                   if Success res
                   then log "INFO" ("Completed task " +:+ TaskType ctx +:+ " successfully in " +:+ d) w
                   else log "WARN" ("Task " +:+ TaskType ctx +:+ " completed with failure in " +:+ d +:+ ": " +:+ Error res) w
               end in
      (w, Ret (res, err))
  | r => r
  end.

Definition WithMetrics : Middleware := λ next task ctx w,
  let start := now w in
  match next task ctx w with
  | (w, Ret (res, err)) =>
      ({ w with measured ::= (.++ [(TaskType ctx, Platform ctx, succeeded res err, now w - start)]) }, Ret (res, err))
  | r => r
  end.

(** [NewExecutor]: the first middleware of the list is the outermost. *)
Definition NewExecutor (middlewares : list Middleware) : ExecutorFunc := foldr (λ m f, m f) core middlewares.

(** [Execute]: the result is also handed to the callback. *)
Definition Execute (e : ExecutorFunc) (callback : option (Result → option string → World D → World D)) : ExecutorFunc :=
  λ task ctx w,
  match e task ctx w with
  | (w, Ret (res, err)) => (match callback with Some cb => cb res err w | None => w end, Ret (res, err))
  | r => r
  end.
End executor.
Arguments ExecutorFunc : clear implicits.
Arguments Middleware : clear implicits.

(** ** Retries *)
Section retries.
Context {D : Type} `{ProtocolDriver D}.
Context (math_pow : float64 → float64 → float64) (done_first : bool).
Implicit Types (w : World D) (next : World D → World D * outcome (Result * option string)).
Implicit Types (pause : Z → World D → World D * outcome bool).

(** The world in which attempt [a + k] is made, the first being attempt [a]. *)
Fixpoint before pause next (a : Z) (k : nat) w : World D :=
  match k with
  | O => w
  | S k => before pause next (a + 1) k (pause a (next w).1).1
  end.

Definition attempt_ok (r : outcome (Result * option string)) : bool :=
  match r with Ret (res, err) => succeeded res err | _ => false end.

Lemma retry_loop_step pause next n rest a last w :
  is_ret (next w).2 = true → a ≤ n → (∀ a w, is_ret (pause a w).2 = true) →
  retry_loop pause next n (S rest) a last w =
    if attempt_ok (next w).2 then next w
    else if a <? n then
      match (pause a (next w).1).2 with
      | Ret true => retry_loop pause next n rest (a + 1)
                      (match (next w).2 with Ret r => r | _ => last end) (pause a (next w).1).1
      | _ => ((pause a (next w).1).1, (next w).2)
      end
    else retry_loop pause next n rest (a + 1) (match (next w).2 with Ret r => r | _ => last end) (next w).1.
Proof.
  intros Hn Ha Hp. simpl. destruct (next w) as [w1 [[res err]| |]] eqn:E; try done. simpl.
  destruct (succeeded res err) eqn:Es.
  - unfold succeeded in Es. by destruct err.
  - destruct (a <? n); [|done]. specialize (Hp a w1). by destruct (pause a w1) as [w2 [[]| |]].
Qed.

Lemma retry_loop_spec pause next n :
  (∀ w, is_ret (next w).2 = true) → (∀ a w, is_ret (pause a w).2 = true) →
  ∀ rest a last w, a ≤ n → Z.of_nat rest = n - a →
  ∃ k : nat, a + Z.of_nat k ≤ n ∧
    (∀ j, (j < k)%nat → attempt_ok (next (before pause next a j w)).2 = false ∧
       (pause (a + Z.of_nat j) (next (before pause next a j w)).1).2 = Ret true) ∧
    (attempt_ok (next (before pause next a k w)).2 = true ∨ a + Z.of_nat k = n ∨
     (pause (a + Z.of_nat k) (next (before pause next a k w)).1).2 = Ret false) ∧
    (retry_loop pause next n (S rest) a last w).2 = (next (before pause next a k w)).2.
Proof.
  intros Hn Hp. induction rest as [|rest IH]; intros a last w Ha Hr; rewrite retry_loop_step by done.
  - exists 0%nat. split_and!; [lia|lia|right; left; lia|]. simpl.
    destruct (attempt_ok _); [done|]. replace (a <? n) with false by (symmetry; apply Z.ltb_ge; lia).
    simpl. specialize (Hn w). by destruct (next w) as [w1 []].
  - destruct (attempt_ok (next w).2) eqn:Eok.
    { exists 0%nat. split_and!; [lia|lia|by left|done]. }
    replace (a <? n) with true by (symmetry; apply Z.ltb_lt; lia).
    pose proof (Hp a (next w).1) as Hpa.
    destruct (pause a (next w).1) as [w2 o] eqn:Epause. cbn [fst snd] in Hpa |- *. destruct o as [go| |]; try done.
    assert (E2 : (pause a (next w).1).2 = Ret go) by by rewrite Epause.
    destruct go.
    + destruct (IH (a + 1) (match (next w).2 with Ret r => r | _ => last end) w2)
        as (k & H1 & H2 & H3 & H4); [lia|lia|].
      exists (S k). cbn [before]. rewrite Epause. cbn [fst].
      replace (a + Z.of_nat (S k)) with (a + 1 + Z.of_nat k) by lia.
      split; [lia|]. split; [|split; [exact H3|exact H4]]. intros [|j] Hj; cbn [before].
      * by replace (a + Z.of_nat 0) with a by lia.
      * rewrite Epause. cbn [fst]. replace (a + Z.of_nat (S j)) with (a + 1 + Z.of_nat j) by lia.
        apply H2. lia.
    + exists 0%nat. simpl. replace (a + Z.of_nat 0) with a by lia. split_and!; [lia|lia|auto|done].
Qed.

Lemma wait_or_done_ret c d w : is_ret (wait_or_done done_first (Some c) d w).2 = true.
Proof. simpl. destruct (ctx_end c); [case_tests|]; done. Qed.

(** With [maxRetries] retries the exponential retry makes attempts 0, 1, ...
    each in the world the one before and its back-off left, up to the first
    success, the last allowed attempt or the first back-off the end of the
    context cuts short, and answers what that attempt answered: never more than
    [1 + maxRetries] attempts and never fewer than one. *)
Theorem WithExponentialRetry_spec n base factor (next : ExecutorFunc D) task ctx c w :
  0 ≤ n < max_int64 → Ctx ctx = Some c → (∀ w, is_ret (next task ctx w).2 = true) →
  let pause a := wait_or_done done_first (Ctx ctx) (backoff_delay math_pow base factor a) in
  let try k := next task ctx (before pause (next task ctx) 0 k w) in
  ∃ k, Z.of_nat k ≤ n ∧
    (∀ j, (j < k)%nat → attempt_ok (try j).2 = false ∧ (pause (Z.of_nat j) (try j).1).2 = Ret true) ∧
    (attempt_ok (try k).2 = true ∨ Z.of_nat k = n ∨ (pause (Z.of_nat k) (try k).1).2 = Ret false) ∧
    (WithExponentialRetry math_pow done_first n base factor next task ctx w).2 = (try k).2.
Proof.
  intros Hn Hc Hnext pause try. unfold WithExponentialRetry.
  replace (Z.to_nat (wrap64 (1 + n))) with (S (Z.to_nat n))
    by (rewrite wrap64_id; unfold in_int64, min_int64, max_int64 in *; lia).
  apply (retry_loop_spec pause (next task ctx) n Hnext) with (a := 0); [|lia|lia].
  intros a w'. unfold pause. rewrite Hc. apply wait_or_done_ret.
Qed.
End retries.

(** ** The calls the driver gets *)

(** A driver that also keeps the calls it got. *)
#[global] Instance recording {D} `{ProtocolDriver D} : ProtocolDriver (D * list (option Context * Command)) := {
  GetCapability d := GetCapability d.1;
  drv_Execute c cmd t d :=
    let '(d', dt, r) := drv_Execute c cmd t d.1 in ((d', (d.2 ++ [(c, cmd)])%list), dt, r) }.

Section calls.
Context {D : Type} `{ProtocolDriver D}.
Context (math_pow : float64 → float64 → float64) (done_first : bool).
Local Abbreviation call := (option Context * Command)%type.
Implicit Types (w : World (D * list call)).

Definition calls w : list call := (driver w).2.

(** Between two worlds at most [n] calls were made, all of them as [P] says. *)
Definition made (P : call → Prop) (n : nat) w w' : Prop :=
  ∃ l, calls w' = (calls w ++ l)%list ∧ (length l ≤ n)%nat ∧ Forall P l.

Lemma made_none P n w w' : calls w' = calls w → made P n w w'.
Proof. intros E. exists []. rewrite app_nil_r. split; [done|]. split; [simpl; lia|constructor]. Qed.

Lemma made_trans P n m w1 w2 w3 : made P n w1 w2 → made P m w2 w3 → made P (n + m) w1 w3.
Proof.
  intros (l1 & E1 & L1 & F1) (l2 & E2 & L2 & F2). exists (l1 ++ l2)%list.
  rewrite E2, E1, length_app, Forall_app, app_assoc. repeat split; [lia|done|done].
Qed.

Lemma made_then P n w w1 w2 w3 : made P 1 w w1 → calls w2 = calls w1 → made P n w2 w3 → made P (S n) w w3.
Proof.
  intros H1 E H2. apply (made_trans P 1 n w w2 w3); [|done]. destruct H1 as (l & ? & ?). exists l. by rewrite E.
Qed.

Lemma made_only P n w w1 w2 : made P 1 w w1 → calls w2 = calls w1 → made P (S n) w w2.
Proof. intros H1 E. eapply made_then; [exact H1|exact E|by apply made_none]. Qed.

Definition call_of (task : Task) (ctx : TaskContext) (k : call) : Prop :=
  k.1 = Ctx ctx ∧ BuildCommand task ctx = Ret k.2.

Lemma core_calls task ctx w : made (call_of task ctx) 1 w (core task ctx w).1.
Proof.
  unfold core. destruct (ValidateParams _ _); [by apply made_none|].
  destruct (validateCapability _ _); [by apply made_none|].
  destruct (BuildCommand task ctx) as [cmd| |] eqn:Ec; [|by apply made_none..].
  assert (Hcall : made (call_of task ctx) 1 w (call_driver ctx cmd w).1).
  { unfold call_driver, made. simpl. destruct (drv_Execute _ _ _ _) as [[d dt] r]. simpl.
    exists [(Ctx ctx, cmd)]. split; [done|]. split; [simpl; lia|]. by repeat constructor. }
  destruct (Payload cmd); [| |by apply made_none];
    (destruct (call_driver ctx cmd w) as [w' [raw|e]]; [|exact Hcall];
     destruct (ParseOutput _ _ _) as [res [err|]]; exact Hcall).
Qed.

Lemma retry_loop_calls P pause next n attempts a last w :
  (∀ w, made P 1 w (next w).1) → (∀ a w, calls (pause a w).1 = calls w) →
  made P attempts w (retry_loop pause next n attempts a last w).1.
Proof.
  intros Hn Hp. revert a last w. induction attempts as [|attempts IH]; intros a last w; simpl; [by apply made_none|].
  pose proof (Hn w) as Hw. destruct (next w) as [w1 [[res err]| |]]; simpl in *; [|by eapply made_only..].
  destruct (succeeded res err); [by eapply made_only|]. destruct (a <? n).
  - pose proof (Hp a w1) as Hpa. destruct (pause a w1) as [w2 [[]| |]]; simpl in *; [|by eapply made_only..].
    by eapply made_then.
  - by eapply made_then.
Qed.

Lemma wait_or_done_calls c d w : calls (wait_or_done done_first c d w).1 = calls w.
Proof. unfold wait_or_done. destruct c; [|done]. destruct (ctx_end _); [case_tests|]; done. Qed.

(** C36: the executor of a router, a time-out around exponential retries, calls
    the driver at most [1 + maxRetries] times for a task, each time with the
    command the task builds and under one deadline, no later than the time-out
    (60 seconds when it is zero) after the start: the retries share it. *)
Theorem executor_calls_bounded timeout n base factor task ctx c w :
  0 ≤ n < max_int64 → Ctx ctx = Some c →
  let limit := if timeout =? 0 then 60 * Second else timeout in
  let e := NewExecutor [WithSmartTimeout timeout; WithExponentialRetry math_pow done_first n base factor] in
  ∃ l c', calls (e task ctx w).1 = (calls w ++ l)%list ∧ Z.of_nat (length l) ≤ 1 + n ∧
    (∃ d, deadline c' = Some d ∧ d ≤ now w + limit) ∧
    Forall (λ k, k.1 = Some c' ∧ BuildCommand task (WithContext ctx c') = Ret k.2) l.
Proof.
  intros Hn Hc limit e. unfold e, NewExecutor, WithSmartTimeout, WithTimeout. simpl. rewrite Hc. fold limit.
  set (c' := with_timeout c (now w) limit).
  destruct (retry_loop_calls (call_of task (WithContext ctx c'))
     (λ a, wait_or_done done_first (Some c') (backoff_delay math_pow base factor a))
     (core task (WithContext ctx c')) n (Z.to_nat (wrap64 (1 + n))) 0 zero_result w) as (l & H1 & H2 & H3).
  - intros w'. apply core_calls.
  - intros a w'. apply wait_or_done_calls.
  - exists l, c'. split; [exact H1|]. split.
    { rewrite wrap64_id in H2; unfold in_int64, min_int64, max_int64 in *; lia. }
    split; [apply with_timeout_deadline|exact H3].
Qed.
End calls.

(** ** The status of a ping *)
Section statuses.
Context {D : Type} `{ProtocolDriver D}.
Context (math_pow : float64 → float64 → float64) (done_first : bool) (show_duration : Z → string).
Implicit Types (w : World D) (m : Middleware D).

Definition ping_statuses : list string :=
  [StatusCheckFinished; StatusCheckTimeout; StatusParseFailed; StatusConnectionError; StatusExecutionError].

(** One of the statuses, "finished" exactly on success, and no success with an error. *)
Definition has_ping_status (r : Result * option string) : Prop :=
  ∃ s, Data r.1 !! "status" = Some (VStr s) ∧ s ∈ ping_statuses ∧
    (Success r.1 = true ↔ s = StatusCheckFinished) ∧ (Success r.1 = true → r.2 = None).

Lemma exec_error_status s msg r w w' :
  s ∈ ping_statuses → s ≠ StatusCheckFinished → (w, exec_error s msg) = (w', Ret r) → has_ping_status r.
Proof.
  intros Hs Hne [= _ <-]. exists s. unfold status_only. simpl. split_and!; [by simplify_map_eq|done|done|done].
Qed.

Lemma failure_status_known ctx t msg :
  failure_status ctx t msg ∈ ping_statuses ∧ failure_status ctx t msg ≠ StatusCheckFinished.
Proof. unfold failure_status. cbv zeta. case_tests; (split; [set_solver|done]). Qed.

Lemma ping_output_status ctx raw : has_ping_status (ParseOutput PingTask ctx (VBytes raw)).
Proof.
  change (has_ping_status (parse_text ctx raw)). unfold parse_text.
  assert (Hfail : ∀ e, has_ping_status (mk_result false (status_only StatusParseFailed) e, Some e)).
  { intros e. exists StatusParseFailed. unfold status_only. simpl.
    split; [by simplify_map_eq|]. split; [set_solver|done]. }
  destruct (Params ctx !! "target_ip") as [[]|]; try apply Hfail.
  pose proof (parser_consistent (Platform ctx) raw {["target_ip" := VStr s; "raw_output" := VStr raw]}) as [Hs _].
  destruct (parser _ _ _) as [d ok]. simpl in *. eexists. split; [exact Hs|].
  destruct ok; (split; [set_solver|done]).
Qed.

Lemma ensure_status_known s r err : has_ping_status (r, err) → ensure_status s r = r.
Proof. intros (s' & Hs & _). unfold ensure_status. simpl in Hs. by rewrite Hs. Qed.

(** For pings the two cores agree where the checks pass. *)
Lemma coreExecute_core ctx w :
  ValidateParams PingTask (Params ctx) = None → validateCapability (GetCapability (driver w)) ctx = None →
  coreExecute false PingTask ctx w = core PingTask ctx w.
Proof.
  intros Hv Hc. unfold coreExecute, core. rewrite Hv, Hc. destruct (BuildCommand PingTask ctx) as [cmd| |]; [|done..].
  destruct (Payload cmd); [| |done]; destruct (call_driver ctx cmd w) as [w1 [raw|e]]; try done;
    pose proof (ping_output_status ctx raw) as Hp; destruct (ParseOutput PingTask ctx (VBytes raw)) as [res err];
    rewrite !(ensure_status_known _ _ _ Hp); by destruct err.
Qed.

(** What every function of the executor keeps. *)
Definition reports_status (e : ExecutorFunc D) : Prop :=
  ∀ ctx w w' r, e PingTask ctx w = (w', Ret r) → has_ping_status r.

Ltac error_status := apply exec_error_status; [set_solver|done].

Lemma core_status : reports_status core.
Proof.
  intros ctx w w' r. unfold core.
  destruct (ValidateParams _ _); [error_status|].
  destruct (validateCapability _ _); [error_status|].
  destruct (BuildCommand PingTask ctx) as [cmd|e|];
    [|error_status|done].
  assert (Hcall : ∀ w1 o, call_driver ctx cmd w = (w1, o) →
    match o with
    | inr e => (w1, exec_error (failure_status ctx (now w1) e) e)
    | inl raw => let '(res, err) := ParseOutput PingTask ctx (VBytes raw) in
                 match err with
                 | Some _ => (w1, Ret (ensure_status StatusParseFailed res, err))
                 | None => (w1, Ret (res, err))
                 end
    end = (w', Ret r) → has_ping_status r).
  { intros w1 [raw|e] _.
    - pose proof (ping_output_status ctx raw) as Hp. destruct (ParseOutput _ _ _) as [res err].
      rewrite (ensure_status_known _ _ _ Hp). destruct err; by intros [= _ <-].
    - destruct (failure_status_known ctx (now w1) e) as [Hk Hne]. by apply exec_error_status. }
  destruct (Payload cmd); [| |error_status];
    (destruct (call_driver ctx cmd w) as [w1 o] eqn:Eo; by apply Hcall).
Qed.

Lemma retry_loop_status pause (next : World D → World D * outcome (Result * option string)) n attempts a last w w' r :
  (∀ w w' r, next w = (w', Ret r) → has_ping_status r) →
  (attempts = O → has_ping_status last) →
  retry_loop pause next n attempts a last w = (w', Ret r) → has_ping_status r.
Proof.
  intros Hn. revert a last w. induction attempts as [|attempts IH]; intros a last w Hl; simpl.
  - intros [= _ <-]. by apply Hl.
  - destruct (next w) as [w1 [[res err]| |]] eqn:E; [|done..]. pose proof (Hn _ _ _ E) as Hr.
    destruct (succeeded res err) eqn:Es.
    + intros [= _ <-]. unfold succeeded in Es. by destruct err.
    + destruct (a <? n); [|by apply IH]. destruct (pause a w1) as [w2 [[]| |]]; [by apply IH| |done..].
      by intros [= _ <-].
Qed.

(** The middlewares of the code, with at least one attempt each. *)
Inductive stock : Middleware D → Prop :=
  | stock_timeout d : stock (WithTimeout d)
  | stock_smart d : stock (WithSmartTimeout d)
  | stock_retry n d : 0 ≤ n < max_int64 → stock (WithRetry n d)
  | stock_exponential n b f : 0 ≤ n < max_int64 → stock (WithExponentialRetry math_pow done_first n b f)
  | stock_logging : stock (WithLogging show_duration)
  | stock_metrics : stock WithMetrics.

Lemma attempts_positive n : 0 ≤ n < max_int64 → Z.to_nat (wrap64 (1 + n)) ≠ O.
Proof. intros Hn. rewrite wrap64_id; unfold in_int64, min_int64, max_int64 in *; lia. Qed.

Lemma timeout_status d (e : ExecutorFunc D) : reports_status e → reports_status (WithTimeout d e).
Proof. intros He ctx w w' r. unfold WithTimeout. destruct (Ctx ctx); [apply He|done]. Qed.

Lemma stock_status m e : stock m → reports_status e → reports_status (m e).
Proof.
  intros Hm He. destruct Hm as [d|d|n d Hn|n b f Hn| |].
  - by apply timeout_status.
  - by apply timeout_status.
  - intros ctx w w' r. apply retry_loop_status; [apply He|]. by intros ?%attempts_positive.
  - intros ctx w w' r. apply retry_loop_status; [apply He|]. by intros ?%attempts_positive.
  - intros ctx w w' r. unfold WithLogging. destruct (e _ _ _) as [w1 [[res err]| |]] eqn:E; [|done..].
    intros [= _ <-]. by eapply He.
  - intros ctx w w' r. unfold WithMetrics. destruct (e _ _ _) as [w1 [[res err]| |]] eqn:E; [|done..].
    intros [= _ <-]. by eapply He.
Qed.

(** Whatever stack of the code's middlewares an executor is built with, a
    ping that is executed ends in a result with one of five statuses; it is
    "CheckFinished" exactly when the result is a success, and an error never
    comes with a success. *)
Theorem ping_results_carry_status ms callback ctx w w' res err :
  Forall stock ms → Execute (NewExecutor ms) callback PingTask ctx w = (w', Ret (res, err)) →
  ∃ s, Data res !! "status" = Some (VStr s) ∧ s ∈ ping_statuses ∧
    (Success res = true ↔ s = StatusCheckFinished) ∧ (Success res = true → err = None).
Proof.
  intros Hms. unfold Execute. destruct (NewExecutor ms _ _ _) as [w1 [[res1 err1]| |]] eqn:E; [|done..].
  intros [= _ <- <-]. change (has_ping_status (res1, err1)).
  assert (He : reports_status (NewExecutor ms)); [|by eapply He].
  clear E. induction Hms as [|m ms Hm Hms IH]; [apply core_status|by apply stock_status].
Qed.
End statuses.

(** ** A scripted driver *)
Module Script.
(** It answers the given texts in turn, each after a second, and then fails. *)
#[global] Instance script : ProtocolDriver (list (string + string)) := {
  GetCapability _ := ScrapliCapability;
  drv_Execute _ _ _ l := (tail l, Second, default (inr "connection reset") (head l)) }.

Definition pow_one (b _ : float64) : float64 := b.
Definition context : TaskContext :=
  mk_task_context "ping" PlatformH3CComware ProtocolScrapli CommandTypeCommands
    {["target_ip" := VStr "10.0.0.1"]} (Some (mk_context None None)).
Definition good_output : string := "5 packet(s) transmitted, 5 packet(s) received, 0.0% packet loss".
Definition world : World (list (string + string)) := mk_world 0 [inr "EOF"; inl good_output] [] [].
End Script.

Lemma WithExponentialRetry_spec_witness :
  let pause a := wait_or_done true (Ctx Script.context) (backoff_delay Script.pow_one Second (of_int 2) a) in
  let next := core PingTask Script.context in
  let try k := next (before pause next 0 k Script.world) in
  ∃ k, Z.of_nat k ≤ 3 ∧
    (∀ j, (j < k)%nat → attempt_ok (try j).2 = false ∧ (pause (Z.of_nat j) (try j).1).2 = Ret true) ∧
    (attempt_ok (try k).2 = true ∨ Z.of_nat k = 3 ∨ (pause (Z.of_nat k) (try k).1).2 = Ret false) ∧
    (WithExponentialRetry Script.pow_one true 3 Second (of_int 2) core PingTask Script.context Script.world).2 = (try k).2.
Proof.
  intros pause next try.
  apply (WithExponentialRetry_spec Script.pow_one true 3 Second (of_int 2) core PingTask Script.context
    (mk_context None None) Script.world); [unfold max_int64; lia|reflexivity|].
  intros [t drv lg ms]. destruct drv as [|[raw|e] drv]; [reflexivity| |reflexivity].
  unfold core. simpl. change (Params Script.context) with ({["target_ip" := VStr "10.0.0.1"]} : data).
  destruct (parse_text Script.context raw) as [res [err|]]; reflexivity.
Defined.

Lemma executor_calls_bounded_witness :
  let w := mk_world 0 ([inr "EOF"; inl Script.good_output], []) [] [] in
  let e := NewExecutor [WithSmartTimeout (60 * Second);
                        WithExponentialRetry Script.pow_one true 1 Second (of_int 2)] in
  ∃ l c', calls (e PingTask Script.context w).1 = (calls w ++ l)%list ∧ Z.of_nat (length l) ≤ 2 ∧
    (∃ d, deadline c' = Some d ∧ d ≤ 0 + 60 * Second) ∧
    Forall (λ k, k.1 = Some c' ∧ BuildCommand PingTask (WithContext Script.context c') = Ret k.2) l.
Proof.
  intros w e. apply (executor_calls_bounded Script.pow_one true (60 * Second) 1 Second (of_int 2) PingTask
    Script.context (mk_context None None) w); [unfold max_int64; lia|reflexivity].
Defined.

Lemma ping_results_carry_status_witness :
  let e := NewExecutor [WithSmartTimeout (60 * Second);
                        WithExponentialRetry Script.pow_one true 1 Second (of_int 2)] in
  match (Execute e None PingTask Script.context Script.world).2 with
  | Ret (res, err) => ∃ s, Data res !! "status" = Some (VStr s) ∧ s ∈ ping_statuses ∧
      (Success res = true ↔ s = StatusCheckFinished) ∧ (Success res = true → err = None)
  | _ => False
  end.
Proof.
  intros e. assert (Hr : is_ret (Execute e None PingTask Script.context Script.world).2 = true)
    by (vm_compute; reflexivity).
  destruct (Execute e None PingTask Script.context Script.world) as [w' [[res err]| |]] eqn:E; [|discriminate Hr..].
  apply (ping_results_carry_status Script.pow_one true (λ _, "") [WithSmartTimeout (60 * Second);
    WithExponentialRetry Script.pow_one true 1 Second (of_int 2)] None Script.context Script.world w'); [|exact E].
  constructor; [apply stock_smart|]. constructor; [|constructor].
  apply stock_exponential. unfold max_int64. lia.
Defined.
