(* ===== verification/Rounds.v ===== *)
(** * Rounds: pinging the lines of a router ([src/task/async_executor.go],
    [executeTasksAsync] and [executeIndividualPing] of [src/manager/router_scheduler.go])

    A queue worker takes the lines of its queue one by one: it takes a token of
    the router's semaphore, a connection of the pool, and submits the ping to the
    asynchronous executor; a worker of the executor runs it and its callback gives
    the connection and the token back. The goroutines interleave at these points;
    an interleaving is a list of actions, each enabled or not. *)
From S2P Require Import Prelude GoStrings Types Lines.
Local Open Scope string_scope.
Local Open Scope nat_scope.

(** ** The asynchronous executor *)
Module Async.

Record AsyncExecutor := mk_async {
  taskChan : list Line;            (* the requests, named by their line *)
  workers : nat;
  free : nat;                      (* workers waiting in their [select] *)
  busy : list Line;                (* requests being executed *)
  stopped : bool;                  (* [stopChan] closed and the context cancelled *)
  closed : bool }.                 (* [taskChan] closed *)

Definition NewAsyncExecutor (n : nat) : AsyncExecutor := mk_async [] n 0 [] false false.
Definition Start (e : AsyncExecutor) : AsyncExecutor := { e with free := workers e }.
Definition capacity (e : AsyncExecutor) : nat := workers e * 10.

(** [Submit] of a request with a connection. When several cases of the [select]
    are ready, [send_first] says whether the send is taken; sending on the closed
    channel panics. The result is the error. *)
Definition Submit (send_first : bool) (e : AsyncExecutor) (l : Line) : outcome (AsyncExecutor * option string) :=
  if closed e then
    if send_first || negb (stopped e) then Panic "send on closed channel" else Ret (e, Some "context canceled")
  else if length (taskChan e) <? capacity e then
    if send_first || negb (stopped e) then Ret ({ e with taskChan ::= (.++ [l]) }, None)
    else Ret (e, Some "context canceled")
  else Ret (e, Some (if stopped e then "context canceled" else "task queue is full")).

(** A waiting worker takes the oldest request. *)
Definition take (e : AsyncExecutor) : option AsyncExecutor :=
  match taskChan e, free e with
  | l :: q, S n => Some { e with taskChan := q; free := n; busy ::= (.++ [l]) }
  | _, _ => None
  end.

(** The [j]-th running request ends; its worker waits again. *)
Definition finish (j : nat) (e : AsyncExecutor) : option (AsyncExecutor * Line) :=
  match busy e !! j with
  | Some l => Some ({ e with busy ::= delete j; free ::= S }, l)
  | None => None
  end.

(** A waiting worker sees the stop signal and returns. *)
Definition exit (e : AsyncExecutor) : option AsyncExecutor :=
  match free e with
  | S n => if stopped e then Some { e with free := n } else None
  | O => None
  end.

(** [Stop] up to [wg.Wait()], and from there on. *)
Definition begin_stop (e : AsyncExecutor) : outcome AsyncExecutor :=
  if stopped e then Panic "close of closed channel" else Ret { e with stopped := true }.
Definition end_stop (e : AsyncExecutor) : option AsyncExecutor :=
  if stopped e && negb (closed e) && (free e =? 0) && (length (busy e) =? 0)
  then Some { e with closed := true } else None.

(** [SubmitWithTimeout]: no default, so it waits until the case that is taken is ready
    ([None]: it is not); [timer] is the expired time-out. *)
Inductive submit_case := SendCase | TimeoutCase | DoneCase.
Definition SubmitWithTimeout (conn_nil : bool) (c : submit_case) (timer : bool) (e : AsyncExecutor) (l : Line)
    : option (outcome (AsyncExecutor * option string)) :=
  if conn_nil then Some (Ret (e, Some "connection driver is nil"))
  else match c with
       | SendCase => if closed e then Some (Panic "send on closed channel")
                     else if length (taskChan e) <? capacity e then Some (Ret ({ e with taskChan ::= (.++ [l]) }, None)) else None
       | TimeoutCase => if timer then Some (Ret (e, Some "submit task timeout")) else None
       | DoneCase => if stopped e then Some (Ret (e, Some "context canceled")) else None
       end.

(** After the time-out some case is ready, and a request is queued exactly when there is
    no error; it waits for ever in no state. *)
Lemma SubmitWithTimeout_answers conn_nil e l :
  (∃ c o, SubmitWithTimeout conn_nil c true e l = Some o) ∧
  (∀ c timer e' err, SubmitWithTimeout conn_nil c timer e l = Some (Ret (e', err)) →
     e' = match err with None => { e with taskChan ::= (.++ [l]) } | Some _ => e end).
Proof.
  split; [by exists TimeoutCase; destruct conn_nil; eexists|]. intros c timer e' err. unfold SubmitWithTimeout.
  destruct conn_nil; [by intros [= <- <-]|]. destruct c; repeat case_match; naive_solver.
Qed.

Definition GetQueueLength (e : AsyncExecutor) : nat := length (taskChan e).
Definition GetWorkerCount (e : AsyncExecutor) : nat := workers e.
End Async.
Import Async.

(** ** The queue workers *)

(** Where a worker is with the first of its lines: waiting for a token, holding
    one, or holding a token and a connection. *)
Inductive stage := Waiting | Held | Connected.
#[global] Instance stage_eq_dec : EqDecision stage.
Proof. solve_decision. Defined.

Record QueueWorker := mk_worker { todo : list Line; at_stage : stage }.

Record Router := mk_run {
  tokens : nat;                    (* taken from [connSemaphore] *)
  out : nat;                       (* connections taken from the pool *)
  pool_workers : list QueueWorker;
  exec : AsyncExecutor;
  ctx_done : bool;                 (* [routerCtx] cancelled *)
  reported : list Line }.          (* results handed to the aggregator *)

Definition new_router (queue_workers : nat) (e : AsyncExecutor) : Router :=
  mk_run 0 0 (replicate queue_workers (mk_worker [] Waiting)) e false [].

Section router.
(** [config.MaxConnections], the capacity of the semaphore. *)
Context (max_conn : nat).

Definition set_worker (i : nat) (w : QueueWorker) (r : Router) : Router := { r with pool_workers ::= <[i := w]> }.

(** [<-s.connSemaphore]: blocks on an empty semaphore. *)
Definition give_token (r : Router) : option Router :=
  match tokens r with S n => Some { r with tokens := n } | O => None end.
(** [s.connection.Release(conn)] *)
Definition release (r : Router) : Router := { r with out ::= pred }.

Inductive action :=
  | Tick (i : nat) (ls : list Line)      (* a round starts with a snapshot *)
  | Token (i : nat)
  | GiveUp (i : nat)                     (* [routerCtx] is done *)
  | Connect (i : nat) (ok : bool)
  | Submit_ping (i : nat) (send_first : bool)
  | Take
  | Finish (j : nat)
  | Exit
  | BeginStop
  | EndStop
  | Cancel.

(** Going on with the next line. *)
Definition next_line (w : QueueWorker) : QueueWorker := mk_worker (tail (todo w)) Waiting.

(** [executeIndividualPing] of worker [i], at the point where it is. *)
Definition worker_step (r : Router) (i : nat) (w : QueueWorker) (a : action) : option (outcome Router) :=
  match todo w, at_stage w, a with
  | [], Waiting, Tick _ ls => Some (Ret (set_worker i (mk_worker ls Waiting) r))
  | l :: _, Waiting, Token _ =>
      if tokens r <? max_conn
      then Some (Ret (set_worker i (mk_worker (todo w) Held) { r with tokens ::= S })) else None
  | l :: _, Waiting, GiveUp _ =>
      if ctx_done r then Some (Ret (set_worker i (next_line w) r)) else None
  | l :: _, Held, GiveUp _ =>
      if ctx_done r then Ret <$> give_token (set_worker i (next_line w) r) else None
  | l :: _, Held, Connect _ ok =>
      if ok then Some (Ret (set_worker i (mk_worker (todo w) Connected) { r with out ::= S }))
      else Ret <$> give_token (set_worker i (next_line w) r)
  | l :: _, Connected, Submit_ping _ send_first =>
      match Submit send_first (exec r) l with
      | Ret (e, None) => Some (Ret (set_worker i (next_line w) { r with exec := e }))
      | Ret (e, Some _) => Ret <$> give_token (release (set_worker i (next_line w) { r with exec := e }))
      | Fail m => Some (Fail m)
      | Panic p => Some (Panic p)
      end
  | _, _, _ => None
  end.

(** The callback of a ping: the connection, the token, the result. *)
Definition callback (r : Router) (l : Line) : option Router :=
  (λ r, { r with reported ::= (.++ [l]) }) <$> give_token (release r).

Definition step (r : Router) (a : action) : option (outcome Router) :=
  let on_worker i := match pool_workers r !! i with Some w => worker_step r i w a | None => None end in
  match a with
  | Tick i _ | Token i | GiveUp i | Connect i _ | Submit_ping i _ => on_worker i
  | Take => (λ e, Ret { r with exec := e }) <$> take (exec r)
  | Finish j => match finish j (exec r) with
                | Some (e, l) => Ret <$> callback { r with exec := e } l
                | None => None
                end
  | Exit => (λ e, Ret { r with exec := e }) <$> exit (exec r)
  | BeginStop => match begin_stop (exec r) with
                 | Ret e => Some (Ret { r with exec := e })
                 | Fail m => Some (Fail m)
                 | Panic p => Some (Panic p)
                 end
  | EndStop => (λ e, Ret { r with exec := e }) <$> end_stop (exec r)
  | Cancel => Some (Ret { r with ctx_done := true })
  end.

(** An interleaving: every action enabled, until one panics. *)
Fixpoint run (r : Router) (l : list action) : option (outcome Router) :=
  match l with
  | [] => Some (Ret r)
  | a :: l => match step r a with
              | Some (Ret r) => run r l
              | o => o
              end
  end.
End router.

(** ** Tokens and connections balance *)
Section balance.
Context (max_conn : nat).
Implicit Types (r : Router) (a : action).

Definition holding (w : QueueWorker) : bool := negb (bool_decide (at_stage w = Waiting)).
Definition connected (w : QueueWorker) : bool := bool_decide (at_stage w = Connected).

(** The pings the executor has accepted and not finished. *)
Definition pending r : nat := length (taskChan (exec r)) + length (busy (exec r)).

Record balanced r : Prop := {
  tokens_max : tokens r ≤ max_conn;
  tokens_held : tokens r = count holding (pool_workers r) + pending r;
  out_held : out r = count connected (pool_workers r) + pending r;
  closed_idle : closed (exec r) = true → stopped (exec r) = true ∧ free (exec r) = 0 ∧ busy (exec r) = [] }.

(** What a step of a queue worker changes. *)
Ltac worker_counts :=
  match goal with
  | H : pool_workers ?r !! ?i = Some ?w |- context [<[?i := ?w']> (pool_workers ?r)] =>
      let E1 := fresh in let E2 := fresh in
      pose proof (count_insert holding _ i w w' H) as E1;
      pose proof (count_insert connected _ i w w' H) as E2
  end.

Ltac balance :=
  split; simpl; [lia|worker_counts; unfold pending; simpl in *; rewrite ?length_app; simpl; lia..|try done; intros; first [congruence|by auto]].

Lemma worker_step_balanced r i w a r' :
  balanced r → pool_workers r !! i = Some w → worker_step max_conn r i w a = Some (Ret r') → balanced r'.
Proof.
  intros Hb Hw. pose proof (count_pos holding _ i w Hw) as Hpos. destruct Hb as [H1 H2 H3 H4].
  unfold worker_step, give_token, release, set_worker, pending in *. destruct w as [ls st]. simpl.
  destruct ls as [|l ls], st, a; try done; simpl.
  - intros [= <-]. balance.
  - destruct (Nat.ltb_spec (tokens r) max_conn) as [Hlt|]; [|done]. intros [= <-].
    balance.
  - destruct (ctx_done r); [|done]. intros [= <-].
    balance.
  - destruct (ctx_done r); [|done]. destruct (tokens r) as [|n] eqn:Et; [done|]. intros [= <-].
    balance.
  - destruct ok.
    + intros [= <-]. balance.
    + destruct (tokens r) as [|n] eqn:Et; [done|]. intros [= <-].
      balance.
  - unfold Submit. destruct (closed (exec r)) eqn:Ec.
    + destruct (send_first || _); [done|]. destruct (tokens r) as [|n] eqn:Et; [done|]. intros [= <-].
      balance.
    + destruct (length _ <? capacity _); [destruct (send_first || _)|].
      * intros [= <-]. balance.
      * destruct (tokens r) as [|n] eqn:Et; [done|]. intros [= <-].
        balance.
      * destruct (tokens r) as [|n] eqn:Et; [done|]. intros [= <-].
        balance.
Qed.

Lemma length_delete {A} (l : list A) j x : l !! j = Some x → S (length (delete j l)) = length l.
Proof.
  revert j. induction l as [|y l IH]; intros [|j]; simpl; [done..|]. intros H. by rewrite (IH j H).
Qed.

Lemma step_balanced r a r' : balanced r → step max_conn r a = Some (Ret r') → balanced r'.
Proof.
  intros Hb.
  assert (Hworker : ∀ i, match pool_workers r !! i with Some w => worker_step max_conn r i w a | None => None end =
    Some (Ret r') → balanced r').
  { intros i. destruct (pool_workers r !! i) as [w|] eqn:Ew; [|done]. by apply worker_step_balanced. }
  destruct a as [i ls|i|i|i ok|i sf| |j| | | |]; simpl; try apply Hworker; clear Hworker;
    destruct Hb as [H1 H2 H3 H4].
  - unfold take. destruct (taskChan (exec r)) as [|l q] eqn:Eq; [done|].
    destruct (free (exec r)) as [|n] eqn:Ef; [done|]. intros [= <-].
    unfold pending in *. rewrite Eq in *. split; unfold pending; simpl in *; rewrite ?length_app; simpl; [lia..|].
    intros Hc. by destruct (H4 Hc) as (_ & ? & _).
  - unfold finish. destruct (busy (exec r) !! j) as [l|] eqn:Ej; [|done].
    pose proof (length_delete _ _ _ Ej) as Hl. unfold callback, give_token, release. simpl.
    destruct (tokens r) as [|n] eqn:Et; [done|]. intros [= <-]. unfold pending in *.
    split; unfold pending; simpl in *; [lia..|]. intros Hc. destruct (H4 Hc) as (_ & _ & Hbusy).
    by rewrite Hbusy in Ej.
  - unfold exit. destruct (free (exec r)) as [|n] eqn:Ef; [done|]. destruct (stopped (exec r)); [|done].
    intros [= <-]. split; simpl; [done..|]. intros Hc. by destruct (H4 Hc) as (_ & ? & _).
  - unfold begin_stop. destruct (stopped (exec r)) eqn:Es; [done|]. intros [= <-]. split; simpl; [done..|].
    intros Hc. by destruct (H4 Hc).
  - unfold end_stop. destruct (stopped (exec r) && _ && _ && _) eqn:E; [|done]. intros [= <-].
    rewrite !andb_true_iff, !Nat.eqb_eq in E. destruct E as [[[Es _] Ef] Eb].
    split; simpl; [done..|]. intros _. split; [done|]. split; [done|]. by apply nil_length_inv.
  - intros [= <-]. by split.
Qed.

Lemma run_balanced r l r' : balanced r → run max_conn r l = Some (Ret r') → balanced r'.
Proof.
  revert r. induction l as [|a l IH]; intros r Hb; simpl; [by intros [= <-]|].
  destruct (step max_conn r a) as [[r1| |]|] eqn:E; [|done..]. apply IH. by eapply step_balanced.
Qed.

Lemma new_router_balanced k e :
  taskChan e = [] → busy e = [] → closed e = false → balanced (new_router k e).
Proof.
  intros Hq Hb Hc. assert (Hz : ∀ p, p (mk_worker [] Waiting) = false → count p (replicate k (mk_worker [] Waiting)) = 0).
  { intros p Hp. unfold count. induction k as [|k IH]; simpl; [done|]. by rewrite Hp. }
  split; unfold pending; simpl; rewrite ?Hq, ?Hb, ?Hz; simpl; (done || lia || congruence).
Qed.

(** The states a router's goroutines can bring about. *)
Definition reachable (k n : nat) r : Prop :=
  ∃ l, run max_conn (new_router k (Start (NewAsyncExecutor n))) l = Some (Ret r).

Lemma reachable_balanced k n r : reachable k n r → balanced r.
Proof. intros [l Hl]. eapply run_balanced; [|exact Hl]. by apply new_router_balanced. Qed.

(** C18: in every interleaving of the queue workers, the executor and a stop, the
    tokens taken are exactly those of the workers that hold one and of the pings
    accepted and not finished, never more than the configured connections, and
    likewise the connections; every finished ping can give its token back at
    once, and once nothing is under way all tokens and connections are back. *)
Theorem rounds_balance k n r :
  reachable k n r →
  tokens r = count holding (pool_workers r) + pending r ∧ tokens r ≤ max_conn ∧
  out r = count connected (pool_workers r) + pending r ∧ out r ≤ tokens r ∧
  (∀ j, j < length (busy (exec r)) → ∃ r', step max_conn r (Finish j) = Some (Ret r')) ∧
  (pending r = 0 → Forall (λ w, at_stage w = Waiting) (pool_workers r) → tokens r = 0 ∧ out r = 0).
Proof.
  intros Hr%reachable_balanced. destruct Hr as [H1 H2 H3 H4].
  assert (Hle : count connected (pool_workers r) ≤ count holding (pool_workers r)).
  { apply count_mono. by intros [ls []]. }
  split_and!; [done|done|done|lia| |].
  - intros j Hj. simpl. unfold finish. destruct (lookup_lt_is_Some_2 _ _ Hj) as [l Hl]. rewrite Hl.
    unfold callback, give_token, release, pending in *. simpl. destruct (tokens r) as [|t]; [lia|]. by eexists.
  - intros Hp Hw. assert (Hz : count holding (pool_workers r) = 0); [|lia].
    apply count_none. eapply Forall_impl; [exact Hw|]. intros w Hst. unfold holding. by rewrite Hst.
Qed.

Lemma run_workers r l r' : run max_conn r l = Some (Ret r') → workers (exec r') = workers (exec r).
Proof.
  revert r. induction l as [|a l IH]; intros r; simpl; [by intros [= <-]|].
  destruct (step max_conn r a) as [[r1| |]|] eqn:E; [|done..]. intros Hl. rewrite (IH _ Hl). clear IH Hl.
  unfold step, worker_step, Submit, callback, give_token, release, set_worker, take, finish, exit, begin_stop,
    end_stop in E.
  destruct a; repeat (case_match; simpl in *; try discriminate); simplify_eq; try done;
    by repeat (case_match; simplify_eq).
Qed.

(** With no more connections than ten times the executor's workers (a router
    has two and three), a ping is never refused because the queue is full: when a
    worker has come to submit one and the executor has not been stopped, it is
    accepted. *)
Theorem submit_never_full k n r i l ls send_first :
  max_conn ≤ n * 10 → reachable k n r → stopped (exec r) = false →
  pool_workers r !! i = Some (mk_worker (l :: ls) Connected) →
  ∃ r', step max_conn r (Submit_ping i send_first) = Some (Ret r') ∧
    taskChan (exec r') = (taskChan (exec r) ++ [l])%list.
Proof.
  intros Hn Hr Hs Hw. pose proof (reachable_balanced _ _ _ Hr) as [H1 H2 H3 H4]. destruct Hr as [acts Hrun].
  assert (Hc : closed (exec r) = false).
  { destruct (closed (exec r)); [|done]. destruct H4; congruence. }
  pose proof (count_pos holding _ i _ Hw eq_refl) as Hpos. unfold pending in *.
  apply run_workers in Hrun. simpl in *. rewrite Hw. unfold worker_step, Submit. simpl. rewrite Hc, Hs, orb_true_r.
  replace (length (taskChan (exec r)) <? capacity (exec r)) with true; [by eexists|].
  symmetry. apply Nat.ltb_lt. unfold capacity. rewrite Hrun. lia.
Qed.

(** After the executor's channel is closed nothing it holds ever leaves. *)
Lemma closed_step r a r' :
  balanced r → closed (exec r) = true → step max_conn r a = Some (Ret r') →
  exec r' = exec r ∧ reported r' = reported r.
Proof.
  intros [_ _ _ H4] Hc E. destruct (H4 Hc) as (Hs & Hf & Hb).
  unfold step, worker_step, Submit, callback, give_token, release, set_worker, take, finish, exit, begin_stop,
    end_stop in E.
  rewrite ?Hs, ?Hf, ?Hb, ?Hc in E.
  destruct a; repeat (case_match; simpl in *; try discriminate); simplify_eq; try done;
    repeat (case_match; simplify_eq); done.
Qed.

Lemma closed_run r l r' :
  balanced r → closed (exec r) = true → run max_conn r l = Some (Ret r') →
  exec r' = exec r ∧ reported r' = reported r ∧ balanced r'.
Proof.
  revert r. induction l as [|a l IH]; intros r Hb Hc; simpl; [by intros [= <-]|].
  destruct (step max_conn r a) as [[r1| |]|] eqn:E; [|done..]. intros Hl.
  destruct (closed_step r a r1 Hb Hc E) as [He Hr].
  destruct (IH r1) as (He' & Hr' & Hb'); [by eapply step_balanced|by rewrite He|done|].
  by rewrite He', Hr', He, Hr.
Qed.

(** The pings that are queued when the executor has stopped are lost, with
    what they hold: whatever happens afterwards they are neither run nor
    reported, and their tokens and connections are not given back; when they are
    as many as the connections, no worker ever gets a token again, so that it
    waits as long as the router's context is not cancelled. *)
Theorem stop_strands_queued_pings k n r :
  reachable k n r → closed (exec r) = true →
  ∀ l r', run max_conn r l = Some (Ret r') →
    taskChan (exec r') = taskChan (exec r) ∧ reported r' = reported r ∧
    length (taskChan (exec r)) ≤ tokens r' ∧ length (taskChan (exec r)) ≤ out r' ∧
    (length (taskChan (exec r)) = max_conn → ∀ i, step max_conn r' (Token i) = None).
Proof.
  intros Hr Hc l r' Hl.
  destruct (closed_run r l r' (reachable_balanced _ _ _ Hr) Hc Hl) as (He & Hrep & [H1 H2 H3 _]).
  unfold pending in *. rewrite He in *. split_and!; [done|done|lia|lia|]. intros Hall i. simpl.
  destruct (pool_workers r' !! i) as [[ls st]|]; [|done]. unfold worker_step. simpl.
  destruct ls, st; try done. replace (tokens r' <? max_conn) with false; [done|].
  symmetry. apply Nat.ltb_ge. lia.
Qed.
End balance.

(** ** A router with two connections and three workers *)
Definition demo_ping (ip : string) : Line := mk_line "" ip 0 (mk_router "" "" "" "" "") 0.

(** Two queue workers submit a ping each; the executor stops before its workers
    look at the queue. *)
Definition demo_stop : list action :=
  [Tick 0 [demo_ping "10.0.0.1"; demo_ping "10.0.0.3"]; Tick 1 [demo_ping "10.0.0.2"];
   Token 0; Token 1; Connect 0 true; Connect 1 true; Submit_ping 0 true; Submit_ping 1 true;
   BeginStop; Exit; Exit; Exit; EndStop].

Definition demo_router (l : list action) : Router :=
  match run 2 (new_router 2 (Start (NewAsyncExecutor 3))) l with
  | Some (Ret r) => r
  | _ => new_router 2 (Start (NewAsyncExecutor 3))
  end.

Lemma rounds_balance_witness :
  let r := demo_router demo_stop in
  reachable 2 2 3 r ∧
  (tokens r = count holding (pool_workers r) + pending r ∧ tokens r ≤ 2 ∧
   out r = count connected (pool_workers r) + pending r ∧ out r ≤ tokens r ∧
   (∀ j, j < length (busy (exec r)) → ∃ r', step 2 r (Finish j) = Some (Ret r')) ∧
   (pending r = 0 → Forall (λ w, at_stage w = Waiting) (pool_workers r) → tokens r = 0 ∧ out r = 0)).
Proof.
  intros r. assert (Hr : reachable 2 2 3 r) by (exists demo_stop; vm_compute; reflexivity).
  split; [exact Hr|]. exact (rounds_balance 2 2 3 r Hr).
Defined.

Lemma submit_never_full_witness :
  let r := demo_router (firstn 6 demo_stop) in
  ∃ r', step 2 r (Submit_ping 0 false) = Some (Ret r') ∧
    taskChan (exec r') = (taskChan (exec r) ++ [demo_ping "10.0.0.1"])%list.
Proof.
  intros r. apply (submit_never_full 2 2 3 r 0 (demo_ping "10.0.0.1") [demo_ping "10.0.0.3"] false).
  - lia.
  - exists (firstn 6 demo_stop). vm_compute. reflexivity.
  - vm_compute. reflexivity.
  - vm_compute. reflexivity.
Defined.

Lemma stop_strands_queued_pings_witness :
  let r := demo_router demo_stop in
  taskChan (exec r) = [demo_ping "10.0.0.1"; demo_ping "10.0.0.2"] ∧
  ∀ l r', run 2 r l = Some (Ret r') →
    taskChan (exec r') = taskChan (exec r) ∧ reported r' = reported r ∧
    length (taskChan (exec r)) ≤ tokens r' ∧ length (taskChan (exec r)) ≤ out r' ∧
    (length (taskChan (exec r)) = 2 → ∀ i, step 2 r' (Token i) = None).
Proof.
  intros r. split; [vm_compute; reflexivity|]. apply (stop_strands_queued_pings 2 2 3 r).
  - exists demo_stop. vm_compute. reflexivity.
  - vm_compute. reflexivity.
Defined.
