(* ===== verification/ConnState.v ===== *)
(** * ConnState: one pooled connection ([src/connection/state_manager.go],
    [src/connection/pooled_connection.go], [src/connection/health_manager.go])

    The states of a connection and the operations that change it; each takes the
    connection's lock, so it is one step. The parts of [MonitoredDriver.Execute],
    of the health check and of the rebuild that run between those steps are the
    program points of the goroutines of [Sharing] (file [ConnSharing]). *)
From S2P Require Import Prelude GoStrings GoFloat Config.
From stdpp Require Import relations.
Local Open Scope string_scope.
Local Open Scope Z_scope.

Inductive ConnectionState :=
  | StateIdle | StateConnecting | StateAcquired | StateExecuting | StateChecking | StateClosing | StateClosed.
#[global] Instance ConnectionState_eq_dec : EqDecision ConnectionState.
Proof. solve_decision. Defined.

Definition CanTransition (currentState targetState : ConnectionState) : bool :=
  match currentState, targetState with
  | StateIdle, (StateConnecting | StateAcquired | StateChecking | StateClosing | StateClosed) => true
  | StateConnecting, (StateAcquired | StateClosing | StateClosed) => true
  | StateAcquired, (StateExecuting | StateIdle | StateChecking | StateClosing | StateClosed) => true
  | StateExecuting, (StateAcquired | StateClosing | StateClosed) => true
  | StateChecking, (StateIdle | StateAcquired | StateClosing | StateClosed) => true
  | StateClosing, StateClosed => true
  | _, _ => false
  end.

Definition all_states : list ConnectionState :=
  [StateIdle; StateConnecting; StateAcquired; StateExecuting; StateChecking; StateClosing; StateClosed].
Definition GetValidTransitions (currentState : ConnectionState) : list ConnectionState :=
  List.filter (CanTransition currentState) all_states.
Definition IsTerminalState (s : ConnectionState) : bool := bool_decide (s = StateClosed).
Definition IsOperationalState (s : ConnectionState) : bool :=
  match s with StateClosing | StateClosed => false | _ => true end.
Definition IsTransitionalState (s : ConnectionState) : bool := bool_decide (s = StateClosing).

Inductive HealthStatus := HealthStatusUnknown | HealthStatusHealthy | HealthStatusDegraded | HealthStatusUnhealthy.
#[global] Instance HealthStatus_eq_dec : EqDecision HealthStatus.
Proof. solve_decision. Defined.

Inductive HealthCheckErrorType :=
  | HealthErrorUnknown | HealthErrorTimeout | HealthErrorNetwork | HealthErrorAuth | HealthErrorCommand | HealthErrorProtocol.

(** [HealthStatus.String] and [HealthCheckErrorType.String]. *)
Definition show_health (h : HealthStatus) : string :=
  match h with
  | HealthStatusHealthy => "healthy"
  | HealthStatusDegraded => "degraded"
  | HealthStatusUnhealthy => "unhealthy"
  | HealthStatusUnknown => "unknown"
  end.
Definition show_error_type (t : HealthCheckErrorType) : string :=
  match t with
  | HealthErrorTimeout => "timeout"
  | HealthErrorNetwork => "network"
  | HealthErrorAuth => "authentication"
  | HealthErrorCommand => "command"
  | HealthErrorProtocol => "protocol"
  | HealthErrorUnknown => "unknown"
  end.

(** [ClassifyHealthCheckError]; [None] is the nil error. *)
Definition ClassifyHealthCheckError (err : option string) : HealthCheckErrorType :=
  match err with
  | None => HealthErrorUnknown
  | Some e =>
      if existsb (contains e) ["timeout"; "deadline"; "context deadline exceeded"] then HealthErrorTimeout
      else if existsb (contains e) ["network"; "connection"; "reset by peer"; "broken pipe"] then HealthErrorNetwork
      else if existsb (contains e) ["authentication"; "password"; "login"; "auth"] then HealthErrorAuth
      else if existsb (contains e) ["command"; "syntax"; "invalid command"] then HealthErrorCommand
      else if existsb (contains e) ["protocol"; "unsupported"] then HealthErrorProtocol
      else HealthErrorUnknown
  end.

(** The connection. Times are nanoseconds; a zero [time.Time] is [None]. *)
Record EnhancedPooledConnection := mk_conn {
  id : string;
  createdAt : Z;
  lastUsed : Z;
  usageCount : Z;
  state : ConnectionState;
  rebuilding : bool;
  lastRebuiltAt : option Z;
  markedForRebuild : bool;
  rebuildReason : string;
  healthStatus : HealthStatus;
  lastHealthCheck : option Z;
  consecutiveFailures : Z;
  avgResponseTime : Z;
  totalRequests : Z;
  totalErrors : Z;
  usingCount : Z }.
Implicit Types (c : EnhancedPooledConnection).

(** The connection [createConnection] makes. *)
Definition new_connection (name : string) (now : Z) : EnhancedPooledConnection :=
  mk_conn name now now 0 StateIdle false None false "" HealthStatusUnknown None 0 0 0 0 0.

Definition canTransitionTo c (target : ConnectionState) : bool := CanTransition (state c) target.

Definition transitionStateLocked c (target : ConnectionState) : EnhancedPooledConnection * bool :=
  if canTransitionTo c target then ({ c with state := target }, true) else (c, false).
Definition transitionState := transitionStateLocked.

Definition tryAcquireForTask (now : Z) c : EnhancedPooledConnection * bool :=
  if 0 <? usingCount c then (c, false)
  else if negb (bool_decide (state c = StateIdle)) then (c, false)
  else if bool_decide (healthStatus c = HealthStatusUnhealthy) then (c, false)
  else if rebuilding c then (c, false)
  else match transitionStateLocked c StateAcquired with
       | (c, true) => ({ c with lastUsed := now; usageCount ::= (λ n, wrap64 (n + 1)) }, true)
       | r => r
       end.

Definition release (now : Z) c : EnhancedPooledConnection :=
  if negb (bool_decide (state c = StateAcquired)) then c
  else match transitionStateLocked c StateIdle with
       | (c, true) => { c with lastUsed := now }
       | (c, false) => (transitionStateLocked c StateClosing).1
       end.

(** [getState]: in use, valid, health. *)
Definition getState c : bool * bool * HealthStatus :=
  (bool_decide (state c = StateAcquired),
   negb (bool_decide (state c = StateClosed)) && negb (bool_decide (state c = StateClosing)), healthStatus c).
Definition getStatus c : ConnectionState * HealthStatus := (state c, healthStatus c).

Definition setHealthLocked c (status : HealthStatus) : EnhancedPooledConnection := { c with healthStatus := status }.

(** The compare-and-swap on the mark, and the reason when it succeeds. *)
Definition markForRebuild c : EnhancedPooledConnection * bool :=
  if markedForRebuild c then (c, false) else ({ c with markedForRebuild := true }, true).
Definition markForRebuildWithReason c (reason : string) : EnhancedPooledConnection * bool :=
  if markedForRebuild c then (c, false)
  else ({ c with markedForRebuild := true; rebuildReason := reason }, true).
Definition clearRebuildMark c : EnhancedPooledConnection := { c with markedForRebuild := false }.

(** The health a failure leaves, and the mark it may set. *)
Definition record_failure (cfg : EnhancedConnectionConfig) c : EnhancedPooledConnection :=
  let c := { c with consecutiveFailures ::= (λ n, wrap64 (n + 1)) } in
  if UnhealthyFailureThreshold cfg <=? consecutiveFailures c then
    let c := setHealthLocked c HealthStatusUnhealthy in
    if HealthCheckTriggerRebuild cfg
    then (markForRebuildWithReason c ("health_check_failed_" +:+ itoa (consecutiveFailures c) +:+ "_times")).1
    else c
  else if DegradedFailureThreshold cfg <=? consecutiveFailures c then
    let c := setHealthLocked c HealthStatusDegraded in
    if RebuildOnDegraded cfg
    then (markForRebuildWithReason c ("health_check_degraded_" +:+ itoa (consecutiveFailures c) +:+ "_times")).1
    else c
  else setHealthLocked c HealthStatusHealthy.

Definition recordHealthCheck (cfg : EnhancedConnectionConfig) (now : Z) (success : bool) c : EnhancedPooledConnection :=
  let c := { c with lastHealthCheck := Some now } in
  let c := if success then setHealthLocked { c with consecutiveFailures := 0 } HealthStatusHealthy
           else record_failure cfg c in
  if bool_decide (state c = StateChecking) then (transitionStateLocked c StateAcquired).1 else c.

Definition recordRequest (success : bool) (duration : Z) c : EnhancedPooledConnection :=
  let c := { c with totalRequests ::= (λ n, wrap64 (n + 1)) } in
  let c := if success then c else { c with totalErrors ::= (λ n, wrap64 (n + 1)) } in
  if totalRequests c =? 1 then { c with avgResponseTime := duration }
  else { c with avgResponseTime ::= (λ a, truncate (fadd (fmul (of_int a) (ratio 7 10)) (fmul (of_int duration) (ratio 3 10)))) }.

Definition validateState c : option string :=
  match state c with
  | StateClosed => Some "connection is Closed"
  | StateClosing => Some "connection is Closing"
  | _ => if rebuilding c then Some "connection is being rebuilt" else None
  end.

Definition beginHealthCheck c : EnhancedPooledConnection * bool := transitionStateLocked c StateChecking.

Definition completeHealthCheck (success : bool) c : EnhancedPooledConnection * bool :=
  if negb (bool_decide (state c = StateChecking)) then (c, false)
  else transitionStateLocked c (if success then StateIdle else StateClosing).

Definition beginRebuild c : EnhancedPooledConnection * bool :=
  if rebuilding c then (c, false)
  else match state c with
       | StateClosing | StateClosed => (c, false)
       | _ => ({ c with rebuilding := true }, true)
       end.

Definition completeRebuild (success : bool) c : EnhancedPooledConnection :=
  if negb (rebuilding c) then c
  else let c := { c with rebuilding := false } in
       if success then { c with markedForRebuild := false } else c.

Definition beginClose c : EnhancedPooledConnection * bool := transitionStateLocked c StateClosing.

Definition completeClose c : EnhancedPooledConnection * bool :=
  if negb (bool_decide (state c = StateClosing)) then (c, false) else transitionStateLocked c StateClosed.

Definition isAvailable c : bool :=
  bool_decide (state c = StateIdle) && negb (bool_decide (healthStatus c = HealthStatusUnhealthy)).
Definition isIdle c : bool := bool_decide (state c = StateIdle).
Definition isHealthy c : bool := negb (bool_decide (healthStatus c = HealthStatusUnhealthy)).

(** [acquireUse] and [releaseUse] on the 32-bit counter. *)
Definition wrap32 (z : Z) : Z := (z + 2147483648) mod 4294967296 - 2147483648.
Definition acquireUse c : EnhancedPooledConnection := { c with usingCount ::= (λ n, wrap32 (n + 1)) }.
Definition releaseUse c : EnhancedPooledConnection := { c with usingCount ::= (λ n, wrap32 (n - 1)) }.

(** ** The operations as one alphabet *)

Inductive conn_op :=
  | OpAcquire (now : Z)
  | OpRelease (now : Z)
  | OpBeginCheck
  | OpRecordCheck (cfg : EnhancedConnectionConfig) (now : Z) (success : bool)
  | OpCompleteCheck (success : bool)
  | OpBeginRebuild
  | OpCompleteRebuild (success : bool)
  | OpBeginClose
  | OpCompleteClose
  | OpTransition (target : ConnectionState)
  | OpMark (reason : string)
  | OpClearMark
  | OpRequest (success : bool) (duration : Z)
  | OpUse
  | OpUnuse.

Definition conn_step c (o : conn_op) : EnhancedPooledConnection :=
  match o with
  | OpAcquire now => (tryAcquireForTask now c).1
  | OpRelease now => release now c
  | OpBeginCheck => (beginHealthCheck c).1
  | OpRecordCheck cfg now ok => recordHealthCheck cfg now ok c
  | OpCompleteCheck ok => (completeHealthCheck ok c).1
  | OpBeginRebuild => (beginRebuild c).1
  | OpCompleteRebuild ok => completeRebuild ok c
  | OpBeginClose => (beginClose c).1
  | OpCompleteClose => (completeClose c).1
  | OpTransition t => (transitionState c t).1
  | OpMark r => (markForRebuildWithReason c r).1
  | OpClearMark => clearRebuildMark c
  | OpRequest ok d => recordRequest ok d c
  | OpUse => acquireUse c
  | OpUnuse => releaseUse c
  end.
Definition conn_run (ops : list conn_op) c : EnhancedPooledConnection := foldl conn_step c ops.

(** ** Legal paths *)

Definition legal (s t : ConnectionState) : Prop := CanTransition s t = true.

Lemma transition_legal c t : rtc legal (state c) (state (transitionStateLocked c t).1).
Proof. unfold transitionStateLocked, canTransitionTo. destruct (CanTransition _ _) eqn:E; simpl; [by apply rtc_once|done]. Qed.

Lemma markForRebuildWithReason_state c r : state (markForRebuildWithReason c r).1 = state c.
Proof. unfold markForRebuildWithReason. by destruct (markedForRebuild c). Qed.

Lemma record_failure_state cfg c : state (record_failure cfg c) = state c.
Proof. unfold record_failure. case_tests; by rewrite ?markForRebuildWithReason_state. Qed.

Lemma conn_step_legal c o : rtc legal (state c) (state (conn_step c o)).
Proof.
  destruct o; simpl; try apply transition_legal; try done.
  - unfold tryAcquireForTask. case_tests; try done.
    pose proof (transition_legal c StateAcquired) as Ht. by destruct (transitionStateLocked _ _) as [c' []].
  - unfold release. case_tests; [done|].
    pose proof (transition_legal c StateIdle) as Ht. destruct (transitionStateLocked c StateIdle) as [c' []]; [done|].
    etrans; [exact Ht|apply transition_legal].
  - unfold recordHealthCheck. set (c0 := { c with lastHealthCheck := Some now }).
    set (c1 := if success then _ else _).
    assert (E : state c1 = state c) by (unfold c1; destruct success; [done|by rewrite record_failure_state]).
    rewrite <- E. case_tests; [apply transition_legal|done].
  - unfold completeHealthCheck. destruct (negb _); [done|apply transition_legal].
  - unfold beginRebuild. case_tests; [done|]. destruct (state c) eqn:Es; simpl; by rewrite Es.
  - unfold completeRebuild. by case_tests.
  - unfold completeClose. destruct (negb _); [done|apply transition_legal].
  - by rewrite markForRebuildWithReason_state.
  - unfold recordRequest. by case_tests.
Qed.

Definition closing (s : ConnectionState) : Prop := s = StateClosing ∨ s = StateClosed.

Lemma legal_closing s t : rtc legal s t → closing s → closing t ∧ (s = StateClosed → t = StateClosed).
Proof.
  induction 1 as [s|s u t Hl _ IH]; [done|]. unfold legal in Hl.
  intros [->| ->]; destruct u; try done. destruct IH as [H1 H2]; [by right|]. split; [done|]. intros. by apply H2.
Qed.


(** ** Health checks *)

(** Failures since the last success, and the longest series of failures, of a
    sequence of results; both start from [n]. *)
Fixpoint trailing (n : Z) (rs : list bool) : Z :=
  match rs with [] => n | r :: rs => trailing (if r then 0 else n + 1) rs end.
Fixpoint longest (n m : Z) (rs : list bool) : Z :=
  match rs with [] => m | r :: rs => let n := if r then 0 else n + 1 in longest n (Z.max m n) rs end.

Definition health_of (cfg : EnhancedConnectionConfig) (n : Z) : HealthStatus :=
  if UnhealthyFailureThreshold cfg <=? n then HealthStatusUnhealthy
  else if DegradedFailureThreshold cfg <=? n then HealthStatusDegraded
  else HealthStatusHealthy.

Definition check_all (cfg : EnhancedConnectionConfig) (now : Z) (rs : list bool) c : EnhancedPooledConnection :=
  foldl (λ (c : EnhancedPooledConnection) r, recordHealthCheck cfg now r c) c rs.

Lemma recordHealthCheck_fields cfg now (r : bool) c :
  let c1 := if r then setHealthLocked { c with consecutiveFailures := 0 } HealthStatusHealthy else record_failure cfg c in
  let c' := recordHealthCheck cfg now r c in
  consecutiveFailures c' = consecutiveFailures c1 ∧ healthStatus c' = healthStatus c1 ∧
  markedForRebuild c' = markedForRebuild c1 ∧ rebuildReason c' = rebuildReason c1.
Proof.
  unfold recordHealthCheck, transitionStateLocked, canTransitionTo, record_failure, markForRebuildWithReason, setHealthLocked.
  simpl. destruct r; simpl; case_tests; simpl; done.
Qed.

(** What one failure does under a configuration that rebuilds unhealthy but not
    degraded connections. *)
Lemma record_failure_spec cfg c :
  HealthCheckTriggerRebuild cfg = true → RebuildOnDegraded cfg = false →
  0 ≤ consecutiveFailures c < max_int64 →
  let n := consecutiveFailures c + 1 in
  let c' := record_failure cfg c in
  consecutiveFailures c' = n ∧ healthStatus c' = health_of cfg n ∧
  markedForRebuild c' = (markedForRebuild c || (UnhealthyFailureThreshold cfg <=? n)) ∧
  rebuildReason c' = (if negb (markedForRebuild c) && (UnhealthyFailureThreshold cfg <=? n)
                      then "health_check_failed_" +:+ itoa n +:+ "_times" else rebuildReason c).
Proof.
  intros Ht Hd Hn n c'.
  assert (Hw : wrap64 (consecutiveFailures c + 1) = n).
  { apply wrap64_id. unfold in_int64, min_int64, max_int64 in *. lia. }
  unfold c', record_failure, health_of, markForRebuildWithReason, setHealthLocked. rewrite Ht, Hd.
  cbn -[wrap64 itoa Z.add Z.leb]. rewrite Hw.
  destruct (UnhealthyFailureThreshold cfg <=? n) eqn:Eu.
  - cbn -[wrap64 itoa Z.add Z.leb]. destruct (markedForRebuild c) eqn:Em; cbn -[wrap64 itoa Z.add Z.leb]; rewrite ?Em, ?Hw; done.
  - destruct (DegradedFailureThreshold cfg <=? n); cbn -[wrap64 itoa Z.add Z.leb];
      rewrite Hw, orb_false_r, andb_false_r; done.
Qed.

Lemma longest_mono n m rs : m ≤ longest n m rs.
Proof.
  revert n m. induction rs as [|r rs IH]; intros n m; simpl; [lia|].
  etrans; [|apply IH]. lia.
Qed.

Lemma trailing_bounds n rs : 0 ≤ n → 0 ≤ trailing n rs ≤ n + Z.of_nat (length rs).
Proof.
  revert n. induction rs as [|r rs IH]; intros n Hn; simpl; [lia|].
  destruct r; [specialize (IH 0)|specialize (IH (n + 1))]; lia.
Qed.

Lemma check_all_spec cfg now rs c u m :
  HealthCheckTriggerRebuild cfg = true → RebuildOnDegraded cfg = false →
  u = UnhealthyFailureThreshold cfg → 0 < u → 0 ≤ consecutiveFailures c ≤ m →
  consecutiveFailures c + Z.of_nat (length rs) < max_int64 →
  markedForRebuild c = (u <=? m) →
  (u ≤ m → rebuildReason c = "health_check_failed_" +:+ itoa u +:+ "_times") →
  let c' := check_all cfg now rs c in
  consecutiveFailures c' = trailing (consecutiveFailures c) rs ∧
  (rs ≠ [] → healthStatus c' = if bool_decide (last rs = Some true) then HealthStatusHealthy
                               else health_of cfg (trailing (consecutiveFailures c) rs)) ∧
  markedForRebuild c' = (u <=? longest (consecutiveFailures c) m rs) ∧
  (u ≤ longest (consecutiveFailures c) m rs → rebuildReason c' = "health_check_failed_" +:+ itoa u +:+ "_times").
Proof.
  intros Ht Hd Hu Hpos. revert c m. induction rs as [|r rs IH]; intros c m Hm Hlen Hmark Hreason; simpl; [done|].
  destruct (recordHealthCheck_fields cfg now r c) as (H1 & H2 & H3 & H4).
  set (c1 := recordHealthCheck cfg now r c) in *. simpl in Hlen.
  assert (Hc1 : consecutiveFailures c1 = (if r then 0 else consecutiveFailures c + 1) ∧
     healthStatus c1 = (if r then HealthStatusHealthy else health_of cfg (consecutiveFailures c + 1)) ∧
     markedForRebuild c1 = (u <=? Z.max m (if r then 0 else consecutiveFailures c + 1)) ∧
     (u ≤ Z.max m (if r then 0 else consecutiveFailures c + 1) →
      rebuildReason c1 = "health_check_failed_" +:+ itoa u +:+ "_times")).
  { rewrite H1, H2, H3, H4. destruct r; simpl.
    - replace (Z.max m 0) with m by lia. done.
    - destruct (record_failure_spec cfg c Ht Hd) as (-> & -> & -> & ->); [lia|]. rewrite <- Hu, Hmark.
      split; [done|]. split; [done|].
      destruct (Z.leb_spec u m); simpl.
      { split; [symmetry; apply Z.leb_le; lia|auto]. }
      destruct (Z.leb_spec u (consecutiveFailures c + 1)).
      + split; [symmetry; apply Z.leb_le; lia|]. intros _. by replace (consecutiveFailures c + 1) with u by lia.
      + split; [symmetry; apply Z.leb_gt; lia|lia]. }
  clearbody c1. destruct Hc1 as (E1 & E2 & E3 & E4).
  destruct (IH c1 (Z.max m (if r then 0 else consecutiveFailures c + 1))) as (G1 & G2 & G3 & G4);
    [rewrite E1; destruct r; lia|rewrite E1; destruct r; lia|done|done|].
  rewrite E1 in *. split; [done|]. split; [|done]. intros _. destruct rs as [|r' rs]; [|by apply G2].
  simpl in *. rewrite E2. by destruct r.
Qed.

(** With the health thresholds of a router's configuration (rebuild unhealthy,
    not degraded connections), after any checks the connection is healthy if the
    last one succeeded, and otherwise healthy, degraded or unhealthy by the number
    of failures since the last success; it is marked for a rebuild exactly when
    some series of failures has reached the threshold, and the reason names the
    threshold. *)
Theorem health_checks_spec cfg now rs c :
  HealthCheckTriggerRebuild cfg = true → RebuildOnDegraded cfg = false → 0 < UnhealthyFailureThreshold cfg →
  consecutiveFailures c = 0 → markedForRebuild c = false → Z.of_nat (length rs) < max_int64 → rs ≠ [] →
  let c' := check_all cfg now rs c in
  healthStatus c' = (if bool_decide (last rs = Some true) then HealthStatusHealthy else health_of cfg (trailing 0 rs)) ∧
  markedForRebuild c' = (UnhealthyFailureThreshold cfg <=? longest 0 0 rs) ∧
  (markedForRebuild c' = true →
   rebuildReason c' = "health_check_failed_" +:+ itoa (UnhealthyFailureThreshold cfg) +:+ "_times").
Proof.
  intros Ht Hd Hu Hc Hm Hlen Hne.
  destruct (check_all_spec cfg now rs c (UnhealthyFailureThreshold cfg) 0) as (H1 & H2 & H3 & H4);
    [done|done|done|done|lia|lia| |lia|].
  - rewrite Hm. symmetry. apply Z.leb_gt. lia.
  - rewrite Hc in *. split; [by apply H2|]. split; [done|]. rewrite H3. intros H%Z.leb_le. by apply H4.
Qed.

Lemma health_checks_spec_witness :
  let cfg := NewConfigBuilder in
  let rs := [false; true; false; false; false] in
  let c' := check_all cfg 0 rs (new_connection "r1" 0) in
  healthStatus c' = HealthStatusUnhealthy ∧ markedForRebuild c' = true ∧
  (markedForRebuild c' = true → rebuildReason c' = "health_check_failed_" +:+ itoa 3 +:+ "_times").
Proof.
  intros cfg rs c'.
  apply (health_checks_spec cfg 0 rs (new_connection "r1" 0)); [reflexivity..|unfold max_int64; simpl; lia|discriminate].
Defined.
