(* ===== verification/ConnSharing.v ===== *)
(** * ConnSharing: the goroutines around one pooled connection
    ([src/connection/pool_enhanced.go], [src/connection/pooled_connection.go])

    Tasks and health checks take the connection through the pool, use it through
    [MonitoredDriver.Execute] or check it, and release it; rebuilds replace it.
    Every operation of [ConnState] is atomic; what lies between two operations in
    the code is a program point here, and the goroutines interleave there. *)
From S2P Require Import Prelude GoStrings Config ConnState.
Local Open Scope Z_scope.

(** A user: a task, or the health check, which takes connections the same way. *)
Inductive user_pc :=
  | Out
  | Holds                          (* after [tryAcquireForTask] *)
  | Using                          (* [Execute] has raised the use count *)
  | Runs (restore : bool)          (* the driver is executing; whether [Execute] restores the state *)
  | Checks.                        (* after [beginHealthCheck] *)
#[global] Instance user_pc_eq_dec : EqDecision user_pc.
Proof. solve_decision. Defined.

(** A rebuild: the phases of [performCoreRebuild]. *)
Inductive rebuild_pc :=
  | NoRebuild
  | MayStart                       (* [canStartRebuild] has said yes *)
  | Begun                          (* after [beginRebuild] *)
  | DriverClosed                   (* after [beginClose] and [driver.Close] *)
  | Removed.                       (* after [completeClose]; the replacement is being made *)
#[global] Instance rebuild_pc_eq_dec : EqDecision rebuild_pc.
Proof. solve_decision. Defined.

Record shared := mk_shared {
  conn : EnhancedPooledConnection;
  users : list user_pc;
  rebuilds : list rebuild_pc;
  driver_open : bool }.

Definition canStartRebuild (c : EnhancedPooledConnection) : bool := isIdle c && (usingCount c <=? 0).

Inductive event :=
  | Acquire (i : nat) (now : Z)
  | Use (i : nat)
  | ExecBegin (i : nat)
  | ExecEnd (i : nat) (ok : bool) (duration : Z)
  | CheckBegin (i : nat)
  | CheckEnd (i : nat) (cfg : EnhancedConnectionConfig) (now : Z) (ok : bool)
  | Release (i : nat) (now : Z)
  | RebuildCheck (j : nat)
  | RebuildBegin (j : nat)
  | RebuildClose (j : nat)
  | RebuildRemove (j : nat)
  | RebuildEnd (j : nat) (ok : bool)
  | Mark (reason : string).

(** The counters [MonitoredDriver.Execute] updates. *)
Definition count_request (ok : bool) (c : EnhancedPooledConnection) : EnhancedPooledConnection :=
  let c := { c with totalRequests ::= (λ n, wrap64 (n + 1)) } in
  if ok then c else { c with totalErrors ::= (λ n, wrap64 (n + 1)) }.

Definition user_event (c : EnhancedPooledConnection) (u : user_pc) (e : event) : option (EnhancedPooledConnection * user_pc) :=
  match u, e with
  | Out, Acquire _ now => let '(c, ok) := tryAcquireForTask now c in Some (c, if ok then Holds else Out)
  | Holds, Use _ => Some (acquireUse c, Using)
  | Using, ExecBegin _ =>
      if bool_decide (state c = StateAcquired)
      then let '(c, ok) := transitionState c StateExecuting in Some (c, Runs ok)
      else Some (c, Runs false)
  | Runs restore, ExecEnd _ ok _ =>
      let c := count_request ok c in
      let c := if restore then (transitionState c StateAcquired).1 else c in
      Some (releaseUse c, Holds)
  | Holds, CheckBegin _ =>
      let '(c, ok) := beginHealthCheck c in Some (c, if ok then Checks else Holds)
  | Checks, CheckEnd _ cfg now ok => Some (recordHealthCheck cfg now ok c, Holds)
  | Holds, Release _ now => Some (release now c, Out)
  | _, _ => None
  end.

(** A rebuild step: the connection, whether the driver stays open, the next phase. *)
Definition rebuild_event (c : EnhancedPooledConnection) (p : rebuild_pc) (e : event)
    : option (EnhancedPooledConnection * bool * rebuild_pc) :=
  match p, e with
  | NoRebuild, RebuildCheck _ => Some (c, true, if canStartRebuild c then MayStart else NoRebuild)
  | MayStart, RebuildBegin _ => let '(c, ok) := beginRebuild c in Some (c, true, if ok then Begun else NoRebuild)
  | Begun, RebuildClose _ =>
      let '(c, ok) := beginClose c in
      if ok || bool_decide (state c = StateClosed) || bool_decide (state c = StateClosing)
      then Some (c, false, DriverClosed)
      else Some (completeRebuild true c, true, NoRebuild)
  | DriverClosed, RebuildRemove _ => Some ((completeClose c).1, true, Removed)
  | Removed, RebuildEnd _ ok => Some (completeRebuild ok c, true, NoRebuild)
  | _, _ => None
  end.

Definition shared_step (s : shared) (e : event) : option shared :=
  let on_user i :=
    match users s !! i with
    | Some u => (λ '(c, u'), { s with conn := c; users ::= <[i := u']> }) <$> user_event (conn s) u e
    | None => None
    end in
  let on_rebuild j :=
    match rebuilds s !! j with
    | Some p => (λ '(c, o, p'), { s with conn := c; rebuilds ::= <[j := p']>; driver_open ::= andb o })
                  <$> rebuild_event (conn s) p e
    | None => None
    end in
  match e with
  | Acquire i _ | Use i | ExecBegin i | ExecEnd i _ _ | CheckBegin i | CheckEnd i _ _ _ | Release i _ => on_user i
  | RebuildCheck j | RebuildBegin j | RebuildClose j | RebuildRemove j | RebuildEnd j _ => on_rebuild j
  | Mark reason => Some { s with conn ::= (λ c, (markForRebuildWithReason c reason).1) }
  end.

Fixpoint shared_run (s : shared) (l : list event) : option shared :=
  match l with
  | [] => Some s
  | e :: l => match shared_step s e with Some s => shared_run s l | None => None end
  end.

Definition fresh (n m : nat) (now : Z) : shared :=
  mk_shared (new_connection "r1" now) (replicate n Out) (replicate m NoRebuild) true.

(** ** At most one user, at most one rebuild *)

Definition inside (u : user_pc) : bool := negb (bool_decide (u = Out)).
Definition active (p : rebuild_pc) : bool :=
  match p with Begun | DriverClosed | Removed => true | _ => false end.

(** The state of the connection that goes with the point where its user is. *)
Definition state_of (u : user_pc) : option ConnectionState :=
  match u with
  | Out => Some StateIdle
  | Holds | Using => Some StateAcquired
  | Runs true => Some StateExecuting
  | Runs false => None
  | Checks => Some StateChecking
  end.
Definition fits (u : user_pc) (st : ConnectionState) : Prop := state_of u = Some st ∨ closing st.

Record sharing_ok (s : shared) : Prop := {
  one_user : (count inside (users s) ≤ 1)%nat;
  all_out : count inside (users s) = 0%nat → fits Out (state (conn s));
  user_fits : ∀ i u, users s !! i = Some u → u ≠ Out → fits u (state (conn s));
  one_rebuild : count active (rebuilds s) = Nat.b2n (rebuilding (conn s)) }.

Lemma user_inside_not_idle u st : u ≠ Out → fits u st → st ≠ StateIdle.
Proof. intros Hu [H|[->| ->]]; [|done..]. by destruct u as [| | |[]|]; simplify_eq/=. Qed.

Lemma tryAcquire_success now c :
  (tryAcquireForTask now c).2 = true →
  state c = StateIdle ∧ state (tryAcquireForTask now c).1 = StateAcquired ∧ rebuilding c = false.
Proof.
  unfold tryAcquireForTask, transitionStateLocked, canTransitionTo. case_tests; try done. btrue. by rewrite E0.
Qed.

Lemma tryAcquire_failure now c : (tryAcquireForTask now c).2 = false → (tryAcquireForTask now c).1 = c.
Proof.
  unfold tryAcquireForTask, transitionStateLocked, canTransitionTo. case_tests; try done.
Qed.

Lemma tryAcquire_rebuilding now c : rebuilding (tryAcquireForTask now c).1 = rebuilding c.
Proof. unfold tryAcquireForTask, transitionStateLocked, canTransitionTo. by case_tests. Qed.

(** A legal transition that is taken, or the connection is as it was. *)
Lemma transition_cases c t :
  (CanTransition (state c) t = true ∧ transitionStateLocked c t = ({ c with state := t }, true)) ∨
  (CanTransition (state c) t = false ∧ transitionStateLocked c t = (c, false)).
Proof. unfold transitionStateLocked, canTransitionTo. destruct (CanTransition _ _); auto. Qed.

Lemma transition_from_closing c t : closing (state c) → closing (state (transitionStateLocked c t).1).
Proof.
  intros Hc. pose proof (transition_legal c t) as Hl. by destruct (legal_closing _ _ Hl Hc).
Qed.

Lemma conn_step_closing c o : closing (state c) → closing (state (conn_step c o)).
Proof. intros Hc. by destruct (legal_closing _ _ (conn_step_legal c o) Hc). Qed.

Lemma fits_closing u st : closing st → fits u st.
Proof. by right. Qed.
#[local] Hint Resolve fits_closing : ddl.

Lemma record_check_rebuilding cfg now ok c : rebuilding (recordHealthCheck cfg now ok c) = rebuilding c.
Proof.
  unfold recordHealthCheck, record_failure, transitionStateLocked, markForRebuildWithReason, setHealthLocked.
  repeat (case_match; simpl); done.
Qed.

Lemma record_check_from_checking cfg now ok c :
  state c = StateChecking → state (recordHealthCheck cfg now ok c) = StateAcquired.
Proof.
  intros Hs. unfold recordHealthCheck.
  set (c1 := if ok then _ else _). assert (E : state c1 = StateChecking).
  { unfold c1. destruct ok; [done|by rewrite record_failure_state]. }
  unfold transitionStateLocked, canTransitionTo. by rewrite E.
Qed.

(** A step of a user keeps its point and the state in step. *)
Lemma user_event_fits c u e c' u' :
  user_event c u e = Some (c', u') → (u ≠ Out → fits u (state c)) →
  rebuilding c' = rebuilding c ∧ (u ≠ Out → fits u' (state c')) ∧
  (u = Out → (u' = Out ∧ c' = c) ∨ (u' = Holds ∧ state c = StateIdle ∧ state c' = StateAcquired)).
Proof.
  intros E Hf. destruct u as [| | |b|], e; try discriminate E; cbn [user_event] in E.
  - pose proof (tryAcquire_rebuilding now c) as Hr. pose proof (tryAcquire_success now c) as Hs.
    pose proof (tryAcquire_failure now c) as Hx.
    destruct (tryAcquireForTask now c) as [c1 []]; simpl in *; injection E as <- <-.
    + destruct Hs as (? & ? & ?); [done|]. split; [done|]. split; [done|]. auto.
    + rewrite Hx by done. split; [done|]. split; [done|]. auto.
  - injection E as <- <-. split; [done|]. split; [|done]. intros Hu. destruct (Hf Hu); [by left|by right].
  - unfold beginHealthCheck in E. specialize (Hf ltac:(done)).
    destruct (transition_cases c StateChecking) as [[Ht Hc]|[Ht Hc]]; rewrite Hc in E; injection E as <- <-;
      (split; [done|]; split; [|done]); intros _; [by left|done].
  - injection E as <- <-. unfold release, transitionStateLocked, canTransitionTo. specialize (Hf ltac:(done)).
    destruct Hf as [[= <-]|Hc].
    + simpl. split; [done|]. split; [by left|done].
    + destruct (decide (state c = StateAcquired)) as [Ha|Ha]; [by rewrite Ha in Hc; destruct Hc|].
      rewrite (bool_decide_false _ Ha). simpl. split; [done|]. split; [by right|done].
  - specialize (Hf ltac:(done)). case_bool_decide as Ha.
    + unfold transitionState in E. destruct (transition_cases c StateExecuting) as [[Ht Hc]|[Ht Hc]].
      * rewrite Hc in E. injection E as <- <-. split; [done|]. split; [by left|done].
      * by rewrite Ha in Ht.
    + injection E as <- <-. split; [done|]. split; [|done]. intros _. destruct Hf as [[= Hx]|Hc]; [done|by right].
  - specialize (Hf ltac:(done)). injection E as <- <-. unfold count_request.
    split; [destruct ok, b; simpl; unfold transitionState, transitionStateLocked, canTransitionTo; by case_tests|].
    split; [|done]. intros _. destruct Hf as [Hs|Hc].
    + destruct b; [|done]. injection Hs as Hs. left.
      destruct ok; simpl; unfold transitionState, transitionStateLocked, canTransitionTo; simpl; by rewrite <- Hs.
    + right. destruct b, ok; simpl; try done; by apply transition_from_closing.
  - specialize (Hf ltac:(done)). injection E as <- <-. split; [apply record_check_rebuilding|]. split; [|done].
    intros _. destruct Hf as [[= Hs]|Hc].
    + left. by rewrite record_check_from_checking.
    + right. by apply (conn_step_closing c (OpRecordCheck cfg now ok)).
Qed.

(** A step of a rebuild leaves the state or starts or completes the closing. *)
Lemma rebuild_event_fits c p e c' o p' :
  rebuild_event c p e = Some (c', o, p') → (active p = true → rebuilding c = true) →
  (state c' = state c ∨ closing (state c')) ∧
  (Nat.b2n (active p') + Nat.b2n (rebuilding c) = Nat.b2n (active p) + Nat.b2n (rebuilding c'))%nat.
Proof.
  intros E Ha. destruct p, e; try discriminate E; cbn [rebuild_event] in E.
  - injection E as <- <- <-. split; [by left|]. by destruct (canStartRebuild c).
  - unfold beginRebuild in E. destruct (rebuilding c) eqn:Er; [by injection E as <- <- <-; rewrite Er; split; [left|]|].
    destruct (state c) eqn:Es; injection E as <- <- <-; simpl; rewrite ?Er, ?Es; (split; [by left|done]).
  - specialize (Ha eq_refl). unfold beginClose in E.
    destruct (transition_cases c StateClosing) as [[Ht Hc]|[Ht Hc]]; rewrite Hc in E; simpl in E.
    + injection E as <- <- <-. simpl. split; [by right; left|done].
    + destruct (bool_decide _ || _); injection E as <- <- <-; unfold completeRebuild; rewrite ?Ha; simpl; rewrite ?Ha;
        (split; [by left|done]).
  - specialize (Ha eq_refl). injection E as <- <- <-. unfold completeClose.
    case_bool_decide as Hs; simpl; [|split; [by left|by rewrite Ha]].
    destruct (transition_cases c StateClosed) as [[Ht Hc]|[Ht Hc]]; rewrite Hc; simpl;
      (split; [first [by left|by right; right]|by rewrite Ha]).
  - specialize (Ha eq_refl). injection E as <- <- <-. unfold completeRebuild. rewrite Ha. simpl.
    destruct ok; simpl; (split; [by left|done]).
Qed.

Lemma count_one_other {A} (p : A → bool) (l : list A) i j x y :
  (count p l ≤ 1)%nat → l !! i = Some x → l !! j = Some y → p x = true → i ≠ j → p y = false.
Proof.
  intros Hc Hi Hj Hx Hne. destruct (p y) eqn:Hy; [|done].
  pose proof (count_two p l i j x y Hi Hj Hx Hy Hne). lia.
Qed.

Lemma inside_spec u : inside u = true ↔ u ≠ Out.
Proof. unfold inside. destruct u; split; done. Qed.

Lemma sharing_user s i u e c u' :
  sharing_ok s → users s !! i = Some u → user_event (conn s) u e = Some (c, u') →
  sharing_ok { s with conn := c; users ::= <[i := u']> }.
Proof.
  intros [H1 H2 H3 H4] Hi E.
  destruct (user_event_fits _ _ _ _ _ E (H3 i u Hi)) as (Hr & Hfit & Hout).
  pose proof (count_insert inside _ i u u' Hi) as Hc.
  destruct (decide (u = Out)) as [->|Hu].
  - destruct (Hout eq_refl) as [[-> ->]|(-> & Hidle & Hacq)].
    + assert (Heq : <[i := Out]> (users s) = users s) by by apply list_insert_id. split; simpl; rewrite ?Heq; done.
    + assert (Hnone : ∀ j u', users s !! j = Some u' → u' = Out).
      { intros j u' Hj. destruct (decide (u' = Out)) as [->|Hu']; [done|].
        by destruct (user_inside_not_idle u' (state (conn s)) Hu' (H3 j u' Hj Hu')). }
      assert (Hz : count inside (users s) = 0%nat).
      { apply count_none, Forall_forall. intros x [j Hj]%list_elem_of_lookup_1. by rewrite (Hnone j x Hj). }
      simpl in Hc. split; simpl; [lia|lia| |by rewrite Hr].
      intros j u' Hj Hu'. destruct (decide (i = j)) as [<-|Hne].
      * rewrite list_lookup_insert_eq in Hj by (by eapply lookup_lt_Some). injection Hj as <-. left. simpl. congruence.
      * rewrite list_lookup_insert_ne in Hj by done. by destruct Hu'; eapply Hnone.
  - pose proof (proj2 (inside_spec u) Hu) as Hin. rewrite Hin in Hc. simpl in Hc.
    assert (Hb : (Nat.b2n (inside u') ≤ 1)%nat) by (destruct (inside u'); simpl; lia).
    split; simpl; [lia| | |by rewrite Hr].
    + intros Hz. specialize (Hfit Hu). destruct (decide (u' = Out)) as [->|Hu']; [done|].
      rewrite (proj2 (inside_spec u') Hu') in Hc. pose proof (count_pos inside _ i u Hi Hin). simpl in Hc. lia.
    + intros j u'' Hj Hu''. destruct (decide (i = j)) as [<-|Hne].
      * rewrite list_lookup_insert_eq in Hj by (by eapply lookup_lt_Some). injection Hj as <-. by apply Hfit.
      * rewrite list_lookup_insert_ne in Hj by done. exfalso.
        pose proof (count_one_other inside _ i j u u'' H1 Hi Hj Hin Hne) as Hf.
        by rewrite (proj2 (inside_spec u'') Hu'') in Hf.
Qed.

Lemma sharing_rebuild s j p e c o p' :
  sharing_ok s → rebuilds s !! j = Some p → rebuild_event (conn s) p e = Some (c, o, p') →
  sharing_ok { s with conn := c; rebuilds ::= <[j := p']>; driver_open ::= andb o }.
Proof.
  intros [H1 H2 H3 H4] Hj E.
  destruct (rebuild_event_fits _ _ _ _ _ _ E) as [Hst Hcount].
  { intros Hp. pose proof (count_pos active _ j p Hj Hp) as Hpos. destruct (rebuilding (conn s)); [done|simpl in *; lia]. }
  pose proof (count_insert active _ j p p' Hj) as Hc.
  assert (Hkeep : ∀ u, fits u (state (conn s)) → fits u (state c)).
  { intros u Hu. destruct Hst as [->|Hst]; [done|by right]. }
  split; simpl; [done|auto|eauto|lia].
Qed.

Lemma shared_step_ok s e s' : sharing_ok s → shared_step s e = Some s' → sharing_ok s'.
Proof.
  intros Hs. unfold shared_step.
  assert (Huser : ∀ i, match users s !! i with
    | Some u => (λ '(c, u'), { s with conn := c; users ::= <[i := u']> }) <$> user_event (conn s) u e
    | None => None end = Some s' → sharing_ok s').
  { intros i. destruct (users s !! i) as [u|] eqn:Ei; [|done].
    destruct (user_event (conn s) u e) as [[c u']|] eqn:E; [|done]. intros [= <-]. by eapply sharing_user. }
  assert (Hreb : ∀ j, match rebuilds s !! j with
    | Some p => (λ '(c, o, p'), { s with conn := c; rebuilds ::= <[j := p']>; driver_open ::= andb o })
                  <$> rebuild_event (conn s) p e
    | None => None end = Some s' → sharing_ok s').
  { intros j. destruct (rebuilds s !! j) as [p|] eqn:Ej; [|done].
    destruct (rebuild_event (conn s) p e) as [[[c o] p']|] eqn:E; [|done]. intros [= <-]. by eapply sharing_rebuild. }
  destruct e; try apply Huser; try apply Hreb. intros [= <-]. destruct Hs as [H1 H2 H3 H4].
  assert (Hm : state (markForRebuildWithReason (conn s) reason).1 = state (conn s) ∧
               rebuilding (markForRebuildWithReason (conn s) reason).1 = rebuilding (conn s))
    by (unfold markForRebuildWithReason; by destruct (markedForRebuild _)).
  destruct Hm as [Hm1 Hm2]. split; simpl; rewrite ?Hm1, ?Hm2; done.
Qed.

Lemma shared_run_ok s l s' : sharing_ok s → shared_run s l = Some s' → sharing_ok s'.
Proof.
  revert s. induction l as [|e l IH]; intros s Hs; simpl; [by intros [= <-]|].
  destruct (shared_step s e) as [s1|] eqn:E; [|done]. apply IH. by eapply shared_step_ok.
Qed.

Lemma fresh_ok n m now : sharing_ok (fresh n m now).
Proof.
  split; simpl; rewrite ?count_replicate by done; [lia|by left| |done].
  intros i u [-> _]%lookup_replicate. done.
Qed.

(** C17: in every interleaving of tasks, health checks and rebuilds at most one of
    them has the connection between acquiring and releasing it, at most one
    rebuild is past its start, and while one is nobody can acquire; whoever holds
    the connection finds it in the state it expects, or closing or closed. *)
Theorem connection_exclusive n m now l s :
  shared_run (fresh n m now) l = Some s →
  (∀ i j u v, users s !! i = Some u → users s !! j = Some v → u ≠ Out → v ≠ Out → i = j) ∧
  (∀ i j p q, rebuilds s !! i = Some p → rebuilds s !! j = Some q → active p = true → active q = true → i = j) ∧
  (∀ j p t, rebuilds s !! j = Some p → active p = true → (tryAcquireForTask t (conn s)).2 = false) ∧
  (∀ i u, users s !! i = Some u → u ≠ Out → fits u (state (conn s))).
Proof.
  intros Hrun. destruct (shared_run_ok _ _ _ (fresh_ok n m now) Hrun) as [H1 H2 H3 H4]. split_and!.
  - intros i j u v Hi Hj Hu%inside_spec Hv%inside_spec. destruct (decide (i = j)) as [|Hne]; [done|].
    pose proof (count_two inside _ i j u v Hi Hj Hu Hv Hne). lia.
  - intros i j p q Hi Hj Hp Hq. destruct (decide (i = j)) as [|Hne]; [done|].
    pose proof (count_two active _ i j p q Hi Hj Hp Hq Hne). destruct (rebuilding (conn s)); simpl in *; lia.
  - intros j p t Hj Hp. pose proof (count_pos active _ j p Hj Hp). unfold tryAcquireForTask.
    destruct (rebuilding (conn s)); [|simpl in *; lia]. by case_tests.
  - done.
Qed.

(** A task takes the connection between the rebuild's check and its start. *)
Definition demo_race : list event :=
  [RebuildCheck 0; Acquire 0 1; RebuildBegin 0; RebuildClose 0; Use 0; ExecBegin 0; RebuildRemove 0].

Definition after_race (n : nat) (now : Z) : shared :=
  default (fresh n 1 now) (shared_run (fresh n 1 now) demo_race).

Lemma connection_exclusive_witness :
  let s := after_race 2 0 in
  users s !! 0%nat = Some (Runs false) ∧
  (∀ i j u v, users s !! i = Some u → users s !! j = Some v → u ≠ Out → v ≠ Out → i = j) ∧
  (∀ i j p q, rebuilds s !! i = Some p → rebuilds s !! j = Some q → active p = true → active q = true → i = j) ∧
  (∀ j p t, rebuilds s !! j = Some p → active p = true → (tryAcquireForTask t (conn s)).2 = false) ∧
  (∀ i u, users s !! i = Some u → u ≠ Out → fits u (state (conn s))).
Proof.
  intros s. split; [vm_compute; reflexivity|]. apply (connection_exclusive 2 1 0 demo_race).
  vm_compute. reflexivity.
Defined.

(** A rebuild can close a connection under a running task: when the task
    acquires it after [canStartRebuild] has seen it idle and before
    [beginRebuild], which does not look at the state again, the driver is closed
    while the task is in [Execute]. *)
Theorem rebuild_closes_in_use now :
  ∃ l s, shared_run (fresh 1 1 now) l = Some s ∧
    users s !! 0%nat = Some (Runs false) ∧ state (conn s) = StateClosed ∧ driver_open s = false.
Proof. exists demo_race, (after_race 1 now). split_and!; vm_compute; reflexivity. Qed.
