(* ===== verification/Rebuild.v ===== *)
(** * Rebuild: which connections are replaced and which are removed
    ([src/connection/rebuild_manager.go], [shouldCleanupConnection] of
    [src/connection/pool_enhanced.go])

    The rebuild manager marks an idle connection that has been used too often,
    has grown too old or fails too often, by the configured strategy; the
    clean-up removes unhealthy, stuck and idle connections. *)
From S2P Require Import Prelude GoStrings GoFloat Types Config ConnState.
Local Open Scope string_scope.
Local Open Scope Z_scope.
Implicit Types (c : EnhancedPooledConnection) (cfg : EnhancedConnectionConfig).

Section manager.
(** [%v] of a duration and [%.2f] of a number. *)
Context (show_duration : Z → string) (show_rate : float64 → string).

Definition usage_exceeded cfg c : bool := RebuildMaxUsageCount cfg <=? usageCount c.
Definition age_exceeded cfg (now : Z) c : bool := RebuildMaxAge cfg <=? time_sub now (createdAt c).
Definition error_rate c : float64 := fdiv (of_int (totalErrors c)) (of_int (totalRequests c)).
Definition enough_requests cfg c : bool := RebuildMinRequestsForErrorRate cfg <=? totalRequests c.
Definition error_exceeded cfg c : bool :=
  enough_requests cfg c && (0 <? totalRequests c) && fle (RebuildMaxErrorRate cfg) (error_rate c).

Definition usage_reason cfg c : string :=
  "usage_count_exceeded: usage=" +:+ itoa (usageCount c) +:+ ", max=" +:+ itoa (RebuildMaxUsageCount cfg).
Definition age_reason cfg (now : Z) c : string :=
  "age_exceeded: age=" +:+ show_duration (time_sub now (createdAt c)) +:+ ", max=" +:+ show_duration (RebuildMaxAge cfg).
Definition rates cfg c : string :=
  "requests=" +:+ itoa (totalRequests c) +:+ ", errors=" +:+ itoa (totalErrors c) +:+ ", rate=" +:+
  show_rate (error_rate c) +:+ ", max=" +:+ show_rate (RebuildMaxErrorRate cfg).
Definition error_reason cfg c : string := "error_rate_exceeded: " +:+ rates cfg c.

(** The mark with its reason; another goroutine may have set it in between. *)
Definition mark c (reason : string) : EnhancedPooledConnection * bool * string :=
  match markForRebuildWithReason c reason with
  | (c, true) => (c, true, reason)
  | (c, false) => (c, false, "already_marked_by_other")
  end.

Definition evaluateUsageAndMark cfg c : EnhancedPooledConnection * bool * string :=
  if usage_exceeded cfg c then mark c (usage_reason cfg c)
  else (c, false, "usage_count_ok: usage=" +:+ itoa (usageCount c) +:+ ", max=" +:+ itoa (RebuildMaxUsageCount cfg)).

Definition evaluateAgeAndMark cfg (now : Z) c : EnhancedPooledConnection * bool * string :=
  if age_exceeded cfg now c then mark c (age_reason cfg now c)
  else (c, false, "age_ok: age=" +:+ show_duration (time_sub now (createdAt c)) +:+ ", max=" +:+
                  show_duration (RebuildMaxAge cfg)).

Definition evaluateErrorAndMark cfg c : EnhancedPooledConnection * bool * string :=
  if negb (enough_requests cfg c)
  then (c, false, "insufficient_requests: requests=" +:+ itoa (totalRequests c) +:+ ", min=" +:+
                  itoa (RebuildMinRequestsForErrorRate cfg))
  else if 0 <? totalRequests c then
    if fle (RebuildMaxErrorRate cfg) (error_rate c) then mark c (error_reason cfg c)
    else (c, false, "error_rate_ok: " +:+ rates cfg c)
  else (c, false, "no_requests").

Fixpoint join (sep : string) (l : list string) : string :=
  match l with
  | [] => ""
  | [x] => x
  | x :: l => x +:+ sep +:+ join sep l
  end.

Definition evaluateAllAndMark cfg (now : Z) c : EnhancedPooledConnection * bool * string :=
  let reasons := (
    (if usage_exceeded cfg c
     then ["usage=" +:+ itoa (usageCount c) +:+ ">=" +:+ itoa (RebuildMaxUsageCount cfg)] else []) ++
    (if age_exceeded cfg now c
     then ["age=" +:+ show_duration (time_sub now (createdAt c)) +:+ ">=" +:+ show_duration (RebuildMaxAge cfg)] else []) ++
    (if error_exceeded cfg c
     then ["error_rate=" +:+ show_rate (error_rate c) +:+ ">=" +:+ show_rate (RebuildMaxErrorRate cfg)] else []))%list in
  if (length reasons =? 3)%nat then mark c ("all_conditions_met: " +:+ join ", " reasons)
  else (c, false, "not_all_conditions: conditions=" +:+ itoa (Z.of_nat (length reasons)) +:+ "/3, " +:+ join ", " reasons).

Definition evaluateAnyAndMark cfg (now : Z) c : EnhancedPooledConnection * bool * string :=
  if usage_exceeded cfg c then mark c (usage_reason cfg c)
  else if age_exceeded cfg now c then mark c (age_reason cfg now c)
  else if error_exceeded cfg c then mark c (error_reason cfg c)
  else (c, false, "no_conditions_met").

Definition evaluateByStrategyAndMark cfg (now : Z) c : EnhancedPooledConnection * bool * string :=
  let s := RebuildStrategy cfg in
  if String.eqb s RebuildStrategyUsage then evaluateUsageAndMark cfg c
  else if String.eqb s RebuildStrategyAge then evaluateAgeAndMark cfg now c
  else if String.eqb s RebuildStrategyError then evaluateErrorAndMark cfg c
  else if String.eqb s RebuildStrategyAll then evaluateAllAndMark cfg now c
  else evaluateAnyAndMark cfg now c.

Definition checkRebuildEnabled cfg : bool := SmartRebuildEnabled cfg.

Definition checkRebuildInterval cfg c (now : Z) : bool :=
  negb (time_sub now (default (createdAt c) (lastRebuiltAt c)) <? RebuildMinInterval cfg).

Definition checkConnectionState c : bool :=
  negb (negb (isIdle c) || rebuilding c || bool_decide (state c = StateClosing) || bool_decide (state c = StateClosed)).

Definition EvaluateAndMark cfg (now : Z) c : EnhancedPooledConnection * bool * string :=
  if markedForRebuild c then (c, false, rebuildReason c)
  else if negb (checkRebuildEnabled cfg) then (c, false, "rebuild_disabled")
  else if negb (checkRebuildInterval cfg c now) then (c, false, "interval_too_short")
  else if negb (checkConnectionState c) then (c, false, "invalid_state")
  else evaluateByStrategyAndMark cfg now c.

Definition ShouldRebuild cfg (now : Z) c : EnhancedPooledConnection * bool :=
  if markedForRebuild c then (c, true) else (EvaluateAndMark cfg now c).1.

Definition GetRebuildReason cfg (now : Z) c : string :=
  if usage_exceeded cfg c
  then "usage_exceeded(" +:+ itoa (usageCount c) +:+ ">=" +:+ itoa (RebuildMaxUsageCount cfg) +:+ ")"
  else if age_exceeded cfg now c
  then "age_exceeded(" +:+ show_duration (time_sub now (createdAt c)) +:+ ">=" +:+ show_duration (RebuildMaxAge cfg) +:+ ")"
  else if error_exceeded cfg c
  then "error_rate_exceeded(" +:+ show_rate (error_rate c) +:+ ">=" +:+ show_rate (RebuildMaxErrorRate cfg) +:+ ")"
  else if enough_requests cfg c && fle (RebuildMaxErrorRate cfg) (error_rate c)
  then "error_rate(" +:+ show_rate (error_rate c) +:+ ")"
  else "".

(** ** When a connection is marked *)

(** The condition of a strategy; an unknown strategy is "any". *)
Definition strategy_met cfg (now : Z) c : bool :=
  let s := RebuildStrategy cfg in
  if String.eqb s RebuildStrategyUsage then usage_exceeded cfg c
  else if String.eqb s RebuildStrategyAge then age_exceeded cfg now c
  else if String.eqb s RebuildStrategyError then error_exceeded cfg c
  else if String.eqb s RebuildStrategyAll then usage_exceeded cfg c && age_exceeded cfg now c && error_exceeded cfg c
  else usage_exceeded cfg c || age_exceeded cfg now c || error_exceeded cfg c.

Lemma mark_fresh c r :
  markedForRebuild c = false → mark c r = ({ c with markedForRebuild := true; rebuildReason := r }, true, r).
Proof. intros Hm. unfold mark, markForRebuildWithReason. by rewrite Hm. Qed.

Lemma evaluateByStrategy_spec cfg now c :
  markedForRebuild c = false →
  let '(c', ok, reason) := evaluateByStrategyAndMark cfg now c in
  ok = strategy_met cfg now c ∧
  c' = (if ok then { c with markedForRebuild := true; rebuildReason := reason } else c).
Proof.
  intros Hm. unfold evaluateByStrategyAndMark, strategy_met. cbv zeta.
  destruct (String.eqb _ RebuildStrategyUsage).
  { unfold evaluateUsageAndMark. destruct (usage_exceeded cfg c); [rewrite mark_fresh by done|]; done. }
  destruct (String.eqb _ RebuildStrategyAge).
  { unfold evaluateAgeAndMark. destruct (age_exceeded cfg now c); [rewrite mark_fresh by done|]; done. }
  destruct (String.eqb _ RebuildStrategyError).
  { unfold evaluateErrorAndMark, error_exceeded. destruct (enough_requests cfg c), (0 <? totalRequests c); simpl; try done.
    destruct (fle _ _); [rewrite mark_fresh by done|]; done. }
  destruct (String.eqb _ RebuildStrategyAll).
  { unfold evaluateAllAndMark.
    destruct (usage_exceeded cfg c), (age_exceeded cfg now c), (error_exceeded cfg c); simpl; try done.
    by rewrite mark_fresh. }
  unfold evaluateAnyAndMark.
  destruct (usage_exceeded cfg c); [by rewrite mark_fresh|].
  destruct (age_exceeded cfg now c); [by rewrite mark_fresh|].
  destruct (error_exceeded cfg c); [by rewrite mark_fresh|done].
Qed.

(** A connection is marked for a rebuild exactly when it is not marked yet,
    rebuilding is enabled, it is idle and not being rebuilt, the minimal interval
    since its last rebuild (or its creation) has passed and the condition of the
    configured strategy holds; marking changes the mark and the reason only, and
    a marked connection keeps its first reason. *)
Theorem EvaluateAndMark_spec cfg now c :
  let '(c', ok, reason) := EvaluateAndMark cfg now c in
  (ok = true ↔
    markedForRebuild c = false ∧ SmartRebuildEnabled cfg = true ∧ state c = StateIdle ∧ rebuilding c = false ∧
    RebuildMinInterval cfg ≤ time_sub now (default (createdAt c) (lastRebuiltAt c)) ∧
    strategy_met cfg now c = true) ∧
  c' = (if ok then { c with markedForRebuild := true; rebuildReason := reason } else c) ∧
  (markedForRebuild c = true → reason = rebuildReason c).
Proof.
  unfold EvaluateAndMark, checkRebuildEnabled, checkRebuildInterval, checkConnectionState, isIdle.
  destruct (markedForRebuild c) eqn:Em; [naive_solver|]. destruct (SmartRebuildEnabled cfg) eqn:Es; simpl; [|naive_solver].
  destruct (Z.ltb_spec (time_sub now (default (createdAt c) (lastRebuiltAt c))) (RebuildMinInterval cfg)) as [Hi|Hi]; simpl.
  { split; [|done]. split; [done|]. intros (_ & _ & _ & _ & ? & _). lia. }
  destruct (state c) eqn:Est; simpl; try naive_solver. destruct (rebuilding c) eqn:Er; simpl; [naive_solver|].
  pose proof (evaluateByStrategy_spec cfg now c Em) as Hspec.
  destruct (evaluateByStrategyAndMark cfg now c) as [[c' ok] reason]. destruct Hspec as [Hok Hc'].
  split; [|done]. rewrite Hok. naive_solver.
Qed.

(** Once marked a connection is not evaluated again, and should be rebuilt. *)
Lemma ShouldRebuild_marks cfg now c :
  (ShouldRebuild cfg now c).2 = true → markedForRebuild (ShouldRebuild cfg now c).1 = true.
Proof.
  unfold ShouldRebuild. destruct (markedForRebuild c) eqn:Em; [done|].
  unfold EvaluateAndMark. rewrite Em. destruct (checkRebuildEnabled cfg); [|done].
  destruct (checkRebuildInterval cfg c now); [|done]. destruct (checkConnectionState c); [|done]. simpl.
  pose proof (evaluateByStrategy_spec cfg now c Em) as Hspec.
  destruct (evaluateByStrategyAndMark cfg now c) as [[c' ok] reason]. simpl. destruct Hspec as [_ ->].
  by intros ->.
Qed.
End manager.

(** ** The clean-up *)

(** The time after which a connection counts as stuck in a state. *)
Definition or_default (t d : Z) : Z := if t =? 0 then d else t.
Definition stuck_timeout cfg (s : ConnectionState) : Z :=
  match s with
  | StateClosing => or_default (StuckTimeoutClosing cfg) Minute
  | StateConnecting => or_default (StuckTimeoutConnecting cfg) (30 * Second)
  | StateAcquired => or_default (StuckTimeoutAcquired cfg) (10 * Minute)
  | StateExecuting => or_default (StuckTimeoutExecuting cfg) (10 * Minute)
  | StateChecking => or_default (StuckTimeoutChecking cfg) (2 * Minute)
  | _ => 6 * Minute
  end.

Definition shouldCleanupConnection cfg (idleTimeout : Z) c (now : Z) : bool :=
  if 0 <? usingCount c then false
  else
    let idleTime := time_sub now (lastUsed c) in
    if bool_decide (healthStatus c = HealthStatusUnhealthy) then true
    else if negb (bool_decide (state c = StateIdle)) then
      match state c with
      | StateClosed => true
      | s => stuck_timeout cfg s <? idleTime
      end
    else if rebuilding c then or_default (StuckTimeoutRebuildIdle cfg) (2 * Minute) <? idleTime
    else idleTimeout <? idleTime.

(** The clean-up never removes a connection whose driver is executing; it
    removes every other unhealthy or closed one, whatever its age, and any other
    exactly when it has not been used for longer than its state allows, which for
    an idle connection outside a rebuild is the idle time-out. *)
Theorem cleanup_spec cfg idleTimeout c now :
  shouldCleanupConnection cfg idleTimeout c now = true ↔
    usingCount c ≤ 0 ∧
    (healthStatus c = HealthStatusUnhealthy ∨ state c = StateClosed ∨
     (if decide (state c = StateIdle)
      then if rebuilding c then or_default (StuckTimeoutRebuildIdle cfg) (2 * Minute) else idleTimeout
      else stuck_timeout cfg (state c)) < time_sub now (lastUsed c)).
Proof.
  unfold shouldCleanupConnection. destruct (Z.ltb_spec 0 (usingCount c)) as [Hu|Hu]; [naive_solver lia|].
  destruct (decide (healthStatus c = HealthStatusUnhealthy)) as [Hh|Hh].
  { rewrite (bool_decide_true _ Hh). naive_solver. }
  rewrite (bool_decide_false _ Hh).
  destruct (state c) eqn:Es; simpl; [destruct (rebuilding c)|..]; rewrite ?Z.ltb_lt; naive_solver.
Qed.

(** A connection that is not healthy enough for a task is cleaned up at once: it
    is idle, unused, and refused by [tryAcquireForTask]. *)
Lemma unhealthy_is_cleaned cfg idleTimeout c now t :
  usingCount c ≤ 0 → healthStatus c = HealthStatusUnhealthy →
  (tryAcquireForTask t c).2 = false ∧ shouldCleanupConnection cfg idleTimeout c now = true.
Proof.
  intros Hu Hh. split; [|by apply cleanup_spec; naive_solver].
  unfold tryAcquireForTask. rewrite (bool_decide_true _ Hh). by case_tests.
Qed.
