(* ===== verification/Resilience.v ===== *)
(** * Resilience: retries and the circuit breaker ([src/connection/resilience.go],
    [createConnectionRetryExecutor] of [src/connection/pool_enhanced.go])

    An error is the list of the errors it wraps, outermost first, so that
    [errors.Is] is membership. A retried operation acts on a world with a clock. *)
From S2P Require Import Prelude GoStrings GoFloat GoContext Config.
Local Open Scope string_scope.
Local Open Scope Z_scope.

Abbreviation error := (list string).
Definition errors_Is (e : error) (target : string) : bool := existsb (String.eqb target) e.

Definition ErrCircuitBreakerOpen : string := "circuit breaker is open".
Definition ErrMaxRetriesExceeded : string := "maximum retries exceeded".
Definition ErrRetryContextCancelled : string := "retry context cancelled".

(** ** Policies *)

(** [type RetryPolicy interface]. [NextDelay] also gets the random number of the
    attempt, from 0 (included) to 1. *)
Record RetryPolicy := mk_policy {
  ShouldRetry : Z → error → bool;
  NextDelay : float64 → Z → Z;
  GetMaxAttempts : Z }.

(** Both policies decide alike. *)
Definition should_retry (maxAttempts : Z) (retryable : list string) (attempt : Z) (err : error) : bool :=
  if maxAttempts <=? attempt then false
  else match retryable with [] => true | _ => existsb (errors_Is err) retryable end.

(** The loop of [NextDelay]: [n] multiplications, cut at the maximum. *)
Fixpoint grow_delay (factor : float64) (maxDelay : Z) (n : nat) (delay : Z) : Z :=
  match n with
  | O => delay
  | S n => let delay := truncate (fmul (of_int delay) factor) in
           if maxDelay <? delay then maxDelay else grow_delay factor maxDelay n delay
  end.

Definition with_jitter (rnd : float64) (delay : Z) : Z :=
  wrap64 (delay + truncate (fmul (fmul (of_int delay) (ratio 1 10)) (fsub (ratio 1 2) rnd))).

Definition ExponentialBackoffPolicy (baseDelay maxDelay : Z) (factor : float64) (maxAttempts : Z) (jitter : bool)
    (retryable : list string) : RetryPolicy := {|
  ShouldRetry := should_retry maxAttempts retryable;
  NextDelay rnd attempt :=
    if attempt <=? 0 then 0
    else let delay := grow_delay factor maxDelay (Z.to_nat (attempt - 1)) baseDelay in
         if jitter then with_jitter rnd delay else delay;
  GetMaxAttempts := maxAttempts |}.

Definition FixedIntervalPolicy (interval maxAttempts : Z) (retryable : list string) : RetryPolicy := {|
  ShouldRetry := should_retry maxAttempts retryable;
  NextDelay _ attempt := if attempt <=? 0 then 0 else interval;
  GetMaxAttempts := maxAttempts |}.

Definition DefaultExponentialBackoff : RetryPolicy :=
  ExponentialBackoffPolicy (2 * Second) (10 * Second) (ratio 3 2) 2 true [].
Definition DefaultFixedInterval : RetryPolicy := FixedIntervalPolicy Second 3 [].

(** ** The retrier *)
Section retrier.
Context {W : Type} (clock : W → Z) (set_clock : Z → W → W).
(** The random numbers, the callback with the metric, and which case of a
    [select] is taken when both are ready. *)
Context (rnd : Z → float64) (on_retry : Z → error → W → W) (done_first : bool).
Context (policy : RetryPolicy).

(** [select] on [ctx.Done()] and [time.After(delay)]; [false] when the context ended. *)
Definition wait_delay (ctx : Context) (delay : Z) (w : W) : W * bool :=
  let timer := clock w + delay in
  match ctx_end ctx with
  | Some t => if (t <? timer) || ((t =? timer) && done_first)
              then (set_clock (Z.max (clock w) t) w, false) else (set_clock timer w, true)
  | None => (set_clock timer w, true)
  end.

Definition exceeded (last : option error) : error := ErrMaxRetriesExceeded :: default [] last.

Fixpoint attempts (n : nat) (attempt : Z) (ctx : Context) (operation : W → W * option error)
    (last : option error) (w : W) : W * option error :=
  match n with
  | O => (w, Some (exceeded last))
  | S n =>
      if reached (ctx_end ctx) (clock w) then (w, Some [ErrRetryContextCancelled])
      else match operation w with
           | (w, None) => (w, None)
           | (w, Some e) =>
               if negb (ShouldRetry policy (attempt + 1) e) then (w, Some (exceeded (Some e)))
               else
                 let w := on_retry (attempt + 1) e w in
                 let delay := NextDelay policy (rnd (attempt + 1)) (attempt + 1) in
                 if 0 <? delay then
                   match wait_delay ctx delay w with
                   | (w, true) => attempts n (attempt + 1) ctx operation (Some e) w
                   | (w, false) => (w, Some [ErrRetryContextCancelled])
                   end
                 else attempts n (attempt + 1) ctx operation (Some e) w
           end
  end.

Definition Retrier_Execute (timeout : Z) (ctx : Context) (operation : W → W * option error) (w : W) : W * option error :=
  let ctx := if 0 <? timeout then with_timeout ctx (clock w) timeout else ctx in
  attempts (Z.to_nat (GetMaxAttempts policy)) 0 ctx operation None w.
End retrier.

(** ** The circuit breaker *)

Inductive CircuitBreakerState := CircuitBreakerClosed | CircuitBreakerOpen | CircuitBreakerHalfOpen.
#[global] Instance CircuitBreakerState_eq_dec : EqDecision CircuitBreakerState.
Proof. solve_decision. Defined.

Record CircuitBreakerConfig := mk_breaker_config {
  MaxFailures : Z;
  ResetTimeout : Z;
  FailureThreshold : float64;
  MinRequests : Z;
  MaxRequests : Z }.

Record CircuitBreaker := mk_breaker {
  cb_state : CircuitBreakerState;
  failures : Z;
  requests : Z;
  successes : Z;
  lastFailTime : option Z;
  nextRetryTime : Z;
  halfOpenRequests : Z;
  halfOpenFailures : Z;
  changes : list (CircuitBreakerState * CircuitBreakerState) }.   (* what the callback was told *)
Implicit Types (cb : CircuitBreaker) (cfg : CircuitBreakerConfig).

(** [CircuitBreakerState.String] and [GetStats]. *)
Definition show_state (s : CircuitBreakerState) : string :=
  match s with CircuitBreakerClosed => "closed" | CircuitBreakerOpen => "open" | CircuitBreakerHalfOpen => "half-open" end.
Record CircuitBreakerStats := mk_breaker_stats {
  st_State : CircuitBreakerState;
  st_Requests : Z; st_Successes : Z; st_Failures : Z;
  st_LastFailTime : option Z; st_NextRetryTime : Z;
  st_HalfOpenRequests : Z; st_HalfOpenFailures : Z }.
Definition cb_GetStats cb : CircuitBreakerStats :=
  mk_breaker_stats (cb_state cb) (requests cb) (successes cb) (failures cb) (lastFailTime cb) (nextRetryTime cb)
    (halfOpenRequests cb) (halfOpenFailures cb).

Definition NewCircuitBreaker : CircuitBreaker := mk_breaker CircuitBreakerClosed 0 0 0 None 0 0 0 [].

Definition setState (s : CircuitBreakerState) cb : CircuitBreaker :=
  { cb with cb_state := s; changes ::= (λ l, if decide (cb_state cb = s) then l else (l ++ [(cb_state cb, s)])%list) }.

Definition reset cb : CircuitBreaker := { cb with requests := 0; successes := 0; failures := 0 }.

Definition allowRequest cfg (now : Z) cb : CircuitBreaker * bool :=
  match cb_state cb with
  | CircuitBreakerClosed => (cb, true)
  | CircuitBreakerOpen =>
      if nextRetryTime cb <? now
      then ({ setState CircuitBreakerHalfOpen cb with halfOpenRequests := 0; halfOpenFailures := 0 }, true)
      else (cb, false)
  | CircuitBreakerHalfOpen => (cb, halfOpenRequests cb <? MaxRequests cfg)
  end.

(** [x++] of an [int]. *)
Definition incr (z : Z) : Z := wrap64 (z + 1).

Definition shouldTrip cfg cb : bool :=
  if MaxFailures cfg <=? failures cb then true
  else if MinRequests cfg <=? requests cb
  then fle (FailureThreshold cfg) (fdiv (of_int (wrap64 (requests cb - successes cb))) (of_int (requests cb)))
  else false.

Definition recordResult cfg (now : Z) (success : bool) cb : CircuitBreaker :=
  match cb_state cb with
  | CircuitBreakerClosed =>
      let cb := { cb with requests ::= incr } in
      if success then { cb with successes ::= incr; failures := 0 }
      else
        let cb := { cb with failures ::= incr; lastFailTime := Some now } in
        if shouldTrip cfg cb
        then { setState CircuitBreakerOpen cb with nextRetryTime := now + ResetTimeout cfg } else cb
  | CircuitBreakerHalfOpen =>
      let cb := { cb with halfOpenRequests ::= incr } in
      if success then
        if MinRequests cfg <=? halfOpenRequests cb then reset (setState CircuitBreakerClosed cb) else cb
      else { setState CircuitBreakerOpen { cb with halfOpenFailures ::= incr } with
               nextRetryTime := now + ResetTimeout cfg }
  | CircuitBreakerOpen => cb
  end.

(** [Execute] of an operation that starts at [now], ends at [later] and succeeds
    or not; [None] is the refusal. *)
Definition cb_Execute cfg (now later : Z) (success : bool) cb : CircuitBreaker * option bool :=
  match allowRequest cfg now cb with
  | (cb, true) => (recordResult cfg later success cb, Some success)
  | (cb, false) => (cb, None)
  end.

Definition DefaultCircuitBreakerConfig : CircuitBreakerConfig := mk_breaker_config 20 (30 * Second) (ratio 7 10) 30 5.

(** ** The executor of a pool *)

(** [createConnectionRetryExecutor]: the policy and the time-out of its retrier. *)
Definition connection_policy (c : EnhancedConnectionConfig) : RetryPolicy :=
  ExponentialBackoffPolicy (ConnectionRetryInterval c) (10 * Second) (ConnectionBackoffFactor c)
    (wrap64 (ConnectionMaxRetries c + 1)) true [].
Definition connection_timeout (c : EnhancedConnectionConfig) : Z :=
  let t := wrap64 (ConnectTimeout c * wrap64 (ConnectionMaxRetries c + 1)) in
  if t =? 0 then 30 * Second else t.

(** [ResilientExecutor.Execute] with a retrier and perhaps a fallback. *)
Definition ResilientExecutor_Execute {W} (retrier : option ((W → W * option error) → W → W * option error))
    (fallback : option (error → W → W * option error)) (operation : W → W * option error) (w : W) : W * option error :=
  match (match retrier with Some r => r operation w | None => operation w end) with
  | (w, Some e) => match fallback with Some f => f e w | None => (w, Some e) end
  | r => r
  end.

(** ** What a retried operation answers *)
Section answers.
Context {W : Type} (clock : W → Z) (set_clock : Z → W → W).
Context (rnd : Z → float64) (on_retry : Z → error → W → W) (done_first : bool) (policy : RetryPolicy).
Context (operation : W → W * option error).
Local Abbreviation recorded := (W * list (option error))%type.

(** The operation with a record of its results, and the retrier around it. *)
Definition recording (w : recorded) : recorded * option error :=
  let '(w', r) := operation w.1 in ((w', (w.2 ++ [r])%list), r).
Definition rec_clock (w : recorded) : Z := clock w.1.
Definition rec_set_clock (t : Z) (w : recorded) : recorded := (set_clock t w.1, w.2).
Definition rec_on_retry (a : Z) (e : error) (w : recorded) : recorded := (on_retry a e w.1, w.2).
Abbreviation rec_attempts :=
  (attempts rec_clock rec_set_clock rnd rec_on_retry done_first policy).

(** What [l], the results of the calls that were made, says about the answer. *)
Definition answer_of (m : nat) (last_err : option error) (l : list (option error)) (r : option error) : Prop :=
  (length l ≤ m)%nat ∧
  ((∃ es, l = (es ++ [None])%list ∧ Forall is_Some es ∧ r = None) ∨
   (Forall is_Some l ∧ (r = Some [ErrRetryContextCancelled] ∨
      (length l = m ∧ r = Some (exceeded (default last_err (last l))))))).

Lemma answer_cons m last_err e l r :
  answer_of m (Some e) l r → answer_of (S m) last_err (Some e :: l) r.
Proof.
  intros [Hl H]. split; [simpl; lia|]. destruct H as [(es & -> & He & ->)|[Hl' H]].
  - left. exists (Some e :: es). split; [done|]. split; [by econstructor|done].
  - right. split; [by constructor|]. destruct H as [H|[Hm Hr]]; [by left|right]. simpl. split; [lia|].
    rewrite Hr, last_cons. by destruct (last l).
Qed.

Lemma attempts_answer n a ctx last_err w w' r :
  GetMaxAttempts policy - a = Z.of_nat n →
  (∀ a e, ShouldRetry policy a e = (a <? GetMaxAttempts policy)) →
  rec_attempts n a ctx recording last_err w = (w', r) →
  ∃ l, w'.2 = (w.2 ++ l)%list ∧ answer_of n last_err l r.
Proof.
  intros Hn Hp. revert a last_err w Hn. induction n as [|n IH]; intros a last_err w Hn; simpl.
  { intros [= <- <-]. exists []. rewrite app_nil_r. split; [done|]. split; [simpl; lia|right; auto]. }
  destruct (reached _ _).
  { intros [= <- <-]. exists []. rewrite app_nil_r. split; [done|]. split; [simpl; lia|right; auto]. }
  unfold recording at 1. destruct (operation w.1) as [w1 [e|]].
  2: { intros [= <- <-]. exists [None]. split; [done|]. split; [simpl; lia|]. left. by exists []. }
  rewrite Hp. destruct (Z.ltb_spec (a + 1) (GetMaxAttempts policy)) as [Hlt|Hge]; simpl.
  2: { intros [= <- <-]. exists [Some e]. split; [done|]. split; [simpl; lia|]. right. split; [by repeat econstructor|].
       right. simpl. split; [lia|done]. }
  assert (Hgo : ∀ w2 : recorded, w2.2 = (w.2 ++ [Some e])%list →
    rec_attempts n (a + 1) ctx recording (Some e) w2 = (w', r) →
    ∃ l, w'.2 = (w.2 ++ l)%list ∧ answer_of (S n) last_err l r).
  { intros w2 E2 E. destruct (IH (a + 1) (Some e) w2 ltac:(lia) E) as (l & Hl & Ha). exists (Some e :: l).
    rewrite Hl, E2, <- app_assoc. split; [done|]. by apply answer_cons. }
  destruct (0 <? _); [|by apply Hgo].
  assert (Hstop : ∀ w2 : recorded, w2.2 = (w.2 ++ [Some e])%list → (w2, Some [ErrRetryContextCancelled]) = (w', r) →
    ∃ l, w'.2 = (w.2 ++ l)%list ∧ answer_of (S n) last_err l r).
  { intros w2 E2 [= <- <-]. exists [Some e]. split; [done|]. split; [simpl; lia|]. right.
    split; [by repeat econstructor|by left]. }
  unfold wait_delay. destruct (ctx_end ctx) as [t|]; [|by apply Hgo].
  destruct (_ || _); [by apply Hstop|by apply Hgo].
Qed.

(** An operation under a policy that retries every error up to its maximum
    (as a pool's does) is called at most that many times; the answer is success
    exactly when the last call succeeded, and it is the only one that did;
    otherwise the context ended, or every allowed call was made and failed and
    the answer wraps the last error. *)
Theorem retrier_answers timeout ctx w w' r :
  (∀ a e, ShouldRetry policy a e = (a <? GetMaxAttempts policy)) → 0 ≤ GetMaxAttempts policy →
  Retrier_Execute rec_clock rec_set_clock rnd rec_on_retry done_first policy timeout ctx recording w = (w', r) →
  ∃ l, w'.2 = (w.2 ++ l)%list ∧ Z.of_nat (length l) ≤ GetMaxAttempts policy ∧
    ((∃ es, l = (es ++ [None])%list ∧ Forall is_Some es ∧ r = None) ∨
     (Forall is_Some l ∧ (r = Some [ErrRetryContextCancelled] ∨
        (Z.of_nat (length l) = GetMaxAttempts policy ∧ r = Some (exceeded (default None (last l))))))).
Proof.
  intros Hp H0 E. unfold Retrier_Execute in E.
  apply attempts_answer in E as (l & Hl & Hlen & Ha); [|lia|done]. exists l. split; [done|]. split; [lia|].
  destruct Ha as [Ha|[Ha [Hr|[Hm Hr]]]]; [by left|right; auto|right; split; [done|right; split; [lia|done]]].
Qed.
End answers.

(** A clock as the world; the operation answers at once, and never succeeds. *)
Lemma retrier_answers_witness :
  let c := { NewConfigBuilder with ConnectionMaxRetries := 1 } in
  let p := connection_policy c in
  let op t := (t + Second, Some ["dial tcp: refused"]) in
  let out := Retrier_Execute (rec_clock id) (rec_set_clock (λ t _, t)) (λ _, of_int 0) (rec_on_retry (λ _ _ w, w)) true p
               (connection_timeout c) (mk_context None None) (recording op) (0, []) in
  out.2 = Some [ErrMaxRetriesExceeded; "dial tcp: refused"] ∧
  ∃ l, out.1.2 = ([] ++ l)%list ∧ Z.of_nat (length l) ≤ 2 ∧
    ((∃ es, l = (es ++ [None])%list ∧ Forall is_Some es ∧ out.2 = None) ∨
     (Forall is_Some l ∧ (out.2 = Some [ErrRetryContextCancelled] ∨
        (Z.of_nat (length l) = 2 ∧ out.2 = Some (exceeded (default None (last l))))))).
Proof.
  intros c p op out. split; [vm_compute; reflexivity|].
  apply (retrier_answers id (λ t _, t) (λ _, of_int 0) (λ _ _ w, w) true p op (connection_timeout c) (mk_context None None) (0, [])).
  - intros a e. unfold p, connection_policy. simpl. unfold should_retry.
    change (wrap64 (1 + 1)) with 2. destruct (Z.leb_spec 2 a), (Z.ltb_spec a 2); try done; lia.
  - vm_compute. discriminate.
  - vm_compute. reflexivity.
Defined.

(** ** The half-open breaker *)

(** The calls one goroutine makes one after the other: start, end, result. *)
Definition calls_in_turn cfg (ops : list (Z * Z * bool)) cb : CircuitBreaker :=
  foldl (λ (cb : CircuitBreaker) '(now, later, ok), (cb_Execute cfg now later ok cb).1) cb ops.

(** What a breaker keeps once it is open. *)
Record stays_open cfg cb : Prop := {
  not_closed : cb_state cb ≠ CircuitBreakerClosed;
  half_open_int : in_int64 (halfOpenRequests cb);
  half_open_small : halfOpenRequests cb ≤ MaxRequests cfg }.

Lemma never_closes cfg now later ok cb :
  1 ≤ MaxRequests cfg < MinRequests cfg → in_int64 (MinRequests cfg) → stays_open cfg cb →
  stays_open cfg (cb_Execute cfg now later ok cb).1.
Proof.
  intros Hm Hi [Hs Hr Hh]. unfold in_int64, min_int64, max_int64 in *.
  assert (Hincr : ∀ h, min_int64 ≤ h < MaxRequests cfg → incr h = h + 1).
  { intros h ?. apply wrap64_id. unfold in_int64, min_int64, max_int64 in *. lia. }
  assert (Htest : ∀ h, min_int64 ≤ h < MaxRequests cfg → (MinRequests cfg <=? incr h) = false).
  { intros h ?. rewrite Hincr by done. apply Z.leb_gt. lia. }
  unfold cb_Execute, allowRequest. destruct (cb_state cb) eqn:Es; [done| |].
  - destruct (nextRetryTime cb <? now); simpl; [|split; unfold in_int64, min_int64, max_int64; congruence || lia].
    unfold recordResult. simpl. rewrite Htest by (unfold min_int64; lia).
    destruct ok; split; simpl; rewrite ?Hincr by (unfold min_int64; lia);
      unfold in_int64, min_int64, max_int64; done || lia.
  - destruct (Z.ltb_spec (halfOpenRequests cb) (MaxRequests cfg)); simpl;
      [|split; unfold in_int64, min_int64, max_int64; congruence || lia].
    unfold recordResult. rewrite Es. simpl. rewrite Htest by (unfold min_int64; lia).
    destruct ok; split; simpl; rewrite ?Es, ?Hincr by (unfold min_int64; lia);
      unfold in_int64, min_int64, max_int64; done || lia.
Qed.

(** A breaker whose half-open state admits fewer requests than it wants
    successes for, as the default one does (5 against 30), never closes again
    once it has opened, when its calls come one after the other; after so many
    successes in the half-open state it refuses every request, for ever. *)
Theorem breaker_never_closes cfg cb ops :
  1 ≤ MaxRequests cfg < MinRequests cfg → in_int64 (MinRequests cfg) →
  cb_state cb = CircuitBreakerOpen → halfOpenRequests cb = 0 →
  let cb' := calls_in_turn cfg ops cb in
  cb_state cb' ≠ CircuitBreakerClosed ∧ halfOpenRequests cb' ≤ MaxRequests cfg ∧
  (cb_state cb' = CircuitBreakerHalfOpen → halfOpenRequests cb' = MaxRequests cfg →
   ∀ now later ok, cb_Execute cfg now later ok cb' = (cb', None)).
Proof.
  intros Hm Hi Hs Hh.
  assert (Hinv : ∀ cb, stays_open cfg cb → stays_open cfg (calls_in_turn cfg ops cb)).
  { induction ops as [|[[now later] ok] ops IH]; intros cb0 H0; simpl; [done|].
    apply IH. by apply never_closes. }
  destruct (Hinv cb) as [H1 H2 H3]; [split; rewrite ?Hs, ?Hh; done || lia|].
  split_and!; [done..|]. intros H4 H5 now later ok.
  unfold cb_Execute, allowRequest. rewrite H4, H5. by rewrite Z.ltb_irrefl.
Qed.

Lemma breaker_never_closes_witness :
  let cfg := DefaultCircuitBreakerConfig in
  let cb := { NewCircuitBreaker with cb_state := CircuitBreakerOpen; nextRetryTime := 30 * Second } in
  let ops := (λ i, ((40 + i) * Second, (40 + i) * Second, true)) <$> seqZ 0 5 in
  let cb' := calls_in_turn cfg ops cb in
  cb_state cb' ≠ CircuitBreakerClosed ∧ halfOpenRequests cb' ≤ MaxRequests cfg ∧
  (cb_state cb' = CircuitBreakerHalfOpen → halfOpenRequests cb' = MaxRequests cfg →
   ∀ now later ok, cb_Execute cfg now later ok cb' = (cb', None)).
Proof.
  intros cfg cb ops. apply (breaker_never_closes cfg cb ops); [| |reflexivity|reflexivity].
  - vm_compute. split; [discriminate|reflexivity].
  - vm_compute. split; discriminate.
Defined.
