(* ===== verification/Aggregator.v ===== *)
(** * Aggregator: collecting results in batches ([src/task/aggregator.go])

    Results are queued, taken by workers, appended to a buffer and handed to the
    handlers in batches, when the buffer is full, on a timer and at the stop. The
    buffer has a lock, the queue is a channel: an interleaving of the goroutines
    is a list of the steps below. *)
From S2P Require Import Prelude GoStrings Types Lines Task.
Local Open Scope string_scope.
Local Open Scope nat_scope.

Record ResultEvent := mk_event {
  LineID : string;
  ev_IP : string;
  RouterIP : string;
  ev_TaskType : string;
  Timestamp : Z;                   (* Unix seconds *)
  ev_Success : bool;
  ev_Data : data;
  ev_Error : string;
  Duration : Z }.

Record AggregatorStats := mk_stats { TotalEvents : Z; SuccessEvents : Z; FailedEvents : Z }.

Record Aggregator := mk_aggregator {
  eventChan : list ResultEvent;
  agg_workers : nat;
  waiting : nat;                   (* workers in their [select] *)
  held : list ResultEvent;         (* taken by a worker, not yet in the buffer *)
  flushing : nat;                  (* workers that found the buffer full and are about to flush *)
  buffer : list ResultEvent;
  bufferSize : nat;
  manager_runs : bool;             (* the goroutine of [bufferManager] *)
  agg_stopped : bool;
  agg_closed : bool;
  agg_stats : AggregatorStats;
  batches : list (list ResultEvent);     (* handed to the handlers, oldest first *)
  accepted : list ResultEvent }.         (* for which [Submit] returned nil *)

Definition NewAggregator (workers size : nat) : Aggregator :=
  mk_aggregator [] workers 0 [] 0 [] size false false false (mk_stats 0 0 0) [] [].
Definition Start (a : Aggregator) : Aggregator := { a with waiting := agg_workers a; manager_runs := true }.
Definition capacity (a : Aggregator) : nat := agg_workers a * 200.

(** [Submit]; see [Rounds.Async.Submit] for the three ways it can go. *)
Definition Submit (send_first : bool) (e : ResultEvent) (a : Aggregator) : outcome (Aggregator * option string) :=
  if agg_closed a then
    if send_first || negb (agg_stopped a) then Panic "send on closed channel" else Ret (a, Some "context canceled")
  else if length (eventChan a) <? capacity a then
    if send_first || negb (agg_stopped a)
    then Ret ({ a with eventChan ::= (.++ [e]); accepted ::= (.++ [e]) }, None)
    else Ret (a, Some "context canceled")
  else Ret (a, Some (if agg_stopped a then "context canceled" else "task queue is full")).

(** [SubmitTaskResult] *)
Definition event_of (line : Line) (taskType : string) (result : Result) (duration now : Z) : ResultEvent :=
  mk_event (ID line) (IP line) (router_IP (line_Router line)) taskType now (Success result) (Data result) (Error result) duration.
Definition SubmitTaskResult (send_first : bool) (line : Line) (taskType : string) (result : Result) (duration now : Z)
    (a : Aggregator) : outcome (Aggregator * option string) :=
  Submit send_first (event_of line taskType result duration now) a.

Definition updateStats (e : ResultEvent) (s : AggregatorStats) : AggregatorStats :=
  mk_stats (wrap64 (TotalEvents s + 1))
    (if ev_Success e then wrap64 (SuccessEvents s + 1) else SuccessEvents s)
    (if ev_Success e then FailedEvents s else wrap64 (FailedEvents s + 1)).

(** A worker takes an event. *)
Definition take_event (a : Aggregator) : option Aggregator :=
  match eventChan a, waiting a with
  | e :: q, S n => Some { a with eventChan := q; waiting := n; held ::= (.++ [e]) }
  | _, _ => None
  end.

(** [processEvent] of the [j]-th event held: it goes into the buffer and into the
    statistics; a full buffer will be flushed by this worker. *)
Definition processEvent (j : nat) (a : Aggregator) : option Aggregator :=
  match held a !! j with
  | None => None
  | Some e =>
      let a := { a with held ::= delete j; buffer ::= (.++ [e]); agg_stats ::= updateStats e } in
      Some (if bufferSize a <=? length (buffer a) then { a with flushing ::= S } else { a with waiting ::= S })
  end.

(** [flush]: the buffer is swapped for an empty one and given to the handlers. *)
Definition flush (a : Aggregator) : Aggregator :=
  match buffer a with
  | [] => a
  | _ => { a with batches ::= (.++ [buffer a]); buffer := [] }
  end.

Definition worker_flush (a : Aggregator) : option Aggregator :=
  match flushing a with
  | S n => Some (flush { a with flushing := n; waiting ::= S })
  | O => None
  end.

Definition timer_flush (a : Aggregator) : option Aggregator :=
  if manager_runs a then Some (flush a) else None.

(** A worker, or the buffer manager, sees the stop signal. *)
Definition worker_exit (a : Aggregator) : option Aggregator :=
  match waiting a with
  | S n => if agg_stopped a then Some { a with waiting := n } else None
  | O => None
  end.
Definition manager_exit (a : Aggregator) : option Aggregator :=
  if manager_runs a && agg_stopped a then Some { a with manager_runs := false } else None.

(** [Stop] up to [wg.Wait()]; then the last flush and the closing of the channel. *)
Definition begin_stop (a : Aggregator) : outcome Aggregator :=
  if agg_stopped a then Panic "close of closed channel" else Ret { a with agg_stopped := true }.
Definition end_stop (a : Aggregator) : option Aggregator :=
  if agg_stopped a && negb (agg_closed a) && (waiting a =? 0) && (flushing a =? 0) && (length (held a) =? 0) &&
     negb (manager_runs a)
  then Some { flush a with agg_closed := true } else None.

Definition countSuccessEvents (es : list ResultEvent) : nat := count ev_Success es.
(** [GetStats] *)
Definition GetStats (a : Aggregator) : AggregatorStats * nat * nat :=
  (agg_stats a, length (eventChan a), length (buffer a)).

(** [handleEvents] over the handlers in their order: an error of one is logged. *)
Definition handleEvents {S} (handlers : list (list ResultEvent → S → S * option string)) (es : list ResultEvent) (s : S) : S :=
  foldl (λ s h, (h es s).1) s handlers.

Inductive act :=
  | ASubmit (send_first : bool) (e : ResultEvent)
  | ATake
  | AProcess (j : nat)
  | AFlush
  | ATimer
  | AExit
  | AManagerExit
  | ABeginStop
  | AEndStop.

Definition agg_step (a : Aggregator) (x : act) : option (outcome Aggregator) :=
  match x with
  | ASubmit sf e => Some (match Submit sf e a with Ret (a, _) => Ret a | Fail m => Fail m | Panic p => Panic p end)
  | ATake => Ret <$> take_event a
  | AProcess j => Ret <$> processEvent j a
  | AFlush => Ret <$> worker_flush a
  | ATimer => Ret <$> timer_flush a
  | AExit => Ret <$> worker_exit a
  | AManagerExit => Ret <$> manager_exit a
  | ABeginStop => Some (begin_stop a)
  | AEndStop => Ret <$> end_stop a
  end.

Fixpoint agg_run (a : Aggregator) (l : list act) : option (outcome Aggregator) :=
  match l with
  | [] => Some (Ret a)
  | x :: l => match agg_step a x with
              | Some (Ret a) => agg_run a l
              | o => o
              end
  end.

(** ** Nothing is lost or doubled before the stop *)

Record agg_ok (a : Aggregator) : Prop := {
  conserved : accepted a ≡ₚ concat (batches a) ++ buffer a ++ held a ++ eventChan a;
  no_empty_batch : Forall (λ b, b ≠ []) (batches a);
  counted : TotalEvents (agg_stats a) = wrap64 (Z.of_nat (length (concat (batches a) ++ buffer a)));
  closed_done : agg_closed a = true →
    agg_stopped a = true ∧ waiting a = 0 ∧ flushing a = 0 ∧ held a = [] ∧ buffer a = [] ∧ manager_runs a = false }.

Lemma flush_ok a : agg_ok a → (agg_closed a = true → buffer a = []) → agg_ok (flush a).
Proof.
  intros Hok Hc. unfold flush. destruct (buffer a) as [|e b] eqn:Eb; [exact Hok|].
  destruct Hok as [H1 H2 H3 H4]. rewrite Eb in H1, H3.
  split; simpl; rewrite ?Eb, ?concat_app; simpl; rewrite ?app_nil_r; try done.
  - by rewrite H1, <- !app_assoc.
  - apply Forall_app. split; [done|]. by constructor.
  - intros Hc'. by specialize (Hc Hc').
Qed.

Lemma flush_fields a : waiting (flush a) = waiting a ∧ flushing (flush a) = flushing a ∧ held (flush a) = held a ∧
  manager_runs (flush a) = manager_runs a ∧ agg_stopped (flush a) = agg_stopped a ∧ eventChan (flush a) = eventChan a ∧
  accepted (flush a) = accepted a ∧ buffer (flush a) = [].
Proof. unfold flush. destruct (buffer a) eqn:E; simpl; rewrite ?E; done. Qed.

Lemma delete_perm {A} (l : list A) j x : l !! j = Some x → l ≡ₚ x :: delete j l.
Proof. apply delete_Permutation. Qed.

Lemma wrap64_succ n : wrap64 (wrap64 n + 1) = wrap64 (n + 1).
Proof.
  unfold wrap64. f_equal.
  replace ((n + two63) mod two64 - two63 + 1 + two63)%Z with ((n + two63) mod two64 + 1)%Z by lia.
  rewrite Zplus_mod_idemp_l. f_equal. lia.
Qed.

Lemma processEvent_ok a a' j : agg_ok a → processEvent j a = Some a' → agg_ok a'.
Proof.
  intros [H1 H2 H3 H4] H. unfold processEvent in H. destruct (held a !! j) as [e|] eqn:Ej; [|done].
  assert (Hne : held a ≠ []) by (intros E; by rewrite E in Ej).
  assert (agg_ok { a with held ::= delete j; buffer ::= (.++ [e]); agg_stats ::= updateStats e }) as K.
  { split; simpl; try done.
    - rewrite H1, <- !app_assoc. do 2 f_equiv. rewrite app_assoc. f_equiv. apply delete_perm, Ej.
    - rewrite H3, wrap64_succ, !length_app. f_equal. simpl. lia.
    - intros Hc. destruct (H4 Hc) as (_ & _ & _ & ? & _). done. }
  cbv zeta in H. destruct (_ <=? _) in H; injection H as <-; destruct K as [K1 K2 K3 K4];
    split; simpl in *; try done; intros Hc; by destruct (H4 Hc) as (_ & _ & _ & ? & _).
Qed.

Lemma Submit_ok sf e a a' m : agg_ok a →
  Submit sf e a = Ret (a', m) → agg_ok a'.
Proof.
  intros Hok H. unfold Submit in H.
  case_tests; simplify_eq; try done. destruct Hok as [H1 H2 H3 H4].
  split; simpl; try done. by rewrite H1, <- !app_assoc.
Qed.

Lemma take_event_ok a a' : agg_ok a → take_event a = Some a' → agg_ok a'.
Proof.
  intros [H1 H2 H3 H4] H. unfold take_event in H.
  destruct (eventChan a) as [|e q] eqn:Eq; [done|]. destruct (waiting a) as [|n] eqn:Ew; simplify_eq.
  split; simpl; try done.
  - by rewrite H1, <- !app_assoc.
  - intros Hc. destruct (H4 Hc) as (_ & ? & _). congruence.
Qed.

Lemma worker_flush_ok a a' : agg_ok a → worker_flush a = Some a' → agg_ok a'.
Proof.
  intros [H1 H2 H3 H4] H. unfold worker_flush in H. destruct (flushing a) as [|n] eqn:Ef; simplify_eq.
  assert (agg_closed a = false) as Hn.
  { destruct (agg_closed a); [|done]. destruct (H4 eq_refl) as (_ & _ & ? & _). congruence. }
  apply flush_ok; [|simpl; congruence]. split; simpl; try done. congruence.
Qed.

Lemma end_stop_ok a a' : agg_ok a → end_stop a = Some a' → agg_ok a'.
Proof.
  intros Hok H. unfold end_stop in H. case_tests; simplify_eq. btrue.
  rewrite ?Nat.eqb_eq in *. destruct (flush_ok a Hok) as [K1 K2 K3 K4].
  { intros Hc. congruence. }
  pose proof (flush_fields a) as (F1 & F2 & F3 & F4 & F5 & F6 & F7 & F8).
  split; simpl; try done. intros _. rewrite F1, F2, F3, F4, F5, F8.
  repeat split; try done. by apply nil_length_inv.
Qed.

Lemma agg_step_ok a x a' : agg_ok a → agg_step a x = Some (Ret a') → agg_ok a'.
Proof.
  intros Hok H. destruct x; cbn [agg_step] in H.
  - destruct (Submit send_first e a) as [[b m]| |] eqn:E; simplify_eq. eauto using Submit_ok.
  - destruct (take_event a) eqn:E; simplify_eq/=. eauto using take_event_ok.
  - destruct (processEvent j a) eqn:E; simplify_eq/=. eauto using processEvent_ok.
  - destruct (worker_flush a) eqn:E; simplify_eq/=. eauto using worker_flush_ok.
  - unfold timer_flush in H. destruct (manager_runs a) eqn:E; simplify_eq/=.
    apply flush_ok; [done|]. intros Hc. by destruct (closed_done _ Hok Hc) as (_ & _ & _ & _ & ? & _).
  - unfold worker_exit in H. destruct (waiting a) as [|n] eqn:Ew, (agg_stopped a) eqn:Es; simplify_eq/=.
    destruct Hok as [K1 K2 K3 K4]. split; simpl; try done. intros Hc. destruct (K4 Hc) as (? & ? & ?). congruence.
  - unfold manager_exit in H. destruct (manager_runs a && agg_stopped a); simplify_eq/=.
    destruct Hok as [K1 K2 K3 K4]. split; simpl; try done. intros Hc.
    destruct (K4 Hc) as (? & ? & ? & ? & ? & ?). done.
  - unfold begin_stop in H. destruct (agg_stopped a) eqn:Es; simplify_eq/=.
    destruct Hok as [K1 K2 K3 K4]. split; simpl; try done. intros Hc. destruct (K4 Hc) as (? & _). congruence.
  - destruct (end_stop a) eqn:E; simplify_eq/=. eauto using end_stop_ok.
Qed.

Lemma agg_run_ok l a a' : agg_ok a → agg_run a l = Some (Ret a') → agg_ok a'.
Proof.
  revert a. induction l as [|x l IH]; intros a Hok H; simpl in H; [by simplify_eq|].
  destruct (agg_step a x) as [[b| |]|] eqn:E; simplify_eq. eauto using agg_step_ok.
Qed.

Lemma Start_ok workers size : agg_ok (Start (NewAggregator workers size)).
Proof. split; done. Qed.

(** The size of the batches: a buffer grows past its size only by the events of
    workers that are about to flush it. *)
Record agg_bounded (workers size : nat) (a : Aggregator) : Prop := {
  same_size : bufferSize a = size;
  all_workers : waiting a + flushing a + length (held a) ≤ workers;
  small_buffer : length (buffer a) < Nat.max 1 size + flushing a;
  small_batches : Forall (λ b, length b < Nat.max 1 size + workers) (batches a) }.

Lemma flush_bounded w n a :
  agg_bounded w n a → agg_bounded w n (flush a).
Proof.
  intros Hok. unfold flush. destruct (buffer a) as [|e b] eqn:Eb; [exact Hok|].
  destruct Hok as [H1 H2 H3 H4]. rewrite Eb in H3. split; simpl; try done; [lia|].
  apply Forall_app. split; [done|]. constructor; [|done]. simpl in *. lia.
Qed.

Lemma agg_step_bounded w n a x a' : agg_bounded w n a → agg_step a x = Some (Ret a') → agg_bounded w n a'.
Proof.
  intros Hok H. destruct x; cbn [agg_step] in H.
  - unfold Submit in H. case_tests; simplify_eq/=; try exact Hok; by destruct Hok.
  - unfold take_event in H. destruct (eventChan a) as [|e q], (waiting a) as [|m] eqn:Ew; simplify_eq/=.
    destruct Hok as [H1 H2 H3 H4]. split; simpl; rewrite ?length_app; simpl; try done; lia.
  - unfold processEvent in H. destruct (held a !! j) as [e|] eqn:Ej; simplify_eq/=.
    apply lookup_lt_Some in Ej as Hj. pose proof (length_delete (held a) j (mk_is_Some _ _ Ej)) as Hd.
    destruct Hok as [H1 H2 H3 H4].
    destruct (_ <=? _) eqn:E; split; simpl in *; rewrite ?length_app in *; simpl in *; try done; try lia;
      apply Nat.leb_gt in E; lia.
  - unfold worker_flush in H. destruct (flushing a) as [|m] eqn:Ef; simplify_eq/=.
    destruct Hok as [H1 H2 H3 H4]. unfold flush. simpl.
    destruct (buffer a) as [|e b] eqn:Eb; split; simpl in *; rewrite ?Eb; try done; simpl; try lia.
    apply Forall_app. split; [done|]. constructor; [|done]. simpl in *. lia.
  - unfold timer_flush in H. destruct (manager_runs a); simplify_eq/=. by apply flush_bounded.
  - unfold worker_exit in H. destruct (waiting a) as [|m] eqn:Ew, (agg_stopped a); simplify_eq/=.
    destruct Hok as [H1 H2 H3 H4]. split; simpl; try done. lia.
  - unfold manager_exit in H. case_tests; simplify_eq/=. by destruct Hok.
  - unfold begin_stop in H. case_tests; simplify_eq/=. by destruct Hok.
  - unfold end_stop in H. case_tests; simplify_eq/=. by destruct (flush_bounded w n a Hok).
Qed.

Lemma agg_run_bounded w n l a a' : agg_bounded w n a → agg_run a l = Some (Ret a') → agg_bounded w n a'.
Proof.
  revert a. induction l as [|x l IH]; intros a Hok H; simpl in H; [by simplify_eq|].
  destruct (agg_step a x) as [[b| |]|] eqn:E; simplify_eq. eauto using agg_step_bounded.
Qed.

Lemma Start_bounded w n : agg_bounded w n (Start (NewAggregator w n)).
Proof. split; simpl; try done; lia. Qed.


Definition demo_event (i : string) : ResultEvent := mk_event i "10.0.0.9" "10.0.0.1" "ping" 0 true ∅ "" 0.
Definition demo_run : list act :=
  [ASubmit true (demo_event "1"); ASubmit true (demo_event "2"); ATake; ATake; AProcess 1; AProcess 0; AFlush;
   ASubmit true (demo_event "3"); ASubmit true (demo_event "4"); ATake; ABeginStop; AProcess 0; AExit; AExit;
   AManagerExit; AEndStop].
Definition demo_end : Aggregator :=
  match agg_run (Start (NewAggregator 2 2)) demo_run with Some (Ret a) => a | _ => NewAggregator 0 0 end.

