(* ===== verification/ZabbixSender.v ===== *)
(** * ZabbixSender: handing results to Zabbix ([src/task/zabbixSenderHandler.go]),
    and the other handlers of [src/task/aggregator.go]

    The connection pool and the Zabbix protocol are in the [zapix] package: here
    [SendMetrics] is an argument. *)
From S2P Require Import Prelude GoStrings GoFloat Types Ping Aggregator.
Local Open Scope string_scope.
Local Open Scope Z_scope.

Record ZabbixSenderConfig := mk_config {
  ProxyIP : string;
  ProxyPort : string;
  ConnectionTimeout : Z;
  ReadTimeout : Z;
  WriteTimeout : Z;
  PoolSize : Z }.

Definition SetDefaults (c : ZabbixSenderConfig) : ZabbixSenderConfig :=
  let c := if ConnectionTimeout c =? 0 then { c with ConnectionTimeout := 5 * Second } else c in
  let c := if ReadTimeout c =? 0 then { c with ReadTimeout := 15 * Second } else c in
  if WriteTimeout c =? 0 then { c with WriteTimeout := 5 * Second } else c.

(** The types of [zapix]'s sender the handler uses. *)
Record Metric := mk_metric { m_Host : string; m_Key : string; m_Value : string; m_Clock : Z; m_Active : bool }.
Record Response := mk_response { Resp : string; Info : string }.

Definition ping_key : string := "dedicatedLinePing".
Definition error_key : string := "dedicatedLineErrorDetail".

(** The metric of an event. *)
Definition metric_of (e : ResultEvent) : Metric :=
  let metric k v := mk_metric (ev_IP e) k v (Timestamp e) false in
  match ev_Data e !! "status" ≫= as_string with
  | None => metric error_key StatusMissingStatusField
  | Some status =>
      if String.eqb status StatusCheckFinished then
        match ev_Data e !! "packet_loss" ≫= as_int with
        | Some v => if (0 <=? v) && (v <=? 100) then metric ping_key (itoa v)
                    else metric error_key StatusPacketLossOutOfRange
        | None => metric error_key StatusInvalidPacketLossData
        end
      else metric error_key status
  end.

(** [fmt] of a slice of strings with [%v]. *)
Definition show_strings (l : list string) : string := "[" +:+ String.concat " " l +:+ "]".

Section sender.
(** Sends the metrics: the responses for the active and the trapper items, and the
    error. *)
Context (SendMetrics : list Metric → Response * Response * option string).
Context (serverAddr : string).

Definition failed_detail (n : nat) (name : string) (r : Response) : list string :=
  if (0 <? n)%nat && negb (String.eqb (Resp r) "success") then [name +:+ ": " +:+ Resp r +:+ " - " +:+ Info r] else [].

(** The metrics handed to [SendMetrics], when it is called, and the error. *)
Definition HandleResult (events : list ResultEvent) : option (list Metric) * option string :=
  match events with
  | [] => (None, None)
  | _ =>
      let metrics := map metric_of events in
      let activeCount := count m_Active metrics in
      let trapperCount := count (λ m, negb (m_Active m)) metrics in
      let '(resActive, resTrapper, err) := SendMetrics metrics in
      match err with
      | Some err => (Some metrics, Some ("zabbix send failed: " +:+ err +:+ " (events=" +:+ itoa (Z.of_nat (length events)) +:+
                                         ", server=" +:+ serverAddr +:+ ")"))
      | None =>
          let failedDetails := (failed_detail activeCount "active" resActive ++
                                failed_detail trapperCount "trapper" resTrapper)%list in
          (Some metrics, if (0 <? length failedDetails)%nat
                         then Some ("zabbix server reported failures: " +:+ show_strings failedDetails) else None)
      end
  end.

(** What each event becomes, by the entries of its result. *)
Inductive reports (e : ResultEvent) : string → string → Prop :=
  | r_no_status : (∀ s, ev_Data e !! "status" ≠ Some (VStr s)) → reports e error_key "MissingStatusField"
  | r_failed s : ev_Data e !! "status" = Some (VStr s) → s ≠ "CheckFinished" → reports e error_key s
  | r_loss v : ev_Data e !! "status" = Some (VStr "CheckFinished") → ev_Data e !! "packet_loss" = Some (VInt v) →
      0 ≤ v ≤ 100 → reports e ping_key (itoa v)
  | r_range v : ev_Data e !! "status" = Some (VStr "CheckFinished") → ev_Data e !! "packet_loss" = Some (VInt v) →
      (v < 0 ∨ 100 < v) → reports e error_key "PacketLossOutOfRange"
  | r_invalid : ev_Data e !! "status" = Some (VStr "CheckFinished") →
      (∀ v, ev_Data e !! "packet_loss" ≠ Some (VInt v)) → reports e error_key "InvalidPacketLossData".

Lemma as_string_some v s : as_string v = Some s → v = VStr s.
Proof. destruct v; naive_solver. Qed.
Lemma as_int_some v z : as_int v = Some z → v = VInt z.
Proof. destruct v; naive_solver. Qed.

Lemma metric_of_spec e :
  reports e (m_Key (metric_of e)) (m_Value (metric_of e)) ∧ m_Host (metric_of e) = ev_IP e ∧
  m_Clock (metric_of e) = Timestamp e ∧ m_Active (metric_of e) = false.
Proof.
  unfold metric_of. cbv zeta.
  destruct (ev_Data e !! "status" ≫= as_string) as [s|] eqn:Es.
  2: { split_and!; try done. apply r_no_status. intros s E. by rewrite E in Es. }
  apply bind_Some in Es as (sv & Es & ->%as_string_some).
  destruct (String.eqb_spec s StatusCheckFinished) as [->|Hs].
  2: { split_and!; try done. by apply r_failed. }
  destruct (ev_Data e !! "packet_loss" ≫= as_int) as [v|] eqn:Ev.
  2: { split_and!; try done. apply r_invalid; [done|]. intros v E. by rewrite E in Ev. }
  apply bind_Some in Ev as (vv & Ev & ->%as_int_some).
  destruct ((0 <=? v) && (v <=? 100)) eqn:Er; split_and!; try done.
  - btrue. apply r_loss; [done..|lia].
  - apply r_range with v; [done..|]. apply andb_false_iff in Er as [H%Z.leb_gt|H%Z.leb_gt]; lia.
Qed.

Lemma all_trapper events : count m_Active (map metric_of events) = O ∧
  count (λ m, negb (m_Active m)) (map metric_of events) = length events.
Proof.
  unfold count. induction events as [|e es [IH1 IH2]]; [done|]. cbn [map List.filter].
  destruct (metric_of_spec e) as (_ & _ & _ & ->). cbn [negb length]. by rewrite IH1, IH2.
Qed.

(** C26: A batch becomes exactly one metric per event, in order, for the probed
    address and the time of the result, never an active item: the packet loss of a
    finished check when it is between 0 and 100, an error detail otherwise. The
    handler reports no error exactly when the batch is empty or was sent and the
    server answered "success" for the trapper items. *)
Theorem HandleResult_spec events :
  match events with
  | [] => HandleResult events = (None, None)
  | _ => ∃ ms err, HandleResult events = (Some ms, err) ∧
      Forall2 (λ e m, reports e (m_Key m) (m_Value m) ∧ m_Host m = ev_IP e ∧ m_Clock m = Timestamp e ∧
                      m_Active m = false) events ms ∧
      (err = None ↔ ∃ ra rt, SendMetrics ms = (ra, rt, None) ∧ Resp rt = "success")
  end.
Proof.
  destruct events as [|e es]; [done|]. unfold HandleResult.
  destruct (all_trapper (e :: es)) as [-> ->].
  assert (Hall : Forall2 (λ e m, reports e (m_Key m) (m_Value m) ∧ m_Host m = ev_IP e ∧ m_Clock m = Timestamp e ∧
                    m_Active m = false) (e :: es) (map metric_of (e :: es))).
  { apply Forall2_fmap_r, Forall_Forall2_diag, Forall_true. intros x. apply metric_of_spec. }
  generalize dependent (map metric_of (e :: es)). intros ms Hall.
  destruct (SendMetrics ms) as [[ra rt] [err|]] eqn:E; eexists _, _; split_and!;
    [done|done| |done|done|].
  - split; [done|]. intros (ra' & rt' & E' & _). rewrite E in E'. done.
  - unfold failed_detail. simpl. destruct (String.eqb_spec (Resp rt) "success") as [Hr|Hr]; simpl.
    + split; [|done]. intros _. eauto.
    + split; [done|]. intros (ra' & rt' & E' & Hr'). rewrite E in E'. by simplify_eq.
Qed.
End sender.

(** ** The other handlers

    [LogHandler] and [MetricsHandler] never fail. *)
Inductive log_line := LogSuccess (e : ResultEvent) | LogFailure (e : ResultEvent).
Definition LogHandler_HandleResult (events : list ResultEvent) : list log_line * option string :=
  (map (λ e, if ev_Success e then LogSuccess e else LogFailure e) events, None).
Definition MetricsHandler_HandleResult (events : list ResultEvent) : list (string * bool) * option string :=
  (map (λ e, (ev_IP e, ev_Success e)) events, None).

(** ** The JSON file handler

    The lock is taken in every turn of the loop and released only when the call
    returns ([defer]): [None] is a call that blocks for ever. The text of an event
    is what the standard library's encoder gives. *)
Section json.
Context (marshal : ResultEvent → string + string).

Fixpoint json_loop (locked : bool) (events : list ResultEvent) : option (option string) :=
  match events with
  | [] => Some None
  | e :: events => if locked then None else
                   match marshal e with
                   | inl _ => json_loop true events
                   | inr err => Some (Some err)
                   end
  end.
Definition JSONFileHandler_HandleResult (events : list ResultEvent) : option (option string) := json_loop false events.

(** A batch of two events or more blocks the handler, and with it the flush, unless
    the first cannot be encoded. *)
Lemma json_handler_blocks e1 e2 events :
  JSONFileHandler_HandleResult (e1 :: e2 :: events) = None ↔ ∃ text, marshal e1 = inl text.
Proof. unfold JSONFileHandler_HandleResult. simpl. destruct (marshal e1); naive_solver. Qed.
End json.

(** ** The handler and its sender *)

Record ZabbixSenderHandler := mk_handler {
  h_config : ZabbixSenderConfig;
  h_serverAddr : string;
  stop_closed : bool;                        (* [stopChan] *)
  h_cancelled : bool;
  health_monitors : nat }.                   (* the goroutines that run *)

(** [net.JoinHostPort] *)
Definition JoinHostPort (host port : string) : string :=
  if contains host ":" then "[" +:+ host +:+ "]:" +:+ port else host +:+ ":" +:+ port.

(** The sender of [zapix] is made with the same values; the error is always nil. *)
Definition NewZabbixSenderHandler (c : ZabbixSenderConfig) : ZabbixSenderHandler :=
  let c := SetDefaults c in mk_handler c (JoinHostPort (ProxyIP c) (ProxyPort c)) false false 1.

(** [Send] of a packet without data. *)
Definition TestConnection (Send : list Metric → Response * option string) : option string :=
  match (Send []).2 with Some e => Some ("connection test failed: " +:+ e) | None => None end.

(** The loop of the health monitor by the cases that are taken: the outcomes of its tests,
    and whether it has returned. *)
Inductive monitor_case := TestNow (Send : list Metric → Response * option string) | Stopped | Cancelled.
Fixpoint StartHealthMonitor (l : list monitor_case) : list (option string) * bool :=
  match l with
  | [] => ([], false)
  | TestNow Send :: l => let '(tests, returned) := StartHealthMonitor l in (TestConnection Send :: tests, returned)
  | _ :: _ => ([], true)
  end.

(** [Close] waits for the monitor, which sees the closed channel; the sender and its
    connections are left as they are. *)
Definition Close (h : ZabbixSenderHandler) : outcome ZabbixSenderHandler :=
  if stop_closed h then Panic "close of closed channel"
  else Ret { h with stop_closed := true; h_cancelled := true; health_monitors := 0%nat }.

Lemma Close_once h h' : Close h = Ret h' → Close h' = Panic "close of closed channel" ∧ health_monitors h' = 0%nat.
Proof. unfold Close. destruct (stop_closed h); [done|]. by intros [= <-]. Qed.

(** What the sender's pool says of itself; an entry may be missing. *)
Record PoolStats := mk_pool_stats { ps_total : option Z; ps_active : option Z; ps_idle : option Z }.
Record Stats := mk_stats {
  st_total : Z; st_active : Z; st_idle : Z;
  server_address : string;
  timeouts : Z * Z * Z;
  utilization_percent : string;
  config_pool_size : Z;
  handler_status : string }.

Section stats.
(** [%.1f] *)
Context (show_1f : float64 → string).

Definition utilization (total active : Z) : float64 :=
  if 0 <? total then fmul (fdiv (of_int active) (of_int total)) (of_int 100) else of_int 0.
Definition GetStats (h : ZabbixSenderHandler) (p : PoolStats) : Stats :=
  let total := default 0 (ps_total p) in let active := default 0 (ps_active p) in
  mk_stats total active (default 0 (ps_idle p)) (h_serverAddr h)
    (ConnectionTimeout (h_config h), ReadTimeout (h_config h), WriteTimeout (h_config h))
    (show_1f (utilization total active) +:+ "%") (PoolSize (h_config h)) "running".
End stats.

(** [WarmupPool]: the connections dialled, those closed in the end, and the error; [dial]
    says how each attempt ends. *)
Definition WarmupPool (h : ZabbixSenderHandler) (dial : nat → option string) : outcome (list nat * list nat * option string) :=
  if PoolSize (h_config h) <? 0 then Panic "makeslice: cap out of range"
  else
    let connections := List.filter (λ i, match dial i with None => true | Some _ => false end) (seq 0 (Z.to_nat (PoolSize (h_config h)))) in
    Ret (connections, connections, match connections with [] => Some "failed to pre-warm connections" | _ => None end).

(** The connections it opens are its own: it closes all of them, and none is left for the
    sender. The error is nil exactly when some attempt succeeded. *)
Lemma WarmupPool_spec h dial :
  0 <= PoolSize (h_config h) →
  ∃ opened err, WarmupPool h dial = Ret (opened, opened, err) ∧
    (err = None ↔ ∃ i, (i < Z.to_nat (PoolSize (h_config h)))%nat ∧ dial i = None).
Proof.
  intros Hs. unfold WarmupPool. destruct (Z.ltb_spec (PoolSize (h_config h)) 0); [lia|].
  set (ok := λ i, match dial i with None => true | Some _ => false end).
  assert (Hin : ∀ i, In i (List.filter ok (seq 0 (Z.to_nat (PoolSize (h_config h))))) ↔ (i < Z.to_nat (PoolSize (h_config h)))%nat ∧ dial i = None).
  { intros i. rewrite filter_In, in_seq. unfold ok. destruct (dial i); split; intros [? ?]; (split; [lia|done]). }
  eexists _, _. split; [done|]. destruct (List.filter ok _) as [|i l].
  - split; [done|]. intros (i & Hi & Hd). by destruct (proj2 (Hin i) (conj Hi Hd)).
  - split; [|done]. intros _. exists i. apply Hin. by left.
Qed.

(** ** What the handler makes of a refusal *)

Inductive diagnosis := EmptyInfo | InvalidData | TypeMismatch | JSONFormat | BusinessError.

Definition analyse (info : string) : list diagnosis :=
  ((if contains info "invalid" then [InvalidData] else []) ++
   (if contains info "type" then [TypeMismatch] else []) ++
   (if contains info "cannot find pair" then [JSONFormat]
    else if contains info "failed -" then [BusinessError] else []))%list.

(** The notes in the log for a refused batch. *)
Definition diagnose (activeCount trapperCount : nat) (resActive resTrapper : Response) : list diagnosis :=
  let hasActiveInfo := (0 <? activeCount)%nat && negb (String.eqb (Info resActive) "") in
  let hasTrapperInfo := (0 <? trapperCount)%nat && negb (String.eqb (Info resTrapper) "") in
  if negb hasActiveInfo && negb hasTrapperInfo then [EmptyInfo]
  else ((if hasActiveInfo then analyse (Info resActive) else []) ++ (if hasTrapperInfo then analyse (Info resTrapper) else []))%list.

(** The counts by key, and the warning about a value that is an integer. *)
Definition count_keys (ms : list Metric) : nat * nat :=
  (count (λ m, String.eqb (m_Key m) ping_key) ms, count (λ m, String.eqb (m_Key m) error_key) ms).
Definition value_out_of_range (m : Metric) : bool :=
  match atoi (m_Value m) with Some v => (v <? 0) || (100 <? v) | None => false end.

Lemma count_keys_all es : let '(p, e) := count_keys (map metric_of es) in (p + e = length es)%nat.
Proof.
  unfold count_keys, count. induction es as [|x es IH]; [done|]. cbn [map List.filter].
  assert (H : m_Key (metric_of x) = ping_key ∨ m_Key (metric_of x) = error_key).
  { unfold metric_of. cbv zeta. repeat case_match; auto. }
  destruct H as [-> | ->].
  - change (String.eqb ping_key ping_key) with true. change (String.eqb ping_key error_key) with false. cbn [length] in *. lia.
  - change (String.eqb error_key error_key) with true. change (String.eqb error_key ping_key) with false. cbn [length] in *. lia.
Qed.
