(* ===== verification/Pool.v ===== *)
(** * Pool: the connection pool ([src/connection/pool_enhanced.go])

    The pool of one router and the operations a task performs on it: [GetWithContext]
    with its search, creation and retries, [MonitoredDriver.Execute], [Release]. An
    operation is a program of [Conc]; what one lock or one atomic instruction covers
    is one action. [PoolTasks] has the operations in the background and the close.

    Connections are shared objects: the map of the pool, the handles given to tasks
    and the goroutines refer to them by their number in [objs]. The pool registers
    the factory of its configured protocol only, so that there is one driver pool. *)
From S2P Require Import Prelude GoStrings GoFloat GoContext Conc Types Config ConnState Rebuild.
From S2P Require Resilience.
Local Open Scope string_scope.
Local Open Scope Z_scope.

Abbreviation error := (list string).
Implicit Types (cfg : EnhancedConnectionConfig).

(** ** The state *)

Inductive PoolEventType :=
  | EventConnectionCreated | EventConnectionDestroyed | EventConnectionReused | EventConnectionFailed
  | EventHealthCheckFailed | EventPoolWarmupStarted | EventPoolWarmupCompleted | EventPoolShutdown
  | EventConnectionRebuilt | EventRebuildFailed | EventRebuildMarked | EventRebuildStarted
  | EventRebuildCompleted | EventConnectionsNeedRebuild.
#[global] Instance PoolEventType_eq_dec : EqDecision PoolEventType.
Proof. solve_decision. Defined.

Inductive WarmupState := WarmupStateNotStarted | WarmupStateInProgress | WarmupStateCompleted | WarmupStateFailed.

Record WarmupStatus := mk_warmup {
  w_Target : Z;
  w_Success : Z;
  w_Failed : Z;
  w_StartTime : option Z;
  w_EndTime : option Z;
  w_Status : WarmupState }.

(** The channels of one call of [WarmUp]. *)
Record warm_call := mk_call { sem_cap : nat; sem_len : nat; errChan : list (option error) }.

Record DriverPoolStats := mk_stats {
  TotalConnections : Z;
  ActiveConnections : Z;
  IdleConnections : Z;
  CreatedConnections : Z;
  DestroyedConnections : Z;
  ReuseCount : Z;
  LastActivity : Z }.

(** A pooled connection with its driver: whether it still has one, and how often
    that was closed. *)
Record object := mk_obj { conn : EnhancedPooledConnection; has_driver : bool; closes : nat }.

(** The handle a task gets; the embedded driver is nil when the connection had none. *)
Record MonitoredDriver := mk_monitored {
  md_conn : nat;
  md_driver : bool;
  md_protocol : string;
  startTime : Z;
  lastError : option error;
  inUse : bool;
  useCount : Z }.

(** Goroutines that were started and have not run yet. *)
Inductive job := ForceClose (i : nat) | WarmOne (call : nat).

(** [history] is not in the code: the acquisitions ([true]) and releases ([false])
    of the connections so far, for the statements. *)
Record Pool := mk_pool {
  objs : list object;
  connections : gmap string nat;
  stats : DriverPoolStats;
  isShuttingDown : bool;
  ctx_cancelled : bool;
  eventChan : list PoolEventType;
  chan_closed : bool;
  monitored : list MonitoredDriver;
  jobs : list job;
  warmup : WarmupStatus;
  warm_calls : list warm_call;
  history : list (bool * nat) }.

Definition NewEnhancedConnectionPool : Pool :=
  mk_pool [] ∅ (mk_stats 0 0 0 0 0 0 0) false false [] false [] [] (mk_warmup 0 0 0 None None WarmupStateNotStarted) [] [].

(** The answers of the environment: a clock reading, the state of a context, the
    order in which a map is ranged over, the outcome of a call of the driver, the
    go-ahead of an action that asks for nothing. *)
Inductive answer :=
  | Time (t : Z)
  | Ctx (err : option ctx_error)
  | Order (ids : list string)
  | Driver (err : option error)
  | Reply (err : option error) (success : bool)
  | Tick.

Abbreviation prog := (Conc.prog Pool answer).

(** ** Actions *)

Definition step {B} (f : Pool → Pool * B) : prog B := act (λ s _, Some (f s)).
Definition read {B} (f : Pool → B) : prog B := step (λ s, (s, f s)).
Definition now : prog Z := act (λ s x, match x with Time t => Some (s, t) | _ => None end).
Definition driver_call : prog (option error) := act (λ s x, match x with Driver e => Some (s, e) | _ => None end).

Definition ctx_text (e : ctx_error) : error :=
  match e with Canceled => ["context canceled"] | DeadlineExceeded => ["context deadline exceeded"] end.

(** [ctx.Err()], or [ctx.Done()] in a [select] with a default; a context that was
    [merged] with the pool's is done when that is cancelled. *)
Definition ctx_Err (merged : bool) : prog (option error) :=
  act (λ s x, match x with
              | Ctx None => if merged && ctx_cancelled s then None else Some (s, None)
              | Ctx (Some e) => Some (s, Some (ctx_text e))
              | _ => None
              end).
(** [select] on [ctx.Done()] and a timer. *)
Definition ctx_wait : prog (option error) := act (λ s x, match x with Ctx e => Some (s, option_map ctx_text e) | _ => None end).

(** A method of a connection, at a time that it may read. *)
Definition on_conn {B} (i : nat) (f : EnhancedPooledConnection → EnhancedPooledConnection * B) : prog B :=
  act (λ s _, match objs s !! i with
              | Some o => let '(c, b) := f (conn o) in Some ({ s with objs ::= <[i := { o with conn := c }]> }, b)
              | None => None
              end).
Definition on_conn_at {B} (i : nat) (f : Z → EnhancedPooledConnection → EnhancedPooledConnection * B) : prog B :=
  t ← now; on_conn i (f t).
Definition read_conn {B} (i : nat) (f : EnhancedPooledConnection → B) : prog B := on_conn i (λ c, (c, f c)).
Definition change_conn (i : nat) (f : EnhancedPooledConnection → EnhancedPooledConnection) : prog unit :=
  on_conn i (λ c, (f c, ())).

Definition bump (n : Z) (z : Z) : Z := wrap64 (z + n).
Definition stat (f : DriverPoolStats → DriverPoolStats) : prog unit := step (λ s, ({ s with stats ::= f }, ())).
Definition add_active (n : Z) (st : DriverPoolStats) := { st with ActiveConnections ::= bump n }.
Definition add_idle (n : Z) (st : DriverPoolStats) := { st with IdleConnections ::= bump n }.
Definition add_created (st : DriverPoolStats) := { st with CreatedConnections ::= bump 1 }.
Definition add_destroyed (st : DriverPoolStats) := { st with DestroyedConnections ::= bump 1 }.

(** A send on the event channel (capacity 1000): dropped when it is full, a panic
    when it is closed. *)
Definition chan_send (e : PoolEventType) : prog unit :=
  ok ← step (λ s, if chan_closed s then (s, false)
                  else (if (length (eventChan s) <? 1000)%nat then { s with eventChan ::= (.++ [e])%list } else s, true));
  if ok : bool then mret () else Crash "send on closed channel".

Definition sendEvent (e : PoolEventType) : prog unit :=
  closing ← read isShuttingDown;
  if closing : bool then mret () else catch (chan_send e) (λ _, mret ()).

(** [driver.Close()]; calling a nil driver panics. *)
Definition driver_Close (i : nat) : prog (option error) :=
  has ← act (λ s _, match objs s !! i with Some o => Some (s, has_driver o) | None => None end);
  if has : bool
  then step (λ s, ({ s with objs ::= alter (λ o, { o with closes ::= S }) i }, ()));; driver_call
  else Crash "nil pointer dereference".

(** A function with deferred calls. *)
Definition finally {A} (p : prog A) (deferred : prog unit) : prog A :=
  r ← catch p (λ w, deferred;; Crash w); deferred;; mret r.

(** ** Closing a connection *)

Fixpoint wait_unused (polls : nat) (i : nat) (deadline : Z) : prog unit :=
  match polls with
  | O => mret ()
  | S polls =>
      n ← read_conn i usingCount;
      if 1 <? n then
        t ← now;
        if t <? deadline then wait_unused polls i deadline else mret ()
      else mret ()
  end.

(** Two seconds of polls every 50 milliseconds. *)
Definition safeClose (i : nat) : prog (option error) :=
  change_conn i acquireUse;;
  finally (
    n ← read_conn i usingCount;
    if 1 <? n then
      t ← now; wait_unused 41 i (t + 2 * Second);;
      n ← read_conn i usingCount;
      if 1 <? n then mret (Some ["connection still in use by others: useCount=" +:+ itoa (n - 1)]) else driver_Close i
    else driver_Close i)
  (change_conn i releaseUse).

(** The panic of a nil driver is recovered and the error is nil. *)
Definition forceClose (i : nat) : prog (option error) :=
  read_conn i getStatus;; read_conn i usingCount;;
  catch (driver_Close i) (λ _, mret None).

(** ** Load balancing *)

Definition selectable (c : EnhancedPooledConnection) : bool :=
  let '(inUse, valid, health) := getState c in negb inUse && valid && bool_decide (health = HealthStatusHealthy).

(** [RoundRobinBalancer]: the counter is an unsigned 64-bit integer. *)
Definition RoundRobin_SelectConnection (counter : Z) (l : list EnhancedPooledConnection) : Z * option EnhancedPooledConnection :=
  match List.filter selectable l with
  | [] => (counter, None)
  | healthy => let counter := uwrap64 (counter + 1) in
               (counter, healthy !! Z.to_nat (counter mod Z.of_nat (length healthy)))
  end.

Definition LeastConnections_SelectConnection (l : list EnhancedPooledConnection) : option EnhancedPooledConnection :=
  (foldl (λ '(minUsage, selected) c,
     if selectable c && (usageCount c <? minUsage) then (usageCount c, Some c) else (minUsage, selected))
     (max_int64, None) l).2.

Definition UpdateConnectionMetrics (responseTime : Z) (success : bool) (c : EnhancedPooledConnection) : EnhancedPooledConnection :=
  let c := { c with totalRequests ::= bump 1 } in
  let c := if success then c else { c with totalErrors ::= bump 1 } in
  if 0 <? totalRequests c
  then { c with avgResponseTime ::= (λ a,
           Z.quot (wrap64 (wrap64 (a * wrap64 (totalRequests c - 1)) + responseTime)) (totalRequests c)) }
  else c.

(** ** Taking a connection *)
Section pool.
Context cfg.

(** [getDriverPool]: the constructor registers the protocols it knows. *)
Definition getDriverPool (proto : string) : bool :=
  String.eqb proto (c_Protocol cfg) && (String.eqb proto ProtocolSSH || String.eqb proto ProtocolScrapli).

Definition connection_name (t : Z) : string := Host cfg +:+ "|" +:+ c_Protocol cfg +:+ "|" +:+ itoa t.

(** The new object is known to its creator only. *)
Definition new_object (rebuilt : bool) (t : Z) (s : Pool) : Pool * nat :=
  let c := new_connection (connection_name t) t in
  ({ s with objs ::= (.++ [mk_obj c true 0])%list }, length (objs s)).

Definition createConnection (merged : bool) : prog (error + nat) :=
  done ← ctx_Err merged;
  match done with
  | Some e => mret (inl e)
  | None =>
      made ← driver_call;
      match made with
      | Some e => mret (inl ("failed to create connection" :: e))
      | None => t ← now; i ← step (new_object false t); sendEvent EventConnectionCreated;; mret (inr i)
      end
  end.

Definition connection_keys : prog (list string) :=
  act (λ s x, match x with
              | Order ids => if bool_decide (NoDup ids ∧ list_to_set ids =@{gset string} dom (connections s))
                             then Some (s, ids) else None
              | _ => None
              end).

(** [tryAcquireForTask] of the connection, recorded in the history. *)
Definition acquire (i : nat) : prog bool :=
  act (λ s x, match x, objs s !! i with
              | Time t, Some o =>
                  match tryAcquireForTask t (conn o) with
                  | (c, true) => Some ({ s with objs ::= <[i := { o with conn := c }]>; history ::= (.++ [(true, i)])%list }, true)
                  | (c, false) => Some ({ s with objs ::= <[i := { o with conn := c }]> }, false)
                  end
              | _, _ => None
              end).

Fixpoint try_candidates (ids : list string) : prog (error + option nat) :=
  match ids with
  | [] => mret (inr None)
  | k :: ids =>
      done ← ctx_Err true;
      match done with
      | Some e => mret (inl e)
      | None =>
          found ← read (λ s, connections s !! k);
          match found with
          | None => try_candidates ids
          | Some i =>
              ok ← acquire i;
              if ok : bool
              then stat (λ st, add_idle (-1) (add_active 1 st));; mret (inr (Some i))
              else try_candidates ids
          end
      end
  end.

Definition tryGetAvailableConnection : prog (error + option nat) := ids ← connection_keys; try_candidates ids.

Definition id_of (s : Pool) (i : nat) : option string := (λ o, id (conn o)) <$> objs s !! i.

(** The part of [tryCreateNewConnection] under the lock. The new connection has no
    other user, so that [safeClose] closes its driver at once. *)
Definition close_new (i : nat) (s : Pool) : Pool :=
  { s with objs ::= alter (λ o, { o with closes ::= S }) i }.

Definition add_connection (i : nat) : prog (error + option nat) :=
  act (λ s x, match x, objs s !! i with
              | Time t, Some o =>
                  let k := id (conn o) in
                  if MaxConnections cfg <=? Z.of_nat (size (connections s)) then Some (close_new i s, inr None)
                  else if existsb (λ kj : string * nat, bool_decide (id_of s kj.2 = Some k)) (map_to_list (connections s))
                  then Some (close_new i s, inr None)
                  else
                    let s := { s with connections ::= <[k := i]>; stats ::= (λ st, add_idle 1 (add_created st)) } in
                    match tryAcquireForTask t (conn o) with
                    | (c, true) =>
                        Some ({ s with objs ::= <[i := { o with conn := c }]>;
                                       stats ::= (λ st, add_idle (-1) (add_active 1 st));
                                       history ::= (.++ [(true, i)])%list }, inr (Some i))
                    | (_, false) => Some (s, inl ["failed to acquire newly created connection"])
                    end
              | _, _ => None
              end).

Definition tryCreateNewConnection : prog (error + option nat) :=
  currentCount ← read (λ s, Z.of_nat (size (connections s)));
  if MaxConnections cfg <=? currentCount then mret (inr None)
  else
    made ← createConnection true;
    match made with
    | inl e => mret (inl e)
    | inr i => add_connection i
    end.

(** The attempts of [getConnectionFromPool] that are left, 50 milliseconds apart. *)
Fixpoint get_attempts (n : nat) : prog (error + nat) :=
  match n with
  | O => mret (inl ["failed to get connection after 3 attempts"])
  | S n =>
      done ← ctx_Err true;
      match done with
      | Some e => mret (inl e)
      | None =>
          got ← tryGetAvailableConnection;
          match got with
          | inr (Some i) => mret (inr i)
          | inl e => mret (inl e)
          | inr None =>
              got ← tryCreateNewConnection;
              match got with
              | inr (Some i) => mret (inr i)
              | inl e => mret (inl e)
              | inr None =>
                  match n with
                  | O => get_attempts n
                  | S _ => done ← ctx_wait;
                           match done with Some e => mret (inl e) | None => get_attempts n end
                  end
              end
          end
      end
  end.

Definition getConnectionFromPool : prog (error + nat) :=
  done ← ctx_Err true;
  match done with
  | Some e => mret (inl e)
  | None => get_attempts 3
  end.

(** [resilientExecutor.Execute] around it, with the policy of the configuration
    ([Resilience.attempts] is the same loop on a sequential world). *)
Section retry.
Context (rnd : Z → float64).
Let policy := Resilience.connection_policy cfg.

Fixpoint get_retries (n : nat) (attempt : Z) (last : option error) : prog (error + nat) :=
  match n with
  | O => mret (inl (Resilience.exceeded last))
  | S n =>
      done ← ctx_Err true;
      match done with
      | Some _ => mret (inl [Resilience.ErrRetryContextCancelled])
      | None =>
          got ← getConnectionFromPool;
          match got with
          | inr i => mret (inr i)
          | inl e =>
              if negb (Resilience.ShouldRetry policy (attempt + 1) e) then mret (inl (Resilience.exceeded (Some e)))
              else if 0 <? Resilience.NextDelay policy (rnd (attempt + 1)) (attempt + 1) then
                done ← ctx_wait;
                match done with
                | Some _ => mret (inl [Resilience.ErrRetryContextCancelled])
                | None => get_retries n (attempt + 1) (Some e)
                end
              else get_retries n (attempt + 1) (Some e)
          end
      end
  end.

Definition activateConnection (i : nat) : prog nat :=
  stat (add_active 1);; stat (add_idle (-1));; stat (λ st, { st with ReuseCount ::= bump 1 });;
  sendEvent EventConnectionReused;;
  act (λ s x, match x, objs s !! i with
              | Time t, Some o =>
                  Some ({ s with monitored ::= (.++ [mk_monitored i (has_driver o) (c_Protocol cfg) t None false 0])%list },
                        length (monitored s))
              | _, _ => None
              end).

Definition GetWithContext (proto : string) : prog (error + nat) :=
  closing ← read isShuttingDown;
  if closing : bool then mret (inl ["connection pool is shutting down"])
  else
    done ← ctx_Err true;
    match done with
    | Some e => mret (inl e)
    | None =>
        if negb (getDriverPool proto) then mret (inl ["unsupported protocol: " +:+ proto])
        else
          got ← get_retries (Z.to_nat (Resilience.GetMaxAttempts policy)) 0 None;
          match got with
          | inl e => mret (inl e)
          | inr i => h ← activateConnection i; mret (inr h)
          end
    end.
End retry.

(** ** Using and releasing it *)

Definition on_monitored {B} (h : nat) (f : MonitoredDriver → MonitoredDriver * B) : prog B :=
  act (λ s _, match monitored s !! h with
              | Some m => let '(m, b) := f m in Some ({ s with monitored ::= <[h := m]> }, b)
              | None => None
              end).

(** What [protocolDriver.Execute] returns: an error, or a response and its flag. *)
Definition driver_Execute (h : nat) : prog (option error * bool) :=
  has ← on_monitored h (λ m, (m, md_driver m));
  if has : bool then act (λ s x, match x with Reply e ok => Some (s, (e, ok)) | _ => None end)
  else Crash "nil pointer dereference".

Definition Execute (h : nat) : prog (option error * bool) :=
  i ← on_monitored h (λ m, (m, md_conn m));
  change_conn i acquireUse;;
  finally (
    oldState ← read_conn i state;
    executing ← (if bool_decide (oldState = StateAcquired)
                 then on_conn i (λ c, transitionState c StateExecuting) else mret false);
    finally (
      on_monitored h (λ m, ({ m with inUse := true; useCount ::= bump 1 }, ()));;
      finally (
        '(err, ok) ← driver_Execute h;
        on_monitored h (λ m, ({ m with lastError := err }, ()));;
        change_conn i (λ c, { c with totalRequests ::= bump 1 });;
        (match err with Some _ => change_conn i (λ c, { c with totalErrors ::= bump 1 }) | None => mret () end);;
        mret (err, ok))
      (on_monitored h (λ m, ({ m with inUse := false }, ()))))
    (if executing : bool then on_conn i (λ c, ((transitionState c StateAcquired).1, ())) else mret ()))
  (change_conn i releaseUse).

(** A driver that is not the pool's, or a handle. *)
Inductive ProtocolDriver := ForeignDriver | Monitored (h : nat).

Definition release_conn (i : nat) : prog unit :=
  act (λ s x, match x, objs s !! i with
              | Time t, Some o => Some ({ s with objs ::= <[i := { o with conn ::= release t }]>;
                                                 history ::= (.++ [(false, i)])%list }, ())
              | _, _ => None
              end).

Definition Release (d : ProtocolDriver) : prog (option error) :=
  match d with
  | ForeignDriver => mret (Some ["invalid driver type"])
  | Monitored h =>
      '(i, proto, started) ← on_monitored h (λ m, (m, (md_conn m, md_protocol m, startTime m)));
      if negb (getDriverPool proto) then mret (Some ["protocol not found: " +:+ proto])
      else
        release_conn i;;
        stat (add_active (-1));; stat (add_idle 1);;
        failed ← on_monitored h (λ m, (m, lastError m));
        on_conn_at i (λ t c, (UpdateConnectionMetrics (time_sub t started) (bool_decide (failed = None)) c, ()));;
        mret None
  end.

Definition MonitoredDriver_Close (h : nat) : prog (option error) := Release (Monitored h);; mret None.

(** [MonitoredDriver.Connect]; both drivers have a [Connect]. *)
Definition Connect (h : nat) : prog (option error) :=
  i ← on_monitored h (λ m, (m, md_conn m));
  change_conn i acquireUse;;
  finally (
    oldState ← read_conn i state;
    ok ← on_conn i (λ c, transitionState c StateConnecting);
    if negb ok then mret (Some ["cannot transition to connecting state"])
    else
      err ← driver_call;
      on_conn i (λ c, transitionState c (match err with None => StateAcquired | Some _ => StateIdle end));;
      mret err)
  (change_conn i releaseUse).
End pool.
