(* ===== verification/PoolTasks.v ===== *)
(** * PoolTasks: the work of the pool in the background, and its end
    ([src/connection/pool_enhanced.go])

    Health checks, clean-up, metrics, warm-up, rebuilds and [Close], as programs over
    the state of [Pool]. A goroutine they start is put in [jobs], from which a thread
    [goroutine] takes it. *)
From S2P Require Import Prelude GoStrings GoFloat Conc Types Config ConnState Rebuild Pool.
From S2P Require ConnSharing.
Local Open Scope string_scope.
Local Open Scope Z_scope.

Definition spawn (j : job) : prog unit := step (λ s, ({ s with jobs ::= (.++ [j])%list }, ())).
Definition read_obj {B} (i : nat) (f : object → B) : prog B :=
  act (λ s _, match objs s !! i with Some o => Some (s, f o) | None => None end).

(** The connections of the pool, in some order. *)
Definition members (ids : list string) (s : Pool) : list nat := omap (λ k, connections s !! k) ids.

(** ** Health checks *)

(** [classifyHealthCheckError]; [None] is the nil error. *)
Definition classifyHealthCheckError (err : option string) : HealthCheckErrorType :=
  match err with
  | None => HealthErrorUnknown
  | Some e =>
      if String.eqb e "EOF" || contains e "EOF" then HealthErrorNetwork
      else if contains e "timeout" || contains e "deadline" || contains e "context deadline exceeded" then HealthErrorTimeout
      else if contains e "network" || contains e "connection" || contains e "reset by peer" || contains e "broken pipe"
      then HealthErrorNetwork
      else if contains e "authentication" || contains e "password" || contains e "login" || contains e "auth"
      then HealthErrorAuth
      else if contains e "command" || contains e "syntax" || contains e "invalid command" then HealthErrorCommand
      else if contains e "protocol" || contains e "unsupported" then HealthErrorProtocol
      else HealthErrorUnknown
  end.

Section tasks.
Context (cfg : EnhancedConnectionConfig) (rnd : Z → float64).
Abbreviation proto := (c_Protocol cfg).

(** The driver's [Execute] or [GetPromptWithContext]; a nil driver panics. *)
Definition health_command : option string :=
  let p := c_Platform cfg in
  if existsb (String.eqb p) [PlatformCiscoIOSXE; PlatformCiscoIOSXR; PlatformCiscoNXOS] then Some "show clock"
  else if existsb (String.eqb p) [PlatformHuaweiVRP; PlatformH3CComware] then Some "display clock"
  else None.

Definition reply : prog (option error * bool) := act (λ s x, match x with Reply e ok => Some (s, (e, ok)) | _ => None end).

Definition healthCheckSSH : prog (option error) :=
  match health_command with
  | None => mret (Some ["unsupported platform for SSH health check: " +:+ c_Platform cfg])
  | Some _ =>
      '(err, ok) ← reply;
      mret (match err with Some _ => err | None => if ok : bool then None else Some ["health check command failed"] end)
  end.

Definition defaultHealthCheck (driver : bool) : prog (option error) :=
  if negb driver then Crash "nil pointer dereference"
  else if String.eqb proto ProtocolScrapli then '(err, _) ← reply; mret err
  else if String.eqb proto ProtocolSSH then healthCheckSSH
  else mret (Some ["unsupported protocol: " +:+ proto]).

Definition checkConnectionHealthWithContext (i : nat) : prog (bool * option error) :=
  t ← now; age ← read_conn i (λ c, time_sub t (createdAt c));
  if age <? 15 * Second then mret (false, Some ["the connection is too young"])
  else
    began ← on_conn i beginHealthCheck;
    if negb began then mret (false, Some ["cannot start the health check"])
    else
      driver ← read_obj i has_driver;
      checkErr ← defaultHealthCheck driver;
      on_conn_at i (λ t c, (recordHealthCheck cfg t (bool_decide (checkErr = None)) c, ()));;
      match checkErr with
      | Some e => sendEvent EventHealthCheckFailed;; mret (false, Some e)
      | None => mret (true, None)
      end.

Definition performHealthCheckForProtocol : prog unit :=
  got ← GetWithContext cfg rnd proto;
  match got with
  | inl _ => mret ()
  | inr h =>
      i ← on_monitored h (λ m, (m, md_conn m));
      finally (
        st ← read_conn i state;
        if bool_decide (st = StateAcquired) || bool_decide (st = StateIdle)
        then checkConnectionHealthWithContext i;; mret () else mret ())
      (Release cfg (Monitored h);; mret ())
  end.

(** ** Clean-up *)

(** The counters it corrects never go below zero. *)
Definition drop_stat (st : ConnectionState) (stats : DriverPoolStats) : DriverPoolStats :=
  match st with
  | StateIdle => if 0 <? IdleConnections stats then add_idle (-1) stats else stats
  | _ => if 0 <? ActiveConnections stats then add_active (-1) stats else stats
  end.

Fixpoint cleanup_each (now : Z) (ids : list string) : prog unit :=
  match ids with
  | [] => mret ()
  | k :: ids =>
      found ← read (λ s, connections s !! k);
      match found with
      | None => cleanup_each now ids
      | Some i =>
          remove ← read_conn i (λ c, shouldCleanupConnection cfg (MaxIdleTime cfg) c now);
          if remove : bool then
            st ← read_conn i state;
            removed ← step (λ s, match connections s !! k with
                                 | Some _ => ({ s with connections ::= delete k; stats ::= drop_stat st }, true)
                                 | None => (s, false)
                                 end);
            (if removed : bool then spawn (ForceClose i) else mret ());;
            cleanup_each now ids
          else cleanup_each now ids
      end
  end.
Definition cleanupConnections : prog unit := t ← now; ids ← connection_keys; cleanup_each t ids.

(** The goroutine it starts for a removed connection. *)
Definition close_removed (i : nat) : prog unit :=
  forceClose i;; stat add_destroyed;; sendEvent EventConnectionDestroyed.

(** ** Metrics *)

Fixpoint count_idle (l : list nat) (active idle : Z) : prog (Z * Z) :=
  match l with
  | [] => mret (active, idle)
  | i :: l => free ← read_conn i isIdle; if free : bool then count_idle l active (idle + 1) else count_idle l (active + 1) idle
  end.

Definition updateMetrics : prog unit :=
  ids ← connection_keys; l ← read (members ids);
  '(active, idle) ← count_idle l 0 0;
  stat (λ st, { st with TotalConnections := active + idle });;
  stat (λ st, { st with ActiveConnections := active });;
  stat (λ st, { st with IdleConnections := idle });;
  t ← now; stat (λ st, { st with LastActivity := Z.div t Second }).

Fixpoint count_in_use (l : list nat) (total : Z) : prog Z :=
  match l with
  | [] => mret total
  | i :: l => used ← read_conn i (λ c, (getState c).1.1); count_in_use l (if used : bool then total + 1 else total)
  end.
Definition getActiveConnectionCount : prog Z := ids ← connection_keys; l ← read (members ids); count_in_use l 0.

(** [GetStats]: a copy. *)
Definition GetStats (s : Pool) : DriverPoolStats := stats s.
Definition GetWarmupStatus (s : Pool) : WarmupStatus := warmup s.

(** ** Warm-up *)

Definition on_call (n : nat) (f : warm_call → option warm_call) : prog unit :=
  act (λ s _, match warm_calls s !! n with
              | Some w => (λ w, ({ s with warm_calls ::= <[n := w]> }, ())) <$> f w
              | None => None
              end).
Definition acquire_sem (n : nat) : prog unit :=
  on_call n (λ w, if (sem_len w <? sem_cap w)%nat then Some { w with sem_len ::= S } else None).
Definition release_sem (n : nat) : prog unit :=
  on_call n (λ w, match sem_len w with O => None | S k => Some { w with sem_len := k } end).
Definition push_result (n : nat) (e : option error) : prog unit := on_call n (λ w, Some { w with errChan ::= (.++ [e])%list }).
Definition pop_result (n : nat) : prog (option error) :=
  act (λ s _, match warm_calls s !! n with
              | Some w => match errChan w with
                          | e :: l => Some ({ s with warm_calls ::= <[n := { w with errChan := l }]> }, e)
                          | [] => None
                          end
              | None => None
              end).

(** The connection is put in the map whatever its size is. *)
Definition insert_connection (i : nat) : prog unit :=
  act (λ s _, match objs s !! i with
              | Some o => Some ({ s with connections ::= <[id (conn o) := i]>;
                                         stats ::= (λ st, add_idle 1 (add_created st)) }, ())
              | None => None
              end).

(** Three attempts; the error of the attempts is a variable of the loop's body, which
    hides the one that is reported. *)
Fixpoint warm_attempts (n : nat) : prog unit :=
  match n with
  | O => mret ()
  | S n =>
      made ← createConnection cfg true;
      match made with
      | inr i => insert_connection i;; step (λ s, ({ s with warmup ::= (λ w, { w with w_Success ::= bump 1 }) }, ()))
      | inl _ => warm_attempts n
      end
  end.
Definition warm_one (n : nat) : prog unit :=
  acquire_sem n;;
  finally (
    warm_attempts 3;;
    push_result n None;;
    step (λ s, ({ s with warmup ::= (λ w, { w with w_Failed ::= bump 1 }) }, ())))
  (release_sem n).

Fixpoint spawn_workers (n call : nat) : prog unit :=
  match n with O => mret () | S n => spawn (WarmOne call);; spawn_workers n call end.
Fixpoint collect_results (n call : nat) (errors : list error) : prog (list error) :=
  match n with
  | O => mret errors
  | S n => e ← pop_result call; collect_results n call (match e with Some e => errors ++ [e] | None => errors end)%list
  end.
Fixpoint drain_sem (n call : nat) : prog unit :=
  match n with O => mret () | S n => acquire_sem call;; drain_sem n call end.

Definition WarmUp (target : Z) : prog (option error) :=
  if negb (getDriverPool cfg proto) then mret (Some ["protocol " +:+ proto +:+ " not registered"])
  else
    t ← now;
    step (λ s, ({ s with warmup ::= (λ w, { w with w_Target := target; w_StartTime := Some t; w_Status := WarmupStateInProgress }) }, ()));;
    sendEvent EventPoolWarmupStarted;;
    if target <? 0 then Crash "makechan: size out of range"
    else
      let maxConcurrent := Z.to_nat (Z.min target 2) in
      call ← step (λ s, ({ s with warm_calls ::= (.++ [mk_call maxConcurrent 0 []])%list }, length (warm_calls s)));
      spawn_workers (Z.to_nat target) call;;
      errors ← collect_results (Z.to_nat target) call [];
      drain_sem maxConcurrent call;;
      t ← now;
      successCount ← step (λ s, let n := w_Success (warmup s) in
        ({ s with warmup ::= (λ w, { w with w_EndTime := Some t;
             w_Status := if n =? target then WarmupStateCompleted
                         else if 0 <? n then WarmupStateCompleted else WarmupStateFailed }) }, n));
      sendEvent EventPoolWarmupCompleted;;
      if successCount =? 0
      then mret (Some ["warmup failed: 0 connections established out of " +:+ itoa target +:+ " attempts"])
      else mret None.

(** A goroutine that was started. *)
Definition goroutine : prog unit :=
  j ← act (λ s _, match jobs s with j :: l => Some ({ s with jobs := l }, j) | [] => None end);
  match j with
  | ForceClose i => catch (close_removed i) (λ _, mret ())
  | WarmOne n => warm_one n
  end.

(** ** Rebuilds *)

(** [RebuildManager.sendEvent] does not recover. *)
Definition rm_sendEvent : PoolEventType → prog unit := chan_send.

Definition createReplacementConnection (merged : bool) : prog (error + nat) :=
  made ← createConnection cfg merged;
  match made with
  | inl e => mret (inl e)
  | inr i => on_conn_at i (λ t c, ({ c with lastRebuiltAt := Some t }, ()));; mret (inr i)
  end.

(** Closes the old connection and takes it out of the pool, if its state allows it. *)
Definition close_old (i : nat) (oldID : string) : prog bool :=
  ok ← on_conn i beginClose;
  st ← read_conn i state;
  if negb ok && negb (bool_decide (st = StateClosed)) && negb (bool_decide (st = StateClosing)) then mret false
  else
    has ← read_obj i has_driver;
    (if has : bool
     then driver_Close i;; step (λ s, ({ s with objs ::= alter (λ o, { o with has_driver := false }) i }, ()))
     else mret ());;
    step (λ s, ({ s with connections ::= delete oldID; stats ::= add_idle (-1) }, ()));;
    on_conn i completeClose;; mret true.

(** From [beginClose] to the end; also whether the variable [err] is nil then. *)
Definition rebuild_body (merged : bool) (i : nat) (oldID : string) : prog ((error + string) * bool) :=
  closed ← close_old i oldID;
  if negb closed then mret (inl ["the state of connection " +:+ oldID +:+ " does not allow closing it"], true)
  else
    made ← createReplacementConnection merged;
    match made with
    | inl e => mret (inl ("creating the new connection failed" :: e), false)
    | inr j =>
        insert_connection j;;
        sendEvent EventConnectionRebuilt;;
        k ← read_conn j id;
        mret (inr k, true)
    end.

Definition performCoreRebuild (merged : bool) (i : nat) : prog (error + string) :=
  oldID ← read_conn i id;
  if negb (getDriverPool cfg proto) then mret (inl ["no driver pool: protocol=" +:+ proto])
  else
    idle ← read_conn i isIdle; uses ← read_conn i usingCount;
    if negb idle || (0 <? uses) then mret (inl ["connection " +:+ oldID +:+ " cannot be rebuilt"])
    else
      began ← on_conn i beginRebuild;
      if negb began then mret (inl ["the rebuild cannot begin: id=" +:+ oldID])
      else
        '(r, ok) ← catch (rebuild_body merged i oldID) (λ _, mret (inr "", false));
        change_conn i (completeRebuild ok);; mret r.

Definition rebuildConnection (merged : bool) (i : nat) : prog (error + string) :=
  rm_sendEvent EventRebuildStarted;;
  r ← performCoreRebuild merged i;
  rm_sendEvent EventRebuildCompleted;;
  match r with
  | inl e => sendEvent EventRebuildFailed;; mret (inl ("the rebuild failed" :: e))
  | inr k => mret (inr k)
  end.

Definition findConnectionByID (connID : string) (s : Pool) : option nat :=
  snd <$> find_first (λ kj : string * nat, bool_decide (id_of s kj.2 = Some connID)) (map_to_list (connections s)).

Inductive RebuildErrorCode :=
  | RebuildErrorCodeNotFound | RebuildErrorCodeInvalidState | RebuildErrorCodeCreateFailed
  | RebuildErrorCodeReplaceFailed | RebuildErrorCodeTimeout | RebuildErrorCodeCancelled | RebuildErrorCodePoolClosed.

Record RebuildError := mk_rebuild_error { Code : RebuildErrorCode; Retryable : bool; OriginalError : error }.
Record RebuildResult := mk_rebuild_result { r_Success : bool; OldConnID : string; NewConnID : string; Reason : string }.

Definition RebuildConnectionByID (merged : bool) (connID : string) : prog (RebuildError + RebuildResult) :=
  found ← read (findConnectionByID connID);
  match found with
  | None => mret (inl (mk_rebuild_error RebuildErrorCodeNotFound false []))
  | Some i =>
      reason ← read_conn i rebuildReason;
      let reason := if String.eqb reason "" then "manual_rebuild" else reason in
      r ← rebuildConnection merged i;
      match r with
      | inl e => mret (inl (mk_rebuild_error RebuildErrorCodeInvalidState true e))
      | inr k => mret (inr (mk_rebuild_result true connID k reason))
      end
  end.

(** ** The end of the pool *)

(** What [Close] does under the lock: the connections in use are released, and the
    map is emptied. *)
Definition release_in_use (t : Z) (s : Pool) (i : nat) : Pool :=
  match objs s !! i with
  | Some o => if (getState (conn o)).1.1
              then { s with objs ::= <[i := { o with conn ::= release t }]>; history ::= (.++ [(false, i)])%list } else s
  | None => s
  end.
Definition take_all (t : Z) : prog (list nat) :=
  act (λ s x, match x with
              | Order ids =>
                  if bool_decide (NoDup ids ∧ list_to_set ids =@{gset string} dom (connections s))
                  then let l := members ids s in Some ({ foldl (release_in_use t) s l with connections := ∅ }, l)
                  else None
              | _ => None
              end).

(** The goroutine for one connection: its panic is recovered and is an error. *)
Definition close_one (i : nat) : prog (list error) :=
  catch (
    change_conn i (λ c, setHealthLocked c HealthStatusUnhealthy);;
    err ← safeClose i;
    stat add_destroyed;;
    mret (match err with Some e => [("protocol " +:+ proto) :: e] | None => [] end))
  (λ w, mret [["protocol " +:+ proto; "panic during close: " +:+ w]]).
Fixpoint close_each (l : list nat) (errors : list error) : prog (list error) :=
  match l with [] => mret errors | i :: l => e ← close_one i; close_each l (errors ++ e)%list end.

Definition Close : prog (option error) :=
  step (λ s, ({ s with isShuttingDown := true }, ()));;
  step (λ s, ({ s with ctx_cancelled := true }, ()));;
  sendEvent EventPoolShutdown;;
  ok ← step (λ s, ({ s with chan_closed := true }, negb (chan_closed s)));
  if negb ok then Crash "close of closed channel"
  else
    t ← now; l ← take_all t;
    errors ← close_each l [];
    mret (match errors with [] => None | _ => Some ("close errors" :: mjoin errors)%list end).

(** [polls] readings of the clock before the deadline, 100 milliseconds apart. *)
Fixpoint wait_idle (polls : nat) (deadline : Z) : prog unit :=
  match polls with
  | O => mret ()
  | S polls =>
      n ← getActiveConnectionCount;
      if 0 <? n then t ← now; if t <? deadline then wait_idle polls deadline else mret () else mret ()
  end.
Definition ShutdownGraceful (timeout : Z) : prog (option error) :=
  step (λ s, ({ s with isShuttingDown := true }, ()));;
  (if 0 <? timeout then t ← now; wait_idle (S (Z.to_nat (timeout / (100 * Millisecond) + 1))) (t + timeout) else mret ());;
  Close.
End tasks.
