(* ===== verification/PoolSafety.v ===== *)
(** * PoolSafety: what holds in every interleaving of the pool's operations

    [change] is what the operations of [Pool] and [PoolTasks] can do to the pool, as
    a relation; every action of every operation is a sequence of changes
    ([perform_keeps]). The invariants are proved by induction on the changes, and
    hold whatever the operations are, whoever performs them, and however they
    interleave. *)
From S2P Require Import Prelude GoStrings GoFloat Conc Types Config ConnState Rebuild Pool PoolTasks.
From stdpp Require Import relations.
Local Open Scope string_scope.
Local Open Scope Z_scope.

(** ** The changes *)

(** Which operations there are: ones that insert without looking at the size
    (warm-ups and rebuilds), rebuilds, closes of the pool. *)
Record allowed := mk_allowed { unchecked : bool; rebuilds : bool; closing_pool : bool }.

Definition handle_of (m : MonitoredDriver) : nat * bool := (md_conn m, md_driver m).

Section changes.
Context (cfg : EnhancedConnectionConfig) (a : allowed).
Implicit Types (s : Pool).

Definition job_ok (j : job) : Prop := match j with ForceClose _ => True | WarmOne _ => unchecked a = true end.

Inductive change : Pool → Pool → Prop :=
  | ch_inert s s' :
      objs s' = objs s → connections s' = connections s → history s' = history s →
      handle_of <$> monitored s' = handle_of <$> monitored s → chan_closed s' = chan_closed s →
      (Forall job_ok (jobs s) → Forall job_ok (jobs s')) → change s s'
  | ch_conn s i o c :
      objs s !! i = Some o → id c = id (conn o) → (state c = StateIdle → state (conn o) = StateIdle) →
      change s { s with objs ::= <[i := { o with conn := c }]> }
  | ch_driver_closed s i : change s { s with objs ::= alter (λ o, { o with closes ::= S }) i }
  | ch_driver_dropped s i :
      rebuilds a = true → change s { s with objs ::= alter (λ o, { o with has_driver := false }) i }
  | ch_new s c : change s { s with objs ::= (.++ [mk_obj c true 0])%list }
  | ch_acquire s i o c :
      objs s !! i = Some o → state (conn o) = StateIdle → id c = id (conn o) → state c ≠ StateIdle →
      change s { s with objs ::= <[i := { o with conn := c }]>; history ::= (.++ [(true, i)])%list }
  | ch_release s i o c :
      objs s !! i = Some o → id c = id (conn o) →
      change s { s with objs ::= <[i := { o with conn := c }]>; history ::= (.++ [(false, i)])%list }
  | ch_insert s i o :
      objs s !! i = Some o → (Z.of_nat (size (connections s)) < MaxConnections cfg ∨ unchecked a = true) →
      change s { s with connections ::= <[id (conn o) := i]> }
  | ch_delete s k : change s { s with connections ::= delete k }
  | ch_clear s : change s { s with connections := ∅ }
  | ch_chan_closed s : closing_pool a = true → change s { s with chan_closed := true }
  | ch_handle s i o p t :
      objs s !! i = Some o →
      change s { s with monitored ::= (.++ [mk_monitored i (has_driver o) p t None false 0])%list }.

Definition reach (s : Pool) : Prop := rtc change NewEnhancedConnectionPool s.

(** ** What the changes keep *)

(** The map holds every connection under its own name. *)
Definition keyed s : Prop := ∀ k i, connections s !! k = Some i → id_of s i = Some k.

Lemma id_of_update s i o c j :
  objs s !! i = Some o → id c = id (conn o) →
  id_of { s with objs ::= <[i := { o with conn := c }]> } j = id_of s j.
Proof.
  intros Ho Hid. unfold id_of. simpl. destruct (decide (i = j)) as [->|Hne].
  - rewrite list_lookup_insert_eq by (by eapply lookup_lt_Some). rewrite Ho. simpl. by rewrite Hid.
  - by rewrite list_lookup_insert_ne.
Qed.

Lemma id_of_alter s f i j :
  (∀ o, conn (f o) = conn o) → id_of { s with objs ::= alter f i } j = id_of s j.
Proof.
  intros Hf. unfold id_of. simpl. destruct (decide (i = j)) as [->|Hne].
  - rewrite list_lookup_alter_eq. destruct (objs s !! j); simpl; [by rewrite Hf|done].
  - by rewrite list_lookup_alter_ne.
Qed.

Lemma change_keyed s s' : change s s' → keyed s → keyed s'.
Proof.
  intros Hc Hk. destruct Hc; intros k' j Hj; simpl in *.
  - rewrite H0 in Hj. specialize (Hk k' j Hj). unfold id_of in *. by rewrite H.
  - rewrite id_of_update by done. by apply Hk.
  - rewrite id_of_alter by done. by apply Hk.
  - rewrite id_of_alter by done. by apply Hk.
  - specialize (Hk k' j Hj). unfold id_of in *. simpl. destruct (objs s !! j) eqn:E; [|done].
    by rewrite (lookup_app_l_Some _ _ _ _ E).
  - change (id_of { s with objs ::= <[i := { o with conn := c }]> } j = Some k'). rewrite id_of_update by done. by apply Hk.
  - change (id_of { s with objs ::= <[i := { o with conn := c }]> } j = Some k'). rewrite id_of_update by done. by apply Hk.
  - apply lookup_insert_Some in Hj as [[<- <-]|[_ Hj]]; [|by apply Hk]. unfold id_of. simpl. by rewrite H.
  - apply lookup_delete_Some in Hj as [_ Hj]. by apply Hk.
  - by apply lookup_empty_Some in Hj.
  - by apply Hk.
  - by apply Hk.
Qed.

(** Who holds what: the last event of a connection in a history is an acquisition. *)
Definition held (h : list (bool * nat)) (i : nat) : bool :=
  foldl (λ b e, if bool_decide (e.2 = i) then e.1 else b) false h.

(** No connection is handed out while it is held. *)
Definition alternating (h : list (bool * nat)) : Prop :=
  ∀ h1 i h2, h = (h1 ++ (true, i) :: h2)%list → held h1 i = false.

Record exclusive s : Prop := {
  ex_alternating : alternating (history s);
  ex_busy i o : objs s !! i = Some o → held (history s) i = true → state (conn o) ≠ StateIdle;
  ex_known i : held (history s) i = true → (i < length (objs s))%nat }.

Lemma held_snoc h b i j : held (h ++ [(b, i)])%list j = if decide (i = j) then b else held h j.
Proof. unfold held. rewrite foldl_app. simpl. by case_decide; case_bool_decide. Qed.

Lemma alternating_snoc h b i : alternating h → (b = true → held h i = false) → alternating (h ++ [(b, i)])%list.
Proof.
  intros Ha Hb h1 j h2 E. destruct h2 as [|e h2] using rev_ind.
  - apply app_inj_tail in E as [-> [= -> ->]]. by apply Hb.
  - clear IHh2. rewrite app_comm_cons, app_assoc in E. apply app_inj_tail in E as [-> _]. by eapply Ha.
Qed.

Lemma exclusive_same s s' :
  objs s' = objs s → history s' = history s → exclusive s → exclusive s'.
Proof. intros E1 E2 []. split; rewrite ?E1, ?E2; auto. Qed.

Lemma exclusive_update s i o c :
  objs s !! i = Some o → (state c = StateIdle → state (conn o) = StateIdle) → exclusive s →
  exclusive { s with objs ::= <[i := { o with conn := c }]> }.
Proof.
  intros Ho Hst [H1 H2 H3]. split; simpl; [done| |intros j; rewrite length_insert; auto].
  intros j o' Ho' Hh. destruct (decide (i = j)) as [->|Hne].
  - rewrite list_lookup_insert_eq in Ho' by (by eapply lookup_lt_Some). simplify_eq/=.
    intros Hc. by apply (H2 j o); auto.
  - rewrite list_lookup_insert_ne in Ho' by done. by eapply H2.
Qed.

Lemma exclusive_alter s f i :
  (∀ o, conn (f o) = conn o) → exclusive s → exclusive { s with objs ::= alter f i }.
Proof.
  intros Hf [H1 H2 H3]. split; simpl; [done| |intros j; rewrite length_alter; auto].
  intros j o' Ho' Hh. destruct (decide (i = j)) as [->|Hne].
  - rewrite list_lookup_alter_eq in Ho'. destruct (objs s !! j) eqn:E; simplify_eq/=. rewrite Hf. by eapply H2.
  - rewrite list_lookup_alter_ne in Ho' by done. by eapply H2.
Qed.

Lemma exclusive_event s i o c (b : bool) :
  objs s !! i = Some o → (if b then state (conn o) = StateIdle ∧ state c ≠ StateIdle else True) → exclusive s →
  exclusive { s with objs ::= <[i := { o with conn := c }]>; history ::= (.++ [(b, i)])%list }.
Proof.
  intros Ho Hb [H1 H2 H3]. split; simpl.
  - apply alternating_snoc; [done|]. intros ->. destruct (held (history s) i) eqn:E; [|done].
    by destruct (H2 i o Ho E); destruct Hb.
  - intros j o' Ho'. rewrite held_snoc. case_decide as Hij; [subst j|].
    + rewrite list_lookup_insert_eq in Ho' by (by eapply lookup_lt_Some). simplify_eq/=. by intros ->; destruct Hb.
    + rewrite list_lookup_insert_ne in Ho' by done. by apply H2.
  - intros j. rewrite length_insert, held_snoc. case_decide; [subst; intros _; by eapply lookup_lt_Some|apply H3].
Qed.

Lemma change_exclusive s s' : change s s' → exclusive s → exclusive s'.
Proof.
  destruct 1; intros He.
  - by apply (exclusive_same s).
  - by eapply exclusive_update.
  - by apply exclusive_alter.
  - by apply exclusive_alter.
  - destruct He as [H1 H2 H3]. split; simpl; [done| |intros i Hi; rewrite length_app; specialize (H3 i Hi); lia].
    intros i o Ho Hh. apply (H2 i o); [|done]. rewrite lookup_app_l in Ho; [done|]. by apply H3.
  - by eapply (exclusive_event _ _ _ _ true).
  - by eapply (exclusive_event _ _ _ _ false).
  - by apply (exclusive_same s).
  - by apply (exclusive_same s).
  - by apply (exclusive_same s).
  - by apply (exclusive_same s).
  - by apply (exclusive_same s).
Qed.

(** Without unchecked insertions the pool never exceeds its size. *)
Definition bounded s : Prop := Z.of_nat (size (connections s)) ≤ Z.max 0 (MaxConnections cfg).

Lemma change_bounded s s' : unchecked a = false → change s s' → bounded s → bounded s'.
Proof.
  unfold bounded. intros Hu [] Hb; simpl in *; try done.
  - congruence.
  - rewrite map_size_insert. destruct H0 as [?|?]; [|congruence]. destruct (connections s0 !! id (conn o)); simpl; lia.
  - rewrite map_size_delete. destruct (connections s0 !! k); simpl; lia.
  - rewrite map_size_empty. lia.
Qed.

(** Without rebuilds every connection keeps its driver, and without a close the
    event channel stays open. *)
Record driven s : Prop := {
  dr_objs : rebuilds a = false → Forall (λ o, has_driver o = true) (objs s);
  dr_handles : rebuilds a = false → Forall (λ h, h.2 = true) (handle_of <$> monitored s);
  dr_open : closing_pool a = false → chan_closed s = false;
  dr_jobs : Forall job_ok (jobs s) }.

Lemma change_driven s s' : change s s' → driven s → driven s'.
Proof.
  intros Hc [H1 H2 H3 HJ]. destruct Hc; split; simpl in *; try intros Hr;
    rewrite ?fmap_app, ?Forall_app; try congruence; auto.
  - match goal with E : objs _ = _ |- _ => rewrite E end. auto.
  - match goal with E : handle_of <$> _ = _ |- _ => rewrite E end. auto.
  - match goal with E : chan_closed _ = _ |- _ => rewrite E end. auto.
  - apply Forall_insert; [auto|]. simpl. by apply (Forall_lookup_1 _ _ _ _ (H1 Hr) H).
  - apply Forall_alter; [auto|]. intros o _ Ho. done.
  - apply Forall_insert; [auto|]. simpl. by apply (Forall_lookup_1 _ _ _ _ (H1 Hr) H).
  - apply Forall_insert; [auto|]. simpl. by apply (Forall_lookup_1 _ _ _ _ (H1 Hr) H).
  - split; [auto|]. repeat constructor. simpl. by apply (Forall_lookup_1 _ _ _ _ (H1 Hr) H).
Qed.

Lemma reach_keyed s : reach s → keyed s.
Proof.
  intros H. refine (rtc_ind_r keyed _ _ _ s H); [intros k i Hi; simpl in Hi; by apply lookup_empty_Some in Hi|].
  intros x y _. apply change_keyed.
Qed.
Lemma reach_exclusive s : reach s → exclusive s.
Proof.
  intros H. refine (rtc_ind_r exclusive _ _ _ s H); [|intros x y _; apply change_exclusive].
  split; simpl; [|done..]. intros [] ? ? E; discriminate E.
Qed.
Lemma reach_bounded s : unchecked a = false → reach s → bounded s.
Proof.
  intros Hu H. refine (rtc_ind_r bounded _ _ _ s H); [|intros x y _; by apply change_bounded].
  unfold bounded. simpl. rewrite map_size_empty. lia.
Qed.
Lemma reach_driven s : reach s → driven s.
Proof.
  intros H. refine (rtc_ind_r driven _ _ _ s H); [|intros x y _; apply change_driven].
  split; simpl; auto.
Qed.

(** ** Every operation is a sequence of changes *)

(** Panics are possible only with rebuilds or a close. *)
Definition may_panic : Prop := rebuilds a = true ∨ closing_pool a = true.
Abbreviation kept := (keeps may_panic reach).

Lemma kept_act {B} (f : Pool → answer → option (Pool * B)) :
  (∀ s x s' b, f s x = Some (s', b) → rtc change s s') → kept (act f).
Proof. intros H. apply keeps_act. intros s x s' b Hs E. unfold reach in *. etrans; [exact Hs|]. by eapply H. Qed.

Lemma kept_step {B} (f : Pool → Pool * B) : (∀ s, rtc change s (f s).1) → kept (step f).
Proof. intros H. apply kept_act. intros s x s' b E. specialize (H s). by destruct (f s); simplify_eq/=. Qed.

(** A step that changes neither connections, map nor handles. *)
Lemma kept_inert {B} (f : Pool → Pool * B) :
  (∀ s, objs (f s).1 = objs s ∧ connections (f s).1 = connections s ∧ history (f s).1 = history s ∧
        monitored (f s).1 = monitored s ∧ chan_closed (f s).1 = chan_closed s ∧
        (Forall job_ok (jobs s) → Forall job_ok (jobs (f s).1))) → kept (step f).
Proof.
  intros H. apply kept_step. intros s. destruct (H s) as (? & ? & ? & E & ? & ?). apply rtc_once, ch_inert; try done. by rewrite E.
Qed.

Lemma kept_read {B} (f : Pool → B) : kept (read f).
Proof. by apply kept_inert. Qed.

Lemma kept_stat f : kept (stat f).
Proof. by apply kept_inert. Qed.

(** An action that only reads the answer. *)
Lemma kept_answer {B} (f : Pool → answer → option (Pool * B)) :
  (∀ s x s' b, f s x = Some (s', b) → s' = s) → kept (act f).
Proof. intros H. apply kept_act. intros s x s' b E. by rewrite (H _ _ _ _ E). Qed.

Lemma kept_on_conn {B} i (f : EnhancedPooledConnection → EnhancedPooledConnection * B) :
  (∀ c, id (f c).1 = id c ∧ (state (f c).1 = StateIdle → state c = StateIdle)) → kept (on_conn i f).
Proof.
  intros H. apply kept_act. intros s x s' b E. destruct (objs s !! i) as [o|] eqn:Ho; [|done].
  specialize (H (conn o)). destruct (f (conn o)) as [c r]. simplify_eq/=. destruct H.
  by apply rtc_once, ch_conn.
Qed.

Lemma kept_on_monitored {B} h (f : MonitoredDriver → MonitoredDriver * B) :
  (∀ m, handle_of (f m).1 = handle_of m) → kept (on_monitored h f).
Proof.
  intros H. apply kept_act. intros s x s' b E. destruct (monitored s !! h) as [m|] eqn:Hm; [|done].
  specialize (H m). destruct (f m) as [m' r]. injection E as <- _.
  change (handle_of m' = handle_of m) in H. apply rtc_once, ch_inert; try done. simpl.
  rewrite list_fmap_insert, H. apply list_insert_id. by rewrite list_lookup_fmap, Hm.
Qed.


Lemma kept_now : kept now.
Proof. apply kept_answer. intros s [] ??; naive_solver. Qed.
Lemma kept_driver_call : kept driver_call.
Proof. apply kept_answer. intros s [] ??; naive_solver. Qed.
Lemma kept_ctx_wait : kept ctx_wait.
Proof. apply kept_answer. intros s [] ??; naive_solver. Qed.
Lemma kept_ctx_Err merged : kept (ctx_Err merged).
Proof. apply kept_answer. intros s [|[]|? | | |] ??; try naive_solver. case_match; naive_solver. Qed.
Lemma kept_connection_keys : kept connection_keys.
Proof. apply kept_answer. intros s [] ??; try done. case_match; naive_solver. Qed.
Lemma kept_reply : kept reply.
Proof. apply kept_answer. intros s [] ??; naive_solver. Qed.
Lemma kept_read_obj {B} i (f : object → B) : kept (read_obj i f).
Proof. apply kept_answer. intros s x ??. case_match; naive_solver. Qed.

Lemma kept_on_conn_at {B} i (f : Z → EnhancedPooledConnection → EnhancedPooledConnection * B) :
  (∀ t c, id (f t c).1 = id c ∧ (state (f t c).1 = StateIdle → state c = StateIdle)) → kept (on_conn_at i f).
Proof. intros H. apply keeps_bind; [apply kept_now|]. intros t. by apply kept_on_conn. Qed.
Lemma kept_read_conn {B} i (f : EnhancedPooledConnection → B) : kept (read_conn i f).
Proof. by apply kept_on_conn. Qed.
Lemma kept_change_conn i f :
  (∀ c, id (f c) = id c ∧ (state (f c) = StateIdle → state c = StateIdle)) → kept (change_conn i f).
Proof. intros H. by apply kept_on_conn. Qed.

(** The methods of a connection that a goroutine may call without owning it: the
    connection does not become idle. *)
Lemma transition_quiet c t :
  t ≠ StateIdle → id (transitionStateLocked c t).1 = id c ∧ (state (transitionStateLocked c t).1 = StateIdle → state c = StateIdle).
Proof. intros Ht. unfold transitionStateLocked. by destruct (canTransitionTo c t). Qed.

Lemma recordHealthCheck_quiet t ok c :
  id (recordHealthCheck cfg t ok c) = id c ∧ (state (recordHealthCheck cfg t ok c) = StateIdle → state c = StateIdle).
Proof.
  unfold recordHealthCheck. set (c0 := { c with lastHealthCheck := Some t }). set (c1 := if ok then _ else _).
  assert (E : id c1 = id c ∧ state c1 = state c).
  { unfold c1. destruct ok; [done|]. rewrite record_failure_state. split; [|done].
    unfold record_failure, markForRebuildWithReason, setHealthLocked. by case_tests. }
  destruct E as [E1 E2]. destruct (bool_decide (state c1 = StateChecking)); rewrite <- ?E1, <- ?E2; [|done].
  by apply transition_quiet.
Qed.

Lemma UpdateConnectionMetrics_quiet t ok c :
  id (UpdateConnectionMetrics t ok c) = id c ∧ state (UpdateConnectionMetrics t ok c) = state c.
Proof. unfold UpdateConnectionMetrics. by case_tests. Qed.

Lemma completeRebuild_quiet ok c : id (completeRebuild ok c) = id c ∧ state (completeRebuild ok c) = state c.
Proof. unfold completeRebuild. by case_tests. Qed.

Lemma tryAcquire_moves t c c' :
  tryAcquireForTask t c = (c', true) → state c = StateIdle ∧ id c' = id c ∧ state c' ≠ StateIdle.
Proof.
  unfold tryAcquireForTask, transitionStateLocked, canTransitionTo. case_tests; try done. btrue.
  intros [= <-]. simpl. done.
Qed.
Lemma tryAcquire_refused t c c' : tryAcquireForTask t c = (c', false) → c' = c.
Proof. unfold tryAcquireForTask, transitionStateLocked, canTransitionTo. case_tests; naive_solver. Qed.

Lemma release_id t c : id (release t c) = id c.
Proof. unfold release, transitionStateLocked. by case_tests. Qed.


(** *** Calls that may panic *)

Lemma kept_finally {A} (p : prog A) d : kept p → kept d → kept (finally p d).
Proof.
  intros Hp Hd. unfold finally. apply keeps_bind; [|intros r; apply keeps_bind; [done|by intros]].
  apply keeps_catch_panic; [done|]. intros Hm w. by apply keeps_bind.
Qed.

Lemma kept_chan_send e : kept (chan_send e).
Proof.
  intros s x s' b Hs E0. destruct (chan_closed s) eqn:Ec; simplify_eq/=.
  - split; [done|]. right. destruct (closing_pool a) eqn:E; [done|].
    by rewrite (dr_open _ (reach_driven _ Hs) E) in Ec.
  - split; [|done]. unfold reach in *. etrans; [exact Hs|]. apply rtc_once. by case_match; apply ch_inert.
Qed.

Lemma kept_sendEvent e : kept (sendEvent e).
Proof.
  apply keeps_bind; [apply kept_read|]. intros []; [done|]. apply keeps_catch; [|done].
  eapply keeps_weaken, kept_chan_send.
Qed.

(** What is read of a connection's driver: it has one unless there are rebuilds. *)
Lemma kept_has_driver {A B} (f : Pool → answer → option (Pool * B)) (g : B → bool) (k : B → prog A) :
  (∀ s x s' b, f s x = Some (s', b) →
     rtc change s s' ∧ ((∃ i o, objs s !! i = Some o ∧ g b = has_driver o) ∨
               (∃ h m, monitored s !! h = Some m ∧ g b = md_driver m))) →
  (∀ b, g b = true → kept (k b)) → (∀ b, rebuilds a = true → kept (k b)) → kept (act f ≫= k).
Proof.
  intros Hf Ht Hr s x s' b Hs E. destruct (Hf _ _ _ _ E) as [Hc Hb].
  split; [unfold reach in *; by etrans|].
  destruct (rebuilds a) eqn:Er; [by apply Hr|]. apply Ht. destruct (reach_driven _ Hs) as [H1 H2 _ _].
  destruct Hb as [(i & o & Ho & ->)|(h & m & Hm & ->)].
  - exact (Forall_lookup_1 _ _ _ _ (H1 Er) Ho).
  - refine (Forall_lookup_1 _ _ h (handle_of m) (H2 Er) _). by rewrite list_lookup_fmap, Hm.
Qed.

Lemma kept_driver_Close i : kept (driver_Close i).
Proof.
  assert (Hc : kept (step (λ s, ({ s with objs ::= alter (λ o, { o with closes ::= S }) i }, ()));; driver_call)).
  { apply keeps_bind; [|intros; apply kept_driver_call]. apply kept_step. intros s. apply rtc_once, ch_driver_closed. }
  unfold driver_Close. apply (kept_has_driver _ (λ b, b)).
  - intros s x s' b E. case_match; simplify_eq/=. split; [done|]. by eauto.
  - by intros [].
  - intros [] Hr; [done|by left].
Qed.

Lemma kept_driver_Execute h : kept (driver_Execute h).
Proof.
  unfold driver_Execute. apply (kept_has_driver _ (λ b, b)).
  - intros s x s' b E. destruct (monitored s !! h) as [m|] eqn:Hm; simplify_eq/=.
    split; [|by eauto]. apply rtc_once, ch_inert; try done. simpl.
    rewrite list_fmap_insert. apply list_insert_id. by rewrite list_lookup_fmap, Hm.
  - intros [] Hb; [apply kept_reply|done].
  - intros [] Hr; [apply kept_reply|by left].
Qed.


(** *** The operations *)

(** Follows the shape of a program down to its actions. *)
Ltac kept_shape := repeat (cbv beta iota; match goal with
  | |- ∀ _, _ => intros ?
  | |- keeps _ _ (mret _) => apply keeps_done
  | |- keeps _ _ (finally _ _) => apply kept_finally
  | |- keeps _ _ (_ ≫= _) => apply keeps_bind
  | |- keeps _ _ (match ?x with _ => _ end) => destruct x
  | |- keeps _ _ _ => solve [eauto with kept]
  end).

Lemma quiet_transition i t : t ≠ StateIdle → kept (on_conn i (λ c, transitionState c t)).
Proof. intros Ht. apply kept_on_conn. intros c. by apply transition_quiet. Qed.
Lemma quiet_transition1 i t : t ≠ StateIdle → kept (on_conn i (λ c, ((transitionState c t).1, ()))).
Proof. intros Ht. apply kept_on_conn. intros c. by apply (transition_quiet c t). Qed.

#[local] Hint Resolve kept_now kept_driver_call kept_ctx_wait kept_ctx_Err kept_connection_keys kept_reply
  kept_read_obj kept_read kept_stat kept_read_conn kept_chan_send kept_sendEvent kept_driver_Close
  kept_driver_Execute : kept.

Lemma kept_change_same i f : (∀ c, id (f c) = id c ∧ state (f c) = state c) → kept (change_conn i f).
Proof. intros H. apply kept_change_conn. intros c. destruct (H c) as [-> ->]. done. Qed.
Lemma kept_use i : kept (change_conn i acquireUse).
Proof. by apply kept_change_same. Qed.
Lemma kept_unuse i : kept (change_conn i releaseUse).
Proof. by apply kept_change_same. Qed.
#[local] Hint Resolve kept_use kept_unuse : kept.

Lemma kept_wait_unused n i d : kept (wait_unused n i d).
Proof. induction n; cbn [wait_unused]; kept_shape. Qed.
#[local] Hint Resolve kept_wait_unused : kept.
Lemma kept_safeClose i : kept (safeClose i).
Proof. unfold safeClose. kept_shape. Qed.
Lemma kept_forceClose i : kept (forceClose i).
Proof.
  unfold forceClose. kept_shape. apply keeps_catch; [|done]. eapply keeps_weaken, kept_driver_Close.
Qed.
#[local] Hint Resolve kept_safeClose kept_forceClose : kept.

Lemma kept_new b t : kept (step (new_object cfg b t)).
Proof. apply kept_step. intros s. apply rtc_once, ch_new. Qed.
#[local] Hint Resolve kept_new : kept.
Lemma kept_createConnection merged : kept (createConnection cfg merged).
Proof. unfold createConnection. kept_shape. Qed.

Lemma kept_acquire i : kept (acquire i).
Proof.
  apply kept_act. intros s x s' b E. destruct x, (objs s !! i) as [o|] eqn:Ho; try done.
  destruct (tryAcquireForTask t (conn o)) as [c []] eqn:Et; simplify_eq/=.
  - destruct (tryAcquire_moves _ _ _ Et) as (? & ? & ?). by apply rtc_once, ch_acquire.
  - apply tryAcquire_refused in Et as ->. by apply rtc_once, ch_conn.
Qed.
#[local] Hint Resolve kept_createConnection kept_acquire : kept.

Lemma kept_try_candidates ids : kept (try_candidates ids).
Proof. induction ids; cbn [try_candidates]; kept_shape. Qed.
#[local] Hint Resolve kept_try_candidates : kept.
Lemma kept_tryGet : kept tryGetAvailableConnection.
Proof. unfold tryGetAvailableConnection. kept_shape. Qed.

Lemma inert_stats s f : change s { s with stats ::= f }.
Proof. by apply ch_inert. Qed.

Lemma kept_add_connection i : kept (add_connection cfg i).
Proof.
  apply kept_act. intros s x s' b E. destruct x, (objs s !! i) as [o|] eqn:Ho; try done.
  destruct (Z.leb_spec (MaxConnections cfg) (Z.of_nat (size (connections s)))) as [|Hm];
    [simplify_eq/=; apply rtc_once, ch_driver_closed|].
  cbv zeta in E. destruct (existsb _ _); [simplify_eq/=; apply rtc_once, ch_driver_closed|].
  assert (Hi : rtc change s { s with connections ::= <[id (conn o) := i]>; stats ::= λ st, add_idle 1 (add_created st) }).
  { eapply rtc_l; [eapply (ch_insert s i o); [done|by left]|]. apply rtc_once, inert_stats. }
  destruct (tryAcquireForTask t (conn o)) as [c []] eqn:Et; simplify_eq/=; [|exact Hi].
  destruct (tryAcquire_moves _ _ _ Et) as (? & ? & ?). etrans; [exact Hi|].
  eapply rtc_l; [by apply (ch_acquire _ i o c)|]. apply rtc_once. by apply ch_inert.
Qed.
#[local] Hint Resolve kept_tryGet kept_add_connection : kept.

Lemma kept_tryCreate : kept (tryCreateNewConnection cfg).
Proof. unfold tryCreateNewConnection. kept_shape. Qed.
#[local] Hint Resolve kept_tryCreate : kept.
Lemma kept_get_attempts n : kept (get_attempts cfg n).
Proof. induction n; cbn [get_attempts]; kept_shape. Qed.
#[local] Hint Resolve kept_get_attempts : kept.
Lemma kept_getConnectionFromPool : kept (getConnectionFromPool cfg).
Proof. unfold getConnectionFromPool. kept_shape. Qed.
#[local] Hint Resolve kept_getConnectionFromPool : kept.
Lemma kept_get_retries rnd n k last : kept (get_retries cfg rnd n k last).
Proof. revert k last. induction n; intros k last; cbn [get_retries]; kept_shape. Qed.

Lemma kept_new_handle i :
  kept (act (λ s x, match x, objs s !! i with
    | Time t, Some o =>
        Some ({ s with monitored ::= (.++ [mk_monitored i (has_driver o) (c_Protocol cfg) t None false 0])%list }, length (monitored s))
    | _, _ => None
    end)).
Proof.
  apply kept_act. intros s x s' b E. destruct x, (objs s !! i) as [o|] eqn:Ho; simplify_eq/=.
  by apply rtc_once, (ch_handle s i o).
Qed.
#[local] Hint Resolve kept_get_retries kept_new_handle : kept.
Lemma kept_activateConnection i : kept (activateConnection cfg i).
Proof. unfold activateConnection. kept_shape. Qed.
#[local] Hint Resolve kept_activateConnection : kept.
Lemma kept_GetWithContext rnd p : kept (GetWithContext cfg rnd p).
Proof. unfold GetWithContext. kept_shape. Qed.
#[local] Hint Resolve kept_GetWithContext : kept.


Lemma kept_handle_read {B} h (f : MonitoredDriver → B) : kept (on_monitored h (λ m, (m, f m))).
Proof. by apply kept_on_monitored. Qed.
#[local] Hint Resolve kept_handle_read : kept.

Lemma kept_Execute h : kept (Execute h).
Proof.
  unfold Execute. kept_shape; try (by apply kept_on_monitored); try (by apply kept_change_same).
  - by apply quiet_transition.
  - by apply quiet_transition1.
Qed.

Lemma kept_release_conn i : kept (release_conn i).
Proof.
  apply kept_act. intros s x s' b E. destruct x, (objs s !! i) as [o|] eqn:Ho; simplify_eq/=.
  apply rtc_once, (ch_release s i o (release t (conn o))); [done|apply release_id].
Qed.
#[local] Hint Resolve kept_Execute kept_release_conn : kept.

Lemma kept_Release d : kept (Release cfg d).
Proof.
  unfold Release. kept_shape. apply kept_on_conn_at. intros t c. simpl.
  split; [apply UpdateConnectionMetrics_quiet|]. by rewrite (proj2 (UpdateConnectionMetrics_quiet _ _ _)).
Qed.
#[local] Hint Resolve kept_Release : kept.

Lemma kept_health_call b : b = true ∨ rebuilds a = true → kept (defaultHealthCheck cfg b).
Proof.
  unfold defaultHealthCheck, healthCheckSSH. intros Hb. destruct b; cbn [negb]; [kept_shape|].
  change may_panic. left. by destruct Hb.
Qed.

Lemma kept_checkHealth i : kept (checkConnectionHealthWithContext cfg i).
Proof.
  unfold checkConnectionHealthWithContext.
  apply keeps_bind; [kept_shape|intros t]. apply keeps_bind; [kept_shape|intros age].
  destruct (age <? 15 * Second); [apply keeps_done|].
  apply keeps_bind; [by apply quiet_transition|intros began]. destruct (negb began); [apply keeps_done|].
  assert (Hk : ∀ b, b = true ∨ rebuilds a = true → kept (
    checkErr ← defaultHealthCheck cfg b;
    on_conn_at i (λ t c, (recordHealthCheck cfg t (bool_decide (checkErr = None)) c, ()));;
    match checkErr with
    | Some e => sendEvent EventHealthCheckFailed;; mret (false, Some e)
    | None => mret (true, None)
    end)).
  { intros b Hb. apply keeps_bind; [by apply kept_health_call|]. kept_shape.
    apply kept_on_conn_at. intros. apply recordHealthCheck_quiet. }
  apply (kept_has_driver _ (λ b, b)); [|by auto..].
  intros s x1 s' b E. case_match; simplify_eq/=. split; [done|]. by eauto.
Qed.
#[local] Hint Resolve kept_checkHealth : kept.

Lemma kept_healthCheck rnd : kept (performHealthCheckForProtocol cfg rnd).
Proof. unfold performHealthCheckForProtocol. kept_shape. Qed.

Lemma kept_spawn j : job_ok j → kept (spawn j).
Proof.
  intros Hj. apply kept_inert. intros s. split_and!; try done. simpl. intros H. apply Forall_app. by auto.
Qed.

Lemma kept_cleanup_each t ids : kept (cleanup_each cfg t ids).
Proof.
  induction ids as [|k ids IH]; cbn [cleanup_each]; kept_shape.
  - apply kept_step. intros s. destruct (connections s !! k); simpl; [|done].
    eapply rtc_l; [apply (ch_delete s k)|]. apply rtc_once, inert_stats.
  - by apply kept_spawn.
Qed.
#[local] Hint Resolve kept_cleanup_each : kept.
Lemma kept_cleanup : kept (cleanupConnections cfg).
Proof. unfold cleanupConnections. kept_shape. Qed.

Lemma kept_count_idle l x y : kept (count_idle l x y).
Proof. revert x y. induction l; intros x y; cbn [count_idle]; kept_shape. Qed.
Lemma kept_count_in_use l n : kept (count_in_use l n).
Proof. revert n. induction l; intros n; cbn [count_in_use]; kept_shape. Qed.
#[local] Hint Resolve kept_count_idle kept_count_in_use : kept.
Lemma kept_updateMetrics : kept updateMetrics.
Proof. unfold updateMetrics. kept_shape. Qed.
Lemma kept_getActive : kept getActiveConnectionCount.
Proof. unfold getActiveConnectionCount. kept_shape. Qed.
#[local] Hint Resolve kept_getActive : kept.


(** Insertions without a look at the size. *)
Lemma kept_insert i : unchecked a = true → kept (insert_connection i).
Proof.
  intros Hu. apply kept_act. intros s x s' b E. destruct (objs s !! i) as [o|] eqn:Ho; simplify_eq/=.
  eapply rtc_l; [eapply (ch_insert s i o); [done|by right]|]. apply rtc_once, inert_stats.
Qed.

Lemma kept_on_call n f : kept (on_call n f).
Proof.
  apply kept_act. intros s x s' b E. destruct (warm_calls s !! n) as [w|]; [|done].
  destruct (f w); simplify_eq/=. by apply rtc_once, ch_inert.
Qed.
Lemma kept_pop n : kept (pop_result n).
Proof.
  apply kept_act. intros s x s' b E. destruct (warm_calls s !! n) as [w|]; [|done].
  destruct (errChan w); simplify_eq/=. by apply rtc_once, ch_inert.
Qed.
#[local] Hint Resolve kept_on_call kept_pop : kept.

Lemma kept_warm_one n : unchecked a = true → kept (warm_one cfg n).
Proof.
  intros Hu. assert (Ha : ∀ k, kept (warm_attempts cfg k)).
  { induction k; cbn [warm_attempts]; kept_shape; [by apply kept_insert|by apply kept_inert]. }
  unfold warm_one, acquire_sem, release_sem, push_result. kept_shape. by apply kept_inert.
Qed.

Lemma kept_WarmUp target : unchecked a = true → kept (WarmUp cfg (Z.of_nat target)).
Proof.
  intros Hu. assert (Hs : ∀ n c, kept (spawn_workers n c)).
  { induction n; intros c; cbn [spawn_workers]; kept_shape. by apply kept_spawn. }
  assert (Hc : ∀ n c l, kept (collect_results n c l)) by (induction n; intros c l; cbn [collect_results]; kept_shape).
  assert (Hd : ∀ n c, kept (drain_sem n c)).
  { unfold acquire_sem. induction n; intros c; cbn [drain_sem]; unfold acquire_sem; kept_shape. }
  unfold WarmUp. destruct (Z.ltb_spec (Z.of_nat target) 0); [lia|].
  kept_shape; by apply kept_inert.
Qed.

Lemma kept_job j :
  job_ok j → kept (match j with ForceClose i => catch (close_removed i) (λ _, mret ()) | WarmOne n => warm_one cfg n end).
Proof.
  destruct j as [i|n]; intros Hj; [|by apply kept_warm_one].
  apply keeps_catch; [|done]. eapply keeps_weaken. unfold close_removed. kept_shape.
Qed.

Lemma kept_goroutine : kept (goroutine cfg).
Proof.
  intros s x s' j Hs E. destruct (jobs s) as [|j0 l] eqn:Ej; [done|]. injection E as <- <-.
  pose proof (dr_jobs _ (reach_driven _ Hs)) as Hj. rewrite Ej in Hj. apply Forall_cons in Hj as [Hj0 Hjl].
  split; [|by apply kept_job]. unfold reach in *. etrans; [exact Hs|]. by apply rtc_once, ch_inert.
Qed.

(** Rebuilds. *)
Lemma kept_replacement merged : kept (createReplacementConnection cfg merged).
Proof. unfold createReplacementConnection. kept_shape. by apply kept_on_conn_at. Qed.
#[local] Hint Resolve kept_replacement : kept.

Lemma kept_rebuild_body merged i k :
  unchecked a = true → rebuilds a = true → kept (rebuild_body cfg merged i k).
Proof.
  intros Hu Hr. unfold rebuild_body, close_old. kept_shape; try (by apply kept_insert).
  - by apply quiet_transition.
  - apply kept_step. intros s. by apply rtc_once, ch_driver_dropped.
  - apply kept_step. intros s. eapply rtc_l; [apply (ch_delete s k)|]. apply rtc_once, inert_stats.
  - apply kept_on_conn. intros c. unfold completeClose. destruct (negb _); [done|]. by apply transition_quiet.
Qed.

Lemma kept_rebuildConnection merged i :
  unchecked a = true → rebuilds a = true → kept (rebuildConnection cfg merged i).
Proof.
  intros Hu Hr. unfold rebuildConnection, performCoreRebuild, rm_sendEvent. kept_shape.
  - apply kept_on_conn. intros c. unfold beginRebuild. destruct (rebuilding c); [done|].
    destruct (state c) eqn:E; simpl; rewrite ?E; done.
  - apply keeps_catch; [|done]. eapply keeps_weaken. by apply kept_rebuild_body.
  - apply kept_change_same, completeRebuild_quiet.
Qed.

Lemma kept_RebuildConnectionByID merged k :
  unchecked a = true → rebuilds a = true → kept (RebuildConnectionByID cfg merged k).
Proof. intros Hu Hr. unfold RebuildConnectionByID. kept_shape; by apply kept_rebuildConnection. Qed.

(** The close. *)
Lemma release_in_use_reach t l s : rtc change s (foldl (release_in_use t) s l).
Proof.
  revert s. induction l as [|i l IH]; intros s; simpl; [done|]. etrans; [|apply IH].
  unfold release_in_use. destruct (objs s !! i) as [o|] eqn:Ho; [|done]. destruct (getState (conn o)).1.1; [|done].
  apply rtc_once, (ch_release s i o (release t (conn o))); [done|apply release_id].
Qed.

Lemma kept_take_all t : kept (take_all t).
Proof.
  apply kept_act. intros s x s' b E. destruct x; try done. case_match; simplify_eq/=.
  etrans; [apply release_in_use_reach|]. apply rtc_once, ch_clear.
Qed.

Lemma kept_close_each l errors : kept (close_each cfg l errors).
Proof.
  revert errors. induction l as [|i l IH]; intros errors; cbn [close_each]; kept_shape.
  apply keeps_catch; [|done]. eapply keeps_weaken. kept_shape. by apply kept_change_same.
Qed.
#[local] Hint Resolve kept_take_all kept_close_each : kept.

Lemma kept_Close : closing_pool a = true → kept (Close cfg).
Proof.
  intros Hc. unfold Close. kept_shape; try (by apply kept_inert).
  - apply kept_step. intros s. by apply rtc_once, ch_chan_closed.
  - change may_panic. by right.
Qed.

Lemma kept_Shutdown timeout : closing_pool a = true → kept (ShutdownGraceful cfg timeout).
Proof.
  intros Hc. assert (Hw : ∀ n d, kept (wait_idle n d)) by (induction n; intros d; cbn [wait_idle]; kept_shape).
  unfold ShutdownGraceful. kept_shape; try (by apply kept_inert); by apply kept_Close.
Qed.

End changes.

(** ** Sessions: what a goroutine asks of the pool, one operation after the other *)

Inductive pool_op :=
  | OpGet (rnd : Z → float64) (proto : string)
  | OpExecute (h : nat)
  | OpRelease (d : ProtocolDriver)
  | OpHealthCheck (rnd : Z → float64)
  | OpCleanup
  | OpMetrics
  | OpGoroutine
  | OpWarmUp (n : nat)
  | OpRebuild (merged : bool) (connID : string)
  | OpClose
  | OpShutdown (timeout : Z).

Definition perform (cfg : EnhancedConnectionConfig) (o : pool_op) : prog unit :=
  match o with
  | OpGet rnd p => GetWithContext cfg rnd p;; mret ()
  | OpExecute h => Execute h;; mret ()
  | OpRelease d => Release cfg d;; mret ()
  | OpHealthCheck rnd => performHealthCheckForProtocol cfg rnd
  | OpCleanup => cleanupConnections cfg
  | OpMetrics => updateMetrics
  | OpGoroutine => goroutine cfg
  | OpWarmUp n => WarmUp cfg (Z.of_nat n);; mret ()
  | OpRebuild merged k => RebuildConnectionByID cfg merged k;; mret ()
  | OpClose => Close cfg;; mret ()
  | OpShutdown t => ShutdownGraceful cfg t;; mret ()
  end.

Fixpoint session (cfg : EnhancedConnectionConfig) (l : list pool_op) : prog unit :=
  match l with
  | [] => mret ()
  | o :: l => perform cfg o;; session cfg l
  end.

Definition is_unchecked (o : pool_op) : bool := match o with OpWarmUp _ | OpRebuild _ _ => true | _ => false end.
Definition is_rebuild (o : pool_op) : bool := match o with OpRebuild _ _ => true | _ => false end.
Definition is_close (o : pool_op) : bool := match o with OpClose | OpShutdown _ => true | _ => false end.

Definition some_op (p : pool_op → bool) (ss : list (list pool_op)) : bool := existsb (existsb p) ss.
Definition allowed_of (ss : list (list pool_op)) : allowed :=
  mk_allowed (some_op is_unchecked ss) (some_op is_rebuild ss) (some_op is_close ss).

Lemma perform_keeps cfg a o :
  (is_unchecked o = true → unchecked a = true) → (is_rebuild o = true → rebuilds a = true) →
  (is_close o = true → closing_pool a = true) →
  keeps (may_panic a) (reach cfg a) (perform cfg o).
Proof.
  assert (Hd : ∀ A (p : prog A), keeps (may_panic a) (reach cfg a) p →
                 keeps (may_panic a) (reach cfg a) (p;; mret ())) by (intros; by apply keeps_bind).
  intros H1 H2 H3. destruct o; cbn [perform is_unchecked is_rebuild is_close] in *.
  - apply Hd, kept_GetWithContext.
  - apply Hd, kept_Execute.
  - apply Hd, kept_Release.
  - apply kept_healthCheck.
  - apply kept_cleanup.
  - apply kept_updateMetrics.
  - apply kept_goroutine.
  - apply Hd, kept_WarmUp; auto.
  - apply Hd, kept_RebuildConnectionByID; auto.
  - apply Hd, kept_Close; auto.
  - apply Hd, kept_Shutdown; auto.
Qed.

Lemma session_keeps cfg ss l :
  l ∈ ss → keeps (may_panic (allowed_of ss)) (reach cfg (allowed_of ss)) (session cfg l).
Proof.
  intros Hl. assert (Hsome : ∀ p o, o ∈ l → p o = true → some_op p ss = true).
  { intros p o Ho Hp. apply existsb_elem_of. exists l. split; [done|]. apply existsb_elem_of. by exists o. }
  clear Hl. induction l as [|o l IH]; [done|]. apply keeps_bind.
  - apply perform_keeps; intros Ho; (apply (Hsome _ o); [by left|done]).
  - intros _. apply IH. intros p o' Ho'. apply Hsome. by right.
Qed.

Lemma sessions_reach cfg ss l ts s :
  sched (session cfg <$> ss) NewEnhancedConnectionPool l = Some (ts, s) →
  reach cfg (allowed_of ss) s ∧ Forall (keeps (may_panic (allowed_of ss)) (reach cfg (allowed_of ss))) ts.
Proof.
  intros H. assert (Hts : Forall (keeps (may_panic (allowed_of ss)) (reach cfg (allowed_of ss))) (session cfg <$> ss)).
  { apply Forall_forall. intros p (x & -> & Hx)%list_elem_of_fmap. by apply session_keeps. }
  destruct (sched_keeps _ _ _ _ _ _ _ Hts (rtc_refl _ _) H) as (H1 & H2 & _). done.
Qed.

(** C3: whatever operations the goroutines of a pool perform, in whatever
    interleaving, a connection is never handed out a second time before it has been
    released, and the map holds every connection under its own identifier. As long as
    no goroutine rebuilds a connection or warms the pool up, the pool never holds more
    than [MaxConnections] connections; as long as none rebuilds a connection or closes
    the pool, no goroutine panics. *)
Theorem pool_interleavings_safe cfg ss l :
  match sched (session cfg <$> ss) NewEnhancedConnectionPool l with
  | Some (ts, s) =>
      alternating (history s) ∧
      (∀ k i, connections s !! k = Some i → id_of s i = Some k) ∧
      (some_op is_unchecked ss = false → Z.of_nat (size (connections s)) ≤ Z.max 0 (MaxConnections cfg)) ∧
      (some_op is_rebuild ss = false → some_op is_close ss = false → ∀ i w, ts !! i ≠ Some (Crash w))
  | None => True
  end.
Proof.
  destruct (sched _ _ l) as [[ts s]|] eqn:E; [|done]. destruct (sessions_reach _ _ _ _ _ E) as [Hr Hts].
  split; [eapply ex_alternating, reach_exclusive, Hr|]. split; [eapply reach_keyed, Hr|].
  split; [intros Hu; exact (reach_bounded cfg (allowed_of ss) s Hu Hr)|].
  intros H1 H2 i w Hi. destruct (Forall_lookup_1 _ _ _ _ Hts Hi) as [H|H]; simpl in H; congruence.
Qed.

(** The pool of a router reached by SSH. *)
Definition one_router : EnhancedConnectionConfig :=
  { NewConfigBuilder with Host := "r1"; c_Protocol := ProtocolSSH; c_Platform := PlatformCiscoIOSXE }.
Abbreviation Get := (OpGet (λ _, of_int 0) ProtocolSSH).

(** A task that creates its connection: the steps of its goroutine, and where they end. *)
Definition first_get : list (nat * answer) :=
  pair 0%nat <$> [Tick; Ctx None; Ctx None; Ctx None; Ctx None; Order []; Tick; Ctx None; Driver None; Time 7; Tick; Tick; Tick;
                  Time 8; Tick; Tick; Tick; Tick; Tick; Time 9].
Example first_get_ends :
  match sched (session one_router <$> [[Get]]) NewEnhancedConnectionPool first_get with
  | Some (ts, s) => ts = [Done ()] ∧ map_to_list (connections s) = [("r1|ssh|7", 0%nat)] ∧ history s = [(true, 0%nat)]
  | None => False
  end.
Proof. vm_compute. done. Qed.
