(* ===== verification/PoolRaces.v ===== *)
(** * PoolRaces: interleavings of the pool that go wrong

    The invariants of [PoolSafety] exclude rebuilds or the close where they must.
    Here are the executions that show it, and two more races. They follow a plan of
    goroutines and times ([Conc.follow]). *)
From S2P Require Import Prelude GoStrings GoFloat Conc Types Config ConnState Rebuild Pool PoolTasks PoolSafety.
Local Open Scope string_scope.
Local Open Scope Z_scope.

Abbreviation threads := (list (prog unit)).

Definition answers (t : Z) (s : Pool) : list answer :=
  [Tick; Time t; Ctx None; Driver None; Reply None true; Order (map_to_list (connections s)).*1].

(** Some execution of the sessions ends with the property. *)
Abbreviation can_reach cfg ss := (reaches (session cfg <$> ss) NewEnhancedConnectionPool).
Abbreviation can_reach_follow plan test := (reaches_follow answers plan _ _ test).

(** One connection at most. *)
Definition one_connection : EnhancedConnectionConfig := { one_router with MaxConnections := 1 }.

Definition steps (i n : nat) (t : Z) : list (nat * Z) := replicate n (i, t).

(** A task, its release, and a rebuild of the connection it used. *)
Definition task_then_rebuild : list pool_op := [Get; OpRelease (Monitored 0); OpRebuild true "r1|ssh|0"].

(** A pool of one connection can hold two: while a rebuild makes its replacement
    the pool is empty, so that a task creates a connection of its own, and the
    rebuild inserts the replacement without looking at the size. *)
Lemma rebuild_exceeds_max :
  can_reach one_connection [task_then_rebuild; [Get]] (λ ts s,
    Forall (λ p, p = Done ()) ts ∧ MaxConnections one_connection < Z.of_nat (size (connections s))).
Proof.
  apply (can_reach_follow (steps 0 27 0 ++ steps 0 24 1 ++ steps 1 20 2 ++ steps 0 6 1)
    (λ ts s, all_done ts && (1 <? Z.of_nat (size (connections s))))).
  { vm_compute. reflexivity. }
  intros ts s H. btrue. eauto using all_done_sound.
Qed.

(** C37: two races end the process, since nothing recovers their panics: a rebuild
    drops the driver of a connection that a health check has meanwhile taken and
    calls; and a rebuild announces itself on the event channel that a close of the
    pool has meanwhile closed. *)
Theorem rebuild_races_panic :
  can_reach one_connection [task_then_rebuild; [OpHealthCheck (λ _, of_int 0)]] (λ ts _,
    ts !! 1%nat = Some (Crash "nil pointer dereference")) ∧
  can_reach one_connection [task_then_rebuild; [OpClose]] (λ ts s,
    ts !! 0%nat = Some (Crash "send on closed channel") ∧ isShuttingDown s = true).
Proof.
  split.
  - apply (can_reach_follow
      (steps 0 27 0 ++ steps 0 6 1 ++ steps 1 21 (16 * Second) ++ steps 0 8 1 ++ steps 1 8 (16 * Second))
      (λ ts _, panicked 1 "nil pointer dereference" ts)); [vm_compute; reflexivity|by intros ts s H%panicked_sound].
  - apply (can_reach_follow (steps 0 27 0 ++ steps 0 2 1 ++ steps 1 14 2 ++ steps 0 1 1)
      (λ ts s, panicked 0 "send on closed channel" ts && isShuttingDown s)); [vm_compute; reflexivity|].
    intros ts s H. btrue. eauto using panicked_sound.
Qed.

(** A task that has created its connection when the pool is closed puts it into
    the closed pool, where nothing closes it; and the clean-up, which decides
    without the lock, closes the driver of a connection that a task has taken after
    the decision. *)
Lemma close_and_cleanup_races :
  can_reach one_connection [[Get]; [OpClose]] (λ ts s,
    Forall (λ p, p = Done ()) ts ∧ isShuttingDown s = true ∧
    ∃ k i o, connections s !! k = Some i ∧ objs s !! i = Some o ∧ has_driver o = true ∧ closes o = 0%nat) ∧
  can_reach one_connection [[Get; OpRelease (Monitored 0); Get]; [OpCleanup]; [OpGoroutine]] (λ _ s,
    held (history s) 0 = true ∧ ∃ o, objs s !! 0%nat = Some o ∧ state (conn o) = StateAcquired ∧ closes o = 1%nat).
Proof.
  split.
  - apply (can_reach_follow (steps 0 9 0 ++ steps 1 6 2 ++ steps 0 9 1) (λ ts s,
      all_done ts && isShuttingDown s &&
      bool_decide (connections s !! "r1|ssh|1" = Some 0%nat) &&
      match objs s !! 0%nat with Some o => has_driver o && (closes o =? 0)%nat | None => false end)).
    { vm_compute. reflexivity. }
    intros ts s H. btrue. destruct (objs s !! 0%nat) as [o|] eqn:Eo; [|done]. btrue. split_and!; [by apply all_done_sound|done|].
    exists "r1|ssh|1", 0%nat, o. split_and!; [done..|]. by apply Nat.eqb_eq.
  - apply (can_reach_follow
      (steps 0 27 0 ++ steps 1 4 Hour ++ steps 0 16 Hour ++ steps 1 3 Hour ++ steps 2 9 Hour) (λ _ s,
      held (history s) 0 &&
      match objs s !! 0%nat with Some o => bool_decide (state (conn o) = StateAcquired) && (closes o =? 1)%nat | None => false end)).
    { vm_compute. reflexivity. }
    intros ts s H. btrue. destruct (objs s !! 0%nat) as [o|] eqn:Eo; [|done]. btrue. split; [done|].
    exists o. split_and!; [done..|]. by apply Nat.eqb_eq.
Qed.

(** Three races of the pool. A pool of one connection can hold two, since a rebuild
    inserts its replacement without looking at the size. A task that has created its
    connection when the pool is closed puts it into the closed pool, where nothing
    closes it. The clean-up, which decides without the lock, closes the driver of a
    connection that a task has taken after the decision. *)
Theorem pool_races :
  can_reach one_connection [task_then_rebuild; [Get]] (λ ts s,
    Forall (λ p, p = Done ()) ts ∧ MaxConnections one_connection < Z.of_nat (size (connections s))) ∧
  can_reach one_connection [[Get]; [OpClose]] (λ ts s,
    Forall (λ p, p = Done ()) ts ∧ isShuttingDown s = true ∧
    ∃ k i o, connections s !! k = Some i ∧ objs s !! i = Some o ∧ has_driver o = true ∧ closes o = 0%nat) ∧
  can_reach one_connection [[Get; OpRelease (Monitored 0); Get]; [OpCleanup]; [OpGoroutine]] (λ _ s,
    held (history s) 0 = true ∧ ∃ o, objs s !! 0%nat = Some o ∧ state (conn o) = StateAcquired ∧ closes o = 1%nat).
Proof. split; [exact rebuild_exceeds_max|exact close_and_cleanup_races]. Qed.
