(* ===== verification/PoolSpec.v ===== *)
(** * PoolSpec: what each operation of the pool does when it runs alone

    The contracts of the operations, for every answer of the environment ([wp]): they
    are never stuck, and end as stated. *)
From S2P Require Import Prelude GoStrings GoFloat GoContext Conc Types Config ConnState Rebuild Pool PoolTasks PoolSafety.
Local Open Scope string_scope.
Local Open Scope Z_scope.
Implicit Types (s : Pool) (c : EnhancedPooledConnection).

(** ** The actions *)

Lemma keys_of (m : gmap string nat) k : k ∈ (map_to_list m).*1 ↔ is_Some (m !! k).
Proof.
  rewrite list_elem_of_fmap. split.
  - intros ([k' i] & -> & Hi%elem_of_map_to_list). by exists i.
  - intros [i Hi]. exists (k, i). split; [done|]. by apply elem_of_map_to_list.
Qed.

Section actions.
Context {E : Pool → string → Prop}.

Lemma wp_step {B} (f : Pool → Pool * B) Q s : Q (f s).1 (f s).2 → wp (step f) Q E s.
Proof.
  intros H. apply wp_act; [by exists Tick, (f s)|]. intros x s' b Ef. destruct (f s). by simplify_eq/=.
Qed.
Lemma wp_read {B} (f : Pool → B) Q s : Q s (f s) → wp (read f) Q E s.
Proof. intros H. by apply wp_step. Qed.
Lemma wp_stat f Q s : Q { s with stats ::= f } () → wp (stat f) Q E s.
Proof. intros H. by apply wp_step. Qed.
Lemma wp_now Q s : (∀ t, Q s t) → wp now Q E s.
Proof. intros H. apply wp_act; [by exists (Time 0), (s, 0)|]. intros [] s' b Ef; simplify_eq/=. apply H. Qed.
Lemma wp_driver_call Q s : (∀ e, Q s e) → wp driver_call Q E s.
Proof. intros H. apply wp_act; [by exists (Driver None), (s, None)|]. intros [] s' b Ef; simplify_eq/=. apply H. Qed.

Definition ctx_failed (e : error) : Prop := ∃ x, e = ctx_text x.

Lemma wp_ctx_Err m Q s : Q s None → (∀ e, ctx_failed e → Q s (Some e)) → wp (ctx_Err m) Q E s.
Proof.
  intros H1 H2. apply wp_act; [by exists (Ctx (Some Canceled)), (s, Some (ctx_text Canceled))|].
  intros [|[e|]|? | |? ?|] s' b Ef; try done; [injection Ef as <- <-; apply H2; by exists e|].
  destruct (m && ctx_cancelled s); simplify_eq/=. done.
Qed.
Lemma wp_ctx_wait Q s : Q s None → (∀ e, ctx_failed e → Q s (Some e)) → wp ctx_wait Q E s.
Proof.
  intros H1 H2. apply wp_act; [by exists (Ctx None), (s, None)|].
  intros [|[e|]|? | |? ?|] s' b Ef; try done; injection Ef as <- <-; [|done]. apply H2. by exists e.
Qed.
Lemma wp_connection_keys Q s :
  (∀ ids, NoDup ids → (∀ k, k ∈ ids ↔ is_Some (connections s !! k)) → Q s ids) → wp connection_keys Q E s.
Proof.
  intros H. apply wp_act.
  - exists (Order (map_to_list (connections s)).*1). eexists. cbn. rewrite bool_decide_eq_true_2; [reflexivity|].
    split; [apply NoDup_fst_map_to_list|]. apply set_eq. intros k.
    by rewrite elem_of_list_to_set, elem_of_dom, keys_of.
  - intros [] s' b Ef; try done. case_bool_decide as Hd; [|done]. destruct Hd as [Hn Hd]. injection Ef as <- <-.
    apply H; [done|]. intros k. rewrite <- elem_of_dom, <- Hd, elem_of_list_to_set. done.
Qed.
Lemma wp_on_conn {B} i (f : EnhancedPooledConnection → EnhancedPooledConnection * B) Q s o :
  objs s !! i = Some o → Q { s with objs ::= <[i := { o with conn := (f (conn o)).1 }]> } (f (conn o)).2 →
  wp (on_conn i f) Q E s.
Proof.
  intros Ho H. apply wp_act.
  - exists Tick. rewrite Ho. destruct (f (conn o)) eqn:Ef. eauto.
  - intros x s' b Ef. rewrite Ho in Ef. destruct (f (conn o)). by injection Ef as <- <-.
Qed.

Lemma objs_same s i o : objs s !! i = Some o → { s with objs ::= <[i := o]> } = s.
Proof.
  destruct s. simpl. intros H.
  lazymatch goal with |- ?l = ?r => let l' := eval hnf in l in change (l' = r) end. simpl. f_equal. by apply list_insert_id.
Qed.

Lemma wp_read_conn {B} i (f : EnhancedPooledConnection → B) Q s o :
  objs s !! i = Some o → Q s (f (conn o)) → wp (read_conn i f) Q E s.
Proof.
  intros Ho H. apply (wp_on_conn _ _ _ _ o Ho). simpl.
  replace { o with conn := conn o } with o by (by destruct o). by rewrite objs_same.
Qed.
Lemma wp_read_obj {B} i (f : object → B) Q s o : objs s !! i = Some o → Q s (f o) → wp (read_obj i f) Q E s.
Proof.
  intros Ho H. apply wp_act; [exists Tick; rewrite Ho; eauto|].
  intros x s' b Ef. rewrite Ho in Ef. by injection Ef as <- <-.
Qed.

Lemma events_same s : { s with eventChan := eventChan s } = s.
Proof. by destruct s. Qed.

(** An event is sent or dropped; only the channel changes. *)
Lemma wp_sendEvent e Q s : (∀ l, Q { s with eventChan := l } ()) → wp (sendEvent e) Q E s.
Proof.
  intros H. unfold sendEvent. apply wp_bind, wp_read.
  destruct (isShuttingDown s); [simpl; rewrite <- (events_same s); apply H|].
  apply wp_catch, wp_bind, wp_step. destruct (chan_closed s); cbn [fst snd];
    [cbn; rewrite <- (events_same s); apply H|].
  destruct (length (eventChan s) <? 1000)%nat; [apply H|]. cbn. rewrite <- (events_same s). apply H.
Qed.
End actions.

(** ** Taking a connection *)

(** What [tryAcquireForTask] asks of a connection, and makes of it. *)
Definition acquirable c : bool :=
  negb (0 <? usingCount c) && bool_decide (state c = StateIdle) &&
  negb (bool_decide (healthStatus c = HealthStatusUnhealthy)) && negb (rebuilding c).
Definition acquired (t : Z) c : EnhancedPooledConnection :=
  { c with state := StateAcquired; lastUsed := t; usageCount ::= (λ n, wrap64 (n + 1)) }.

Lemma tryAcquire_spec t c : tryAcquireForTask t c = if acquirable c then (acquired t c, true) else (c, false).
Proof.
  unfold tryAcquireForTask, acquirable, transitionStateLocked, canTransitionTo.
  destruct (0 <? usingCount c); [done|]. destruct (state c) eqn:Es; simpl; try done.
  destruct (bool_decide _); [done|]. by destruct (rebuilding c).
Qed.

(** The pool as it was, up to objects that nobody holds, and events. *)
Definition later s s' : Prop :=
  connections s' = connections s ∧ objs s `prefix_of` objs s' ∧ history s' = history s ∧ stats s' = stats s ∧
  monitored s' = monitored s.
Definition nothing_acquirable s : Prop :=
  ∀ k i o, connections s !! k = Some i → objs s !! i = Some o → acquirable (conn o) = false.

(** A connection of the pool was taken. *)
Definition took_existing s s' (i : nat) : Prop :=
  ∃ k o t, connections s !! k = Some i ∧ objs s !! i = Some o ∧ acquirable (conn o) = true ∧
    connections s' = connections s ∧ objs s' !! i = Some { o with conn := acquired t (conn o) } ∧
    history s' = (history s ++ [(true, i)])%list ∧ stats s' = add_idle (-1) (add_active 1 (stats s)) ∧
    monitored s' = monitored s.

(** A new connection was made, put into the pool and taken. *)
Definition took_new cfg s s' (i : nat) : Prop :=
  nothing_acquirable s ∧ Z.of_nat (size (connections s)) < MaxConnections cfg ∧
  ∃ t t', let k := connection_name cfg t in
    connections s !! k = None ∧ connections s' = <[k := i]> (connections s) ∧
    objs s !! i = None ∧ objs s' !! i = Some (mk_obj (acquired t' (new_connection k t)) true 0) ∧
    history s' = (history s ++ [(true, i)])%list ∧
    stats s' = add_idle (-1) (add_active 1 (add_idle 1 (add_created (stats s)))) ∧ monitored s' = monitored s.

Lemma later_refl s : later s s.
Proof. by repeat split. Qed.
Lemma later_trans s1 s2 s3 : later s1 s2 → later s2 s3 → later s1 s3.
Proof. intros (?&?&?&?&?) (?&?&?&?&?). repeat split; (congruence || by etrans). Qed.
Lemma later_events s l : later s { s with eventChan := l }.
Proof. by repeat split. Qed.

Lemma later_lookup s s' k i o :
  keyed s → later s s' → connections s !! k = Some i → (objs s' !! i = Some o ↔ objs s !! i = Some o).
Proof.
  intros Hk (_ & Hp & _) Hi. specialize (Hk k i Hi). unfold id_of in Hk.
  destruct (objs s !! i) as [o1|] eqn:Ho1; [|done]. by rewrite (prefix_lookup_Some _ _ _ _ Ho1 Hp).
Qed.
Lemma later_keyed s s' : keyed s → later s s' → keyed s'.
Proof.
  intros Hk Hl k i Hi. pose proof Hl as (Hc & _). rewrite Hc in Hi. specialize (Hk k i Hi) as Hid.
  unfold id_of in *. destruct (objs s !! i) as [o|] eqn:Ho; [|done].
  by rewrite (proj2 (later_lookup s s' k i o Hk Hl Hi) Ho).
Qed.
Lemma later_nothing s s' : keyed s → later s s' → (nothing_acquirable s' ↔ nothing_acquirable s).
Proof.
  intros Hk Hl. pose proof Hl as (Hc & _). split; intros H k i o Hi Ho.
  - apply (H k i o); [by rewrite Hc|]. by apply (later_lookup s s' k i o).
  - rewrite Hc in Hi. apply (H k i o Hi). by apply (later_lookup s s' k i o).
Qed.
Lemma later_existing s s1 s' i : keyed s → later s s1 → took_existing s1 s' i → took_existing s s' i.
Proof.
  intros Hk Hl (k & o & t & H1 & H2 & H3 & H4 & H5 & H6 & H7 & H8). pose proof Hl as (Hc & _ & Hh & Hs & Hm).
  rewrite Hc in H1, H4. rewrite Hh in H6. rewrite Hs in H7. rewrite Hm in H8.
  exists k, o, t. split_and!; try done. by apply (later_lookup s s1 k i o).
Qed.
Lemma later_new cfg s s1 s' i : keyed s → later s s1 → took_new cfg s1 s' i → took_new cfg s s' i.
Proof.
  intros Hk Hl (H1 & H2 & t & t' & H3 & H4 & H5 & H6 & H7 & H8 & H9). pose proof Hl as (Hc & Hp & Hh & Hs & Hm).
  rewrite Hc in H2, H3, H4. rewrite Hh in H7. rewrite Hs in H8. rewrite Hm in H9. split; [by apply (later_nothing s s1)|]. split; [done|].
  exists t, t'. split_and!; try done. apply lookup_ge_None. apply lookup_ge_None in H5. apply prefix_length in Hp. lia.
Qed.

Lemma wp_try_candidates (E : Pool → string → Prop) ids s :
  keyed s →
  wp (try_candidates ids) (λ s' r,
    match r with
    | inl e => s' = s ∧ ctx_failed e
    | inr None => s' = s ∧ ∀ k i o, k ∈ ids → connections s !! k = Some i → objs s !! i = Some o → acquirable (conn o) = false
    | inr (Some i) => took_existing s s' i
    end) E s.
Proof.
  intros Hk. induction ids as [|k ids IH]; cbn [try_candidates].
  { split; [done|]. intros k i o Hin. by apply elem_of_nil in Hin. }
  apply wp_bind, wp_ctx_Err; [|by intros e He]. apply wp_bind, wp_read.
  destruct (connections s !! k) as [i|] eqn:Hi.
  2: { eapply wp_mono; [exact IH| |done]. intros s' [e|[j|]]; [done..|]. intros [-> Hn]. split; [done|].
       intros k' i o [->|Hin]%elem_of_cons; [congruence|]. by apply Hn. }
  pose proof (Hk k i Hi) as Hid. unfold id_of in Hid. destruct (objs s !! i) as [o|] eqn:Ho; [|done].
  apply wp_bind, wp_act. { exists (Time 0). rewrite Ho, tryAcquire_spec. destruct (acquirable (conn o)); eauto. }
  intros x s' b Ef. destruct x; try done. rewrite Ho, tryAcquire_spec in Ef. destruct (acquirable (conn o)) eqn:Ea.
  - injection Ef as <- <-. apply wp_bind, wp_stat. exists k, o, t. split_and!; try done. simpl.
    apply list_lookup_insert_eq. by eapply lookup_lt_Some.
  - injection Ef as <- <-. replace { o with conn := conn o } with o by (by destruct o). rewrite objs_same by done.
    eapply wp_mono; [exact IH| |done]. intros s' [e|[j|]]; [done..|]. intros [-> Hn]. split; [done|].
    intros k' i' o' [->|Hin]%elem_of_cons; [|by apply Hn]. intros Hi' Ho'. congruence.
Qed.

Lemma wp_tryGet (E : Pool → string → Prop) s :
  keyed s →
  wp tryGetAvailableConnection (λ s' r,
    match r with
    | inl e => s' = s ∧ ctx_failed e
    | inr None => s' = s ∧ nothing_acquirable s
    | inr (Some i) => took_existing s s' i
    end) E s.
Proof.
  intros Hk. apply wp_bind, wp_connection_keys. intros ids _ Hids.
  eapply wp_mono; [by apply wp_try_candidates| |done]. intros s' [e|[i|]]; [done..|]. intros [-> H]. split; [done|].
  intros k i o Hi. apply (H k i o); [|done]. apply Hids. by eexists.
Qed.

(** *** Making a connection *)

Definition made_object cfg s s' (i : nat) : Prop :=
  objs s !! i = None ∧ ∃ t, objs s' !! i = Some (mk_obj (new_connection (connection_name cfg t) t) true 0).
Definition creation_failed (e : error) : Prop := ∃ e', e = "failed to create connection" :: e'.

Lemma wp_createConnection cfg m (E : Pool → string → Prop) s :
  wp (createConnection cfg m) (λ s' r, later s s' ∧
    match r with inl e => s' = s ∧ (ctx_failed e ∨ creation_failed e) | inr i => made_object cfg s s' i end) E s.
Proof.
  unfold createConnection. apply wp_bind, wp_ctx_Err.
  2: { intros e He. split; [apply later_refl|]. by auto. }
  apply wp_bind, wp_driver_call. intros [e|].
  { split; [apply later_refl|]. split; [done|]. right. by exists e. }
  apply wp_bind, wp_now. intros t. apply wp_bind, wp_step. apply wp_bind, wp_sendEvent. intros l.
  split; [|split].
  - repeat split. simpl. by apply prefix_app_r.
  - simpl. apply lookup_ge_None. done.
  - exists t. simpl. by apply list_lookup_middle.
Qed.

Lemma new_acquirable k t : acquirable (new_connection k t) = true.
Proof. done. Qed.

(** The section under the lock of [tryCreateNewConnection]. *)
Lemma wp_add_connection cfg (E : Pool → string → Prop) s s1 i :
  keyed s → later s s1 → made_object cfg s s1 i → nothing_acquirable s →
  wp (add_connection cfg i) (λ s' r,
    match r with
    | inl _ => False
    | inr None => later s s'
    | inr (Some j) => took_new cfg s s' j
    end) E s1.
Proof.
  intros Hk Hl (Hi & t0 & Ho) Hn. pose proof Hl as (Hc & Hp & Hh & Hs & Hm).
  assert (Hout : ∀ f, later s { s1 with objs ::= alter f i }).
  { intros f. repeat split; try done. simpl. destruct Hp as [l Hp]. apply lookup_ge_None in Hi.
    rewrite Hp, alter_app_r_alt by done. by apply prefix_app_r. }
  apply wp_act.
  { exists (Time 0). rewrite Ho. cbv zeta. rewrite tryAcquire_spec. cbn [conn]. rewrite new_acquirable.
    destruct (_ <=? _); [eauto|]. destruct (existsb _ _); eauto. }
  intros x s' b Ef. destruct x; try done. rewrite Ho, tryAcquire_spec in Ef. cbn [conn] in Ef.
  rewrite new_acquirable in Ef. cbv zeta in Ef.
  destruct (Z.leb_spec (MaxConnections cfg) (Z.of_nat (size (connections s1)))) as [|Hsize].
  { injection Ef as <- <-. apply Hout. }
  destruct (existsb _ _) eqn:Ex; injection Ef as <- <-; [apply Hout|].
  rewrite Hc in Hsize. split; [done|]. split; [done|]. exists t0, t. cbn -[connection_name]. split_and!; try done.
  - apply eq_None_not_Some. intros [j Hj]. pose proof (later_keyed s s1 Hk Hl) as Hk1.
    rewrite <- Hc in Hj.
    pose proof (proj1 (existsb_false_elem_of _ _) Ex (connection_name cfg t0, j) (proj2 (elem_of_map_to_list _ _ _) Hj)) as Hf.
    cbn -[connection_name] in Hf. btrue. apply Hf. by apply Hk1.
  - by rewrite Hc.
  - apply list_lookup_insert_eq. by eapply lookup_lt_Some.
  - by rewrite Hh.
  - by rewrite Hs.
Qed.

Lemma wp_tryCreate cfg (E : Pool → string → Prop) s :
  keyed s → nothing_acquirable s →
  wp (tryCreateNewConnection cfg) (λ s' r,
    match r with
    | inl e => later s s' ∧ (ctx_failed e ∨ creation_failed e)
    | inr None => later s s'
    | inr (Some i) => took_new cfg s s' i
    end) E s.
Proof.
  intros Hk Hn. apply wp_bind, wp_read. destruct (_ <=? _); [apply later_refl|].
  apply wp_bind. eapply wp_mono; [apply wp_createConnection| |done].
  intros s1 [e|i] [Hl H]; [naive_solver|]. eapply wp_mono; [by apply wp_add_connection| |done].
  intros s' [e|[j|]]; naive_solver.
Qed.

Definition gave_up : error := ["failed to get connection after 3 attempts"].

Definition got cfg s s' (r : error + nat) : Prop :=
  match r with
  | inr i => took_existing s s' i ∨ took_new cfg s s' i
  | inl e => later s s' ∧ (ctx_failed e ∨ (nothing_acquirable s ∧ (creation_failed e ∨ e = gave_up)))
  end.

Lemma wp_get_attempts cfg (E : Pool → string → Prop) n s0 s :
  keyed s0 → later s0 s → (n = 0%nat → nothing_acquirable s0) →
  wp (get_attempts cfg n) (got cfg s0) E s.
Proof.
  intros Hk. revert s. induction n as [|n IH]; intros s Hl Hn; cbn [get_attempts]; [naive_solver|].
  apply wp_bind, wp_ctx_Err; [|by intros e He; split; [done|left]].
  apply wp_bind. eapply wp_mono; [by apply wp_tryGet, (later_keyed s0)| |done].
  intros s1 [e|[i|]]; [by intros [-> He]; split; [done|left]|intros H; left; by eapply later_existing|].
  intros [-> Hno]. apply wp_bind. eapply wp_mono; [by apply wp_tryCreate; [apply (later_keyed s0)|]| |done].
  assert (Hno0 : nothing_acquirable s0) by (by apply (later_nothing s0 s)).
  intros s1 [e|[i|]].
  - intros [Hl1 He]. split; [by eapply later_trans|]. destruct He; auto.
  - intros H. right. by eapply later_new.
  - intros Hl1. assert (Hl2 : later s0 s1) by (by eapply later_trans). destruct n; [by apply IH|].
    apply wp_bind, wp_ctx_wait; [by apply IH|]. intros e He. split; [done|by left].
Qed.


Lemma new_keyed : keyed NewEnhancedConnectionPool.
Proof. intros k i Hi. discriminate Hi. Defined.


(** ** The counters *)

Lemma took_keyed cfg s s' i : keyed s → took_existing s s' i ∨ took_new cfg s s' i → ∃ o, objs s' !! i = Some o.
Proof. intros Hk [(k & o & t & H)|(_ & _ & t & t' & H)]; eexists; apply H. Qed.

Section get.
Context (cfg : EnhancedConnectionConfig) (rnd : Z → float64).

Definition got_or_failed s s' (r : error + nat) : Prop :=
  match r with
  | inr i => took_existing s s' i ∨ took_new cfg s s' i
  | inl _ => later s s'
  end.

Lemma wp_get_retries n k last s0 s :
  keyed s0 → later s0 s → wp (get_retries cfg rnd n k last) (got_or_failed s0) (λ _ _, False) s.
Proof.
  intros Hk. revert k last s. induction n as [|n IH]; intros k last s Hl; cbn [get_retries]; [done|].
  apply wp_bind, wp_ctx_Err; [|done]. apply wp_bind. unfold getConnectionFromPool.
  apply wp_bind, wp_ctx_Err.
  - eapply wp_mono; [by apply (wp_get_attempts cfg (λ _ _, False) 3 s0)| |done]. intros s1 [e|i]; [|done]. intros [Hl1 _].
    destruct (negb _); [done|]. destruct (0 <? _); [|by apply IH].
    apply wp_bind, wp_ctx_wait; [by apply IH|done].
  - intros e He. apply wp_ret. destruct (negb _); [done|]. destruct (0 <? _); [|by apply IH].
    apply wp_bind, wp_ctx_wait; [by apply IH|done].
Qed.

(** [GetWithContext]: besides [getConnectionFromPool], the counters of the pool are
    moved by one again. *)
Definition got_handle s s' (r : error + nat) : Prop :=
  match r with
  | inl _ => later s s'
  | inr h => ∃ s1 i o, (took_existing s s1 i ∨ took_new cfg s s1 i) ∧ objs s1 !! i = Some o ∧
      connections s' = connections s1 ∧ objs s' = objs s1 ∧ history s' = history s1 ∧
      ActiveConnections (stats s') = bump 1 (ActiveConnections (stats s1)) ∧
      IdleConnections (stats s') = bump (-1) (IdleConnections (stats s1)) ∧
      getDriverPool cfg (c_Protocol cfg) = true ∧
      ∃ t, monitored s' !! h = Some (mk_monitored i (has_driver o) (c_Protocol cfg) t None false 0)
  end.

Lemma wp_GetWithContext proto s :
  keyed s → wp (GetWithContext cfg rnd proto) (got_handle s) (λ _ _, False) s.
Proof.
  intros Hk. unfold GetWithContext. apply wp_bind, wp_read. destruct (isShuttingDown s); [apply later_refl|].
  apply wp_bind, wp_ctx_Err; [|intros; apply later_refl]. destruct (getDriverPool cfg proto) eqn:Hp; [|apply later_refl]. cbn [negb].
  apply wp_bind. eapply wp_mono; [by apply (wp_get_retries _ _ _ s); [|apply later_refl]| |done].
  intros s1 [e|i] H; [done|]. destruct (took_keyed cfg s s1 i Hk H) as [o Ho].
  apply wp_bind. unfold activateConnection. do 3 (apply wp_bind, wp_stat). apply wp_bind, wp_sendEvent. intros l.
  apply wp_act. { exists (Time 0). cbn. rewrite Ho. eauto. }
  intros x s' b Ef. destruct x; try done. cbn in Ef. rewrite Ho in Ef. injection Ef as <- <-.
  exists s1, i, o. split_and!; try done; [|exists t; by apply list_lookup_middle].
  unfold getDriverPool in *. btrue. match goal with H : String.eqb proto _ = true |- _ => apply String.eqb_eq in H as <- end.
  by rewrite String.eqb_refl.
Qed.
End get.

Lemma wrap64_add z n : wrap64 (wrap64 z + n) = wrap64 (z + n).
Proof.
  unfold wrap64. f_equal. replace ((z + two63) mod two64 - two63 + n + two63) with ((z + two63) mod two64 + n) by lia.
  rewrite Zplus_mod_idemp_l. f_equal. lia.
Qed.
Lemma bump_bump n m z : bump n (bump m z) = bump (m + n) z.
Proof. unfold bump. rewrite wrap64_add. f_equal. lia. Qed.

Lemma wp_Release cfg h m s o :
  monitored s !! h = Some m → objs s !! md_conn m = Some o → getDriverPool cfg (md_protocol m) = true →
  wp (Release cfg (Monitored h)) (λ s' r, r = None ∧ connections s' = connections s ∧
    stats s' = add_idle 1 (add_active (-1) (stats s)) ∧ history s' = (history s ++ [(false, md_conn m)])%list ∧
    ∃ t d, objs s' = <[md_conn m :=
      { o with conn := UpdateConnectionMetrics d (bool_decide (lastError m = None)) (release t (conn o)) }]> (objs s))
    (λ _ _, False) s.
Proof.
  intros Hm Ho Hp. unfold Release.
  assert (Hread : ∀ B (f : MonitoredDriver → B) Q s1, monitored s1 = monitored s →
    Q s1 (f m) → wp (on_monitored h (λ m, (m, f m))) Q (λ _ _, False) s1).
  { intros B f Q s1 E HQ. apply wp_act; [exists Tick; rewrite E, Hm; eauto|].
    intros x s' b Ef. rewrite E, Hm in Ef. injection Ef as <- <-.
    replace { s1 with monitored ::= <[h := m]> } with s1; [done|]. destruct s1. simpl in E.
    lazymatch goal with |- ?l = ?r => let r' := eval hnf in r in change (l = r') end. simpl. f_equal.
    symmetry. apply list_insert_id. by rewrite E. }
  apply wp_bind, Hread; [done|]. rewrite Hp. cbn [negb].
  apply wp_bind, wp_act. { exists (Time 0). rewrite Ho. eauto. }
  intros x s1 b Ef. destruct x; try done. rewrite Ho in Ef. injection Ef as <- <-.
  do 2 (apply wp_bind, wp_stat). apply wp_bind, Hread; [done|]. apply wp_bind. apply wp_bind, wp_now. intros t'.
  eapply wp_on_conn; [apply list_lookup_insert_eq; by eapply lookup_lt_Some|].
  cbn. split_and!; try done. exists t, (time_sub t' (startTime m)). by rewrite list_insert_insert_eq.
Qed.

(** What a task does, but for its commands. *)
Definition get_and_release cfg (rnd : Z → float64) (proto : string) : prog unit :=
  r ← GetWithContext cfg rnd proto;
  match r with
  | inl _ => mret ()
  | inr h => Release cfg (Monitored h);; mret ()
  end.

(** A task that takes and releases a connection, alone, leaves the connection
    idle, but the counters of the pool are off: the number of active connections has
    grown by one, since the acquisition is counted twice and the release once; the
    number of idle ones has shrunk by one if the connection was there before. A task
    that gets none leaves the pool as it was. *)
Theorem task_drifts_counters cfg rnd proto s :
  keyed s →
  wp (get_and_release cfg rnd proto) (λ s' _,
    later s s' ∨
    ∃ i o, objs s' !! i = Some o ∧ state (conn o) = StateIdle ∧
      ActiveConnections (stats s') = bump 1 (ActiveConnections (stats s)) ∧
      IdleConnections (stats s') =
        bump (if decide (connections s' = connections s) then -1 else 0) (IdleConnections (stats s)))
    (λ _ _, False) s.
Proof.
  intros Hk. apply wp_bind. eapply wp_mono; [by apply wp_GetWithContext| |done]. intros s2 [e|h]; [by left|].
  intros (s1 & i & o & Htook & Ho & Hc & Ho2 & Hh & Ha & Hi & Hp & t & Hm).
  assert (Hst : state (conn o) = StateAcquired ∧
    ActiveConnections (stats s1) = bump 1 (ActiveConnections (stats s)) ∧
    IdleConnections (stats s1) = bump (if decide (connections s1 = connections s) then -1 else 0) (IdleConnections (stats s))).
  { destruct Htook as [(k & o0 & t0 & H)|(_ & _ & t0 & t1 & H)].
    - destruct H as (H1 & H2 & H3 & H4 & H5 & H6 & H7 & H8). rewrite H7, Ho in *. injection H5 as ->.
      by rewrite decide_True.
    - destruct H as (H1 & H2 & H3 & H4 & H5 & H6 & H7). rewrite H6, Ho in *. injection H4 as ->.
      rewrite decide_False; [split; [done|]; split; [done|]; cbn; by rewrite bump_bump|].
      intros E. rewrite E in H2. rewrite H2, lookup_insert_eq in H1. done. }
  destruct Hst as (Hst & Ha1 & Hi1).
  apply wp_bind. eapply wp_mono; [eapply (wp_Release cfg h _ s2 o Hm); [by rewrite Ho2|done]| |done].
  intros s3 r (-> & Hc3 & Hs3 & Hh3 & t3 & d & Ho3). right. exists i, { o with conn := UpdateConnectionMetrics d true (release t3 (conn o)) }.
  cbn [md_conn lastError] in Ho3. rewrite Hs3, Ho3, Ho2, Hc3, Hc. split_and!.
  - apply list_lookup_insert_eq. by eapply lookup_lt_Some.
  - change (state (UpdateConnectionMetrics d true (release t3 (conn o))) = StateIdle).
    rewrite (proj2 (UpdateConnectionMetrics_quiet _ _ _)). unfold release, transitionStateLocked, canTransitionTo.
    by rewrite Hst.
  - cbn. by rewrite Ha, Ha1, !bump_bump.
  - cbn. rewrite Hi, Hi1, !bump_bump. by case_decide.
Qed.

Lemma task_drifts_counters_witness :
  keyed NewEnhancedConnectionPool ∧
  wp (get_and_release one_router (λ _, of_int 0) ProtocolSSH) (λ s' _,
    later NewEnhancedConnectionPool s' ∨
    ∃ i o, objs s' !! i = Some o ∧ state (conn o) = StateIdle ∧
      ActiveConnections (stats s') = bump 1 0 ∧
      IdleConnections (stats s') = bump (if decide (connections s' = ∅) then -1 else 0) 0)
    (λ _ _, False) NewEnhancedConnectionPool.
Proof. split; [exact new_keyed|]. exact (task_drifts_counters one_router _ ProtocolSSH _ new_keyed). Defined.
