(* ===== verification/PoolCare.v ===== *)
(** * PoolCare: the contracts of the pool's background work

    The clean-up, the rebuild of a connection, the warm-up's workers and the close,
    each alone and for every answer of the environment ([wp]), on the state of
    [Pool]. *)
From S2P Require Import Prelude GoStrings GoFloat GoContext Conc Types Config ConnState Rebuild Pool PoolTasks PoolSafety PoolSpec.
Local Open Scope string_scope.
Local Open Scope Z_scope.
Implicit Types (s : Pool) (c : EnhancedPooledConnection).

Section care.
Context (cfg : EnhancedConnectionConfig).

(** ** The clean-up *)

Definition doomed (t : Z) s (i : nat) : bool :=
  match objs s !! i with Some o => shouldCleanupConnection cfg (MaxIdleTime cfg) (conn o) t | None => false end.

(** One turn of the loop. *)
Definition clean_step (t : Z) s (k : string) : Pool :=
  match connections s !! k with
  | Some i => if doomed t s i
              then { s with connections ::= delete k; stats ::= drop_stat (default StateClosed ((λ o, state (conn o)) <$> objs s !! i));
                            jobs ::= (.++ [ForceClose i])%list }
              else s
  | None => s
  end.

Lemma clean_step_objs t s k : objs (clean_step t s k) = objs s.
Proof. unfold clean_step. destruct (connections s !! k); [|done]. by destruct (doomed t s n). Qed.
Lemma clean_step_keyed t s k : keyed s → keyed (clean_step t s k).
Proof.
  intros Hk. unfold clean_step. destruct (connections s !! k) as [i|]; [|done]. destruct (doomed t s i); [|done].
  intros k' i' Hi. simpl in Hi. apply lookup_delete_Some in Hi as [_ Hi]. by apply Hk.
Qed.

Lemma wp_cleanup_each t ids s :
  keyed s → wp (cleanup_each cfg t ids) (λ s' _, s' = foldl (clean_step t) s ids) (λ _ _, False) s.
Proof.
  revert s. induction ids as [|k ids IH]; intros s Hk; cbn [cleanup_each foldl]; [done|].
  pose proof (IH _ (clean_step_keyed t s k Hk)) as Hnext. remember (clean_step t s k) as s1 eqn:E1.
  unfold clean_step, doomed in E1. apply wp_bind, wp_read.
  destruct (connections s !! k) as [i|] eqn:Hi; [|by subst s1].
  pose proof (Hk k i Hi) as Hid. unfold id_of in Hid. destruct (objs s !! i) as [o|] eqn:Ho; [|done].
  apply wp_bind, (wp_read_conn _ _ _ _ o Ho).
  destruct (shouldCleanupConnection cfg (MaxIdleTime cfg) (conn o) t); [|by subst s1].
  apply wp_bind, (wp_read_conn _ _ _ _ o Ho). apply wp_bind, wp_step. rewrite Hi. cbn [fst snd].
  apply wp_bind, wp_step. subst s1. exact Hnext.
Qed.

(** What the loop leaves in the map, and starts. *)
Lemma clean_steps t ids s :
  let s' := foldl (clean_step t) s ids in
  objs s' = objs s ∧
  (∀ k i, connections s' !! k = Some i ↔ connections s !! k = Some i ∧ (k ∈ ids → doomed t s i = false)) ∧
  (∀ i, ForceClose i ∈ jobs s' ↔ ForceClose i ∈ jobs s ∨
        ∃ k, k ∈ ids ∧ connections s !! k = Some i ∧ doomed t s i = true).
Proof.
  revert s. induction ids as [|k ids IH]; intros s; cbn [foldl].
  { split; [done|]. split; intros; [|split; [by left|]].
    - split; [|by intros [? _]]. intros H. split; [done|]. by intros ?%elem_of_nil.
    - intros [?|(k & ?%elem_of_nil & _)]; done. }
  destruct (IH (clean_step t s k)) as (H1 & H2 & H3). rewrite clean_step_objs in H1.
  assert (Hd : ∀ i, doomed t (clean_step t s k) i = doomed t s i) by (intros i; unfold doomed; by rewrite clean_step_objs).
  assert (Hc : ∀ k' i, connections (clean_step t s k) !! k' = Some i ↔
             connections s !! k' = Some i ∧ (k' = k → doomed t s i = false)).
  { intros k' i. unfold clean_step. destruct (connections s !! k) as [j|] eqn:Hj.
    - destruct (doomed t s j) eqn:Ej; simpl; [rewrite lookup_delete_Some|]; split.
      + by intros [? ?].
      + intros [Hi Hf]. split; [intros ->|done]. rewrite Hj in Hi. injection Hi as ->. by rewrite Hf in Ej.
      + intros Hi. split; [done|]. intros ->. rewrite Hj in Hi. by injection Hi as ->.
      + by intros [? _].
    - split; [|by intros [? _]]. intros Hi. split; [done|]. intros ->. congruence. }
  assert (Hj : ∀ i, ForceClose i ∈ jobs (clean_step t s k) ↔ ForceClose i ∈ jobs s ∨
             connections s !! k = Some i ∧ doomed t s i = true).
  { intros i. unfold clean_step. destruct (connections s !! k) as [j|] eqn:Hj; [|split; [by left|by intros [?|[? _]]]].
    destruct (doomed t s j) eqn:Ej; simpl; [rewrite elem_of_app, list_elem_of_singleton|].
    - split; (intros [?|H]; [by left|right]); [by injection H as ->|by destruct H as [[= ->] _]].
    - split; [by left|]. intros [?|[[= ->] H]]; [done|congruence]. }
  split; [done|]. split.
  - intros k' i. rewrite H2, Hc, Hd. split.
    + intros [[Hi H] Hin]. split; [done|]. intros [->|?]%elem_of_cons; auto.
    + intros [Hi H]. split; [split; [done|intros ->; apply H; by left]|intros ?; apply H; by right].
  - intros i. rewrite H3, Hj. split.
    + intros [[H|[Hi H]]|(k' & Hin & [Hi _]%Hc & H)]; [by left|right; exists k|right; exists k'].
      * split; [by left|done].
      * rewrite Hd in H. split; [by right|done].
    + intros [H|(k' & [->|Hin]%elem_of_cons & Hi & H)]; [by left; left|by left; right|].
      destruct (decide (k' = k)) as [->|Hne]; [by left; right|]. right. exists k'. rewrite Hd, Hc. naive_solver.
Qed.

End care.


(** ** The rebuild of a connection *)

Lemma alter_insert {A} (f : A → A) (l : list A) i x : l !! i = Some x → alter f i l = <[i := f x]> l.
Proof.
  intros Hx. apply list_eq. intros j. destruct (decide (i = j)) as [->|Hne].
  - rewrite list_lookup_alter_eq, Hx, list_lookup_insert_eq by (by eapply lookup_lt_Some). done.
  - by rewrite list_lookup_alter_ne, list_lookup_insert_ne.
Qed.

Lemma wp_driver_Close i Q (E : Pool → string → Prop) s o :
  objs s !! i = Some o → has_driver o = true →
  (∀ e, Q { s with objs ::= <[i := { o with closes ::= S }]> } e) → wp (driver_Close i) Q E s.
Proof.
  intros Ho Hd H. unfold driver_Close. apply wp_bind, wp_act; [exists Tick; rewrite Ho; eauto|].
  intros x s1 b Ef. rewrite Ho in Ef. injection Ef as <- <-. rewrite Hd.
  apply wp_bind, wp_step, wp_driver_call. intros e. cbn [fst snd].
  replace { s with objs ::= alter (λ o, { o with closes ::= S }) i } with { s with objs ::= <[i := { o with closes ::= S }]> };
    [apply H|]. destruct s. simpl in Ho.
  lazymatch goal with |- ?l = ?r => let l' := eval hnf in l in let r' := eval hnf in r in change (l' = r') end. simpl.
  f_equal. by rewrite (alter_insert _ _ _ _ Ho).
Qed.

(** The old object after its close. *)
Definition closed_object (o : object) : object :=
  mk_obj { conn o with state := StateClosed } false (closes o + if has_driver o then 1 else 0).

Lemma wp_close_old i k (E : Pool → string → Prop) s o :
  objs s !! i = Some o → state (conn o) = StateIdle →
  wp (close_old i k) (λ s' r, r = true ∧ objs s' = <[i := closed_object o]> (objs s) ∧
    connections s' = delete k (connections s) ∧ stats s' = add_idle (-1) (stats s) ∧ history s' = history s) E s.
Proof.
  intros Ho Hst. pose proof (lookup_lt_Some _ _ _ Ho) as Hlt. unfold close_old.
  set (o1 := { o with conn := { conn o with state := StateClosing } }).
  apply wp_bind, (wp_on_conn _ _ _ _ o Ho). unfold beginClose, transitionStateLocked, canTransitionTo. rewrite Hst. cbn [fst snd CanTransition].
  set (s1 := { s with objs ::= <[i := o1]> }).
  assert (Ho1 : objs s1 !! i = Some o1) by (apply list_lookup_insert_eq; done).
  apply wp_bind, (wp_read_conn _ _ _ _ o1 Ho1). cbn [negb andb].
  apply wp_bind, (wp_read_obj _ _ _ _ o1 Ho1).
  assert (Hfin : ∀ s2 o2, objs s2 !! i = Some o2 → objs s2 = <[i := o2]> (objs s) → state (conn o2) = StateClosing →
    { o2 with conn := { conn o2 with state := StateClosed } } = closed_object o →
    connections s2 = connections s → stats s2 = stats s → history s2 = history s →
    wp (step (λ s, ({ s with connections ::= delete k; stats ::= add_idle (-1) }, ()));; on_conn i completeClose;; mret true)
      (λ s' r, r = true ∧ objs s' = <[i := closed_object o]> (objs s) ∧
       connections s' = delete k (connections s) ∧ stats s' = add_idle (-1) (stats s) ∧ history s' = history s) E s2).
  { intros s2 o2 Ho2 Hobjs Hst2 <- Hc Hs Hh. apply wp_bind, wp_step. apply wp_bind. eapply (wp_on_conn _ _ _ _ o2); [done|].
    unfold completeClose, transitionStateLocked, canTransitionTo. rewrite Hst2. cbn. split_and!; try congruence.
    by rewrite Hobjs, list_insert_insert_eq. }
  change (has_driver o1) with (has_driver o). destruct (has_driver o) eqn:Hd.
  - apply wp_bind. apply wp_bind, (wp_driver_Close _ _ _ _ o1); [done..|]. intros e. apply wp_step. cbn [fst snd].
    eapply (Hfin _ { { o1 with closes ::= S } with has_driver := false }).
    + cbn. rewrite list_lookup_alter_eq, list_lookup_insert_eq by (by rewrite length_insert). done.
    + cbn. rewrite (alter_insert _ _ _ { o1 with closes ::= S }), !list_insert_insert_eq; [done|].
      apply list_lookup_insert_eq. by rewrite length_insert.
    + done.
    + unfold closed_object, o1. rewrite Hd. destruct o as [c d n]. by rewrite Nat.add_1_r.
    + done.
    + done.
    + done.
  - apply wp_bind, wp_ret. apply (Hfin _ o1); try done.
    unfold closed_object, o1. rewrite Hd. destruct o as [c d n]. simpl in Hd. subst d. by rewrite Nat.add_0_r.
Qed.

(** What the rebuild puts in the place of the old connection. *)
Definition replacement cfg (o : object) : Prop :=
  ∃ t t', o = mk_obj { new_connection (connection_name cfg t) t with lastRebuiltAt := Some t' } true 0.

Lemma wp_createReplacement cfg m (E : Pool → string → Prop) s :
  wp (createReplacementConnection cfg m) (λ s' r,
    connections s' = connections s ∧ stats s' = stats s ∧ history s' = history s ∧
    (∀ i o, objs s !! i = Some o → objs s' !! i = Some o) ∧
    match r with
    | inl _ => True
    | inr j => objs s !! j = None ∧ ∃ o, objs s' !! j = Some o ∧ replacement cfg o
    end) E s.
Proof.
  apply wp_bind. eapply wp_mono; [apply wp_createConnection| |done]. intros s1 [e|j] [(Hc & Hp & Hh & Hs & _) H].
  - apply wp_ret. split_and!; try done. intros i o Ho. by eapply prefix_lookup_Some.
  - destruct H as (Hj & t & Hj1). apply wp_bind. apply wp_bind, wp_now. intros t'.
    apply (wp_on_conn _ _ _ _ _ Hj1). cbn -[connection_name]. split_and!; try done.
    + intros i o Ho. rewrite list_lookup_insert_ne by (intros ->; congruence). by eapply prefix_lookup_Some.
    + eexists. split; [apply list_lookup_insert_eq; by eapply lookup_lt_Some|]. by exists t, t'.
Qed.

Definition is_inl {A B} (r : A + B) : bool := match r with inl _ => true | inr _ => false end.

(** A connection that a rebuild accepts. *)
Definition rebuildable c : bool := isIdle c && negb (0 <? usingCount c) && negb (rebuilding c).

Definition rebuilt (o : object) (ok : bool) : object :=
  mk_obj { conn o with state := StateClosed; rebuilding := false; markedForRebuild := markedForRebuild (conn o) && negb ok }
    false (closes o + if has_driver o then 1 else 0).

Definition core_rebuild_post cfg s i o k s' (r : error + string) : Prop :=
  if rebuildable (conn o) then
    history s' = history s ∧
    match r with
    | inl _ => objs s' !! i = Some (rebuilt o false) ∧ connections s' = delete k (connections s) ∧
        IdleConnections (stats s') = bump (-1) (IdleConnections (stats s))
    | inr k' => objs s' !! i = Some (rebuilt o true) ∧ IdleConnections (stats s') = IdleConnections (add_idle 1 (add_idle (-1) (stats s))) ∧
        ∃ j o', objs s !! j = None ∧ objs s' !! j = Some o' ∧ replacement cfg o' ∧ k' = id (conn o') ∧
                connections s' = <[k' := j]> (delete k (connections s))
    end
  else s' = s ∧ is_inl r = true.

Section rebuild.
Context (cfg : EnhancedConnectionConfig) (merged : bool) (i : nat) (k : string).

Lemma wp_rebuild_body (E : Pool → string → Prop) s o :
  objs s !! i = Some o → state (conn o) = StateIdle →
  wp (rebuild_body cfg merged i k) (λ s' r,
    r.2 = negb (is_inl r.1) ∧ objs s' !! i = Some (closed_object o) ∧ history s' = history s ∧
    match r.1 with
    | inl _ => connections s' = delete k (connections s) ∧ IdleConnections (stats s') = bump (-1) (IdleConnections (stats s))
    | inr k' => IdleConnections (stats s') = bump 1 (bump (-1) (IdleConnections (stats s))) ∧
        ∃ j o', objs s !! j = None ∧ objs s' !! j = Some o' ∧ replacement cfg o' ∧ k' = id (conn o') ∧
                connections s' = <[k' := j]> (delete k (connections s))
    end) E s.
Proof.
  intros Ho Hst. pose proof (lookup_lt_Some _ _ _ Ho) as Hlt. apply wp_bind.
  eapply wp_mono; [by apply wp_close_old| |done]. intros s1 b (-> & Hobj1 & Hc1 & Hs1 & Hh1). cbn [negb].
  assert (Hi1 : objs s1 !! i = Some (closed_object o)) by (rewrite Hobj1; by apply list_lookup_insert_eq).
  apply wp_bind. eapply wp_mono; [apply wp_createReplacement| |done].
  intros s2 [e|j] (Hc2 & Hs2 & Hh2 & Hkeep & H).
  - apply wp_ret. cbn. rewrite Hc2, Hh2, Hs2, Hs1. auto 7.
  - destruct H as (Hj & o' & Hj2 & Ho'). apply wp_bind, wp_act; [exists Tick; rewrite Hj2; eauto|].
    intros x s3 b Ef. rewrite Hj2 in Ef. injection Ef as <- <-. apply wp_bind, wp_sendEvent. intros l.
    apply wp_bind. eapply (wp_read_conn _ _ _ _ o'); [done|]. apply wp_ret. cbn.
    split_and!; [done|by apply Hkeep|congruence|by rewrite Hs2, Hs1|]. exists j, o'. split_and!; try done.
    + rewrite Hobj1 in Hj. apply lookup_ge_None in Hj. rewrite length_insert in Hj. by apply lookup_ge_None.
    + by rewrite Hc2, Hc1.
Qed.

(** C7: a rebuild, alone: it is refused, and nothing changes, unless the connection is
    idle, unused and not being rebuilt. Otherwise the old connection ends closed, its
    driver closed once, out of the pool and unmarked if the rebuild succeeded; a
    success has put a fresh connection, never used, into the pool in its place, and a
    failure leaves the pool one connection short with the old one still marked. *)
Theorem performCoreRebuild_spec s o :
  objs s !! i = Some o → id (conn o) = k → getDriverPool cfg (c_Protocol cfg) = true →
  wp (performCoreRebuild cfg merged i) (core_rebuild_post cfg s i o k) (λ _ _, False) s.
Proof.
  intros Ho Hid Hp. unfold performCoreRebuild, core_rebuild_post, rebuildable.
  apply wp_bind, (wp_read_conn _ _ _ _ o Ho). rewrite Hp, Hid. cbn [negb].
  apply wp_bind, (wp_read_conn _ _ _ _ o Ho). apply wp_bind, (wp_read_conn _ _ _ _ o Ho).
  destruct (isIdle (conn o)) eqn:Hidle; cbn [negb orb andb]; [|done].
  destruct (0 <? usingCount (conn o)) eqn:Hu; cbn [negb andb]; [done|].
  apply wp_bind, (wp_on_conn _ _ _ _ o Ho). unfold isIdle in Hidle. apply bool_decide_eq_true in Hidle.
  unfold beginRebuild. rewrite Hidle. destruct (rebuilding (conn o)) eqn:Hr; cbn [fst snd negb].
  { apply wp_ret. replace { o with conn := conn o } with o by (by destruct o). by rewrite objs_same. }
  set (o1 := { o with conn := { conn o with rebuilding := true } }).
  assert (Ho1 : objs { s with objs ::= <[i := o1]> } !! i = Some o1)
    by (apply list_lookup_insert_eq; by eapply lookup_lt_Some).
  apply wp_bind, wp_catch. eapply wp_mono; [by apply (wp_rebuild_body (λ _ _, False) _ o1)| |done].
  intros s2 [r ok] (Hok & Hi2 & Hh2 & H). cbn [fst snd] in *. subst ok. apply wp_bind, (wp_on_conn _ _ _ _ _ Hi2). apply wp_ret.
  assert (Hi3 : objs { s2 with objs ::= <[i := { closed_object o1 with conn := completeRebuild (negb (is_inl r)) (conn (closed_object o1)) }]> } !! i
                = Some (rebuilt o (negb (is_inl r)))).
  { cbn. rewrite list_lookup_insert_eq by (by eapply lookup_lt_Some). f_equal.
    unfold rebuilt, closed_object, completeRebuild, o1. destruct o as [c d n], r; cbn; destruct (markedForRebuild c) eqn:Em;
      cbn; try done; destruct c; cbn in *; by subst. }
  split; [done|]. destruct r as [e|k']; cbn [is_inl negb] in *.
  - by destruct H.
  - destruct H as (Hs & j & o' & Hj & Hj2 & Hrest). split; [done|]. split; [done|]. exists j, o'. split.
    + cbn in Hj. apply lookup_ge_None in Hj. rewrite length_insert in Hj. by apply lookup_ge_None.
    + split; [|done]. cbn. rewrite list_lookup_insert_ne; [done|]. intros ->. cbn in Hj. apply lookup_ge_None in Hj.
      rewrite length_insert in Hj. apply lookup_lt_Some in Ho. lia.
Qed.
End rebuild.

(** A pool with one idle connection. *)
Definition small_pool : Pool :=
  { NewEnhancedConnectionPool with
    objs := [mk_obj (new_connection "r1|ssh|0" 0) true 0]; connections := {["r1|ssh|0" := 0%nat]} }.

Lemma performCoreRebuild_spec_witness :
  let o := mk_obj (new_connection "r1|ssh|0" 0) true 0 in
  objs small_pool !! 0%nat = Some o ∧ id (conn o) = "r1|ssh|0" ∧
  getDriverPool one_router (c_Protocol one_router) = true ∧ rebuildable (conn o) = true ∧
  wp (performCoreRebuild one_router true 0) (core_rebuild_post one_router small_pool 0 o "r1|ssh|0") (λ _ _, False) small_pool.
Proof.
  intros o. assert (H1 : objs small_pool !! 0%nat = Some o) by reflexivity.
  assert (H2 : getDriverPool one_router (c_Protocol one_router) = true) by (vm_compute; reflexivity).
  split; [exact H1|]. split; [reflexivity|]. split; [exact H2|]. split; [reflexivity|].
  exact (performCoreRebuild_spec one_router true 0 "r1|ssh|0" small_pool o H1 eq_refl H2).
Defined.

(** ** The close of the pool *)

(** The parts of the pool that closing a connection leaves alone. *)
Definition same_pool s s' : Prop :=
  connections s' = connections s ∧ isShuttingDown s' = isShuttingDown s ∧ ctx_cancelled s' = ctx_cancelled s ∧
  chan_closed s' = chan_closed s ∧ eventChan s' = eventChan s.
Lemma same_pool_refl s : same_pool s s.
Proof. by repeat split. Qed.
Lemma same_pool_trans s1 s2 s3 : same_pool s1 s2 → same_pool s2 s3 → same_pool s1 s3.
Proof. intros (?&?&?&?&?) (?&?&?&?&?). repeat split; congruence. Qed.

(** An object nobody uses, with its driver, before and after it is closed. *)
Definition at_rest s (i : nat) : Prop :=
  ∃ o, objs s !! i = Some o ∧ has_driver o = true ∧ usingCount (conn o) = 0.
Definition shut (o o' : object) : Prop :=
  closes o' = S (closes o) ∧ healthStatus (conn o') = HealthStatusUnhealthy ∧ state (conn o') ≠ StateAcquired.

Section close.
Context (cfg : EnhancedConnectionConfig).

Lemma wp_close_one i s o :
  objs s !! i = Some o → has_driver o = true → usingCount (conn o) = 0 →
  wp (close_one cfg i) (λ s' _, same_pool s s' ∧
    ∃ o', objs s' = <[i := o']> (objs s) ∧ closes o' = S (closes o) ∧ healthStatus (conn o') = HealthStatusUnhealthy ∧
          state (conn o') = state (conn o)) (λ _ _, False) s.
Proof.
  intros Ho Hd Hu. pose proof (lookup_lt_Some _ _ _ Ho) as Hlt. unfold close_one. apply wp_catch.
  set (o1 := { o with conn := setHealthLocked (conn o) HealthStatusUnhealthy }).
  apply wp_bind, (wp_on_conn _ _ _ _ o Ho). cbn [fst snd]. set (s1 := { s with objs ::= <[i := o1]> }).
  assert (Ho1 : objs s1 !! i = Some o1) by (by apply list_lookup_insert_eq).
  apply wp_bind. unfold safeClose. apply wp_bind, (wp_on_conn _ _ _ _ o1 Ho1). cbn [fst snd].
  set (o2 := { o1 with conn := acquireUse (conn o1) }). set (s2 := { s1 with objs ::= <[i := o2]> }).
  assert (Ho2 : objs s2 !! i = Some o2) by (apply list_lookup_insert_eq; unfold s1; cbn; by rewrite length_insert).
  assert (Hn : usingCount (conn o2) = 1) by (unfold o2, o1, setHealthLocked, acquireUse; cbn; by rewrite Hu).
  unfold finally. apply wp_bind, wp_catch, wp_bind, (wp_read_conn _ _ _ _ o2 Ho2). rewrite Hn. cbn [Z.ltb Z.compare Pos.compare Pos.compare_cont].
  apply (wp_driver_Close _ _ _ _ o2 Ho2); [done|]. intros e. set (o3 := { o2 with closes ::= S }).
  assert (Ho3 : objs { s2 with objs ::= <[i := o3]> } !! i = Some o3).
  { apply list_lookup_insert_eq. unfold s2, s1. cbn. by rewrite !length_insert. }
  apply wp_bind, (wp_on_conn _ _ _ _ o3 Ho3). apply wp_ret. apply wp_bind, wp_stat. apply wp_ret.
  split; [by repeat split|]. eexists. unfold s2, s1. cbn [objs]. split; [cbn; by rewrite !list_insert_insert_eq|]. done.
Qed.

Lemma wp_close_each l errors s :
  NoDup l → (∀ i, i ∈ l → at_rest s i) →
  wp (close_each cfg l errors) (λ s' _, same_pool s s' ∧
    (∀ i, i ∉ l → objs s' !! i = objs s !! i) ∧
    ∀ i o, i ∈ l → objs s !! i = Some o → ∃ o', objs s' !! i = Some o' ∧ closes o' = S (closes o) ∧
      healthStatus (conn o') = HealthStatusUnhealthy ∧ state (conn o') = state (conn o)) (λ _ _, False) s.
Proof.
  revert errors s. induction l as [|i l IH]; intros errors s Hnd Hrest; cbn [close_each].
  { split; [apply same_pool_refl|]. split; [done|]. intros i o Hi. by apply elem_of_nil in Hi. }
  apply NoDup_cons in Hnd as [Hi Hnd]. destruct (Hrest i) as (o & Ho & Hd & Hu); [by left|].
  apply wp_bind. eapply wp_mono; [by apply (wp_close_one i s o)| |done].
  intros s1 e (Hsame & o' & Hobjs & Hcl & Hh & Hst).
  assert (Hother : ∀ j, j ≠ i → objs s1 !! j = objs s !! j) by (intros j Hj; by rewrite Hobjs, list_lookup_insert_ne).
  assert (Hself : objs s1 !! i = Some o') by (rewrite Hobjs; apply list_lookup_insert_eq; by eapply lookup_lt_Some).
  eapply wp_mono; [apply IH; [done|]| |done].
  { intros j Hj. destruct (Hrest j) as (oj & ? & ?); [by right|]. exists oj. rewrite Hother by (by intros ->). done. }
  intros s' _ (Hsame' & Hout & Hin). split; [by eapply same_pool_trans|]. split.
  - intros j [Hne Hj]%not_elem_of_cons. by rewrite Hout, Hother.
  - intros j oj [->|Hj]%elem_of_cons Hoj.
    + exists o'. rewrite Hout by done. by replace oj with o by congruence.
    + apply (Hin j oj Hj). rewrite Hother; [done|]. by intros ->.
Qed.

(** Releasing what is in use. *)
Lemma release_in_use_spec t l s :
  let s' := foldl (release_in_use t) s l in
  same_pool s s' ∧ (∀ i, i ∉ l → objs s' !! i = objs s !! i) ∧
  ∀ i o, objs s !! i = Some o → ∃ o', objs s' !! i = Some o' ∧ closes o' = closes o ∧ has_driver o' = has_driver o ∧
    usingCount (conn o') = usingCount (conn o) ∧ (i ∈ l → state (conn o') ≠ StateAcquired) ∧
    (state (conn o) ≠ StateAcquired → state (conn o') ≠ StateAcquired).
Proof.
  revert s. induction l as [|i l IH]; intros s; cbn [foldl].
  { split; [apply same_pool_refl|]. split; [done|]. intros i o Ho. exists o. split_and!; try done. by intros ?%elem_of_nil. }
  destruct (IH (release_in_use t s i)) as (H1 & H2 & H3).
  assert (Hone : same_pool s (release_in_use t s i) ∧ (∀ j, j ≠ i → objs (release_in_use t s i) !! j = objs s !! j) ∧
    ∀ o, objs s !! i = Some o → ∃ o', objs (release_in_use t s i) !! i = Some o' ∧ closes o' = closes o ∧
      has_driver o' = has_driver o ∧ usingCount (conn o') = usingCount (conn o) ∧ state (conn o') ≠ StateAcquired).
  { unfold release_in_use. destruct (objs s !! i) as [o|] eqn:Ho; [|by split; [apply same_pool_refl|]].
    unfold getState. destruct (bool_decide (state (conn o) = StateAcquired)) eqn:Ea; cbn [fst].
    - btrue. split; [by repeat split|]. split; [intros j Hj; by apply list_lookup_insert_ne|].
      intros ? [= <-]. eexists. split; [apply list_lookup_insert_eq; by eapply lookup_lt_Some|].
      cbn. unfold release, transitionStateLocked, canTransitionTo. rewrite Ea. done.
    - btrue. split; [apply same_pool_refl|]. split; [done|]. intros ? [= <-]. by exists o. }
  destruct Hone as (G1 & G2 & G3). split; [by eapply same_pool_trans|]. split.
  - intros j [Hne Hj]%not_elem_of_cons. by rewrite H2, G2.
  - intros j o Ho. destruct (decide (j = i)) as [->|Hne].
    + destruct (G3 o Ho) as (o1 & K1 & K2 & K3 & K4 & K5). destruct (H3 i o1 K1) as (o2 & L1 & L2 & L3 & L4 & L5 & L6).
      exists o2. split_and!; (congruence || auto).
    + destruct (H3 j o) as (o2 & L1 & L2 & L3 & L4 & L5 & L6); [by rewrite G2|]. exists o2. split_and!; try done.
      intros [->|?]%elem_of_cons; auto.
Qed.

Lemma members_spec ids s i : i ∈ members ids s ↔ ∃ k, k ∈ ids ∧ connections s !! k = Some i.
Proof. unfold members. by rewrite list_elem_of_omap. Qed.

Lemma members_NoDup ids s : keyed s → NoDup ids → NoDup (members ids s).
Proof.
  intros Hk. induction 1 as [|k ids Hin Hnd IH]; unfold members; simpl; [constructor|].
  destruct (connections s !! k) as [i|] eqn:Hi; [|done]. constructor; [|done].
  intros (k' & Hk' & Hi')%members_spec. apply Hk in Hi, Hi'. rewrite Hi in Hi'. by injection Hi' as ->.
Qed.

End close.

Lemma small_keyed : keyed small_pool.
Proof. intros k i Hi. cbn in Hi. apply lookup_singleton_Some in Hi as [<- <-]. reflexivity. Defined.


(** ** The workers of the warm-up *)
Section warm.
Context (cfg : EnhancedConnectionConfig).

Lemma wp_warm_attempts n s :
  wp (warm_attempts cfg n) (λ s' _,
    warm_calls s' = warm_calls s ∧ w_Failed (warmup s') = w_Failed (warmup s) ∧
    ((connections s' = connections s ∧ w_Success (warmup s') = w_Success (warmup s)) ∨
     ∃ k i, connections s' = <[k := i]> (connections s) ∧ w_Success (warmup s') = bump 1 (w_Success (warmup s))))
    (λ _ _, False) s.
Proof.
  induction n as [|n IH]; cbn [warm_attempts];
    [split; [done|]; split; [done|]; by left|]. unfold createConnection.
  do 2 apply wp_bind. apply wp_ctx_Err; [|by intros e _].
  apply wp_bind, wp_driver_call. intros [e|]; [by apply wp_ret|].
  apply wp_bind, wp_now. intros t. apply wp_bind, wp_step. cbn [fst snd new_object].
  apply wp_bind, wp_sendEvent. intros l. apply wp_ret. apply wp_bind. set (s1 := { _ with eventChan := l }).
  assert (Ho : objs s1 !! length (objs s) = Some (mk_obj (new_connection (connection_name cfg t) t) true 0)) by by apply list_lookup_middle.
  apply wp_act; [exists Tick; rewrite Ho; eauto|]. intros x s2 b Ef. rewrite Ho in Ef.
  injection Ef as <- <-. apply wp_step. split; [done|]. split; [done|]. right. by eexists _, _.
Qed.

(** A worker of the warm-up that gets the semaphore reports no error and counts a
    failure, whether its three attempts made a connection or not; a success is counted
    as well exactly when a connection went into the pool. *)
Theorem warm_one_spec n w s :
  warm_calls s !! n = Some w → (sem_len w < sem_cap w)%nat →
  wp (warm_one cfg n) (λ s' _,
    warm_calls s' = <[n := { w with errChan ::= (.++ [None])%list }]> (warm_calls s) ∧
    w_Failed (warmup s') = bump 1 (w_Failed (warmup s)) ∧
    ((connections s' = connections s ∧ w_Success (warmup s') = w_Success (warmup s)) ∨
     ∃ k i, connections s' = <[k := i]> (connections s) ∧ w_Success (warmup s') = bump 1 (w_Success (warmup s))))
    (λ _ _, False) s.
Proof.
  intros Hw Hlt. pose proof (lookup_lt_Some _ _ _ Hw) as Hn.
  assert (Hcall : ∀ (f : warm_call → option warm_call) Q s1 w1 w2, warm_calls s1 !! n = Some w1 → f w1 = Some w2 →
    Q { s1 with warm_calls ::= <[n := w2]> } () → wp (on_call n f) Q (λ _ _, False) s1).
  { intros f Q s1 w1 w2 H1 H2 HQ. apply wp_act; [exists Tick; rewrite H1, H2; eauto|].
    intros x s2 b Ef. rewrite H1, H2 in Ef. by injection Ef as <- <-. }
  unfold warm_one, finally, acquire_sem, push_result, release_sem.
  apply wp_bind. eapply Hcall; [exact Hw|by rewrite (proj2 (Nat.ltb_lt _ _) Hlt)|].
  apply wp_bind, wp_catch, wp_bind. eapply wp_mono; [apply wp_warm_attempts| |done].
  intros s1 _ (H1 & H2 & H3). apply wp_bind. eapply Hcall; [rewrite H1; by apply list_lookup_insert_eq|done|].
  apply wp_step. apply wp_bind. eapply Hcall.
  { cbn. rewrite H1. cbn. apply list_lookup_insert_eq. by rewrite !length_insert. }
  { done. }
  apply wp_ret. cbn. rewrite H1. cbn. rewrite !list_insert_insert_eq, H2. split; [by destruct w|]. by auto.
Qed.
End warm.

Lemma warm_one_spec_witness :
  let w := mk_call 1 0 [] in
  let s := { NewEnhancedConnectionPool with warm_calls := [w] } in
  warm_calls s !! 0%nat = Some w ∧ (sem_len w < sem_cap w)%nat ∧
  wp (warm_one one_router 0) (λ s' _,
    warm_calls s' = [mk_call 1 0 [None]] ∧ w_Failed (warmup s') = 1 ∧
    ((connections s' = ∅ ∧ w_Success (warmup s') = 0) ∨
     ∃ k i, connections s' = <[k := i]> ∅ ∧ w_Success (warmup s') = bump 1 0)) (λ _ _, False) s.
Proof.
  intros w s. assert (Hw : warm_calls s !! 0%nat = Some w) by reflexivity.
  assert (Hlt : (sem_len w < sem_cap w)%nat) by (simpl; lia).
  split; [exact Hw|]. split; [exact Hlt|]. exact (warm_one_spec one_router 0 w s Hw Hlt).
Defined.
