(* ===== verification/PoolBatch.v ===== *)
(** * PoolBatch: the rebuild of many connections ([src/connection/pool_enhanced.go])

    [RebuildConnectionByProto] hands the marked connections to a few workers over a
    channel, in batches with a pause between them, waits for the workers and counts
    their results. The connections are numbers here. A worker's call of
    [RebuildConnectionByID] ([PoolTasks]) is one action whose answer is a result or
    an error of it; the times of the results are left out. *)
From S2P Require Import Prelude GoStrings Conc Config.
Local Open Scope string_scope.
Local Open Scope Z_scope.

Record RebuildResult := mk_result { OldConn : nat; Success : bool; NewConnID : string; Reason : string; Error : string }.

Record BatchRebuildResult := mk_batch {
  Total : Z;
  Successes : Z;
  Failed : Z;
  Results : list RebuildResult;
  Errors : list string }.

(** [running] is the wait group, [answer] what the call returns in the end. *)
Record Batch := mk_state {
  tasks : list nat;
  tasks_closed : bool;
  results : list RebuildResult;
  running : nat;
  cancelled : bool;
  answer : option (BatchRebuildResult * option string) }.

(** The answers of the environment: a step, a look at [ctx.Done()] in a [select],
    that the context is not cancelled after all, and the outcome of
    [RebuildConnectionByID] with the reason of the connection. *)
Inductive env :=
  | Tick
  | SeeDone
  | Keep
  | Rebuilt (r : string + option (bool * string * string)) (reason : string).

Abbreviation prog := (Conc.prog Batch env).

Definition step {B} (f : Batch → option (Batch * B)) : prog B :=
  act (λ s x, match x with Tick => f s | _ => None end).

Section batch.
(** The connections that are marked, how an identifier is shown, and what
    [ctx.Err()] says when the context has ended. *)
Context (conns : list nat) (show_id : nat → string) (ctx_error : string) (cfg : EnhancedConnectionConfig).

Definition capacity : nat := length conns.
Definition concurrency : Z := if RebuildConcurrency cfg <=? 0 then 3 else RebuildConcurrency cfg.
Definition batchSize : Z := if RebuildBatchSize cfg <=? 0 then 5 else RebuildBatchSize cfg.
Definition workerCount : nat := Nat.min (Z.to_nat concurrency) capacity.

(** ** The workers *)

(** [conn := <-taskChan]; [None] when the channel is closed and empty. *)
Definition receive : prog (option nat) :=
  step (λ s, match tasks s with
             | c :: l => Some ({ s with tasks := l }, Some c)
             | [] => if tasks_closed s then Some (s, None) else None
             end).
Definition push (r : RebuildResult) : prog unit :=
  step (λ s, if (length (results s) <? capacity)%nat then Some ({ s with results ::= (.++ [r])%list }, ()) else None).
Definition is_cancelled : prog bool := step (λ s, Some (s, cancelled s)).
Definition wg_done : prog unit := step (λ s, Some ({ s with running ::= pred }, ())).

(** What a worker reports of the answer of [RebuildConnectionByID]. *)
Definition report (c : nat) (r : string + option (bool * string * string)) (reason : string) : RebuildResult :=
  match r with
  | inl e => mk_result c false "" reason e
  | inr (Some (ok, new, reason')) => mk_result c ok new (if String.eqb reason' "" then reason else reason') ""
  | inr None => mk_result c false "" reason "internal error: nil result without error"
  end.
Definition rebuild (c : nat) : prog RebuildResult :=
  act (λ s x, match x with Rebuilt r reason => Some (s, report c r reason) | _ => None end).

(** A worker receives at most as many connections as there are. *)
Fixpoint worker (n : nat) : prog unit :=
  got ← receive;
  match got with
  | None => wg_done
  | Some c =>
      match n with
      | O => Crash "more tasks than connections"
      | S n =>
          done ← is_cancelled;
          if done : bool then push (mk_result c false "" "" ctx_error);; wg_done
          else r ← rebuild c; push r;; worker n
      end
  end.

(** ** The distribution *)

Fixpoint chunks (fuel : nat) (b : nat) (l : list nat) : list (list nat) :=
  match fuel, l with
  | S fuel, _ :: _ => take b l :: chunks fuel b (drop b l)
  | _, _ => []
  end.

(** A [select] with the end of the context; [true] when that case is taken. *)
Definition or_done (f : Batch → option Batch) : prog bool :=
  act (λ s x, match x with
              | Tick => (λ s, (s, false)) <$> f s
              | SeeDone => if cancelled s then Some (s, true) else None
              | _ => None
              end).
Definition send (c : nat) : prog bool :=
  or_done (λ s, if (length (tasks s) <? capacity)%nat then Some { s with tasks ::= (.++ [c])%list } else None).
Definition pause : prog bool := or_done Some.

Fixpoint send_all (l : list nat) : prog bool :=
  match l with
  | [] => mret false
  | c :: l => stop ← send c; if stop : bool then mret true else send_all l
  end.
Fixpoint distribute (l : list (list nat)) : prog unit :=
  match l with
  | [] => mret ()
  | batch :: l =>
      stop ← send_all batch;
      if stop : bool then mret ()
      else match l with
           | [] => mret ()
           | _ => stop ← pause; if stop : bool then mret () else distribute l
           end
  end.

(** ** The whole call *)

Definition failures (rs : list RebuildResult) : list RebuildResult := List.filter (λ r, negb (Success r)) rs.
Definition batch_result (rs : list RebuildResult) : BatchRebuildResult * option string :=
  let successes := List.filter Success rs in
  let errors := (λ r, "connection " +:+ show_id (OldConn r) +:+ ": " +:+ Error r) <$>
                  List.filter (λ r, negb (String.eqb (Error r) "")) (failures rs) in
  let failed := negb (length (failures rs) =? 0)%nat in
  (mk_batch (Z.of_nat capacity) (Z.of_nat (length successes)) (Z.of_nat (length (failures rs))) rs
            (if failed then errors else []),
   if failed && (length successes =? 0)%nat then Some ("all rebuilds failed: " +:+ String.concat "; " errors) else None).

Definition main : prog unit :=
  distribute (chunks capacity (Z.to_nat batchSize) conns);;
  step (λ s, Some ({ s with tasks_closed := true }, ()));;
  step (λ s, if (running s =? 0)%nat then Some (s, ()) else None);;
  step (λ s, Some ({ s with answer := Some (batch_result (results s)) }, ())).

(** Somebody cancels the context at some time, or not. *)
Definition canceller : prog unit :=
  act (λ s x, match x with Tick => Some ({ s with cancelled := true }, ()) | Keep => Some (s, ()) | _ => None end).

Definition start : Batch := mk_state [] false [] workerCount false None.
Definition threads : list (prog unit) := main :: canceller :: replicate workerCount (worker capacity).

(** ** What the goroutines hold *)

Inductive right := Item (c : nat) | Worker | Dispatcher | Unanswered.
Abbreviation occ := (count_occ Nat.eq_dec).

(** The connections on their way, in the channel or done. *)
Definition pending (s : Batch) : list nat := (tasks s ++ (OldConn <$> results s))%list.

Definition amount (k : right) (s : Batch) : nat :=
  match k with
  | Item c => if bool_decide (c ∈ conns) then 1 - occ (pending s) c else 0
  | Worker => running s
  | Dispatcher => if tasks_closed s then 0 else 1
  | Unanswered => match answer s with None => 1 | Some _ => 0 end
  end.
Definition exact (k : right) (s : Batch) : Prop := match k with Item _ => cancelled s = false | _ => True end.
Definition rank (k : right) : nat := match k with Item _ | Unanswered => 0 | Worker => 1 | Dispatcher => 2 end.

Definition no_work (s : Batch) : Prop := tasks_closed s = true ∧ tasks s = [].
Record rest (s : Batch) : Prop := {
  rest_running : (running s <= workerCount)%nat;
  rest_left : cancelled s = false → (running s < workerCount)%nat → no_work s;
  rest_answer a : answer s = Some a → running s = 0%nat ∧ a = batch_result (results s) }.
Record I (s : Batch) : Prop := {
  I_once : NoDup (pending s);
  I_conns : pending s ⊆ conns;
  I_rest : rest s }.
Record grows (s s' : Batch) : Prop := {
  g_cancelled : cancelled s = true → cancelled s' = true;
  g_closed : tasks_closed s = true → tasks_closed s' = true ∧ (length (tasks s') <= length (tasks s))%nat;
  g_results : (length (results s) <= length (results s'))%nat;
  g_running : (running s' <= running s)%nat }.
#[local] Instance grows_preorder : PreOrder grows.
Proof.
  split.
  - intros s. by split.
  - intros s1 s2 s3 [A1 B1 C1 D1] [A2 B2 C2 D2]. split; [auto| |lia..]. intros H. destruct (B1 H) as [H1 H2], (B2 H1). split; [done|lia].
Qed.

Definition h (l : list nat) (w d u : nat) : right → nat :=
  λ k, match k with Item c => occ l c | Worker => w | Dispatcher => d | Unanswered => u end.
Definition T {A} (n : right → nat) (s0 : Batch) (p : prog A) (Q : (right → nat) → Batch → A → Prop) : Prop :=
  owns (λ _, False) I grows amount exact rank n s0 p Q.

Lemma occ_app l1 l2 c : occ (l1 ++ l2)%list c = (occ l1 c + occ l2 c)%nat.
Proof. apply count_occ_app. Qed.
Lemma NoDup_occ (l : list nat) : NoDup l ↔ ∀ c, (occ l c <= 1)%nat.
Proof. rewrite NoDup_ListNoDup. apply (NoDup_count_occ Nat.eq_dec). Qed.
Lemma occ_pos (l : list nat) c : c ∈ l ↔ (0 < occ l c)%nat.
Proof. rewrite list_elem_of_In. apply (count_occ_In Nat.eq_dec). Qed.
Lemma occ_perm l1 l2 c : l1 ≡ₚ l2 → occ l1 c = occ l2 c.
Proof. intros H. by apply (Permutation_count_occ Nat.eq_dec). Qed.

Lemma amount_item s c : I s → (amount (Item c) s + occ (pending s) c = if bool_decide (c ∈ conns) then 1 else 0)%nat.
Proof.
  intros [Hn Hc _]. simpl. case_bool_decide as Hin.
  - pose proof (proj1 (NoDup_occ _) Hn c). lia.
  - destruct (decide (0 < occ (pending s) c)%nat) as [Hp|]; [|lia]. by apply occ_pos, Hc in Hp.
Qed.

Lemma held_items s l w d u : I s → held amount (h l w d u) s → NoDup (pending s ++ l) ∧ (pending s ++ l)%list ⊆ conns.
Proof.
  intros Hs Hh. assert (Hle : ∀ c, (occ (pending s ++ l)%list c <= if bool_decide (c ∈ conns) then 1 else 0)%nat).
  { intros c. rewrite occ_app, <- (amount_item s c Hs). specialize (Hh (Item c)). cbn [h] in Hh. lia. }
  split.
  - apply NoDup_occ. intros c. etrans; [apply Hle|]. case_bool_decide; lia.
  - intros c Hc%occ_pos. specialize (Hle c). case_bool_decide; [done|lia].
Qed.

(** A change that hands rights over without losing any. *)
Definition handed (l : list nat) (w d u : nat) (s s' : Batch) (Q : (right → nat) → Prop) : Prop :=
  grows s s' ∧ rest s' ∧ cancelled s' = cancelled s ∧ ∃ l' w' d' u',
    (pending s' ++ l')%list ≡ₚ (pending s ++ l)%list ∧ (running s + w' = running s' + w)%nat ∧
    (amount Dispatcher s + d' = amount Dispatcher s' + d)%nat ∧
    (amount Unanswered s + u' = amount Unanswered s' + u)%nat ∧ Q (h l' w' d' u').

Lemma handed_owned l w d u s s' Q :
  I s → held amount (h l w d u) s → handed l w d u s s' Q →
  I s' ∧ grows s s' ∧ ∃ n', (∀ i, amount i s + n' i ≤ amount i s' + h l w d u i)%nat ∧
    (∀ i, exact i s' → exact i s ∧ amount i s + n' i = amount i s' + h l w d u i)%nat ∧ Q n'.
Proof.
  intros Hs Hh (Hg' & Hr & Hc & l' & w' & d' & u' & Hperm & Hw & Hd & Hu & HQ).
  destruct (held_items s l w d u Hs Hh) as [Hn Hin]. rewrite <- Hperm in Hn, Hin.
  assert (Hs' : I s'). { split; [by apply NoDup_app in Hn as [? _]|set_solver|done]. }
  split; [done|]. split; [done|]. exists (h l' w' d' u').
  assert (He : ∀ i, (amount i s + h l' w' d' u' i = amount i s' + h l w d u i)%nat).
  { intros [c| | |]; [|exact Hw|exact Hd|exact Hu]. cbn [h]. pose proof (amount_item s c Hs). pose proof (amount_item s' c Hs').
    apply (occ_perm _ _ c) in Hperm. rewrite !occ_app in Hperm. lia. }
  split; [intros i; rewrite (He i); lia|]. split; [|exact HQ]. intros i Hi. split; [|by rewrite He].
  destruct i; [|done..]. simpl in *. congruence.
Qed.

Lemma T_step {B} l w d u s0 (f : Batch → option (Batch * B)) (Q : (right → nat) → Batch → B → Prop) :
  (∀ s, grows s0 s → I s → held amount (h l w d u) s → (∃ r, f s = Some r) ∨ waits amount exact rank (h l w d u) s) →
  (∀ s s' b, grows s0 s → I s → held amount (h l w d u) s → f s = Some (s', b) → handed l w d u s s' (λ n, Q n s' b)) →
  T (h l w d u) s0 (step f) Q.
Proof.
  intros Hp Hf. split.
  - intros s Hg Hs Hh. destruct (Hp s Hg Hs Hh) as [[r Hr]|]; [left; by exists Tick, r|by right].
  - intros s x s' b Hg Hs Hh E. destruct x; try done. by apply (handed_owned _ _ _ _ _ _ _ Hs Hh), Hf.
Qed.

(** A step that looks only. *)
Lemma T_look {B} n s0 (f : Batch → env → option (Batch * B)) (Q : (right → nat) → Batch → B → Prop) :
  (∀ s, grows s0 s → ∃ x r, f s x = Some r) →
  (∀ s x s' b, grows s0 s → f s x = Some (s', b) → s' = s ∧ Q n s b) →
  T n s0 (act f) Q.
Proof.
  intros He Hf. split; [intros s Hg _ _; left; by apply He|]. intros s x s' b Hg Hs Hh E.
  destruct (Hf s x s' b Hg E) as [-> HQ]. split; [done|]. split; [done|]. exists n. split_and!; [lia|done|done].
Qed.

Lemma items_room s l w d u : I s → held amount (h l w d u) s → (length (tasks s) + length (results s) + length l <= capacity)%nat.
Proof.
  intros Hs Hh. destruct (held_items s l w d u Hs Hh) as [Hn Hin].
  assert (Hl : (length (pending s ++ l) <= length conns)%nat) by (by apply submseteq_length, NoDup_submseteq).
  unfold pending in Hl. rewrite !length_app, length_fmap in Hl. unfold capacity. lia.
Qed.

(** ** The workers *)
Lemma T_push r s0 (Q : (right → nat) → Batch → unit → Prop) :
  (∀ s, grows s0 s → (length (results s0) < length (results s))%nat → Q (h [] 1 0 0) s ()) →
  T (h [OldConn r] 1 0 0) s0 (push r) Q.
Proof.
  intros HQ. apply T_step.
  - intros s _ Hs Hh. left. pose proof (items_room _ _ _ _ _ Hs Hh) as Hl. simpl in Hl.
    destruct (Nat.ltb_spec (length (results s)) capacity); [eauto|lia].
  - intros s s' b Hg Hs Hh E. destruct (_ <? _)%nat; [|done]. injection E as <- <-.
    assert (Hg' : grows s { s with results ::= (.++ [r])%list }) by (split; simpl; rewrite ?length_app; auto with lia).
    split; [done|]. split.
    + destruct (I_rest s Hs) as [H1 H2 H3]. split; simpl; [done|done|]. intros a Ha. apply H3 in Ha as [Ha _].
      specialize (Hh Worker). simpl in Hh. lia.
    + split; [done|]. exists [], 1%nat, 0%nat, 0%nat. split_and!; [|done..|].
      * unfold pending. simpl. rewrite fmap_app, app_nil_r, <- app_assoc. done.
      * apply HQ; [by etrans|]. pose proof (g_results _ _ Hg). simpl. rewrite length_app. simpl. lia.
Qed.

Lemma T_wg_done s0 :
  cancelled s0 = true ∨ no_work s0 → T (h [] 1 0 0) s0 wg_done (λ n _ _, n = h [] 0 0 0).
Proof.
  intros Hend. apply T_step; [eauto|]. intros s s' b Hg Hs Hh E. injection E as <- <-.
  specialize (Hh Worker). simpl in Hh. split; [split; simpl; auto with lia|]. split.
  - destruct (I_rest s Hs) as [H1 H2 H3]. split; simpl; [lia| |].
    + intros Hc _. destruct Hend as [Hc0|[Ht0 Hl0]].
      * apply (g_cancelled _ _ Hg) in Hc0. congruence.
      * apply (g_closed _ _ Hg) in Ht0 as [Ht Hl]. split; [done|]. simpl. rewrite Hl0 in Hl. simpl in Hl. by destruct (tasks s); [|simpl in Hl; lia].
    + intros a Ha. apply H3 in Ha as [Ha _]. lia.
  - split; [done|]. exists [], 0%nat, 0%nat, 0%nat. simpl. split_and!; [done|lia|lia|lia|done].
Qed.

Lemma T_receive s0 (Q : (right → nat) → Batch → option nat → Prop) :
  (∀ s c, grows s0 s → (length (results s) < capacity)%nat → Q (h [c] 1 0 0) s (Some c)) →
  (∀ s, grows s0 s → no_work s → Q (h [] 1 0 0) s None) →
  T (h [] 1 0 0) s0 receive Q.
Proof.
  intros Hsome Hnone. apply T_step.
  - intros s _ _ _. destruct (tasks s) as [|c l]; [|eauto]. destruct (tasks_closed s) eqn:Ec; [eauto|]. right.
    exists Dispatcher. simpl. rewrite Ec. split_and!; [done|lia|lia|]. intros []; simpl; lia.
  - intros s s' b Hg Hs Hh E. pose proof (items_room _ _ _ _ _ Hs Hh) as Hl. destruct (I_rest s Hs) as [H1 H2 H3].
    destruct (tasks s) as [|c l] eqn:Et.
    + destruct (tasks_closed s) eqn:Ec; [|done]. injection E as <- <-. split; [done|]. split; [by split|]. split; [done|].
      exists [], 1%nat, 0%nat, 0%nat. split_and!; [done..|]. by apply Hnone.
    + injection E as <- <-. assert (Hg' : grows s { s with tasks := l }) by (split; simpl; rewrite ?Et; simpl; auto with lia).
      split; [done|]. split; [|split; [done|]].
      * split; simpl; [done| |done]. intros Hc Hr. destruct (H2 Hc Hr) as [_ Hnil]. congruence.
      * exists [c], 1%nat, 0%nat, 0%nat. split_and!; [|done..|].
        -- unfold pending. simpl. rewrite Et, app_nil_r. simpl. by rewrite Permutation_app_comm.
        -- apply Hsome; [by etrans|]. simpl in *. lia.
Qed.

Lemma T_worker n s0 :
  (capacity <= length (results s0) + n)%nat → T (h [] 1 0 0) s0 (worker n) (λ n _ _, n = h [] 0 0 0).
Proof.
  revert s0. induction n as [|n IH]; intros s0 Hn; cbn [worker]; apply owns_bind, T_receive.
  - intros s c Hg Hl s1 Hg1. pose proof (g_results _ _ Hg). lia.
  - intros s Hg Hw. apply T_wg_done. by right.
  - intros s c Hg Hl. apply owns_bind, T_look; [intros s1 _; exists Tick; eauto|]. intros s1 x s' b Hg1 E.
    destruct x; try done. injection E as <- <-. split; [done|]. destruct (cancelled s1) eqn:Ec.
    + apply owns_bind, (T_push (mk_result c false "" "" ctx_error)). intros s2 Hg2 _. apply T_wg_done. left.
      by apply (g_cancelled _ _ Hg2).
    + apply owns_bind, T_look; [intros s2 _; exists (Rebuilt (inl "") ""); eauto|]. intros s2 x s' b Hg2 E.
      destruct x as [| | |r reason]; try done. injection E as <- <-. split; [done|].
      assert (Hr : OldConn (report c r reason) = c) by (by destruct r as [|[[[]]|]]).
      pose proof (T_push (report c r reason)) as Hp. rewrite Hr in Hp. apply owns_bind, Hp.
      intros s3 Hg3 Hl3. apply IH. pose proof (g_results _ _ Hg). pose proof (g_results _ _ Hg1). pose proof (g_results _ _ Hg2). lia.
  - intros s Hg Hw. apply T_wg_done. by right.
Qed.

(** ** The distributor *)

(** When the distributor sees the end of the context, it forgets what is left. *)
Lemma T_or_done l s0 (f : Batch → option Batch) (Q : (right → nat) → Batch → bool → Prop) :
  (∀ s, grows s0 s → I s → held amount (h l 0 1 1) s → ∃ s', f s = Some s' ∧ handed l 0 1 1 s s' (λ n, Q n s' false)) →
  (∀ s, grows s0 s → Q (h [] 0 1 1) s true) →
  T (h l 0 1 1) s0 (or_done f) Q.
Proof.
  intros Hf Hd. split.
  - intros s Hg Hs Hh. destruct (Hf s Hg Hs Hh) as (s' & E & _). left. exists Tick. rewrite E. by eexists.
  - intros s x s' b Hg Hs Hh E. destruct x; [| |done..].
    + destruct (Hf s Hg Hs Hh) as (s2 & E2 & Hx). rewrite E2 in E. injection E as <- <-. by apply (handed_owned _ _ _ _ _ _ _ Hs Hh).
    + destruct (cancelled s) eqn:Ec; [|done]. injection E as <- <-. split; [done|]. split; [done|]. exists (h [] 0 1 1).
      split_and!; [intros []; simpl; lia| |by apply Hd]. intros [] Hi; simpl in *; [congruence|lia..].
Qed.

Lemma T_send c l s0 (Q : (right → nat) → Batch → bool → Prop) :
  (∀ s, Q (h l 0 1 1) s false) → (∀ s, Q (h [] 0 1 1) s true) → T (h (c :: l) 0 1 1) s0 (send c) Q.
Proof.
  intros H1 H2. apply T_or_done; [|by intros]. intros s Hg Hs Hh. pose proof (items_room _ _ _ _ _ Hs Hh) as Hl. simpl in Hl.
  destruct (Nat.ltb_spec (length (tasks s)) capacity); [|lia]. eexists. split; [done|].
  destruct (I_rest s Hs) as [R1 R2 R3]. specialize (Hh Dispatcher). simpl in Hh.
  assert (Ho : tasks_closed s = false) by (destruct (tasks_closed s); [lia|done]).
  split; [split; simpl; [done|by rewrite Ho|lia..]|]. split; [|split; [done|]].
  - split; simpl; [done| |done]. intros Hc Hr. destruct (R2 Hc Hr). congruence.
  - exists l, 0%nat, 1%nat, 1%nat. simpl. split_and!; [|lia|lia|lia|done]. unfold pending. simpl. rewrite <- !app_assoc. simpl.
    apply Permutation_app_head. by rewrite Permutation_middle.
Qed.
Lemma T_pause l s0 (Q : (right → nat) → Batch → bool → Prop) :
  (∀ s, Q (h l 0 1 1) s false) → (∀ s, Q (h [] 0 1 1) s true) → T (h l 0 1 1) s0 pause Q.
Proof.
  intros H1 H2. apply T_or_done; [|by intros]. intros s Hg Hs Hh. eexists. split; [done|]. split; [done|].
  split; [by apply I_rest|]. split; [done|]. exists l, 0%nat, 1%nat, 1%nat. split_and!; [done..|]. by apply H1.
Qed.

Lemma T_send_all batch l s0 (Q : (right → nat) → Batch → bool → Prop) :
  (∀ s, Q (h l 0 1 1) s false) → (∀ s, Q (h [] 0 1 1) s true) → T (h (batch ++ l) 0 1 1) s0 (send_all batch) Q.
Proof.
  intros H1 H2. revert s0. induction batch as [|c batch IH]; intros s0; [apply H1|]. cbn [send_all app].
  apply owns_bind, T_send; intros s; [apply IH|apply H2].
Qed.

Lemma T_distribute ls s0 : T (h (concat ls) 0 1 1) s0 (distribute ls) (λ n _ _, n = h [] 0 1 1).
Proof.
  revert s0. induction ls as [|b ls IH]; intros s0; cbn [distribute concat]; [done|].
  apply owns_bind, T_send_all; intros s; [|done]. destruct ls as [|b' ls]; [done|].
  apply owns_bind, T_pause; intros s1; [apply IH|done].
Qed.

Lemma concat_chunks fuel b l : (0 < b)%nat → (length l <= fuel)%nat → concat (chunks fuel b l) = l.
Proof.
  intros Hb. revert l. induction fuel as [|fuel IH]; intros l Hl; [by destruct l; [|simpl in Hl; lia]|].
  destruct l as [|c l]; [done|]. cbn [chunks concat]. rewrite IH; [apply take_drop|]. rewrite length_drop. simpl in *. lia.
Qed.

Lemma T_main s0 : T (h conns 0 1 1) s0 main (λ n _ _, n = h [] 0 0 0).
Proof.
  unfold main. apply owns_bind. rewrite <- (concat_chunks capacity (Z.to_nat batchSize) conns) at 1; [| |done].
  2: { unfold batchSize. destruct (Z.leb_spec (RebuildBatchSize cfg) 0); lia. }
  eapply owns_mono; [apply T_distribute|]. intros n s _ ->. apply owns_bind, T_step; [eauto|].
  intros s1 s2 b Hg Hs Hh E. injection E as <- <-. destruct (I_rest s1 Hs) as [R1 R2 R3].
  pose proof (Hh Dispatcher) as Hd. simpl in Hd. destruct (tasks_closed s1) eqn:Ec; [lia|].
  split; [by split; simpl; [|rewrite Ec| |]|]. split; [|split; [done|]].
  { split; simpl; [done| |done]. intros H1 H2. destruct (R2 H1 H2) as [? _]. congruence. }
  exists [], 0%nat, 0%nat, 1%nat. do 2 (split; [done|]). split; [simpl; by rewrite Ec|]. split; [done|].
  apply owns_bind, T_step.
  { intros s3 _ _ _. destruct (Nat.eqb_spec (running s3) 0) as [|Hr]; [eauto|]. right. exists Worker. simpl.
    split_and!; [done|lia|lia|]. intros []; simpl; lia. }
  intros s3 s4 b Hg3 Hs3 Hh3 E. destruct (Nat.eqb_spec (running s3) 0) as [Hr|]; [|done]. injection E as <- <-.
  split; [done|]. split; [by apply I_rest|]. split; [done|]. exists [], 0%nat, 0%nat, 1%nat. do 4 (split; [done|]).
  apply T_step; [eauto|]. intros s5 s6 b Hg5 Hs5 Hh5 E. injection E as <- <-. pose proof (g_running _ _ Hg5) as Hr5.
  pose proof (Hh5 Unanswered) as Hu. simpl in Hu. destruct (I_rest s5 Hs5) as [R1' R2' R3'].
  split; [by split|]. split; [|split; [done|]].
  - split; simpl; [done|done|]. intros a [= <-]. split; [lia|done].
  - exists [], 0%nat, 0%nat, 0%nat. simpl. do 3 (split; [done|]). split; [|done]. destruct (answer s5); [lia|done].
Qed.

Lemma T_canceller s0 : T (h [] 0 0 0) s0 canceller (λ n _ _, n = h [] 0 0 0).
Proof.
  split; [intros s _ _ _; left; exists Tick; by eexists|]. intros s x s' b Hg Hs Hh E.
  assert (H : s' = s ∨ s' = { s with cancelled := true }) by (destruct x; try done; injection E; auto).
  destruct b, H as [->| ->]; (split; [|split; [|exists (h [] 0 0 0); split_and!]]); try done.
  - destruct Hs as [H1 H2 [R1 R2 R3]]. by split.
  - intros [] Hi; [done|by split..].
Qed.

(** ** All of them together *)

Lemma start_I : I start.
Proof. split; [constructor|set_solver|]. split; simpl; [done|lia|done]. Qed.

Definition held_at_start : list (right → nat) := h conns 0 1 1 :: h [] 0 0 0 :: replicate workerCount (h [] 1 0 0).
Lemma threads_well : well (λ _, False) I grows amount exact rank start held_at_start threads.
Proof.
  constructor; [|constructor; [|]].
  - exists start. split; [done|]. eapply owns_mono; [apply T_main|]. intros n x _ -> [] y _; simpl; done.
  - exists start. split; [done|]. eapply owns_mono; [apply T_canceller|]. intros n x _ -> [] y _; simpl; done.
  - apply Forall2_replicate. exists start. split; [done|]. eapply owns_mono; [apply (T_worker capacity); lia|].
    intros n x _ -> [] y _; simpl; done.
Qed.

Lemma start_held : NoDup conns → rights_held amount exact held_at_start start.
Proof.
  intros Hn. assert (Hrep : ∀ n x, sum_list (replicate n x) = (n * x)%nat) by (induction n; intros; simpl; [done|by rewrite IHn]).
  assert (He : ∀ i, total held_at_start i = amount i start).
  { intros i. unfold total, held_at_start. cbn [fmap list_fmap sum_list]. rewrite fmap_replicate, Hrep.
    destruct i as [c| | |]; simpl; [|lia..]. case_bool_decide as Hc.
    - apply occ_pos in Hc. pose proof (proj1 (NoDup_occ _) Hn c). lia.
    - rewrite occ_pos in Hc. lia. }
  intros i. by rewrite He.
Qed.

Lemma filter_counts {A} (f : A → bool) (l : list A) :
  (length (List.filter f l) + length (List.filter (λ x, negb (f x)) l) = length l)%nat.
Proof. induction l as [|x l IH]; simpl; [done|]. destruct (f x); simpl; lia. Qed.

End batch.

(** Three connections, two workers and batches of two; the second connection cannot be
    rebuilt, and nobody cancels. *)
Definition two_workers : EnhancedConnectionConfig := { NewConfigBuilder with RebuildConcurrency := 2; RebuildBatchSize := 2 }.
Definition show_number (n : nat) : string := pretty.pretty n.
Definition choose (t : nat) (_ : Batch) : list env :=
  match t with 0%nat => [Tick] | 1%nat => [Keep] | 2%nat => [Rebuilt (inr (Some (true, "new", ""))) "age"] | _ => [Rebuilt (inl "no route") "age"] end.

