(* ===== verification/PoolRebuild.v ===== *)
(** * PoolRebuild: which connections are rebuilt, and when
    ([src/connection/pool_enhanced.go], [src/connection/rebuild_manager.go])

    The selection at the start of [RebuildConnectionByProto], whose connections
    [PoolBatch] then rebuilds; the sum over the protocols in [RebuildConnections]; the
    asynchronous rebuild of one connection; the tasks that the pool starts with their
    tickers; the texts of the events; the merging of contexts. *)
From S2P Require Import Prelude GoStrings GoFloat GoContext Conc Types Config ConnState Rebuild Pool PoolTasks PoolSafety PoolSpec PoolCare.
From S2P Require PoolBatch.
Local Open Scope string_scope.
Local Open Scope Z_scope.
Implicit Types (s : Pool) (c : EnhancedPooledConnection).

Section selection.
Context (show_duration : Z → string) (show_rate : float64 → string) (cfg : EnhancedConnectionConfig).

(** The pools are those of the registered protocols. *)
Definition getAllProtocols : list string := if getDriverPool cfg (c_Protocol cfg) then [c_Protocol cfg] else [].

Definition getAllConnectionsByProto (proto : string) : prog (list nat) :=
  if negb (getDriverPool cfg proto) then mret [] else ids ← connection_keys; read (members ids).

Fixpoint marked_among (l : list nat) : prog (list nat) :=
  match l with
  | [] => mret []
  | i :: l =>
      marked ← read_conn i markedForRebuild;
      rest ← marked_among l;
      mret (if marked : bool then i :: rest else rest)
  end.
Definition getConnectionsForRebuild (proto : string) : prog (list nat) :=
  if negb (getDriverPool cfg proto) then mret [] else ids ← connection_keys; l ← read (members ids); marked_among l.

(** [ShouldRebuild] with the event of a new mark; the reads of the evaluation are one
    action here. *)
Definition should_rebuild (i : nat) : prog bool :=
  '(before, marked) ← on_conn_at i (λ t c, let '(c', ok) := ShouldRebuild show_duration show_rate cfg t c in (c', (markedForRebuild c, ok)));
  if negb before && marked then rm_sendEvent EventRebuildMarked;; mret true else mret marked.
Fixpoint evaluate_each (l : list nat) : prog unit :=
  match l with [] => mret () | i :: l => should_rebuild i;; evaluate_each l end.

(** The start of [RebuildConnectionByProto]. *)
Definition invalid_state (msg : string) : RebuildError := mk_rebuild_error RebuildErrorCodeInvalidState false [msg].
Definition marked_connections (proto : string) : prog (RebuildError + list nat) :=
  if String.eqb proto "" then mret (inl (invalid_state "the protocol is empty"))
  else if negb (getDriverPool cfg proto) then mret (inl (invalid_state ("unsupported protocol: " +:+ proto)))
  else
    (if SmartRebuildEnabled cfg then all ← getAllConnectionsByProto proto; evaluate_each all else mret ());;
    l ← getConnectionsForRebuild proto; mret (inr l).

(** ** What is selected *)

(** When an unmarked connection is due. *)
Definition due (t : Z) c : bool :=
  SmartRebuildEnabled cfg && bool_decide (state c = StateIdle) && negb (rebuilding c) &&
  (RebuildMinInterval cfg <=? time_sub t (default (createdAt c) (lastRebuiltAt c))) && strategy_met cfg t c.

Lemma ShouldRebuild_due t c :
  (ShouldRebuild show_duration show_rate cfg t c).2 = markedForRebuild c || due t c ∧
  (due t c = false ∨ markedForRebuild c = true → (ShouldRebuild show_duration show_rate cfg t c).1 = c) ∧
  markedForRebuild (ShouldRebuild show_duration show_rate cfg t c).1 = markedForRebuild c || due t c ∧
  ∃ r, (ShouldRebuild show_duration show_rate cfg t c).1 = { c with markedForRebuild := markedForRebuild c || due t c; rebuildReason := r }.
Proof.
  unfold ShouldRebuild. destruct (markedForRebuild c) eqn:Em.
  { do 3 (split; [done|]). exists (rebuildReason c). destruct c. simpl in *. by subst. }
  unfold EvaluateAndMark, checkRebuildEnabled, checkRebuildInterval, checkConnectionState, isIdle, due. rewrite Em.
  destruct (SmartRebuildEnabled cfg); simpl; [|by split_and!; [..|exists (rebuildReason c); destruct c; simpl in *; subst]].
  rewrite Z.leb_antisym. destruct (_ <? RebuildMinInterval cfg); simpl.
  { rewrite andb_false_r. split_and!; [done..|]. exists (rebuildReason c). destruct c. simpl in *. by subst. }
  destruct (state c) eqn:Es; simpl; try (split_and!; [done..|exists (rebuildReason c); destruct c; simpl in *; by subst]).
  destruct (rebuilding c) eqn:Er; simpl; [by split_and!; [..|exists (rebuildReason c); destruct c; simpl in *; subst]|].
  pose proof (evaluateByStrategy_spec show_duration show_rate cfg t c Em) as H.
  destruct (evaluateByStrategyAndMark _ _ cfg t c) as [[c' ok] reason]. destruct H as [-> ->]. simpl.
  destruct (strategy_met cfg t c); split_and!; try done; [by intros [|]|by exists reason|].
  exists (rebuildReason c). destruct c. simpl in *. by subst.
Qed.

Definition panics s (s' : Pool) (w : string) : Prop := chan_closed s = true ∧ w = "send on closed channel".

Lemma wp_chan_send e (Q : Pool → unit → Prop) (E : Pool → string → Prop) s :
  (chan_closed s = true → E s "send on closed channel") → (∀ l, chan_closed s = false → Q { s with eventChan := l } ()) →
  wp (chan_send e) Q E s.
Proof.
  intros Hc Ho. apply wp_bind, wp_step. destruct (chan_closed s); [by apply Hc|]. cbn [fst snd].
  destruct (_ <? _)%nat; apply wp_ret; [by apply Ho|]. rewrite <- (events_same s). by apply Ho.
Qed.

(** A state in which the marks of connections have changed, and the events. *)
Definition evaluated (l : list nat) (time : nat → Z) s s' : Prop :=
  connections s' = connections s ∧ chan_closed s' = chan_closed s ∧
  ∀ i o, objs s !! i = Some o →
    objs s' !! i = Some (if bool_decide (i ∈ l) then { o with conn := (ShouldRebuild show_duration show_rate cfg (time i) (conn o)).1 } else o).

Lemma wp_should_rebuild i (Q : Pool → bool → Prop) s s0 o :
  objs s !! i = Some o → chan_closed s0 = chan_closed s →
  (∀ t s' b, connections s' = connections s → chan_closed s' = chan_closed s →
     objs s' = <[i := { o with conn := (ShouldRebuild show_duration show_rate cfg t (conn o)).1 }]> (objs s) → Q s' b) →
  wp (should_rebuild i) Q (panics s0) s.
Proof.
  intros Ho Hc HQ. apply wp_bind, wp_bind, wp_now. intros t. apply (wp_on_conn _ _ _ _ o Ho).
  destruct (ShouldRebuild _ _ cfg t (conn o)) as [c' ok] eqn:E. cbn [fst snd].
  assert (E1 : c' = (ShouldRebuild show_duration show_rate cfg t (conn o)).1) by (by rewrite E).
  destruct (negb (markedForRebuild (conn o)) && ok).
  - apply wp_bind, wp_chan_send; [by intros H; split; [rewrite Hc|]|]. intros l _. apply wp_ret, (HQ t); subst; done.
  - apply wp_ret, (HQ t); subst; done.
Qed.

Lemma wp_evaluate_each l s s0 :
  NoDup l → (∀ i, i ∈ l → is_Some (objs s !! i)) → chan_closed s0 = chan_closed s →
  wp (evaluate_each l) (λ s' _, ∃ time, evaluated l time s s') (panics s0) s.
Proof.
  intros Hnd. revert s. induction Hnd as [|i l Hi Hnd IH]; intros s Hl Hc; cbn [evaluate_each].
  { apply wp_ret. exists (λ _, 0). by split_and!. }
  destruct (Hl i) as [o Ho]; [by left|]. apply wp_bind, (wp_should_rebuild i _ s s0 o Ho Hc). intros t s1 b H1 H2 H3.
  assert (Hsame : ∀ j, j ≠ i → objs s1 !! j = objs s !! j) by (intros j Hj; rewrite H3; by apply list_lookup_insert_ne).
  eapply wp_mono; [apply IH| |done].
  - intros j Hj. rewrite Hsame by (by intros ->). apply Hl. by right.
  - by rewrite H2.
  - intros s2 _ (time & G1 & G2 & G3). exists (λ j, if decide (j = i) then t else time j). split; [congruence|]. split; [congruence|].
    intros j oj Hj. destruct (decide (j = i)) as [->|Hne].
    + assert (oj = o) as -> by congruence. rewrite bool_decide_true by (by left).
      rewrite (G3 i { o with conn := (ShouldRebuild show_duration show_rate cfg t (conn o)).1 }).
      * by rewrite (bool_decide_false (i ∈ l)).
      * rewrite H3. apply list_lookup_insert_eq. by eapply lookup_lt_Some.
    + rewrite (G3 j oj) by (by rewrite Hsame). by rewrite (bool_decide_ext (j ∈ i :: l) (j ∈ l)) by set_solver.
Qed.

Definition is_marked s (i : nat) : bool := match objs s !! i with Some o => markedForRebuild (conn o) | None => false end.

Lemma wp_marked_among (E : Pool → string → Prop) l s :
  (∀ i, i ∈ l → is_Some (objs s !! i)) → wp (marked_among l) (λ s' r, s' = s ∧ r = List.filter (is_marked s) l) E s.
Proof.
  induction l as [|i l IH]; intros Hl; cbn [marked_among List.filter]; [by apply wp_ret|].
  destruct (Hl i) as [o Ho]; [by left|]. apply wp_bind, (wp_read_conn _ _ _ _ o Ho). apply wp_bind.
  eapply wp_mono; [apply IH; intros j Hj; apply Hl; by right| |done]. intros s' r [-> ->]. apply wp_ret.
  assert (is_marked s i = markedForRebuild (conn o)) as -> by (unfold is_marked; by rewrite Ho). by destruct (markedForRebuild (conn o)).
Qed.

(** The members of the pool, in the order of the map. *)
Definition all_members s (l : list nat) : Prop := NoDup l ∧ ∀ i, i ∈ l ↔ ∃ k, connections s !! k = Some i.

Lemma members_all s ids :
  keyed s → NoDup ids → (∀ k, k ∈ ids ↔ is_Some (connections s !! k)) → all_members s (members ids s).
Proof.
  intros Hk Hn Hids. split; [by apply members_NoDup|]. intros i. rewrite members_spec. split; [naive_solver|].
  intros (k & Hi). exists k. split; [apply Hids; by eexists|done].
Qed.

Lemma keyed_object s l i : keyed s → all_members s l → i ∈ l → is_Some (objs s !! i).
Proof. intros Hk [_ Hl] (k & Hi%Hk)%Hl. unfold id_of in Hi. by destruct (objs s !! i). Qed.

Lemma wp_evaluation proto s :
  keyed s → getDriverPool cfg proto = true →
  wp (if SmartRebuildEnabled cfg then all ← getAllConnectionsByProto proto; evaluate_each all else mret ())
     (λ s' _, ∃ l time, all_members s l ∧ evaluated (if SmartRebuildEnabled cfg then l else []) time s s') (panics s) s.
Proof.
  intros Hk Hp. destruct (SmartRebuildEnabled cfg).
  - unfold getAllConnectionsByProto. rewrite Hp. cbn [negb]. apply wp_bind, wp_bind, wp_connection_keys. intros ids Hn Hids.
    apply wp_read. pose proof (members_all s ids Hk Hn Hids) as Hl.
    eapply wp_mono; [apply (wp_evaluate_each _ s s); [apply Hl|intros i; by apply keyed_object|done]| |done].
    intros s' _ [time Ht]. by exists (members ids s), time.
  - apply wp_ret. exists (members (map_to_list (connections s)).*1 s), (λ _, 0). split; [|by split_and!].
    apply members_all; [done|apply NoDup_fst_map_to_list|]. intros k. apply keys_of.
Qed.

Lemma evaluated_object all time s s1 i o :
  all_members s all → evaluated (if SmartRebuildEnabled cfg then all else []) time s s1 → objs s !! i = Some o →
  ∃ reason, objs s1 !! i = Some { o with conn := { conn o with
      markedForRebuild := markedForRebuild (conn o) || bool_decide (i ∈ all) && due (time i) (conn o); rebuildReason := reason } }.
Proof.
  intros Hall (_ & _ & Ho) Hi. rewrite (Ho i o Hi).
  assert (Hsame : ∀ b, b = false → ∃ reason, Some o = Some { o with conn := { conn o with
      markedForRebuild := markedForRebuild (conn o) || b; rebuildReason := reason } }).
  { intros b ->. exists (rebuildReason (conn o)). rewrite orb_false_r. by destruct o as [[]]. }
  destruct (SmartRebuildEnabled cfg) eqn:Es; [|apply Hsame; unfold due; by rewrite Es, andb_false_r].
  case_bool_decide; [|by apply Hsame].
  destruct (ShouldRebuild_due (time i) (conn o)) as (_ & _ & _ & r & ->). by exists r.
Qed.

End selection.


(** ** All protocols *)

Abbreviation BatchRebuildResult := PoolBatch.BatchRebuildResult.

(** The answer of [RebuildConnections]; [Cancelled] has the context's error. *)
Record AllRebuilt := mk_all { batch : BatchRebuildResult; Cancelled : option string }.

(** What the goroutine of one protocol adds under the mutex. *)
Definition add_answer (acc : list PoolBatch.RebuildResult * list string)
    (a : string * (option BatchRebuildResult * option string)) : list PoolBatch.RebuildResult * list string :=
  let '(proto, (result, err)) := a in
  ((acc.1 ++ match result with Some r => PoolBatch.Results r | None => [] end)%list,
   (acc.2 ++ match err with Some e => ["protocol " +:+ proto +:+ ": " +:+ e] | None => [] end)%list).

(** The answers of the protocols, in the order in which they end, and what the context
    says at the end. *)
Definition RebuildConnections (answers : list (string * (option BatchRebuildResult * option string)))
    (ctx_err : option string) : AllRebuilt * option string :=
  let '(allResults, errors) := foldl add_answer ([], []) answers in
  let ok := length (List.filter PoolBatch.Success allResults) in
  let failed := length (PoolBatch.failures allResults) in
  let batch := PoolBatch.mk_batch (Z.of_nat (length allResults)) (Z.of_nat ok) (Z.of_nat failed) allResults [] in
  match answers, ctx_err with
  | [], _ => (mk_all batch None, None)
  | _, Some e => (mk_all batch (Some e), Some e)
  | _, None =>
      match errors with
      | [] => (mk_all batch None, None)
      | _ => (mk_all { batch with PoolBatch.Errors := errors } None,
              Some ((if (ok =? 0)%nat then "all rebuilds failed: " else "some rebuilds failed: ") +:+ String.concat "; " errors))
      end
  end.

Definition results_of (a : string * (option BatchRebuildResult * option string)) : list PoolBatch.RebuildResult :=
  match a.2.1 with Some r => PoolBatch.Results r | None => [] end.
Definition failed_protocol (a : string * (option BatchRebuildResult * option string)) : bool :=
  match a.2.2 with Some _ => true | None => false end.

Lemma add_answers acc answers :
  (foldl add_answer acc answers).1 = (acc.1 ++ mjoin (results_of <$> answers))%list ∧
  ((foldl add_answer acc answers).2 = [] ↔ acc.2 = [] ∧ existsb failed_protocol answers = false).
Proof.
  revert acc. induction answers as [|[proto [result err]] answers IH]; intros acc; cbn [foldl existsb fmap list_fmap mjoin list_join].
  - rewrite app_nil_r. by split; [|naive_solver].
  - destruct (IH (add_answer acc (proto, (result, err)))) as [-> H2]. split.
    + cbn. rewrite <- app_assoc. done.
    + rewrite H2. cbn. unfold failed_protocol at 2. destruct err; cbn; [|by rewrite app_nil_r].
      split; intros [H3 H4]; [by destruct acc.2|done].
Qed.

(** The sum over the protocols. It counts every result of every protocol; the
    error is nil exactly when the context has not ended and no protocol has answered an
    error. A protocol answers none when one of its connections was rebuilt, so that
    its failures appear neither in the error nor in the list of errors. *)
Theorem RebuildConnections_spec answers ctx_err :
  let '(r, err) := RebuildConnections answers ctx_err in
  let b := batch r in
  PoolBatch.Results b = mjoin (results_of <$> answers) ∧
  PoolBatch.Total b = Z.of_nat (length (PoolBatch.Results b)) ∧
  PoolBatch.Successes b + PoolBatch.Failed b = PoolBatch.Total b ∧
  (err = None ↔ answers = [] ∨ ctx_err = None ∧ existsb failed_protocol answers = false) ∧
  (err = None → PoolBatch.Errors b = []) ∧
  (∀ conns show_id proto rs, answers = [(proto, (Some (PoolBatch.batch_result conns show_id rs).1, (PoolBatch.batch_result conns show_id rs).2))] →
     ctx_err = None → existsb PoolBatch.Success rs = true → err = None ∧ PoolBatch.Failed b = Z.of_nat (length (PoolBatch.failures rs))).
Proof.
  unfold RebuildConnections. pose proof (add_answers ([], []) answers) as [H1 H2].
  assert (Hcount : ∀ rs, Z.of_nat (length (List.filter PoolBatch.Success rs)) + Z.of_nat (length (PoolBatch.failures rs)) = Z.of_nat (length rs)).
  { intros rs. rewrite <- (PoolBatch.filter_counts PoolBatch.Success rs). unfold PoolBatch.failures. lia. }
  assert (Hone : ∀ conns show_id proto rs,
    answers = [(proto, (Some (PoolBatch.batch_result conns show_id rs).1, (PoolBatch.batch_result conns show_id rs).2))] →
    existsb PoolBatch.Success rs = true → existsb failed_protocol answers = false ∧ mjoin (results_of <$> answers) = rs).
  { intros conns show_id proto rs -> (x & Hx & Hok)%existsb_exists. cbn. rewrite app_nil_r. split; [|done].
    assert (length (List.filter PoolBatch.Success rs) ≠ 0%nat).
    { assert (Hf : In x (List.filter PoolBatch.Success rs)) by (by apply filter_In). destruct (List.filter _ rs); [done|]. done. }
    destruct (Nat.eqb_spec (length (List.filter PoolBatch.Success rs)) 0); [done|]. by rewrite andb_false_r. }
  destruct (foldl add_answer ([], []) answers) as [all errors]. cbn in H1, H2. subst all.
  destruct answers as [|a answers]; [|destruct ctx_err as [e|]; [|destruct errors as [|x errors]]];
    cbn [batch PoolBatch.Results PoolBatch.Total PoolBatch.Successes PoolBatch.Failed PoolBatch.Errors]; do 2 (split; [done|]).
  - by split_and!; [apply Hcount|split; [by left|]|..].
  - split; [apply Hcount|]. split; [|by split]. split; [done|]. by intros [?|[? _]].
  - split; [apply Hcount|]. destruct H2 as [[_ H2] _]; [done|]. split; [by split; [right|]|]. split; [done|].
    intros conns show_id proto rs E _ Hs. destruct (Hone _ _ _ _ E Hs) as [_ ->]. done.
  - split; [apply Hcount|]. split; [|split; [done|]].
    + split; [done|]. intros [?|[_ Hf]]; [done|]. by destruct H2 as [_ H2]; discriminate H2.
    + intros conns show_id proto rs E _ Hs. destruct (Hone _ _ _ _ E Hs) as [Hf _]. by destruct H2 as [_ H2]; discriminate H2.
Qed.

(** ** The tasks in the background *)

Inductive background := HealthChecks | CleanUp | MetricsTask | Events | Rebuilds.
#[global] Instance background_eq_dec : EqDecision background.
Proof. solve_decision. Defined.

Section background.
Context (cfg : EnhancedConnectionConfig).

Definition rebuildInterval : Z := if RebuildCheckInterval cfg =? 0 then 5 * Minute else RebuildCheckInterval cfg.
Definition rebuild_task_starts : bool := SmartRebuildEnabled cfg && negb (rebuildInterval <? 5 * Second).
Definition startBackgroundTasks : list background :=
  [HealthChecks; CleanUp; MetricsTask; Events] ++ (if rebuild_task_starts then [Rebuilds] else []).

(** [time.NewTicker] *)
Definition NewTicker (d : Z) : outcome unit := if d <=? 0 then Panic "non-positive interval for NewTicker" else Ret ().

(** The ticker a task makes first; the event handler makes none. *)
Definition ticker (b : background) : outcome unit :=
  match b with
  | HealthChecks => NewTicker (HealthCheckTime cfg)
  | CleanUp => NewTicker Minute
  | MetricsTask => NewTicker (30 * Second)
  | Rebuilds => NewTicker rebuildInterval
  | Events => Ret ()
  end.

(** The loop of a task with a ticker, by the case that each [select] takes: how often it
    works, and whether it has returned. *)
Inductive ticker_case := ParentDone | PoolDone | Fired.
Fixpoint ticker_loop (l : list ticker_case) : nat * bool :=
  match l with
  | [] => (0%nat, false)
  | Fired :: l => let '(n, returned) := ticker_loop l in (S n, returned)
  | _ :: _ => (0%nat, true)
  end.

(** The event handler's: the end of the pool's context is a case that does nothing. *)
Inductive event_case := ContextDone | Event (e : PoolEventType) | ChannelClosed.
Fixpoint eventHandlerTask (l : list event_case) : list PoolEventType * bool :=
  match l with
  | [] => ([], false)
  | ContextDone :: l => eventHandlerTask l
  | Event e :: l => let '(es, returned) := eventHandlerTask l in (e :: es, returned)
  | ChannelClosed :: _ => ([], true)
  end.

(** The protocols for which a goroutine starts at a tick. *)
Definition performHealthChecks : list string := getAllProtocols cfg.
Definition performRebuilds : outcome (list string) :=
  if negb (SmartRebuildEnabled cfg) then Ret []
  else match getAllProtocols cfg with
       | [] => Ret []
       | l => if RebuildConcurrency cfg <? 0 then Panic "makechan: size out of range" else Ret l
       end.

(** C38: with a configuration that [Validate] accepts, the tasks that the pool starts in
    the background can all make their ticker exactly when the health checks have a
    positive interval, which [Validate] does not ask for; otherwise a goroutine that
    nobody recovers panics. The rebuilds have a task exactly when the smart rebuild is
    enabled at an interval of five seconds or more, though any positive interval is
    accepted. The event handler returns at the close of its channel only. *)
Theorem background_tasks_start :
  Validate cfg = None →
  ((∀ b, b ∈ startBackgroundTasks → ticker b = Ret ()) ↔ 0 < HealthCheckTime cfg) ∧
  (Rebuilds ∈ startBackgroundTasks ↔ SmartRebuildEnabled cfg = true ∧ 5 * Second ≤ RebuildCheckInterval cfg) ∧
  (performRebuilds = Ret (if SmartRebuildEnabled cfg then getAllProtocols cfg else [])) ∧
  (∀ l, (eventHandlerTask l).2 = true ↔ ChannelClosed ∈ l) ∧
  (∀ l, (ticker_loop l).2 = true ↔ ParentDone ∈ l ∨ PoolDone ∈ l).
Proof.
  intros Hv. destruct (ok_exec cfg (Validate_ok cfg Hv)) as (Hi & _ & Hc).
  assert (Hri : rebuildInterval = RebuildCheckInterval cfg) by (unfold rebuildInterval; destruct (Z.eqb_spec (RebuildCheckInterval cfg) 0); lia).
  assert (Hst : rebuild_task_starts = true ↔ SmartRebuildEnabled cfg = true ∧ 5 * Second ≤ RebuildCheckInterval cfg).
  { unfold rebuild_task_starts. rewrite Hri, andb_true_iff, negb_true_iff, Z.ltb_ge. done. }
  split_and!.
  - unfold startBackgroundTasks, ticker, NewTicker. rewrite Hri. split.
    + intros H. specialize (H HealthChecks ltac:(left)). cbn in H. destruct (Z.leb_spec (HealthCheckTime cfg) 0); [done|lia].
    + intros Hh b _. destruct b; cbn -[Z.leb]; try done; case_match eqn:E; done || (apply Z.leb_le in E; lia).
  - rewrite <- Hst. unfold startBackgroundTasks. destruct rebuild_task_starts; cbn; split; intros H; try done.
    + do 4 right. left.
    + repeat (apply elem_of_cons in H as [?|H]; [done|]). by apply elem_of_nil in H.
  - unfold performRebuilds. destruct (SmartRebuildEnabled cfg); [|done]. cbn. destruct (Z.ltb_spec (RebuildConcurrency cfg) 0); [lia|].
    by destruct (getAllProtocols cfg).
  - induction l as [|[|e|] l IH]; cbn; [by split; [|intros ?%elem_of_nil]| | |by split; [left|]].
    + rewrite IH, elem_of_cons. naive_solver.
    + destruct (eventHandlerTask l). cbn in *. rewrite IH, elem_of_cons. naive_solver.
  - induction l as [|[] l IH]; cbn; [split; [done|by intros [?%elem_of_nil|?%elem_of_nil]]|split; [left; left|done]|split; [right; left|done]|].
    destruct (ticker_loop l). cbn in *. rewrite IH, !elem_of_cons. naive_solver.
Qed.
End background.

(** An accepted configuration without health checks: the goroutine that should do them
    panics. *)
Lemma background_tasks_start_witness :
  let cfg := { NewConfigBuilder with Host := "r1"; c_Username := "u"; c_Password := "p"; c_Protocol := "ssh"; c_Platform := "cisco_iosxe";
                                     HealthCheckTime := 0; RebuildCheckInterval := Second } in
  Validate cfg = None ∧ (¬ ∀ b, b ∈ startBackgroundTasks cfg → ticker cfg b = Ret ()) ∧ Rebuilds ∉ startBackgroundTasks cfg.
Proof.
  intros cfg. assert (Hv : Validate cfg = None) by (vm_compute; reflexivity). split; [exact Hv|].
  destruct (background_tasks_start cfg Hv) as (H1 & H2 & _). rewrite H1, H2. split; [change (¬ 0 < 0); lia|].
  intros [_ H]. change (5 * Second ≤ Second) in H. unfold Second in H. lia.
Defined.

(** ** Events and contexts *)

Definition event_number (e : PoolEventType) : Z :=
  match e with
  | EventConnectionCreated => 0 | EventConnectionDestroyed => 1 | EventConnectionReused => 2 | EventConnectionFailed => 3
  | EventHealthCheckFailed => 4 | EventPoolWarmupStarted => 5 | EventPoolWarmupCompleted => 6 | EventPoolShutdown => 7
  | EventConnectionRebuilt => 8 | EventRebuildFailed => 9 | EventRebuildMarked => 10 | EventRebuildStarted => 11
  | EventRebuildCompleted => 12 | EventConnectionsNeedRebuild => 13
  end.

(** The text that is logged of an event; of its data, when it is a map, the entries as
    they are printed, and else the whole. *)
Definition handleEvent (e : PoolEventType) (protocol : string) (data : (string → string) + string) : string :=
  let about (what : string) (fields : list (string * string)) :=
    what +:+ ": protocol=" +:+ protocol +:+
    match fields, data with
    | [], _ => ""
    | _, inl get => foldr (λ '(name, key) rest, ", " +:+ name +:+ "=" +:+ get key +:+ rest) "" fields
    | _, inr whole => ", data=" +:+ whole
    end in
  match e with
  | EventConnectionCreated => about "connection created" []
  | EventConnectionDestroyed => about "connection destroyed" []
  | EventConnectionReused => about "connection reused" []
  | EventConnectionFailed => about "connection failed" []
  | EventHealthCheckFailed => about "health check failed" []
  | EventPoolWarmupStarted => about "warm-up started" []
  | EventPoolWarmupCompleted => about "warm-up completed" []
  | EventPoolShutdown => about "pool closed" []
  | EventConnectionRebuilt =>
      about "connection rebuilt" [("old_id", "old_connection_id"); ("new_id", "new_connection_id"); ("reason", "reason")]
  | EventRebuildMarked => about "marked for rebuild" [("conn_id", "connection_id"); ("reason", "reason")]
  | EventRebuildStarted => about "rebuild started" [("conn_id", "connection_id")]
  | EventRebuildCompleted => about "rebuild completed" [("conn_id", "connection_id"); ("duration", "duration")]
  | EventConnectionsNeedRebuild => about "connections need a rebuild" [("count", "count")]
  | _ => "unknown event(type=" +:+ itoa (event_number e) +:+ "): protocol=" +:+ protocol
  end.

(** The pool sends an event when a rebuild fails, which its handler does not know. *)
Lemma handleEvent_unknown e protocol data :
  String.prefix "unknown" (handleEvent e protocol data) = true ↔ e = EventRebuildFailed.
Proof. destruct e; cbn -[String.append itoa]; split; done. Qed.

(** [mergeContext]: the new context is a child of the pool's and is cancelled with the
    request's, if that has a deadline. *)
Definition mergeContext (pool : Context) (request : option Context) : Context :=
  match request with
  | Some r =>
      match deadline r with
      | Some d => mk_context (earlier (deadline pool) (Some d)) (earlier (cancelled_at pool) (cancelled_at r))
      | None => pool
      end
  | None => pool
  end.

(** With a deadline it ends with the first of the two; without one the request's
    cancellation is ignored. *)
Lemma mergeContext_end pool request :
  ctx_end (mergeContext pool request) =
  match request with
  | Some r => if bool_decide (deadline r = None) then ctx_end pool else earlier (ctx_end pool) (ctx_end r)
  | None => ctx_end pool
  end.
Proof.
  destruct request as [[[d|] k]|]; [|done|done]. unfold ctx_end. destruct pool as [[d'|] [k'|]], k as [k|]; cbn; try done; f_equal; lia.
Qed.

(** ** Single connections *)
Section single.
Context (cfg : EnhancedConnectionConfig).

(** [replaceConnection], which nothing calls: the new connection has the driver it is
    given; its driver pool's map is changed under the lock. *)
Definition replaceConnection (proto connID : string) : prog (option error) :=
  if negb (getDriverPool cfg proto) then mret (Some ["no such protocol: " +:+ proto])
  else act (λ s x, match x with
                   | Time t =>
                       match findConnectionByID connID s with
                       | None => Some (s, Some ["no such connection: " +:+ connID])
                       | Some i =>
                           match id_of s i with
                           | Some old =>
                               let c := { new_connection (connection_name cfg t) t with lastUsed := 0; healthStatus := HealthStatusHealthy } in
                               Some ({ s with objs ::= (.++ [mk_obj c true 0])%list;
                                              connections ::= (λ m, <[id c := length (objs s)]> (delete old m)) }, None)
                           | None => None
                           end
                       end
                   | _ => None
                   end).

(** What is sent on the channel of [RebuildConnectionByIDAsync] before it is closed: a
    result, with the error's text when there is one. A panic is recovered after the
    close, and nothing is sent. *)
Definition async_result (connID : string) (r : RebuildError + RebuildResult) : RebuildResult * error :=
  match r with
  | inl e => (mk_rebuild_result false connID "" "async_rebuild_failed", OriginalError e)
  | inr r => (r, [])
  end.
Definition RebuildConnectionByIDAsync (merged : bool) (connID : string) : RebuildError + prog (option (RebuildResult * error)) :=
  if String.eqb connID "" then inl (invalid_state "the connection's identifier is empty")
  else inr (catch (r ← RebuildConnectionByID cfg merged connID; mret (Some (async_result connID r))) (λ _, mret None)).
End single.

(** ** Traces in the debug mode *)

Record ConnectionTrace := mk_trace {
  t_ID : string;
  t_Protocol : string;
  t_CreatedAt : Z;
  t_LastUsed : Z;
  t_UsageCount : Z;
  StackTrace : string;
  t_Labels : gmap string string }.

Section traces.
Context (debugMode : bool) (protocol stack : string) (labels : gmap string string) (show_time : Z → string).

Definition recordConnectionTrace c (action : string) (activeConns : gmap string ConnectionTrace) : gmap string ConnectionTrace :=
  if negb debugMode then activeConns
  else <[id c := mk_trace (id c) protocol (createdAt c) (lastUsed c) (usageCount c) stack (<["action" := action]> labels)]> activeConns.

(** The traces in the order of the map. *)
Definition CheckLeaks (traces : list (string * ConnectionTrace)) : list string :=
  if negb debugMode then []
  else (λ kt : string * ConnectionTrace,
    "LEAK: connection " +:+ kt.1 +:+ " created at " +:+ show_time (t_CreatedAt kt.2) +:+ ", last used " +:+
    show_time (t_LastUsed kt.2) +:+ ", usage count " +:+ itoa (t_UsageCount kt.2)) <$> traces.

(** A trace is never removed: a connection that was taken and released counts as a leak. *)
Lemma released_reported c c' m :
  debugMode = true → id c' = id c →
  let m' := recordConnectionTrace c' "released" (recordConnectionTrace c "acquired" m) in
  (∃ t, m' !! id c = Some t ∧ t_Labels t !! "action" = Some "released") ∧ length (CheckLeaks (map_to_list m')) = size m'.
Proof.
  intros Hd Hid m'. unfold m', CheckLeaks, recordConnectionTrace. rewrite Hd, Hid. cbn. rewrite length_fmap, length_map_to_list.
  split; [|done]. eexists. split; [apply lookup_insert_eq|]. cbn. apply lookup_insert_eq.
Qed.
End traces.
