(* ===== verification/Dispatch.v ===== *)
(** * Dispatch: what a scheduler sends to its router
    ([src/manager/router_scheduler.go])

    [executeTasksAsync] finds the ping task for the router and hands every line of a
    queue to [executeIndividualPing], whose interleavings are in [Rounds]; here is the
    choice, and the task context and command of each line. [listenToPoolEvents] reads
    the events of the pool from the channel that the pool's own handler reads. *)
From S2P Require Import Prelude GoStrings GoFloat GoContext Types Lines Task Ping Pool.
Local Open Scope string_scope.
Local Open Scope Z_scope.

(** ** The choice of the task *)

Inductive effect :=
  | GetConnection (ok : bool)
  | ReleaseConnection
  | Individual (l : Line) (t : Task) (cmdType : string).

(** [capability] is the command types loaded before ([None]: a nil slice), [fresh]
    those of a connection of the pool ([None]: there is none); they are logged only. *)
Definition load_capability (capability fresh : option (list string)) : list effect * bool :=
  match capability, fresh with
  | Some _, _ => ([], true)
  | None, None => ([GetConnection false], false)
  | None, Some _ => ([GetConnection true; ReleaseConnection], true)
  end.

Definition executeTasksAsync (registry : gmap string (TaskMeta Task)) (r : Router) (capability fresh : option (list string)) (lines : list Line) : list effect :=
  match lines with
  | [] => []
  | _ =>
      match load_capability capability fresh with
      | (effects, false) => effects
      | (effects, true) =>
          (effects ++ match Discover registry "ping" (Lines.Platform r) (Lines.Protocol r) CommandTypeCommands with
                      | Ret t => (λ l, Individual l t CommandTypeCommands) <$> lines
                      | _ => []
                      end)%list
      end
  end.

(** The context of one line's ping. *)
Definition ping_context (r : Router) (l : Line) (cmdType : string) (ctx : Context) : TaskContext :=
  mk_task_context "ping" (Lines.Platform r) (Lines.Protocol r) cmdType
    (<["target_ip" := VStr (IP l)]> (<["repeat" := VInt 5]> (<["timeout" := VDur (2 * Second)]> ∅))) (Some ctx).

(** The registry after [Manager.Start]. *)
Definition started_registry : outcome (gmap string (TaskMeta Task)) := Register NewDefaultRegistry Meta.

(** ** What is pinged, and how *)

Definition pinged (r : Router) : bool :=
  String.eqb (Lines.Protocol r) ProtocolScrapli &&
  existsb (String.eqb (Lines.Platform r))
    [PlatformCiscoIOSXE; PlatformCiscoIOSXR; PlatformCiscoNXOS; PlatformHuaweiVRP; PlatformH3CComware].

(** The command line on the router. *)
Definition ping_line (r : Router) (ip : string) : string :=
  if is_cisco (Lines.Platform r) then "ping " +:+ ip +:+ " timeout 2" else "ping -c 5 -t 2000 " +:+ ip.

Lemma match_ping_platform p enable pl pr :
  match_platform pl pr CommandTypeCommands (ping_platform p enable) =
  if String.eqb pl p && String.eqb pr ProtocolScrapli then Some PingTask else None.
Proof.
  unfold match_platform, ping_platform. cbn [pls_Platform Protocols find_map match_protocol ps_Protocol].
  unfold match_protocol. cbn [ps_Protocol CommandTypes]. rewrite (String.eqb_sym p), (String.eqb_sym ProtocolScrapli).
  destruct (String.eqb pl p), (String.eqb pr ProtocolScrapli); reflexivity.
Qed.

Lemma Discover_ping registry r :
  started_registry = Ret registry →
  Discover registry "ping" (Lines.Platform r) (Lines.Protocol r) CommandTypeCommands =
  if pinged r then Ret PingTask
  else Fail ("no matching task for platform '" +:+ Lines.Platform r +:+ "', protocol '" +:+ Lines.Protocol r +:+
             "', command type '" +:+ CommandTypeCommands +:+ "'").
Proof.
  intros E. assert (registry !! "ping" = Some Meta) as Hm by (injection E as <-; apply (lookup_insert_eq (∅ : gmap string (TaskMeta Task)))).
  unfold Discover, pinged. rewrite Hm. cbn [Meta Platforms find_map existsb]. rewrite !match_ping_platform.
  destruct (String.eqb (Lines.Protocol r) ProtocolScrapli); [|by rewrite !andb_false_r].
  rewrite !andb_true_r. cbn [andb].
  destruct (String.eqb _ PlatformCiscoIOSXE); [done|]. destruct (String.eqb _ PlatformCiscoIOSXR); [done|].
  destruct (String.eqb _ PlatformCiscoNXOS); [done|]. destruct (String.eqb _ PlatformHuaweiVRP); [done|].
  by destruct (String.eqb _ PlatformH3CComware).
Qed.

Lemma ping_context_command r l ctx :
  pinged r = true → IP l ≠ "" →
  let tc := ping_context r l CommandTypeCommands ctx in
  PingTask_ValidateParams (Params tc) = None ∧
  PingTask_BuildCommand tc = Ret (mk_command CommandTypeCommands (Commands [ping_line r (IP l)])).
Proof.
  intros Hr Hip tc. split.
  - unfold PingTask_ValidateParams, check_target_ip, check_repeat, check_timeout, check_enable. cbn. simplify_map_eq.
    by destruct (String.eqb_spec (IP l) "").
  - unfold PingTask_BuildCommand, int_param, dur_param. cbn -[is_cisco]. simplify_map_eq. cbn -[is_cisco].
    unfold ping_line. unfold pinged in Hr. apply andb_true_iff in Hr as [_ Hr]. cbn [existsb] in Hr. unfold is_cisco in *.
    destruct (String.eqb (Lines.Platform r) PlatformCiscoIOSXE), (String.eqb (Lines.Platform r) PlatformCiscoIOSXR),
      (String.eqb (Lines.Platform r) PlatformCiscoNXOS); try reflexivity.
    destruct (String.eqb (Lines.Platform r) PlatformHuaweiVRP); [reflexivity|].
    destruct (String.eqb (Lines.Platform r) PlatformH3CComware); [reflexivity|done].
Qed.

(** C16: at a tick of a queue every line of it is handed to the ping task, in order and
    once, when the router has the protocol scrapli and one of the five platforms;
    otherwise, a router with the protocol ssh included, none ever is. A line with an
    address is accepted by the task and becomes one command line; what the router's
    connections can do changes nothing. *)
Theorem executeTasksAsync_spec registry r capability fresh lines ctx :
  started_registry = Ret registry →
  let pings := omap (λ e, match e with Individual l t c => Some (l, t, c) | _ => None end)
                    (executeTasksAsync registry r capability fresh lines) in
  pings = (if pinged r && (load_capability capability fresh).2 then (λ l, (l, PingTask, CommandTypeCommands)) <$> lines else []) ∧
  (∀ l t c, (l, t, c) ∈ pings → IP l ≠ "" →
     let tc := ping_context r l c ctx in
     ValidateParams t (Params tc) = None ∧
     BuildCommand t tc = Ret (mk_command CommandTypeCommands (Commands [ping_line r (IP l)]))).
Proof.
  intros Hr pings.
  assert (Hp : pings = if pinged r && (load_capability capability fresh).2 then (λ l, (l, PingTask, CommandTypeCommands)) <$> lines else []).
  { subst pings. unfold executeTasksAsync. destruct lines as [|l lines]; [by case_match|]. rewrite (Discover_ping registry r Hr).
    destruct capability, fresh, (pinged r); cbn; try done; f_equal; induction lines as [|l' lines IH]; cbn; congruence. }
  split; [exact Hp|]. rewrite Hp. intros l t c Hin Hip.
  destruct (pinged r) eqn:Er; cbn [andb] in Hin; [|by apply elem_of_nil in Hin].
  destruct ((load_capability capability fresh).2); [|by apply elem_of_nil in Hin].
  apply list_elem_of_fmap in Hin as (l' & [= -> -> ->] & _). by apply ping_context_command.
Qed.

Lemma executeTasksAsync_spec_witness :
  let r := mk_router "10.0.0.1" "ops" "secret" "huawei_vrp" "scrapli" in
  let l := mk_line "" "10.1.1.1" Minute r 0 in
  let registry := <["ping" := Meta]> ∅ in
  started_registry = Ret registry ∧ pinged r = true ∧
  PingTask_BuildCommand (ping_context r l CommandTypeCommands (mk_context None None)) =
    Ret (mk_command CommandTypeCommands (Commands ["ping -c 5 -t 2000 10.1.1.1"])).
Proof.
  intros r l registry. assert (Hr : started_registry = Ret registry) by reflexivity. split; [exact Hr|]. split; [reflexivity|].
  destruct (executeTasksAsync_spec registry r (Some []) None [l] (mk_context None None) Hr) as [Hp Hall].
  destruct (Hall l PingTask CommandTypeCommands) as [_ H]; [|done|exact H].
  rewrite Hp. replace (pinged r && (load_capability (Some []) None).2) with true by reflexivity.
  apply list_elem_of_fmap. exists l. split; [reflexivity|left].
Defined.

(** ** The readers of the pool's events *)

(** The channel of the pool with its two readers, the handler of the pool
    ([eventHandlerTask]) and the scheduler's listener. *)
Record PoolEvents := mk_events {
  queue : list PoolEventType;
  is_closed : bool;
  router_done : bool;
  accepted : list PoolEventType;
  handled : list PoolEventType;
  listened : list PoolEventType;
  handling : bool;
  listening : bool }.
Definition new_events : PoolEvents := mk_events [] false false [] [] [] true true.

Inductive event_action := Send (e : PoolEventType) | CloseChannel | EndRouter | Handle | Listen | StopListening.

Definition listenToPoolEvents (x : PoolEvents) : option PoolEvents :=
  if negb (listening x) then None
  else match queue x with
       | e :: q => Some { x with queue := q; listened ::= (.++ [e]) }
       | [] => if is_closed x then Some { x with listening := false } else None
       end.
Definition handle_one (x : PoolEvents) : option PoolEvents :=
  if negb (handling x) then None
  else match queue x with
       | e :: q => Some { x with queue := q; handled ::= (.++ [e]) }
       | [] => if is_closed x then Some { x with handling := false } else None
       end.

Definition event_step (x : PoolEvents) (a : event_action) : option PoolEvents :=
  match a with
  | Send e => if is_closed x then None
              else if (length (queue x) <? 1000)%nat then Some { x with queue ::= (.++ [e]); accepted ::= (.++ [e]) } else Some x
  | CloseChannel => if is_closed x then None else Some { x with is_closed := true }
  | EndRouter => Some { x with router_done := true }
  | Handle => handle_one x
  | Listen => listenToPoolEvents x
  | StopListening => if listening x && router_done x then Some { x with listening := false } else None
  end.
Fixpoint event_run (x : PoolEvents) (l : list event_action) : option PoolEvents :=
  match l with [] => Some x | a :: l => match event_step x a with Some x => event_run x l | None => None end end.

Definition events_ok (x : PoolEvents) : Prop :=
  (handled x ++ listened x ++ queue x)%list ≡ₚ accepted x ∧ handled x `sublist_of` accepted x ∧ listened x `sublist_of` accepted x ∧
  (∃ seen, accepted x = (seen ++ queue x)%list ∧ handled x `sublist_of` seen ∧ listened x `sublist_of` seen) ∧
  (handling x = false → is_closed x = true ∧ queue x = []).

Lemma event_step_ok x a x' : events_ok x → event_step x a = Some x' → events_ok x'.
Proof.
  intros Hx E. pose proof Hx as (H1 & H2 & H3 & (seen & H4 & H5 & H6) & H7). destruct a; cbn in E.
  - destruct (is_closed x) eqn:Ec; [done|]. case_match; injection E as <-; [|exact Hx].
    split_and!; cbn.
    + by rewrite !app_assoc, <- (app_assoc (handled x)), H1.
    + by apply sublist_inserts_r.
    + by apply sublist_inserts_r.
    + exists seen. by rewrite H4, app_assoc.
    + intros Hh. destruct (H7 Hh). congruence.
  - destruct (is_closed x); [done|]. injection E as <-. split_and!; cbn; [done..|by exists seen|]. intros Hh. by destruct (H7 Hh).
  - injection E as <-. exact Hx.
  - unfold handle_one in E. destruct (handling x) eqn:Eh; [|done]. cbn in E. destruct (queue x) as [|e q] eqn:Eq.
    + destruct (is_closed x) eqn:Ec; [|done]. injection E as <-. split_and!; cbn; rewrite ?Eq; try done. by exists seen.
    + injection E as <-. assert (Hs : accepted x = ((seen ++ [e]) ++ q)%list) by (by rewrite H4, <- app_assoc). split_and!; cbn.
      * rewrite <- H1, <- app_assoc. apply Permutation_app_head. cbn. by rewrite Permutation_middle.
      * rewrite Hs. apply sublist_inserts_r. by apply sublist_app.
      * done.
      * exists (seen ++ [e])%list. split; [done|]. split; [by apply sublist_app|by apply sublist_inserts_r].
      * by rewrite Eh.
  - unfold listenToPoolEvents in E. destruct (listening x) eqn:El; [|done]. cbn in E. destruct (queue x) as [|e q] eqn:Eq.
    + destruct (is_closed x) eqn:Ec; [|done]. injection E as <-. split_and!; cbn; rewrite ?Eq; try done. by exists seen.
    + injection E as <-. assert (Hs : accepted x = ((seen ++ [e]) ++ q)%list) by (by rewrite H4, <- app_assoc). split_and!; cbn.
      * rewrite <- H1, <- !app_assoc. done.
      * done.
      * rewrite Hs. apply sublist_inserts_r. by apply sublist_app.
      * exists (seen ++ [e])%list. split; [done|]. split; [by apply sublist_inserts_r|by apply sublist_app].
      * intros Hh. destruct (H7 Hh) as [_ ?]. done.
  - destruct (listening x && router_done x); [|done]. injection E as <-. exact Hx.
Qed.

(** Every event that was accepted is seen by one of the readers, once and in order,
    or still in the channel; the pool's handler returns when the channel is closed and
    empty only. What one of them takes, the other does not see. *)
Theorem pool_events_seen_once l x :
  event_run new_events l = Some x →
  (handled x ++ listened x ++ queue x)%list ≡ₚ accepted x ∧ handled x `sublist_of` accepted x ∧ listened x `sublist_of` accepted x ∧
  (handling x = false → is_closed x = true ∧ (handled x ++ listened x)%list ≡ₚ accepted x).
Proof.
  intros H. assert (Hx : events_ok x).
  { assert (H0 : events_ok new_events) by (split_and!; try done; by exists []).
    revert H0 H. generalize new_events. induction l as [|a l IH]; intros y Hy H; cbn in H; [by injection H as <-|].
    destruct (event_step y a) as [y'|] eqn:E; [|done]. eapply IH; [|exact H]. by eapply event_step_ok. }
  destruct Hx as (H1 & H2 & H3 & _ & H4). do 3 (split; [done|]). intros Hh. destruct (H4 Hh) as [Hc Hq]. split; [done|].
  rewrite <- H1, Hq, app_nil_r. done.
Qed.
