(* ===== verification/Pipeline.v ===== *)
(** * Pipeline: from a line of a router to its metric in Zabbix

    A ping that a scheduler submits is executed by a worker of its asynchronous
    executor ([processTask] of [src/task/async_executor.go]); the callback of
    [executeIndividualPing] ([src/manager/router_scheduler.go]) hands the result to the
    aggregator, whose batches the Zabbix sender turns into metrics. The theorems follow
    one ping through [Dispatch], [Executor], [PingParse], [Aggregator] and
    [ZabbixSender]. *)
From S2P Require Import Prelude Aggregator ZabbixSender.
From S2P Require Import GoStrings GoFloat GoContext Types Lines Config Task Ping PingParse Executor Dispatch.
Local Open Scope string_scope.
Local Open Scope Z_scope.

Section pipeline.
Context {D : Type} `{ProtocolDriver D}.
Context (math_pow : float64 → float64 → float64) (done_first : bool).
Implicit Types (w : World D) (a : Aggregator.Aggregator).

(** The middlewares of [NewRouterScheduler]. *)
Definition asyncExecutor (c : EnhancedConnectionConfig) : ExecutorFunc D :=
  NewExecutor [WithSmartTimeout (TaskTimeout c);
               WithExponentialRetry math_pow done_first (TaskMaxRetries c) (TaskRetryInterval c) (TaskBackoffFactor c)].

(** [processTask]: the callback gets the result, the error and the time, and works on
    a state; a panic of its own is recovered, one of the task is not. *)
Definition processTask {S} (own : Context) (e : ExecutorFunc D) (task : Task) (ctx : TaskContext)
    (callback : option (Result → option string → Z → S → outcome S)) (w : World D) (s : S) : World D * outcome S :=
  let taskCtx := match Ctx ctx with None => WithContext ctx own | Some _ => ctx end in
  match Execute e None task taskCtx w with
  | (w, Ret (result, err)) =>
      (w, Ret (match callback with
               | Some cb => match cb result err (now w) s with Ret s => s | _ => s end
               | None => s
               end))
  | (w, Fail e) => (w, Fail e)
  | (w, Panic p) => (w, Panic p)
  end.

(** The callback of [executeIndividualPing] from the aggregator on ([None]: a nil manager
    or aggregator); what it does before, giving back the connection and the token, is
    [Rounds.callback]. Both branches on the status submit the result. *)
Definition submit_result (send_first : bool) (l : Line) (startTime : Z) (result : Result) (err : option string) (t : Z)
    (agg : option Aggregator.Aggregator) : outcome (option Aggregator.Aggregator) :=
  match agg with
  | None => Ret None
  | Some a => match Aggregator.SubmitTaskResult send_first l "ping" result (t - startTime) (t / Second) a with
              | Ret (a, _) => Ret (Some a)
              | Fail e => Fail e
              | Panic p => Panic p
              end
  end.

(** The ping of line [l] of router [r], submitted at the time of [w]. *)
Definition run_ping (own ctx : Context) (c : EnhancedConnectionConfig) (r : Router) (l : Line) (send_first : bool) (w : World D)
    (agg : option Aggregator.Aggregator) : World D * outcome (option Aggregator.Aggregator) :=
  processTask own (asyncExecutor c) PingTask (ping_context r l CommandTypeCommands ctx)
    (Some (submit_result send_first l (now w))) w agg.

(** ** What the core leaves *)

Definition answered (r : Router) (l : Line) (raw : string) : Prop :=
  ∃ c t d, (drv_Execute c (mk_command CommandTypeCommands (Commands [ping_line r (IP l)])) t d).2 = inl raw.

Definition parsed (r : Router) (l : Line) (raw : string) : data * bool :=
  parser (Lines.Platform r) raw {[ "target_ip" := VStr (IP l); "raw_output" := VStr raw ]}.

(** A successful result is what the platform's parser made of an answer of the driver. *)
Definition sound_result (r : Router) (l : Line) (x : Result * option string) : Prop :=
  has_ping_status x ∧ (Success x.1 = true → ∃ raw, answered r l raw ∧ parsed r l raw = (Data x.1, true)).

Lemma ping_context_with r l t ctx c : WithContext (ping_context r l t ctx) c = ping_context r l t c.
Proof. done. Qed.

Lemma parse_ping r l ctx raw :
  ParseOutput PingTask (ping_context r l CommandTypeCommands ctx) (VBytes raw) =
  (mk_result (parsed r l raw).2 (parsed r l raw).1 "", None).
Proof.
  change (parse_text (ping_context r l CommandTypeCommands ctx) raw = (mk_result (parsed r l raw).2 (parsed r l raw).1 "", None)).
  unfold parse_text, parsed. cbn -[parser]. simplify_map_eq. by destruct (parser _ _ _).
Qed.

Lemma exec_error_sound r l s msg :
  s ∈ ping_statuses → s ≠ StatusCheckFinished →
  ∃ x, exec_error s msg = Ret x ∧ sound_result r l x.
Proof.
  intros Hs Hne. eexists. split; [reflexivity|]. split; [|done].
  exists s. unfold status_only. cbn. split; [by simplify_map_eq|done].
Qed.

Lemma core_ping r l ctx w :
  pinged r = true → IP l ≠ "" →
  let tc := ping_context r l CommandTypeCommands ctx in
  core PingTask tc w =
    match validateCapability (GetCapability (driver w)) tc with
    | Some e => (w, exec_error StatusConnectionError e)
    | None =>
        let '(w, o) := call_driver tc (mk_command CommandTypeCommands (Commands [ping_line r (IP l)])) w in
        match o with
        | inl raw => (w, Ret (mk_result (parsed r l raw).2 (parsed r l raw).1 "", None))
        | inr e => (w, exec_error (failure_status tc (now w) e) e)
        end
    end.
Proof.
  intros Hr Hl tc. destruct (ping_context_command r l ctx Hr Hl) as [Hv Hb]. unfold core.
  change (ValidateParams PingTask) with PingTask_ValidateParams. change (BuildCommand PingTask) with PingTask_BuildCommand.
  fold tc in Hv, Hb. rewrite Hv, Hb. cbn [Payload].
  destruct (validateCapability _ tc); [done|]. destruct (call_driver tc _ w) as [w1 [raw|e]]; [|done].
  unfold tc. by rewrite parse_ping.
Qed.

Lemma core_sound r l ctx w :
  pinged r = true → IP l ≠ "" →
  ∃ x, (core PingTask (ping_context r l CommandTypeCommands ctx) w).2 = Ret x ∧ sound_result r l x.
Proof.
  intros Hr Hl. rewrite core_ping by done. destruct (validateCapability _ _); [apply exec_error_sound; [set_solver|done]|].
  unfold call_driver. destruct (drv_Execute _ _ _ _) as [[d dt] [raw|e]] eqn:E.
  - pose proof (ping_output_status (ping_context r l CommandTypeCommands ctx) raw) as Hs. rewrite parse_ping in Hs.
    eexists. split; [reflexivity|]. split; [exact Hs|]. cbn. intros Hok. exists raw. split.
    + eexists _, _, _. by rewrite E.
    + rewrite <- Hok. by destruct (parsed r l raw).
  - cbn. apply exec_error_sound; by apply (failure_status_known (λ _, "")).
Qed.

(** The loop makes its attempts with the time-out's context. *)
Lemma asyncExecutor_loop c r l ctx w :
  0 ≤ TaskMaxRetries c < max_int64 →
  ∃ c', asyncExecutor c PingTask (ping_context r l CommandTypeCommands ctx) w =
    retry_loop (λ attempt, wait_or_done done_first (Some c') (backoff_delay math_pow (TaskRetryInterval c) (TaskBackoffFactor c) attempt))
      (core PingTask (ping_context r l CommandTypeCommands c')) (TaskMaxRetries c) (S (Z.to_nat (TaskMaxRetries c))) 0 zero_result w.
Proof.
  intros Hn. unfold asyncExecutor, NewExecutor, WithSmartTimeout, WithTimeout. cbn [foldr Ctx ping_context].
  rewrite ping_context_with. eexists. unfold WithExponentialRetry. do 2 f_equal.
  rewrite wrap64_id; unfold in_int64, min_int64, max_int64 in *; lia.
Qed.

(** The executor answers what one of the core's attempts answered, under one deadline. *)
Lemma executor_attempt c r l ctx w :
  0 ≤ TaskMaxRetries c < max_int64 → pinged r = true → IP l ≠ "" →
  ∃ ctx' w', (asyncExecutor c PingTask (ping_context r l CommandTypeCommands ctx) w).2 =
             (core PingTask (ping_context r l CommandTypeCommands ctx') w').2.
Proof.
  intros Hn Hr Hl. destruct (asyncExecutor_loop c r l ctx w Hn) as (c' & ->).
  destruct (retry_loop_spec
    (λ attempt, wait_or_done done_first (Some c') (backoff_delay math_pow (TaskRetryInterval c) (TaskBackoffFactor c) attempt))
    (core PingTask (ping_context r l CommandTypeCommands c')) (TaskMaxRetries c)) with (rest := Z.to_nat (TaskMaxRetries c)) (a := 0) (last := zero_result) (w := w)
    as (k & _ & _ & _ & Hk); [| |lia|lia|].
  - intros w'. by destruct (core_sound r l c' w' Hr Hl) as (x & -> & _).
  - intros a w'. apply wait_or_done_ret.
  - by eexists _, _.
Qed.

(** ** What reaches Zabbix *)

(** The aggregator after a callback submitted [e]: an error or a panic of [Submit]
    leaves it alone. *)
Definition after_submit (send_first : bool) (e : Aggregator.ResultEvent) a : Aggregator.Aggregator :=
  match Aggregator.Submit send_first e a with Ret (a', _) => a' | _ => a end.

Lemma run_ping_submits own ctx c r l send_first w a w' res err :
  asyncExecutor c PingTask (ping_context r l CommandTypeCommands ctx) w = (w', Ret (res, err)) →
  run_ping own ctx c r l send_first w (Some a) =
    (w', Ret (Some (after_submit send_first (Aggregator.event_of l "ping" res (now w' - now w) (now w' / Second)) a))).
Proof.
  intros E. unfold run_ping, processTask, Execute. cbn [Ctx ping_context]. change (Ctx (ping_context _ _ _ _)) with (Some ctx).
  cbn iota. rewrite E. unfold submit_result, after_submit, Aggregator.SubmitTaskResult.
  by destruct (Aggregator.Submit _ _ _) as [[a' e]| |].
Qed.

(** The key and value of a ping's metric. *)
Inductive outcome_of_ping (r : Router) (l : Line) : string → string → Prop :=
  | o_loss raw v : answered r l raw → (parsed r l raw).1 !! "packet_loss" = Some (VInt v) → 0 ≤ v ≤ 100 →
      outcome_of_ping r l "dedicatedLinePing" (itoa v)
  | o_range raw v : answered r l raw → (parsed r l raw).1 !! "packet_loss" = Some (VInt v) → (v < 0 ∨ 100 < v) →
      outcome_of_ping r l "dedicatedLineErrorDetail" "PacketLossOutOfRange"
  | o_no_loss raw : answered r l raw → (∀ v, (parsed r l raw).1 !! "packet_loss" ≠ Some (VInt v)) →
      outcome_of_ping r l "dedicatedLineErrorDetail" "InvalidPacketLossData"
  | o_failed s : s ∈ ["CheckTimeout"; "ParseResultFailed"; "ConnectionError"; "ExecutionError"] →
      outcome_of_ping r l "dedicatedLineErrorDetail" s.

Lemma sound_result_metric r l res err d t :
  sound_result r l (res, err) →
  let m := ZabbixSender.metric_of (Aggregator.event_of l "ping" res d t) in
  ZabbixSender.m_Host m = IP l ∧ ZabbixSender.m_Clock m = t ∧ ZabbixSender.m_Active m = false ∧
  outcome_of_ping r l (ZabbixSender.m_Key m) (ZabbixSender.m_Value m).
Proof.
  intros [(s & Hs & Hin & Hok & _) Hsound] m. cbn [fst] in *.
  destruct (ZabbixSender.metric_of_spec (Aggregator.event_of l "ping" res d t)) as (Hr & Hh & Hc & Ha).
  do 3 (split; [done|]). subst m. cbn in Hr.
  assert (Hfin : s = StatusCheckFinished → ∃ raw, answered r l raw ∧ (parsed r l raw).1 = Data res).
  { intros ->. destruct Hsound as (raw & H1 & H2); [by apply Hok|]. exists raw. by rewrite H2. }
  destruct Hr as [Hno|s' Hs' Hne|v Hs' Hv Hb|v Hs' Hv Hb|Hs' Hno]; cbn in *.
  - by destruct (Hno s).
  - rewrite Hs in Hs'. injection Hs' as ->. apply o_failed. unfold ping_statuses in Hin.
    apply elem_of_cons in Hin as [->|Hin]; [done|exact Hin].
  - rewrite Hs in Hs'. injection Hs' as ->. destruct Hfin as (raw & H1 & H2); [done|].
    eapply o_loss; [exact H1|by rewrite H2|done].
  - rewrite Hs in Hs'. injection Hs' as ->. destruct Hfin as (raw & H1 & H2); [done|].
    eapply o_range; [exact H1|by rewrite H2|done].
  - rewrite Hs in Hs'. injection Hs' as ->. destruct Hfin as (raw & H1 & H2); [done|].
    eapply o_no_loss; [exact H1|by rewrite H2].
Qed.

(** C14: every ping of a line with an address on a pinged router ends, without a panic and
    whatever the driver does, in one event for the aggregator. Its metric is for the
    line's address, and its value the loss that the platform's parser reads in an answer
    the driver gave to the line's own command, when that is between 0 and 100; otherwise
    it names what went wrong, and never that the status is missing. *)
Theorem ping_reaches_zabbix own ctx c r l send_first w a :
  0 ≤ TaskMaxRetries c < max_int64 → pinged r = true → IP l ≠ "" →
  ∃ w' e, run_ping own ctx c r l send_first w (Some a) = (w', Ret (Some (after_submit send_first e a))) ∧
    let m := ZabbixSender.metric_of e in
    ZabbixSender.m_Host m = IP l ∧ ZabbixSender.m_Clock m = now w' / Second ∧ ZabbixSender.m_Active m = false ∧
    outcome_of_ping r l (ZabbixSender.m_Key m) (ZabbixSender.m_Value m).
Proof.
  intros Hn Hr Hl. destruct (executor_attempt c r l ctx w Hn Hr Hl) as (ctx' & w0 & Ha).
  destruct (core_sound r l ctx' w0 Hr Hl) as ([res err] & Hx & Hs). rewrite Hx in Ha.
  destruct (asyncExecutor c PingTask (ping_context r l CommandTypeCommands ctx) w) as [w' o] eqn:E. cbn [snd] in Ha. subst o.
  eexists w', _. split; [by apply (run_ping_submits own ctx c r l send_first w a w' res err)|].
  by apply sound_result_metric with err.
Qed.

(** ** From the printed summary *)

(** The platform's summary of [n] percent in an output, and the loss the ping task reads
    in it, if any: [n] is the success rate on Cisco IOS and the loss elsewhere. *)
Inductive prints (output : string) (n : Z) : string → option Z → Prop :=
  | prints_ios p t pre raw post :
      p = PlatformCiscoIOSXE ∨ p = PlatformCiscoIOSXR → contains t "percent" = false →
      split_lines output = (pre ++ raw :: post)%list → trim_space raw = "Success rate is " +:+ itoa n +:+ " percent (" +:+ t →
      Forall (λ l, contains (trim_space l) "Success rate is" = false) pre →
      prints output n p (Some (100 - if n =? 100 then 100 else if n mod 10 =? 0 then 0 else n))
  | prints_nxos u t pre raw post :
      has_char percent u = false → has_char percent t = false →
      split_lines output = (pre ++ raw :: post)%list → trim_space raw = loss_line u (itoa n +:+ ".00") t →
      Forall (λ l, contains (trim_space l) "packet loss" = false) pre →
      prints output n PlatformCiscoNXOS (if n mod 10 =? 0 then Some 0 else None)
  | prints_vrp u t pre raw post :
      has_char percent u = false → has_char percent t = false →
      split_lines output = (pre ++ raw :: post)%list → trim_space raw = loss_line u (itoa n) t →
      Forall (λ l, contains (trim_space l) "packet loss" = false) pre →
      prints output n PlatformHuaweiVRP
        (Some (if existsb (λ l, contains (to_lower (trim_space l)) "request time out") (pre ++ [raw]) then 100
               else if n =? 100 then 100 else if n mod 10 =? 0 then 0 else n))
  | prints_comware u k t pre raw post :
      0 ≤ k ≤ 99 → has_char percent u = false →
      split_lines output = (pre ++ raw :: post)%list → raw = loss_line u (decimal n k) t →
      Forall (λ l, has_char percent l = false) pre →
      prints output n PlatformH3CComware (Some n).

Definition read_as (x : data * bool) (loss : option Z) : Prop :=
  x.2 = true ∧ x.1 !! "status" = Some (VStr "CheckFinished") ∧ x.1 !! "packet_loss" = VInt <$> loss.

Lemma reports_read_as x n : reports x n → read_as x (Some n).
Proof. intros (H1 & H2 & _ & H3). done. Qed.

Lemma prints_read r l output n loss :
  0 ≤ n ≤ 100 → prints output n (Lines.Platform r) loss →
  pinged (mk_router (router_IP r) (Username r) (Password r) (Lines.Platform r) ProtocolScrapli) = true ∧
  read_as (parsed r l output) loss ∧ (∀ v, loss = Some v → 0 ≤ v ≤ 100).
Proof.
  intros Hn Hp. unfold parsed, pinged. cbn [Lines.Protocol Lines.Platform].
  destruct Hp as [p t pre raw post Hp Ht Ho Hraw Hpre|u t pre raw post Hu Ht Ho Hraw Hpre|u t pre raw post Hu Ht Ho Hraw Hpre|u k t pre raw post Hk Hu Ho Hraw Hpre].
  - destruct Hp as [-> | ->]; (split; [reflexivity|split; [|intros v [= <-]; case_tests; lia]]);
      apply reports_read_as, (cisco_summary_reading n t output pre raw post); try done;
      by rewrite Hraw; unfold cisco_line; rewrite !string_app_assoc.
  - split; [reflexivity|]. split; [|intros v; case_match; [intros [= <-]; lia|done]].
    pose proof (nxos_summary_reading u n t output pre raw post
      {["target_ip" := VStr (IP l); "raw_output" := VStr output]} Hn Hu Ht Ho Hraw Hpre) as H0.
    destruct (n mod 10 =? 0); [by apply reports_read_as|]. destruct H0 as (H1 & H2 & H3). split; [done|]. by split.
  - split; [reflexivity|]. split; [|intros v [= <-]; case_tests; lia].
    by apply reports_read_as, (huawei_summary_reading u n t output pre raw post).
  - split; [reflexivity|]. split; [|by intros v [= <-]].
    by apply reports_read_as, (h3c_reports u n k t output pre raw post).
Qed.

(** A ping whose first answer is parsed as a success needs one attempt. *)
Lemma executor_first c r l ctx w output :
  0 ≤ TaskMaxRetries c < max_int64 → pinged r = true → IP l ≠ "" → GetCapability (driver w) = ScrapliCapability →
  (∀ k, ∃ d t, drv_Execute k (mk_command CommandTypeCommands (Commands [ping_line r (IP l)])) (now w) (driver w) = (d, t, inl output)) →
  (parsed r l output).2 = true →
  ∃ w', asyncExecutor c PingTask (ping_context r l CommandTypeCommands ctx) w =
        (w', Ret (mk_result true (parsed r l output).1 "", None)).
Proof.
  intros Hn Hr Hl Hcap Hdrv Hok. destruct (asyncExecutor_loop c r l ctx w Hn) as (c' & ->).
  cbn [retry_loop]. rewrite core_ping by done. rewrite Hcap.
  replace (validateCapability _ _) with (None : option string).
  2: { unfold validateCapability, ping_context. cbn [Platform CommandType].
       unfold pinged in Hr. apply andb_true_iff in Hr as [_ Hr].
       replace (existsb _ (Types.PlatformSupport ScrapliCapability)) with true; [reflexivity|].
       symmetry. cbn [existsb ScrapliCapability Types.PlatformSupport] in *. rewrite !orb_true_iff in *. tauto. }
  unfold call_driver. change (Ctx (ping_context r l CommandTypeCommands c')) with (Some c').
  destruct (Hdrv (Some c')) as (d & t & ->). rewrite Hok. by eexists.
Qed.

End pipeline.

(** ** Pings of a scripted device *)
Module Demo.
Definition config : EnhancedConnectionConfig := NewConfigBuilder.
Definition router (platform : string) : Router := mk_router "10.0.0.1" "ops" "secret" platform ProtocolScrapli.
Definition line (platform : string) : Line := mk_line "" "10.1.1.1" Minute (router platform) 0.
Definition aggregator : Aggregator.Aggregator := Aggregator.NewAggregator 3 50.
Definition context : Context := mk_context None None.
Definition world (answers : list (string + string)) : World (list (string + string)) := mk_world 0 answers [] [].
End Demo.

Lemma ping_reaches_zabbix_witness :
  let r := Demo.router PlatformHuaweiVRP in let l := Demo.line PlatformHuaweiVRP in
  pinged r = true ∧
  ∃ w' e, run_ping Script.pow_one true Demo.context Demo.context Demo.config r l true
            (Demo.world [inr "EOF"; inr "connection reset"]) (Some Demo.aggregator) =
          (w', Ret (Some (after_submit true e Demo.aggregator))) ∧
    let m := ZabbixSender.metric_of e in
    ZabbixSender.m_Host m = "10.1.1.1" ∧ ZabbixSender.m_Clock m = now w' / Second ∧ ZabbixSender.m_Active m = false ∧
    outcome_of_ping r l (ZabbixSender.m_Key m) (ZabbixSender.m_Value m).
Proof.
  intros r l. split; [reflexivity|].
  apply (ping_reaches_zabbix Script.pow_one true Demo.context Demo.context Demo.config r l true); [|reflexivity|discriminate].
  split; [discriminate|reflexivity].
Defined.

