(* ===== verification/Metrics.v ===== *)
(** * Metrics: the collector of counters ([src/connection/metrics.go])

    The collector keeps its counters behind pointers: the maps, which a
    [sync.RWMutex] guards, name structures whose fields are updated atomically, so
    that an operation that has got its structure writes to it even after [Reset] has
    dropped it. The mutex is Go's: a reader waits while a writer holds the lock or
    waits for it. *)
From S2P Require Import Prelude GoFloat Conc.
Local Open Scope string_scope.
Local Open Scope Z_scope.

Record atomicConnectionMetrics := mk_conn_metrics {
  created : Z;
  destroyed : Z;
  reused : Z;
  failed : Z;
  active : Z;
  idle : Z;
  total : Z;
  healthCheckSuccess : Z;
  healthCheckFailed : Z;
  healthCheckLatency : Z;
  connectionsNeedingRebuild : Z;
  rebuildMarkedTotal : Z;
  rebuildStarted : Z;
  rebuildCompleted : Z;
  rebuildFailed : Z;
  rebuildDuration : Z;
  rebuildingConnections : Z;
  totalLifetime : Z;
  lifetimeCount : Z }.
Definition no_conn_metrics : atomicConnectionMetrics := mk_conn_metrics 0 0 0 0 0 0 0 0 0 0 0 0 0 0 0 0 0 0 0.

Record atomicOperationMetrics := mk_op_metrics {
  count : Z;
  errors : Z;
  totalDuration : Z;
  minDuration : Z;
  maxDuration : Z }.
Definition no_op_metrics : atomicOperationMetrics := mk_op_metrics 0 0 0 0 0.

(** [sync.RWMutex]: the readers inside, whether a writer is inside, the writers that
    have announced themselves. *)
Record RWMutex := mk_rw { readers : nat; writing : bool; pending : nat }.

Record DefaultMetricsCollector := mk_collector {
  mu : RWMutex;
  connectionMetrics : gmap string nat;
  operationMetrics : gmap (string * string) nat;
  rebuildMarkedByReason : gmap string (gmap string Z);
  startTime : Z;
  lastUpdate : Z;
  conn_structs : list atomicConnectionMetrics;
  op_structs : list atomicOperationMetrics }.
Definition NewDefaultMetricsCollector (now : Z) : DefaultMetricsCollector :=
  mk_collector (mk_rw 0 false 0) ∅ ∅ ∅ now now [] [].

(** The answer of the environment is the time. *)
Abbreviation prog := (Conc.prog DefaultMetricsCollector Z).
Definition step {B} (f : DefaultMetricsCollector → DefaultMetricsCollector * B) : prog B := act (λ s _, Some (f s)).

(** ** The lock *)
Definition on_lock (f : RWMutex → option RWMutex) : prog unit :=
  act (λ s _, (λ l, ({ s with mu := l }, ())) <$> f (mu s)).
Definition Lock : prog unit :=
  on_lock (λ l, Some { l with pending ::= S });;
  on_lock (λ l, if (readers l =? 0)%nat && negb (writing l) then Some { l with writing := true; pending ::= pred } else None).
Definition Unlock : prog unit := on_lock (λ l, Some { l with writing := false }).
Definition RLock : prog unit :=
  on_lock (λ l, if negb (writing l) && (pending l =? 0)%nat then Some { l with readers ::= S } else None).
Definition RUnlock : prog unit := on_lock (λ l, Some { l with readers ::= pred }).

(** ** The structures *)
Definition getConnectionMetrics (protocol : string) : prog nat :=
  Lock;;
  i ← step (λ s, match connectionMetrics s !! protocol with
                 | Some i => (s, i)
                 | None => let i := length (conn_structs s) in
                           ({ s with connectionMetrics ::= <[protocol := i]>;
                                     conn_structs ::= (λ l, l ++ [no_conn_metrics])%list }, i)
                 end);
  Unlock;; mret i.

Definition getOperationMetrics (protocol operation : string) : prog nat :=
  Lock;;
  i ← step (λ s, match operationMetrics s !! (protocol, operation) with
                 | Some i => (s, i)
                 | None => let i := length (op_structs s) in
                           ({ s with operationMetrics ::= <[(protocol, operation) := i]>;
                                     op_structs ::= (λ l, l ++ [no_op_metrics])%list }, i)
                 end);
  Unlock;; mret i.

Definition bump (n z : Z) : Z := wrap64 (z + n).
Definition on_conn (i : nat) (f : atomicConnectionMetrics → atomicConnectionMetrics) : prog unit :=
  step (λ s, ({ s with conn_structs ::= alter f i }, ())).
Definition on_op (i : nat) (f : atomicOperationMetrics → atomicOperationMetrics) : prog unit :=
  step (λ s, ({ s with op_structs ::= alter f i }, ())).

(** ** Connections *)
Section protocol.
Context (protocol : string).

Definition IncrementConnectionsCreated : prog unit :=
  i ← getConnectionMetrics protocol; on_conn i (λ m, { m with created ::= bump 1 });; on_conn i (λ m, { m with total ::= bump 1 }).
Definition IncrementConnectionsDestroyed : prog unit :=
  i ← getConnectionMetrics protocol; on_conn i (λ m, { m with destroyed ::= bump 1 });; on_conn i (λ m, { m with total ::= bump (-1) }).
Definition IncrementConnectionsReused : prog unit :=
  i ← getConnectionMetrics protocol; on_conn i (λ m, { m with reused ::= bump 1 }).
Definition IncrementConnectionsFailed : prog unit :=
  i ← getConnectionMetrics protocol; on_conn i (λ m, { m with failed ::= bump 1 }).
Definition SetActiveConnections (n : Z) : prog unit :=
  i ← getConnectionMetrics protocol; on_conn i (λ m, { m with active := n }).
Definition SetIdleConnections (n : Z) : prog unit :=
  i ← getConnectionMetrics protocol; on_conn i (λ m, { m with idle := n }).
Definition SetPoolSize (n : Z) : prog unit :=
  i ← getConnectionMetrics protocol; on_conn i (λ m, { m with total := n }).
Definition IncrementHealthCheckSuccess : prog unit :=
  i ← getConnectionMetrics protocol; on_conn i (λ m, { m with healthCheckSuccess ::= bump 1 }).
Definition IncrementHealthCheckFailed : prog unit :=
  i ← getConnectionMetrics protocol; on_conn i (λ m, { m with healthCheckFailed ::= bump 1 }).
Definition RecordHealthCheckDuration (d : Z) : prog unit :=
  i ← getConnectionMetrics protocol; on_conn i (λ m, { m with healthCheckLatency := d }).
Definition RecordConnectionLifetime (d : Z) : prog unit :=
  i ← getConnectionMetrics protocol; on_conn i (λ m, { m with totalLifetime ::= bump d });; on_conn i (λ m, { m with lifetimeCount ::= bump 1 }).

(** ** Rebuilds *)
Definition IncrementConnectionsNeedingRebuild : prog unit :=
  i ← getConnectionMetrics protocol; on_conn i (λ m, { m with connectionsNeedingRebuild ::= bump 1 }).
Definition IncrementRebuildMarked (reason : string) : prog unit :=
  i ← getConnectionMetrics protocol; on_conn i (λ m, { m with rebuildMarkedTotal ::= bump 1 });;
  Lock;;
  step (λ s, ({ s with rebuildMarkedByReason ::= (λ m,
                 let reasons := default ∅ (m !! protocol) in
                 <[protocol := <[reason := bump 1 (default 0 (reasons !! reason))]> reasons]> m) }, ()));;
  Unlock.
Definition IncrementRebuildStarted : prog unit :=
  i ← getConnectionMetrics protocol;
  on_conn i (λ m, { m with rebuildStarted ::= bump 1 });; on_conn i (λ m, { m with rebuildingConnections ::= bump 1 }).
Definition IncrementRebuildCompleted : prog unit :=
  i ← getConnectionMetrics protocol;
  on_conn i (λ m, { m with rebuildCompleted ::= bump 1 });; on_conn i (λ m, { m with rebuildingConnections ::= bump (-1) }).
Definition IncrementRebuildFailed : prog unit :=
  i ← getConnectionMetrics protocol;
  on_conn i (λ m, { m with rebuildFailed ::= bump 1 });; on_conn i (λ m, { m with rebuildingConnections ::= bump (-1) }).
Definition RecordRebuildDuration (d : Z) : prog unit :=
  i ← getConnectionMetrics protocol; on_conn i (λ m, { m with rebuildDuration := d }).
Definition SetRebuildingConnections (n : Z) : prog unit :=
  i ← getConnectionMetrics protocol; on_conn i (λ m, { m with rebuildingConnections := n }).
Definition IncrementRebuildingConnections : prog unit :=
  i ← getConnectionMetrics protocol; on_conn i (λ m, { m with rebuildingConnections ::= bump 1 }).
Definition DecrementRebuildingConnections : prog unit :=
  i ← getConnectionMetrics protocol; on_conn i (λ m, { m with rebuildingConnections ::= bump (-1) }).

(** What [sendRebuildStartedEvent] and [sendRebuildCompletedEvent] of the rebuild
    manager record. *)
Definition sendRebuildStartedEvent : prog unit := IncrementRebuildStarted;; IncrementRebuildingConnections.
Definition sendRebuildCompletedEvent (d : Z) (success : bool) : prog unit :=
  RecordRebuildDuration d;; DecrementRebuildingConnections;;
  if success then IncrementRebuildCompleted else IncrementRebuildFailed.

(** ** Operations *)

(** The loops of compare-and-swap, each of which is one update in the end. *)
Definition smaller (nanos current : Z) : Z := if (current =? 0) || (nanos <? current) then nanos else current.
Definition larger (nanos current : Z) : Z := if current <? nanos then nanos else current.

Definition RecordOperationDuration (operation : string) (nanos : Z) : prog unit :=
  i ← getOperationMetrics protocol operation;
  on_op i (λ m, { m with totalDuration ::= bump nanos });;
  on_op i (λ m, { m with minDuration ::= smaller nanos });;
  on_op i (λ m, { m with maxDuration ::= larger nanos }).
Definition IncrementOperationCount (operation : string) : prog unit :=
  i ← getOperationMetrics protocol operation; on_op i (λ m, { m with count ::= bump 1 }).
Definition IncrementOperationErrors (operation : string) : prog unit :=
  i ← getOperationMetrics protocol operation; on_op i (λ m, { m with errors ::= bump 1 }).

(** [WrapOperation] around a function that answers an error or none at some time. *)
Definition WrapOperation {E} (operation : string) (fn : prog (option E)) : prog (option E) :=
  start ← act (λ s t, Some (s, t));
  IncrementOperationCount operation;;
  err ← fn;
  finish ← act (λ s t, Some (s, t));
  RecordOperationDuration operation (time_sub finish start);;
  (match err with Some _ => IncrementOperationErrors operation | None => mret () end);;
  mret err.
End protocol.

(** ** Snapshots *)

Record ConnectionMetrics := mk_snapshot_conn {
  counters : atomicConnectionMetrics;
  RebuildMarkedByReason : gmap string Z;
  CreationRate : float64;
  DestructionRate : float64;
  ReuseRate : float64;
  FailureRate : float64;
  AverageLifetime : Z }.

Record OperationMetrics := mk_snapshot_op {
  op_counters : atomicOperationMetrics;
  AvgDuration : Z;
  SuccessRate : float64;
  ErrorRate : float64;
  Throughput : float64 }.

Record MetricsSnapshot := mk_snapshot {
  Timestamp : Z;
  ConnectionMetrics_of : gmap string ConnectionMetrics;
  OperationMetrics_of : gmap (string * string) OperationMetrics;
  Uptime : Z }.

Definition float_zero : float64 := of_int 0.
Definition rate (n d : Z) : float64 := if 0 <? d then fdiv (of_int n) (of_int d) else float_zero.

Definition snapshot_conn (uptime timeDelta : Z) (reasons : gmap string Z) (m : atomicConnectionMetrics) : ConnectionMetrics := {|
  counters := m;
  RebuildMarkedByReason := reasons;
  CreationRate := if flt float_zero (seconds timeDelta) then fdiv (of_int (created m)) (seconds uptime) else float_zero;
  DestructionRate := if flt float_zero (seconds timeDelta) then fdiv (of_int (destroyed m)) (seconds uptime) else float_zero;
  ReuseRate := rate (reused m) (wrap64 (created m + reused m));
  FailureRate := rate (failed m) (wrap64 (created m + failed m));
  AverageLifetime := if 0 <? lifetimeCount m then wrap64 (Z.quot (totalLifetime m) (lifetimeCount m)) else 0 |}.

Definition snapshot_op (uptime timeDelta : Z) (m : atomicOperationMetrics) : OperationMetrics := {|
  op_counters := m;
  AvgDuration := if 0 <? count m then wrap64 (Z.quot (totalDuration m) (count m)) else 0;
  SuccessRate := rate (wrap64 (count m - errors m)) (count m);
  ErrorRate := rate (errors m) (count m);
  Throughput := if flt float_zero (seconds timeDelta) then fdiv (of_int (count m)) (seconds uptime) else float_zero |}.

(** The fields of a structure, loaded one after the other in the code, are one action
    here. *)
Fixpoint collect_conns (uptime timeDelta : Z) (l : list (string * nat)) (acc : gmap string ConnectionMetrics)
    : prog (gmap string ConnectionMetrics) :=
  match l with
  | [] => mret acc
  | (protocol, i) :: l =>
      m ← step (λ s, (s, default no_conn_metrics (conn_structs s !! i)));
      RLock;;
      reasons ← step (λ s, (s, default ∅ (rebuildMarkedByReason s !! protocol)));
      RUnlock;;
      collect_conns uptime timeDelta l (<[protocol := snapshot_conn uptime timeDelta reasons m]> acc)
  end.
Fixpoint collect_ops (uptime timeDelta : Z) (l : list ((string * string) * nat)) (acc : gmap (string * string) OperationMetrics)
    : prog (gmap (string * string) OperationMetrics) :=
  match l with
  | [] => mret acc
  | (key, i) :: l =>
      m ← step (λ s, (s, default no_op_metrics (op_structs s !! i)));
      collect_ops uptime timeDelta l (<[key := snapshot_op uptime timeDelta m]> acc)
  end.

(** The order in which the maps are ranged over does not show in the snapshot. *)
Definition GetMetrics : prog MetricsSnapshot :=
  RLock;;
  '(now, uptime, timeDelta) ← act (λ s t, Some (s, (t, time_sub t (startTime s), time_sub t (lastUpdate s))));
  conns ← step (λ s, (s, map_to_list (connectionMetrics s)));
  cs ← collect_conns uptime timeDelta conns ∅;
  ops ← step (λ s, (s, map_to_list (operationMetrics s)));
  os ← collect_ops uptime timeDelta ops ∅;
  step (λ s, ({ s with lastUpdate := now }, ()));;
  RUnlock;;
  mret (mk_snapshot now cs os uptime).

Definition Reset : prog unit :=
  Lock;;
  act (λ s t, Some ({ s with connectionMetrics := ∅; operationMetrics := ∅; rebuildMarkedByReason := ∅;
                             startTime := t; lastUpdate := t }, ()));;
  Unlock.

(** ** The deadlock *)

(** A caller that records a connection and takes a snapshot, and one that records a
    failure. *)
Definition snapshot_race : list (prog unit) :=
  [IncrementConnectionsCreated "ssh";; GetMetrics;; mret (); IncrementConnectionsFailed "ssh"].

(** The snapshot is inside, the failure announces its [Lock], the snapshot wants to
    enter again. *)
Definition race_schedule : list (nat * Z) :=
  ((pair 0%nat <$> [0; 0; 0; 0; 0; 0; 1; 1; 1; 1]) ++ [(1%nat, 1)])%list.

Definition unfinished (p : prog unit) : bool := match p with Done _ => false | _ => true end.
Definition stuck (ts : list (prog unit)) s (i : nat) (x : Z) : bool :=
  match sched_step ts s i x with Some _ => false | None => true end.

(** C40: a snapshot holds the lock as a reader and enters it a second time for each
    protocol; when another goroutine asks for the lock in between, as every counter
    does, both wait for each other for ever, and no answer of the environment lets
    any of them go on. *)
Theorem GetMetrics_deadlock :
  ∃ ts s, sched snapshot_race (NewDefaultMetricsCollector 0) race_schedule = Some (ts, s) ∧
    Forall (λ p, ∀ a, p ≠ Done a) ts ∧ ∀ i x, sched_step ts s i x = None.
Proof.
  assert (Hlen : match sched snapshot_race (NewDefaultMetricsCollector 0) race_schedule with
                 | Some (ts, s) => (length ts =? 2)%nat && forallb unfinished ts | None => false end = true) by (vm_compute; reflexivity).
  assert (H0 : ∀ x, match sched snapshot_race (NewDefaultMetricsCollector 0) race_schedule with
                    | Some (ts, s) => stuck ts s 0 x && stuck ts s 1 x | None => false end = true)
    by (intros x; vm_compute; reflexivity).
  destruct (sched _ _ race_schedule) as [[ts s]|]; [|done]. exists ts, s. split; [done|]. btrue. split.
  - apply Forall_forall. intros p Hp a ->. apply list_elem_of_In in Hp.
    by apply (proj1 (forallb_forall _ _) H1) in Hp.
  - intros i x. specialize (H0 x). btrue. unfold stuck in *.
    destruct (sched_step ts s 0 x) eqn:E0, (sched_step ts s 1 x) eqn:E1; try done. destruct i as [|[|i]]; [done..|].
    unfold sched_step. destruct ts as [|p [|q []]]; done.
Qed.

(** ** One caller alone *)

Definition unlocked s : Prop := mu s = mk_rw 0 false 0.
Definition op_of s (key : string * string) : option atomicOperationMetrics := operationMetrics s !! key ≫= λ i, op_structs s !! i.
Definition conn_of s (protocol : string) : option atomicConnectionMetrics := connectionMetrics s !! protocol ≫= λ i, conn_structs s !! i.

(** A structure of the maps exists, and belongs to one key only. *)
Record tidy s : Prop := {
  td_unlocked : unlocked s;
  td_op key i : operationMetrics s !! key = Some i → (i < length (op_structs s))%nat;
  td_op_inj k1 k2 i : operationMetrics s !! k1 = Some i → operationMetrics s !! k2 = Some i → k1 = k2;
  td_conn p i : connectionMetrics s !! p = Some i → (i < length (conn_structs s))%nat }.

Section alone.
Context {E : DefaultMetricsCollector → string → Prop}.

Lemma wp_collector_step {B} (f : DefaultMetricsCollector → DefaultMetricsCollector * B) Q s : Q (f s).1 (f s).2 → wp (step f) Q E s.
Proof.
  intros H. apply wp_act; [by exists 0, (f s)|]. intros x s' b Ef. destruct (f s). by simplify_eq/=.
Qed.
Lemma wp_on_lock f Q s l : f (mu s) = Some l → Q { s with mu := l } () → wp (on_lock f) Q E s.
Proof.
  intros Hl H. apply wp_act; [exists 0; rewrite Hl; eauto|]. intros x s' b Ef. rewrite Hl in Ef. by injection Ef as <- <-.
Qed.

Lemma same_lock s : unlocked s → { s with mu := mk_rw 0 false 0 } = s.
Proof. unfold unlocked. destruct s. simpl. by intros ->. Qed.

(** A section under the lock, when nobody else is around. *)
Lemma wp_locked {B} (f : DefaultMetricsCollector → DefaultMetricsCollector * B) Q s :
  unlocked s → (∀ l, f { s with mu := l } = ({ (f s).1 with mu := l }, (f s).2)) → unlocked (f s).1 →
  Q (f s).1 (f s).2 → wp (Lock;; i ← step f; Unlock;; mret i) Q E s.
Proof.
  intros Hu Hf Hu' H. apply wp_bind, wp_bind. apply (wp_on_lock _ _ _ (mk_rw 0 false 1)); [by rewrite Hu|].
  apply (wp_on_lock _ _ _ (mk_rw 0 true 0)); [done|]. apply wp_bind, wp_collector_step.
  change (wp (Unlock;; mret (f { s with mu := mk_rw 0 true 0 }).2) Q E (f { s with mu := mk_rw 0 true 0 }).1).
  rewrite Hf. cbn [fst snd]. apply wp_bind. apply (wp_on_lock _ _ _ (mk_rw 0 false 0)); [done|]. apply wp_ret.
  rewrite <- (same_lock _ Hu') in H. exact H.
Qed.

Lemma wp_getOperationMetrics p o s :
  tidy s →
  wp (getOperationMetrics p o) (λ s' i, tidy s' ∧ operationMetrics s' !! (p, o) = Some i ∧
    op_structs s' !! i = Some (default no_op_metrics (op_of s (p, o)))) E s.
Proof.
  intros [Hu H1 H2 H3]. apply wp_locked; [done|..]; unfold op_of.
  - intros l. cbn. by destruct (operationMetrics s !! (p, o)).
  - by destruct (operationMetrics s !! (p, o)).
  - destruct (operationMetrics s !! (p, o)) as [i|] eqn:Hi; cbn [fst snd].
    + split; [by split|]. split; [done|]. simpl. destruct (lookup_lt_is_Some_2 _ _ (H1 _ _ Hi)) as [m ->]. done.
    + cbn. split; [split; cbn; [done|..]|].
      * intros key i [[<- <-]|[_ Hk]]%lookup_insert_Some; rewrite length_app; simpl; [lia|]. apply H1 in Hk. lia.
      * intros k1 k2 i [[<- <-]|[_ Hk1]]%lookup_insert_Some [[<- Hl]|[_ Hk2]]%lookup_insert_Some; subst; try done.
        -- apply H1 in Hk2. lia.
        -- apply H1 in Hk1. lia.
        -- by eapply H2.
      * done.
      * rewrite lookup_insert_eq. split; [done|]. by apply list_lookup_middle.
Qed.

(** What one duration does to a structure. *)
Definition recorded (nanos : Z) (m : atomicOperationMetrics) : atomicOperationMetrics :=
  { m with totalDuration ::= bump nanos; minDuration ::= smaller nanos; maxDuration ::= larger nanos }.

Lemma wp_RecordOperationDuration p o nanos s :
  tidy s →
  wp (RecordOperationDuration p o nanos) (λ s' _, tidy s' ∧
    op_of s' (p, o) = Some (recorded nanos (default no_op_metrics (op_of s (p, o))))) E s.
Proof.
  intros Ht. apply wp_bind. eapply wp_mono; [by apply wp_getOperationMetrics| |done].
  intros s1 i ([Hu H1 H2 H3] & Hi & Hm). do 2 (apply wp_bind, wp_collector_step). apply wp_collector_step. cbn [fst snd]. split.
  - split; cbn; [done| |done|done]. intros key j Hj. rewrite !length_alter. by eapply H1.
  - unfold op_of. cbn. rewrite Hi. cbn. by rewrite !list_lookup_alter_eq, Hm.
Qed.
End alone.

Fixpoint record_all (p o : string) (l : list Z) : prog unit :=
  match l with [] => mret () | d :: l => RecordOperationDuration p o d;; record_all p o l end.

Definition sum (l : list Z) : Z := foldr Z.add 0 l.
Definition minimum (l : list Z) : Z := foldl (λ m d, smaller d m) 0 l.
Definition maximum (l : list Z) : Z := foldl Z.max 0 l.

Lemma wp_record_all (E : DefaultMetricsCollector → string → Prop) p o l s m :
  tidy s → op_of s (p, o) = Some m →
  wp (record_all p o l) (λ s' _, tidy s' ∧ op_of s' (p, o) = Some (foldl (λ m d, recorded d m) m l)) E s.
Proof.
  revert s m. induction l as [|d l IH]; intros s m Ht Hm; cbn [record_all foldl]; [by apply wp_ret|].
  apply wp_bind. eapply wp_mono; [by apply wp_RecordOperationDuration| |done]. intros s1 _ [Ht1 Hop].
  rewrite Hm in Hop. by apply IH.
Qed.

(** What a list of durations leaves in a structure that has none yet. *)
Lemma recorded_total l m : totalDuration (foldl (λ m d, recorded d m) m l) = foldl (λ t d, bump d t) (totalDuration m) l.
Proof. revert m. induction l; intros m; [done|]. simpl. by rewrite IHl. Qed.
Lemma wrap64_add_l a b : wrap64 (wrap64 a + b) = wrap64 (a + b).
Proof.
  unfold wrap64 at 1 3. f_equal. rewrite <- !(Z.add_assoc _ b), <- (Zplus_mod_idemp_l (wrap64 a)), wrap64_mod.
  by rewrite Zplus_mod_idemp_l.
Qed.
Lemma bumps_sum l t : in_int64 t → foldl (λ t d, bump d t) t l = wrap64 (t + foldr Z.add 0 l).
Proof.
  revert t. induction l as [|d l IH]; intros t Ht; cbn [foldl foldr]; [by rewrite Z.add_0_r, wrap64_id|].
  rewrite IH by apply wrap64_range. unfold bump. rewrite wrap64_add_l. f_equal. lia.
Qed.

Lemma recorded_counts l m : count (foldl (λ m d, recorded d m) m l) = count m ∧ errors (foldl (λ m d, recorded d m) m l) = errors m.
Proof. revert m. induction l as [|d l IH]; intros m; [done|]. cbn [foldl]. by destruct (IH (recorded d m)) as [-> ->]. Qed.

Lemma recorded_extremes l m seen :
  Forall (Z.lt 0) l → minDuration m ∈ seen → maxDuration m ∈ seen →
  Forall (λ d, 0 < d ∧ minDuration m <= d <= maxDuration m) seen →
  let m' := foldl (λ m d, recorded d m) m l in
  minDuration m' ∈ (seen ++ l)%list ∧ maxDuration m' ∈ (seen ++ l)%list ∧ Forall (λ d, minDuration m' <= d <= maxDuration m') (seen ++ l)%list.
Proof.
  revert m seen. induction l as [|d l IH]; intros m seen Hl Hmin Hmax Hs; cbn [foldl].
  - rewrite app_nil_r. split_and!; [done..|]. eapply Forall_impl; [done|]. naive_solver.
  - apply Forall_cons in Hl as [Hd Hl]. pose proof (proj1 (Forall_forall _ _) Hs) as Hf. pose proof (Hf _ Hmin) as Hm.
    replace (seen ++ d :: l)%list with ((seen ++ [d]) ++ l)%list by by rewrite <- app_assoc.
    apply IH; [done|..]; cbn; unfold smaller, larger.
    + destruct (_ || _); apply elem_of_app; [right; by apply list_elem_of_singleton|by left].
    + destruct (_ <? _); apply elem_of_app; [right; by apply list_elem_of_singleton|by left].
    + rewrite Forall_app, Forall_singleton. split.
      * eapply Forall_impl; [exact Hs|]. intros x Hx. cbv beta in *.
        destruct (Z.eqb_spec (minDuration m) 0), (Z.ltb_spec d (minDuration m)), (Z.ltb_spec (maxDuration m) d); simpl; lia.
      * destruct (Z.eqb_spec (minDuration m) 0), (Z.ltb_spec d (minDuration m)), (Z.ltb_spec (maxDuration m) d); simpl; lia.
Qed.

(** Recording a list of positive durations for an operation that has none yet
    leaves their sum (wrapped to 64 bits), the smallest and the largest of them; the
    compare-and-swap loops lose none. *)
Theorem durations_recorded p o l s :
  tidy s → op_of s (p, o) = None → l ≠ [] → Forall (Z.lt 0) l →
  wp (record_all p o l) (λ s' _, tidy s' ∧ ∃ m, op_of s' (p, o) = Some m ∧ count m = 0 ∧ errors m = 0 ∧
      totalDuration m = wrap64 (foldr Z.add 0 l) ∧ minDuration m ∈ l ∧ maxDuration m ∈ l ∧
      Forall (λ d, minDuration m <= d <= maxDuration m) l) (λ _ _, False) s.
Proof.
  intros Ht Hn Hl Hpos. destruct l as [|d l]; [done|]. cbn [record_all]. apply wp_bind.
  eapply wp_mono; [by apply (wp_RecordOperationDuration (E := λ _ _, False))| |done]. intros s1 _ [Ht1 Hop]. rewrite Hn in Hop.
  eapply wp_mono; [by eapply (wp_record_all (λ _ _, False))| |done]. intros s2 _ [Ht2 Hop2]. split; [done|]. eexists. split; [done|].
  change (foldl _ _ l) with (foldl (λ m d, recorded d m) no_op_metrics (d :: l)). rewrite recorded_total, bumps_sum by done.
  destruct (recorded_counts (d :: l) no_op_metrics) as [-> ->].
  apply Forall_cons in Hpos as [Hd Hpos].
  destruct (recorded_extremes l (recorded d no_op_metrics) [d]) as (? & ? & ?); [done|..]; cbn;
    unfold larger; rewrite ?(proj2 (Z.ltb_lt _ _) Hd); [by apply list_elem_of_singleton..| |done].
  apply Forall_singleton. lia.
Qed.
Lemma durations_recorded_witness :
  tidy (NewDefaultMetricsCollector 0) ∧
  wp (record_all "ssh" "execute" [30; 10; 20]) (λ s' _, tidy s' ∧ ∃ m, op_of s' ("ssh", "execute") = Some m ∧
      count m = 0 ∧ errors m = 0 ∧ totalDuration m = wrap64 60 ∧ minDuration m ∈ [30; 10; 20] ∧ maxDuration m ∈ [30; 10; 20] ∧
      Forall (λ d, minDuration m <= d <= maxDuration m) [30; 10; 20]) (λ _ _, False) (NewDefaultMetricsCollector 0).
Proof.
  assert (H : tidy (NewDefaultMetricsCollector 0)) by (split; [done|discriminate..]). split; [done|].
  apply (durations_recorded "ssh" "execute" [30; 10; 20]); [done..|]. repeat constructor.
Defined.

(** A rebuild that starts is counted twice among those under way, by
    [IncrementRebuildStarted] and by the manager, and one that ends twice as well. *)
Definition rebuilding_after (p : prog unit) : option Z :=
  match run p (NewDefaultMetricsCollector 0) (repeat 0 40) with
  | Some (s, _, Ret _) => rebuildingConnections <$> conn_of s "ssh"
  | _ => None
  end.
Example rebuild_counted_twice :
  rebuilding_after (sendRebuildStartedEvent "ssh") = Some 2 ∧
  rebuilding_after (sendRebuildStartedEvent "ssh";; sendRebuildCompletedEvent "ssh" 5 true) = Some 0.
Proof. split; vm_compute; reflexivity. Qed.
