(* ===== verification/Adapters.v ===== *)
(** * Adapters: the platform adapters ([src/task/adapter.go], [src/task/adapter_cisco.go])

    An adapter fills in the parameters of a platform, gives the template of its
    ping command, checks the parameters and reads the output of the device. It is a
    second reading of the outputs that [Ping] parses; the last part of the file
    compares the two. [NormalizeParams] writes into the map it is given and returns
    that map, so its result is the new content of the map. *)
From Stdlib Require Import Ascii String.
From S2P Require Import Prelude GoStrings GoFloat Types Task Ping PingParse.
Local Open Scope string_scope.
Local Open Scope Z_scope.

(** The interface [PlatformAdapter]. *)
Record PlatformAdapter := mk_adapter {
  NormalizeParams : data → data;
  ConvertOutput : string → data;
  GetCommandTemplate : string → string → string + string;      (* the template or the error *)
  ValidatePlatformParams : data → option string }.

(** [if _, ok := params[k]; !ok { params[k] = v }] *)
Definition set_missing (k : string) (v : value) (d : data) : data :=
  match d !! k with Some _ => d | None => <[k := v]> d end.

(** The template of the only task there is; [platform] is empty in the generic adapter. *)
Definition ping_template (platform text taskType : string) : string + string :=
  if String.eqb taskType "ping" then inl text
  else inr ("unsupported task type" +:+ platform +:+ ": " +:+ taskType).

(** [if r, ok := params[k].(int); ok && (r < lo || r > hi)] *)
Definition int_outside (k : string) (lo hi : Z) (d : data) : bool :=
  match d !! k ≫= as_int with Some r => (r <? lo) || (hi <? r) | None => false end.
Definition dur_outside (k : string) (lo hi : Z) (d : data) : bool :=
  match d !! k ≫= as_dur with Some t => (t <? lo) || (hi <? t) | None => false end.

Definition contains_any (s : string) (l : list string) : bool := existsb (contains s) l.

(** ** The generic adapter *)

Definition GenericAdapter : PlatformAdapter := {|
  NormalizeParams d := set_missing "timeout" (VDur (2 * Second)) (set_missing "repeat" (VInt 5) d);
  ConvertOutput raw :=
    {["raw_output" := VStr raw; "success" := VBool (negb (contains (to_lower raw) "failed"));
      "parsed_by" := VStr "generic_adapter"]};
  GetCommandTemplate taskType _ := ping_template "" "ping {{.target_ip}}" taskType;
  ValidatePlatformParams _ := None |}.

(** ** Huawei VRP *)

Definition HuaweiVRPAdapter : PlatformAdapter := {|
  NormalizeParams d := set_missing "timeout" (VDur Second) (set_missing "repeat" (VInt 4) d);
  ConvertOutput raw :=
    let result : data := {["raw_output" := VStr raw; "parsed_by" := VStr "huawei_vrp_adapter"]} in
    if contains raw "packet loss" then
      if contains raw "0% packet loss" then
        <["packet_loss" := VStr "0%"]> (<["success" := VBool true]> result)
      else if contains raw "100% packet loss" then
        <["packet_loss" := VStr "100%"]> (<["success" := VBool false]> result)
      else result
    else result;
  GetCommandTemplate taskType _ :=
    ping_template " for Huawei VRP" "ping -c {{.repeat}} -t {{.timeout_seconds}} {{.target_ip}}" taskType;
  ValidatePlatformParams d :=
    if int_outside "repeat" 1 20 d then Some "Huawei VRP: repeat count must be between 1 and 20" else None |}.

(** ** Cisco IOS-XR and NX-OS *)

Definition CiscoIOSXRAdapter : PlatformAdapter := {|
  NormalizeParams d := set_missing "timeout" (VDur (3 * Second)) d;
  ConvertOutput raw :=
    let result : data := {["raw_output" := VStr raw; "parsed_by" := VStr "cisco_iosxr_adapter"]} in
    if contains raw "Success rate is" then
      if contains raw "100 percent" then
        <["success_rate" := VStr "100%"]> (<["success" := VBool true]> result)
      else <["success" := VBool false]> result
    else result;
  GetCommandTemplate taskType _ :=
    ping_template " for Cisco IOS-XR" "ping {{.target_ip}} repeat {{.repeat}} timeout {{.timeout_seconds}}" taskType;
  ValidatePlatformParams _ := None |}.

Definition CiscoNXOSAdapter : PlatformAdapter := {|
  NormalizeParams d := set_missing "repeat" (VInt 5) d;
  ConvertOutput raw :=
    {["raw_output" := VStr raw; "success" := VBool (contains raw "100.00% success");
      "parsed_by" := VStr "cisco_nxos_adapter"]};
  GetCommandTemplate taskType _ := ping_template " for Cisco NX-OS" "ping {{.target_ip}} count {{.repeat}}" taskType;
  ValidatePlatformParams _ := None |}.

(** ** Cisco IOS-XE *)

(** The loop over the words: the one before the first "percent" that is not the
    first word. *)
Definition percent_rate (raw : string) (result : data) : data :=
  if contains raw "percent" then
    match before_percent None (fields raw) with
    | Some w => <["success_rate" := VStr (w +:+ "%")]> result
    | None => result
    end
  else result.

Definition CiscoIOSXEAdapter : PlatformAdapter := {|
  NormalizeParams d := set_missing "repeat" (VInt 5) (set_missing "timeout" (VDur (2 * Second)) d);
  ConvertOutput raw :=
    let result : data := {["raw_output" := VStr raw; "parsed_by" := VStr "cisco_iosxe_adapter"]} in
    if contains raw "Success rate is" then
      if contains raw "100 percent" then
        <["success_rate" := VStr "100%"]> (<["success" := VBool true]> result)
      else if contains raw "0 percent" then
        if contains raw "Success rate is 0 percent" then
          <["success_rate" := VStr "0%"]> (<["success" := VBool false]> result)
        else percent_rate raw (<["success" := VBool true]> result)
      else percent_rate raw (<["success" := VBool true]> result)
    else <["success" := VBool (negb (contains (to_lower raw) "failed"))]> result;
  GetCommandTemplate taskType _ :=
    ping_template " for Cisco IOS-XE" "ping {{.target_ip}} repeat {{.repeat}} timeout {{.timeout_seconds}}" taskType;
  ValidatePlatformParams d :=
    if int_outside "repeat" 1 2000 d then Some "Cisco IOS-XE: repeat count must be between 1 and 2000"
    else if dur_outside "timeout" Second (36 * Second) d
    then Some "Cisco IOS-XE: timeout must be between 1 and 36 seconds" else None |}.

(** ** H3C Comware *)

(** [\s+]: one space character at least. *)
Definition skip_spaces1 (s : string) : option string :=
  match s with
  | String c s' => if is_re_space c then Some (skip_re_space s') else None
  | EmptyString => None
  end.

(** What follows the number in the regular expression: a percent sign, then
    "packet" and "loss" with space before each. *)
Definition spaced_tail (s : string) : bool :=
  match (s ← strip_prefix "%" s; s ← skip_spaces1 s; s ← strip_prefix "packet" s; s ← skip_spaces1 s;
         strip_prefix "loss" s) with
  | Some _ => true
  | None => false
  end.

(** A match that starts here: the whole digits and, after a point, the others. *)
Definition match_percentage (s : string) : option (string * option string) :=
  let '(ds, r) := span_digits s in
  if String.eqb ds "" then None
  else match r with
       | String "."%char r' => let '(fs, r'') := span_digits r' in
                               if spaced_tail r'' then Some (ds, Some fs) else None
       | _ => if spaced_tail r then Some (ds, None) else None
       end.

(** [FindStringSubmatch]: the leftmost match. *)
Fixpoint find_percentage (s : string) : option (string * option string) :=
  match match_percentage s with
  | Some g => Some g
  | None => match s with EmptyString => None | String _ s' => find_percentage s' end
  end.

Definition percentage_text (g : string * option string) : string :=
  match g.2 with Some fs => g.1 +:+ "." +:+ fs | None => g.1 end.

Definition set_loss (success : bool) (loss rate : string) (d : data) : data :=
  <["success_rate" := VStr rate]> (<["packet_loss" := VStr loss]> (<["success" := VBool success]> d)).

(** [int(timeoutDur.Seconds())] *)
Definition whole_seconds (d : Z) : Z := truncate (seconds d).

(** The last branch of the packet-loss case: the percentage is taken from the text. *)
Definition h3c_percentage (raw : string) (result : data) : data :=
  match find_percentage raw with
  | None => <["success" := VBool true]> result
  | Some g =>
      let packetLoss := percentage_text g in
      let result := <["packet_loss" := VStr (packetLoss +:+ "%")]> result in
      if String.eqb packetLoss "0" || String.eqb packetLoss "0.0" then
        <["success_rate" := VStr "100%"]> (<["success" := VBool true]> result)
      else
        let result := <["success" := VBool false]> result in
        match parse_decimal (g.1, default "" g.2) with
        | Some f => <["success_rate" := VStr (itoa (wrap64 (100 - truncate f)) +:+ "%")]> result
        | None => result
        end
  end.

Definition H3CComwareAdapter : PlatformAdapter := {|
  NormalizeParams d :=
    let d := set_missing "timeout" (VDur (2 * Second)) (set_missing "repeat" (VInt 5) d) in
    match d !! "timeout" ≫= as_dur with
    | Some t => <["timeout_seconds" := VInt (whole_seconds t)]> d
    | None => d
    end;
  ConvertOutput raw :=
    let result : data := {["raw_output" := VStr raw; "parsed_by" := VStr "h3c_comware_adapter"]} in
    let rawLower := to_lower raw in
    if contains raw "packet loss" then
      if contains raw "0.0% packet loss" then set_loss true "0%" "100%" result
      else if contains raw "100.0% packet loss" then set_loss false "100%" "0%" result
      else h3c_percentage raw result
    else if contains raw "Request time out" || contains_any rawLower ["destination host unreachable"; "no route to host"]
    then set_loss false "100%" "0%" result
    else <["success" := VBool (negb (contains rawLower "failed"))]> result;
  GetCommandTemplate taskType _ :=
    ping_template " for H3C Comware" "ping -c {{.repeat}} -t {{.timeout_seconds}} {{.target_ip}}" taskType;
  ValidatePlatformParams d :=
    if int_outside "repeat" 1 100 d then Some "H3C Comware: repeat count must be between 1 and 100"
    else if dur_outside "timeout" Second (10 * Second) d
    then Some "H3C Comware: timeout must be between 1 and 10 seconds" else None |}.

(** ** The registry of adapters *)

Definition adapters : gmap string PlatformAdapter := {[
  PlatformCiscoIOSXE := CiscoIOSXEAdapter;
  PlatformCiscoIOSXR := CiscoIOSXRAdapter;
  PlatformCiscoNXOS := CiscoNXOSAdapter;
  PlatformHuaweiVRP := HuaweiVRPAdapter;
  PlatformH3CComware := H3CComwareAdapter ]}.

Definition GetAdapter (adapters : gmap string PlatformAdapter) (platform : string) : PlatformAdapter :=
  default GenericAdapter (adapters !! platform).
Definition RegisterAdapter (platform : string) (adapter : PlatformAdapter) (adapters : gmap string PlatformAdapter)
    : gmap string PlatformAdapter := <[platform := adapter]> adapters.

(** ** Normalised parameters *)

Lemma set_missing_get k v d : ∃ x, set_missing k v d !! k = Some x ∧ (d !! k = None → x = v) ∧ (∀ y, d !! k = Some y → x = y).
Proof.
  unfold set_missing. destruct (d !! k) as [y|] eqn:E.
  - exists y. rewrite E. naive_solver.
  - exists v. rewrite lookup_insert_eq. naive_solver.
Qed.

Lemma set_missing_ne k k' v d : k ≠ k' → set_missing k v d !! k' = d !! k'.
Proof. intros H. unfold set_missing. destruct (d !! k); [done|]. by rewrite lookup_insert_ne. Qed.

(** The defaults that an adapter supplies. *)
Definition missing_default (k : string) (v : value) (d d' : data) : Prop :=
  ∃ x, d' !! k = Some x ∧ (d !! k = None → x = v) ∧ ∀ y, d !! k = Some y → x = y.

(** The adapters of the registry and the generic one. *)
Inductive known : PlatformAdapter → Prop :=
  | k_generic : known GenericAdapter
  | k_huawei : known HuaweiVRPAdapter
  | k_xr : known CiscoIOSXRAdapter
  | k_nxos : known CiscoNXOSAdapter
  | k_xe : known CiscoIOSXEAdapter
  | k_h3c : known H3CComwareAdapter.

Lemma GetAdapter_known p : known (GetAdapter adapters p).
Proof.
  unfold GetAdapter, adapters. destruct (_ !! p) as [a|] eqn:E; [|apply k_generic].
  repeat (apply lookup_insert_Some in E as [[_ <-]|[_ E]]; [constructor|]).
  by apply lookup_singleton_Some in E as [_ <-]; constructor.
Qed.

Lemma normalize_keeps a d k v :
  known a → k ≠ "timeout_seconds" → d !! k = Some v → NormalizeParams a d !! k = Some v.
Proof.
  assert (Hs : ∀ k' x (d : data), d !! k = Some v → set_missing k' x d !! k = Some v).
  { intros k' x d' Hv. unfold set_missing. destruct (d' !! k') eqn:E; [done|].
    rewrite lookup_insert_ne; [done|]. intros ->. congruence. }
  intros [] Hk Hv; simpl; repeat apply Hs; try done.
  destruct (_ ≫= as_dur); [rewrite lookup_insert_ne by done|]; repeat apply Hs; done.
Qed.

(** ** The loss on H3C Comware, by the adapter and by the parser *)

Lemma match_percentage_shape s g :
  match_percentage s = Some g →
  ∃ num sp y, s = (num +:+ sp) +:+ String percent y ∧
    all_chars is_number_char num = true ∧ all_chars is_re_space sp = true.
Proof.
  assert (Htail : ∀ num r, all_chars is_number_char num = true → spaced_tail r = true →
    ∃ num' sp y, num +:+ r = (num' +:+ sp) +:+ String percent y ∧
      all_chars is_number_char num' = true ∧ all_chars is_re_space sp = true).
  { intros num r Hn Ht. unfold spaced_tail in Ht. destruct r as [|c r]; [done|]. cbn [strip_prefix] in Ht.
    destruct (Ascii.eqb_spec "%" c) as [<-|]; [|done]. exists num, "", r. by rewrite string_app_nil_r. }
  unfold match_percentage. destruct (span_digits s) as [ds r] eqn:Es.
  pose proof (span_digits_spec s) as [Hs Hd]. rewrite Es in Hs, Hd. simpl in Hs, Hd.
  destruct (String.eqb ds ""); [done|].
  assert (Hwhole : ∀ x, (if spaced_tail r then Some x else None) = Some g →
    ∃ num sp y, s = (num +:+ sp) +:+ String percent y ∧
      all_chars is_number_char num = true ∧ all_chars is_re_space sp = true).
  { intros x H. destruct (spaced_tail r) eqn:Et; [|done]. rewrite <- Hs. apply Htail; [by apply number_chars|done]. }
  destruct r as [|c r']; [apply Hwhole|].
  destruct (Ascii.eqb_spec c ".") as [->|Hne].
  - destruct (span_digits r') as [fs r''] eqn:Ef.
    pose proof (span_digits_spec r') as [Hs' Hd']. rewrite Ef in Hs', Hd'. simpl in Hs', Hd'.
    destruct (spaced_tail r'') eqn:Et; [|done]. intros _.
    rewrite <- Hs, <- Hs'. change (String "." (fs +:+ r'')) with ("." +:+ (fs +:+ r'')).
    replace (ds +:+ "." +:+ fs +:+ r'') with ((ds +:+ "." +:+ fs) +:+ r'') by by rewrite !string_app_assoc.
    apply Htail; [|done]. by rewrite !all_chars_app, (number_chars ds), (number_chars fs).
  - destruct c as [[] [] [] [] [] [] [] []]; try apply Hwhole. done.
Qed.

Lemma find_percentage_skip u w y :
  w ≠ "" → all_chars is_number_char w = true → has_char percent u = false →
  find_percentage (u +:+ String blank (w +:+ String percent y)) = find_percentage (w +:+ String percent y).
Proof. apply (find_skip match_percentage); [by destruct s|apply match_percentage_shape]. Qed.

Definition h3c_adapter_check (n : Z) : bool :=
  let w := decimal n 0 in
  all_chars is_digit (itoa n) && negb (String.eqb (itoa n) "") && negb (has_char percent w) &&
  Bool.eqb (has_suffix w "0.0") (n mod 10 =? 0) &&
  (has_suffix w "0.0" || negb (has_suffix w "100.0")) &&
  (has_suffix w "0.0" || negb (String.eqb w "0" || String.eqb w "0.0")) &&
  match parse_decimal (itoa n, "0") with
  | Some f => wrap64 (100 - truncate f) =? 100 - n
  | None => false
  end.

Lemma h3c_adapter_checked : forallb h3c_adapter_check (seqZ 0 101) = true.
Proof. vm_compute. reflexivity. Qed.

Lemma find_percentage_decimal n u t :
  0 ≤ n ≤ 100 → has_char percent u = false →
  find_percentage (loss_line u (decimal n 0) t) = Some (itoa n, Some "0").
Proof.
  intros Hn Hu. pose proof (range_check _ 100 h3c_adapter_checked n Hn) as Hc. unfold h3c_adapter_check in Hc.
  rewrite !andb_true_iff in Hc. destruct Hc as [[[[[[H1 H2%negb_true_iff] _] _] _] _] _].
  unfold loss_line. rewrite find_percentage_skip; [| | |done].
  - assert (Hm : match_percentage (decimal n 0 +:+ String percent (" packet loss" +:+ t)) = Some (itoa n, Some "0")).
    { unfold decimal. rewrite !string_app_assoc. change ("." +:+ ?x) with (String "." x).
      unfold match_percentage. rewrite span_digits_stop by done. by rewrite H2. }
    destruct (decimal n 0 +:+ _); cbn [find_percentage]; by rewrite Hm.
  - unfold decimal. destruct (itoa n); [done|]. by rewrite string_cons_app.
  - unfold decimal. rewrite !all_chars_app. change (all_chars is_number_char ".") with true.
    by rewrite !number_chars.
Qed.

(** What the H3C adapter makes of a text whose only percentage is [n.0%]. *)
Lemma h3c_adapter_reading u n t :
  0 ≤ n ≤ 100 → has_char percent u = false → has_char percent t = false →
  let d := ConvertOutput H3CComwareAdapter (loss_line u (decimal n 0) t) in
  d !! "success" = Some (VBool (n mod 10 =? 0)) ∧
  d !! "success_rate" = Some (VStr (itoa (if n mod 10 =? 0 then 100 else 100 - n) +:+ "%")).
Proof.
  intros Hn Hu Ht. pose proof (range_check _ 100 h3c_adapter_checked n Hn) as Hc. unfold h3c_adapter_check in Hc.
  rewrite !andb_true_iff in Hc. destruct Hc as [[[[[[_ _] H3%negb_true_iff] H4%Bool.eqb_prop] H5] H6] H7].
  cbv zeta. cbn [ConvertOutput H3CComwareAdapter]. rewrite loss_line_marker.
  assert (E : ∀ p, has_char percent p = false → has_char blank p = false →
    contains (loss_line u (decimal n 0) t) (p +:+ "% packet loss") = has_suffix (decimal n 0) p).
  { intros p Hp Hb. by apply percent_line_contains. }
  pose proof (E "0.0" eq_refl eq_refl) as E0. pose proof (E "100.0" eq_refl eq_refl) as E100.
  change (?a +:+ "% packet loss") with "0.0% packet loss" in E0.
  change (?a +:+ "% packet loss") with "100.0% packet loss" in E100.
  rewrite E0, E100, H4. rewrite H4 in H5, H6. destruct (n mod 10 =? 0); [by unfold set_loss; simplify_map_eq|].
  apply negb_true_iff in H5, H6. rewrite H5. unfold h3c_percentage. rewrite find_percentage_decimal by done.
  change (percentage_text (itoa n, Some "0")) with (decimal n 0). rewrite H6. cbn [fst snd default id].
  destruct (parse_decimal (itoa n, "0")) as [f|]; [|done]. apply Z.eqb_eq in H7. rewrite H7.
  by simplify_map_eq.
Qed.

(** A line of a text without other percentages, with what surrounds it. *)
Lemma lines_around pre raw post :
  Forall (λ l, has_char percent l = false) pre → Forall (λ l, has_char percent l = false) post →
  ∃ a b, join_lines (pre ++ raw :: post) = a +:+ raw +:+ b ∧
    has_char percent a = false ∧ has_char percent b = false.
Proof.
  intros Hpre Hpost.
  assert (Hjoin : has_char percent (join_lines post) = false).
  { induction Hpost as [|l post Hl Hpost IH]; [done|]. destruct post; [done|].
    change (join_lines (l :: s :: post)) with (l +:+ String newline (join_lines (s :: post))).
    rewrite has_char_app, Hl. exact IH. }
  induction Hpre as [|l pre Hl Hpre IH].
  - destruct post as [|p post]; [exists "", ""; by rewrite string_app_nil_r|].
    exists "", (String newline (join_lines (p :: post))). done.
  - destruct IH as (a & b & E & Ha & Hb). exists (l +:+ String newline a), b.
    split_and!; [|by rewrite has_char_app, Hl|done]. simpl app.
    destruct (pre ++ raw :: post)%list eqn:El; [by destruct pre|].
    change (join_lines (l :: s :: l0)) with (l +:+ String newline (join_lines (s :: l0))).
    by rewrite E, string_app_assoc, string_cons_app.
Qed.

Lemma loss_line_in_text a u w t b :
  a +:+ loss_line u w t +:+ b = loss_line (a +:+ u) w (t +:+ b).
Proof. unfold loss_line. by rewrite !string_app_assoc, !string_cons_app, !string_app_assoc, !string_cons_app, !string_app_assoc. Qed.

Definition rate_check (n : Z) : bool :=
  negb (String.eqb (itoa 100 +:+ "%") (itoa (100 - n) +:+ "%")) || (n =? 0).
Lemma rate_checked : forallb rate_check (seqZ 0 101) = true.
Proof. vm_compute. reflexivity. Qed.



(** ** The loss on Huawei VRP *)

Definition huawei_adapter_check (n : Z) : bool :=
  negb (has_char percent (itoa n)) && Bool.eqb (has_suffix (itoa n) "0") (n mod 10 =? 0) &&
  (has_suffix (itoa n) "0" || negb (has_suffix (itoa n) "100")).
Lemma huawei_adapter_checked : forallb huawei_adapter_check (seqZ 0 101) = true.
Proof. vm_compute. reflexivity. Qed.

(** On a text whose only percentage is a loss of [n%] the Huawei adapter reports a
    success when [n] is a multiple of ten, a total loss included (its test for 100
    comes after the one for 0), and nothing otherwise. *)
Lemma huawei_adapter_reading u n t :
  0 ≤ n ≤ 100 → has_char percent u = false → has_char percent t = false →
  let d := ConvertOutput HuaweiVRPAdapter (loss_line u (itoa n) t) in
  d !! "success" = (if n mod 10 =? 0 then Some (VBool true) else None) ∧
  d !! "packet_loss" = (if n mod 10 =? 0 then Some (VStr "0%") else None).
Proof.
  intros Hn Hu Ht. pose proof (range_check _ 100 huawei_adapter_checked n Hn) as Hc.
  unfold huawei_adapter_check in Hc. rewrite !andb_true_iff in Hc.
  destruct Hc as [[H1%negb_true_iff H2%Bool.eqb_prop] H3].
  cbv zeta. cbn [ConvertOutput HuaweiVRPAdapter]. rewrite loss_line_marker.
  assert (E0 : contains (loss_line u (itoa n) t) "0% packet loss" = has_suffix (itoa n) "0")
    by by apply (percent_line_contains u _ "0" t).
  assert (E100 : contains (loss_line u (itoa n) t) "100% packet loss" = has_suffix (itoa n) "100")
    by by apply (percent_line_contains u _ "100" t).
  rewrite E0, E100, H2. rewrite H2 in H3. destruct (n mod 10 =? 0); [by simplify_map_eq|].
  apply negb_true_iff in H3. rewrite H3. by simplify_map_eq.
Qed.
