(* ===== verification/TaskErrors.v ===== *)
(** * TaskErrors: the errors of tasks ([src/task/errors.go])

    A [TaskError] carries a code, a message, details and perhaps the error that
    caused it. Other errors of Go are their text and the error they wrap. The code
    hands pointers around: [AddDetail] and [WithCause] change the object and return
    it, so that their result is the new content of the object. *)
From S2P Require Import Prelude GoStrings Types.
Local Open Scope string_scope.

(** The codes, by their text. *)
Definition ErrCodeInvalidParams : string := "INVALID_PARAMS".
Definition ErrCodeMissingParams : string := "MISSING_PARAMS".
Definition ErrCodeParamValidation : string := "PARAM_VALIDATION".
Definition ErrCodeConnectionFailed : string := "CONNECTION_FAILED".
Definition ErrCodeConnectionTimeout : string := "CONNECTION_TIMEOUT".
Definition ErrCodeCommandFailed : string := "COMMAND_FAILED".
Definition ErrCodeTimeout : string := "TIMEOUT".
Definition ErrCodeUnsupportedPlatform : string := "UNSUPPORTED_PLATFORM".
Definition ErrCodeUnsupportedCommand : string := "UNSUPPORTED_COMMAND".
Definition ErrCodeParseOutputFailed : string := "PARSE_OUTPUT_FAILED".
Definition ErrCodeSystemError : string := "SYSTEM_ERROR".
Definition ErrCodeInternalError : string := "INTERNAL_ERROR".
Definition ErrCodeResourceLimit : string := "RESOURCE_LIMIT".
Definition ErrCodeTaskNotFound : string := "TASK_NOT_FOUND".

(** A Go error: a [TaskError], or another error with the text around what it wraps. *)
Inductive error :=
  | TaskErr (Code Message : string) (Details : option (gmap string value)) (Cause : option error)
  | Plain (text : string)
  | Wrapped (text : string) (inner : error).

(** [Error()] *)
Fixpoint Error (e : error) : string :=
  match e with
  | TaskErr code msg _ (Some cause) => "[" +:+ code +:+ "] " +:+ msg +:+ ": " +:+ Error cause
  | TaskErr code msg _ None => "[" +:+ code +:+ "] " +:+ msg
  | Plain t => t
  | Wrapped t inner => t +:+ Error inner
  end.

(** [Unwrap()]; a plain error wraps nothing. *)
Definition Unwrap (e : error) : option error :=
  match e with
  | TaskErr _ _ _ cause => cause
  | Plain _ => None
  | Wrapped _ inner => Some inner
  end.

Definition NewTaskError (code message : string) : error := TaskErr code message (Some ∅) None.
Definition NewTaskErrorWithCause (code message : string) (cause : option error) : error :=
  TaskErr code message (Some ∅) cause.
Definition NewTaskErrorWithDetails (code message : string) (details : option (gmap string value)) : error :=
  TaskErr code message details None.

Definition AddDetail (key : string) (v : value) (e : error) : error :=
  match e with
  | TaskErr code msg details cause => TaskErr code msg (Some (<[key := v]> (default ∅ details))) cause
  | e => e
  end.
Definition WithCause (cause : option error) (e : error) : error :=
  match e with TaskErr code msg details _ => TaskErr code msg details cause | e => e end.

Definition IsCode (e : error) (code : string) : bool :=
  match e with TaskErr c _ _ _ => String.eqb c code | _ => false end.
Definition IsTaskError (e : error) : bool := match e with TaskErr _ _ _ _ => true | _ => false end.
(** The type assertion [err.( *TaskError)]: it does not look at what [err] wraps. *)
Definition GetTaskError (e : error) : option error := if IsTaskError e then Some e else None.
Definition IsErrorCode (e : error) (code : string) : bool :=
  match GetTaskError e with Some e => IsCode e code | None => false end.

Definition code_of (e : error) : option string :=
  match GetTaskError e with Some (TaskErr c _ _ _) => Some c | _ => None end.
Definition code_among (e : error) (codes : list string) : bool :=
  match code_of e with Some c => existsb (String.eqb c) codes | None => false end.

Definition IsRecoverableError (e : error) : bool :=
  code_among e [ErrCodeConnectionTimeout; ErrCodeTimeout; ErrCodeResourceLimit].
Definition IsConfigError (e : error) : bool :=
  code_among e [ErrCodeInvalidParams; ErrCodeMissingParams; ErrCodeParamValidation].
Definition IsSystemError (e : error) : bool :=
  code_among e [ErrCodeSystemError; ErrCodeInternalError; ErrCodeResourceLimit].

Definition ErrTaskNotFound : error := NewTaskError ErrCodeTaskNotFound "task not found".
Definition ErrInvalidParams : error := NewTaskError ErrCodeInvalidParams "invalid parameters".
Definition ErrMissingParams : error := NewTaskError ErrCodeMissingParams "missing required parameters".
Definition ErrConnectionFailed : error := NewTaskError ErrCodeConnectionFailed "connection failed".
Definition ErrExecutionTimeout : error := NewTaskError ErrCodeTimeout "execution timeout".
Definition ErrUnsupportedPlatform : error := NewTaskError ErrCodeUnsupportedPlatform "unsupported platform".
Definition ErrParseOutputFailed : error := NewTaskError ErrCodeParseOutputFailed "failed to parse output".

Definition ErrInvalidParam (paramName reason : string) : error :=
  NewTaskErrorWithDetails ErrCodeParamValidation ("invalid parameter '" +:+ paramName +:+ "': " +:+ reason)
    (Some {["parameter" := VStr paramName; "reason" := VStr reason]}).
Definition ErrMissingParam (paramName : string) : error :=
  NewTaskErrorWithDetails ErrCodeMissingParams ("missing required parameter: " +:+ paramName)
    (Some {["parameter" := VStr paramName]}).
Definition ErrCommandFailed (command output : string) (cause : option error) : error :=
  AddDetail "output" (VStr output) (AddDetail "command" (VStr command)
    (NewTaskErrorWithCause ErrCodeCommandFailed ("command execution failed: " +:+ command) cause)).
Definition ErrPlatformNotSupported (platform taskType : string) : error :=
  NewTaskErrorWithDetails ErrCodeUnsupportedPlatform
    ("platform '" +:+ platform +:+ "' not supported for task '" +:+ taskType +:+ "'")
    (Some {["platform" := VStr platform; "task_type" := VOther "task.TaskType"]}).
Definition ErrCommandTypeNotSupported (commandType platform : string) : error :=
  NewTaskErrorWithDetails ErrCodeUnsupportedCommand
    ("command type '" +:+ commandType +:+ "' not supported on platform '" +:+ platform +:+ "'")
    (Some {["command_type" := VStr commandType; "platform" := VStr platform]}).

(** ** Classification *)

(** A code that is a configuration error is neither recoverable nor a system error;
    running out of resources is both. *)
Lemma classes_disjoint e :
  IsConfigError e = true → IsRecoverableError e = false ∧ IsSystemError e = false.
Proof.
  unfold IsConfigError, IsRecoverableError, IsSystemError, code_among. destruct (code_of e) as [c|]; [|done].
  simpl. rewrite !orb_true_iff. intros [H|[H|[H|H]]]; try apply String.eqb_eq in H as ->; done.
Qed.

(** What wraps a task error has lost its code. *)
Lemma wrapped_loses_code t e code :
  IsErrorCode (Wrapped t e) code = false ∧ IsRecoverableError (Wrapped t e) = false ∧
  IsConfigError (Wrapped t e) = false ∧ IsSystemError (Wrapped t e) = false.
Proof. done. Qed.

(** Adding details and a cause keeps the code and the message. *)
Lemma adding_keeps_code k v cause e code :
  IsErrorCode (AddDetail k v e) code = IsErrorCode e code ∧ IsErrorCode (WithCause cause e) code = IsErrorCode e code.
Proof. by destruct e. Qed.

(** The text of a chain of task errors names every code on the way to the cause. *)
Lemma Error_with_cause code msg d cause :
  Error (TaskErr code msg d (Some cause)) = Error (TaskErr code msg d None) +:+ ": " +:+ Error cause.
Proof. simpl. by rewrite !GoStrings.string_app_assoc. Qed.
