(* ===== verification/Monitor.v ===== *)
(** * Monitor: the entry point ([src/cmd/monitor/main.go])

    The level of the log, the start of the components and their deferred stops in the
    order in which [main] runs them, and the monitor of the process. *)
From S2P Require Import Prelude GoStrings.
Local Open Scope string_scope.
Local Open Scope Z_scope.

(** ** Configuration *)

(** [initLog]: the variable [LOG_LEVEL] overrides the file. *)
Definition log_level (configured : Z) (env : string) : Z :=
  if String.eqb env "" then configured
  else match atoi env with
       | Some level => if (-1 <=? level) && (level <=? 5) then level else configured
       | None => configured
       end.

Definition api_url (serverip serverport : string) : string := "http://" +:+ serverip +:+ ":" +:+ serverport +:+ "/api_jsonrpc.php".

(** ** Start and stop *)

Inductive component := Recovery | HealthMonitor | Syncer | Aggregator | Sender | Manager.
#[global] Instance component_eq_dec : EqDecision component.
Proof. solve_decision. Defined.

Inductive effect :=
  | NewSyncer
  | NewRegistry
  | NewAggregator
  | AddHandler (name : string)
  | NewSender
  | Warmup
  | StartC (c : component)
  | StopC (c : component)
  | WaitSignal.
#[global] Instance effect_eq_dec : EqDecision effect.
Proof. solve_decision. Defined.

(** A statement of [main]: an effect, a deferred effect, or a return when a call has
    failed. *)
Inductive statement := Do (e : effect) | Defer (e : effect) | ReturnIf (failed : bool).

(** Deferred calls run last in, first out. *)
Fixpoint run_body (deferred : list effect) (l : list statement) : list effect :=
  match l with
  | [] => deferred
  | Do e :: l => e :: run_body deferred l
  | Defer e :: l => run_body (e :: deferred) l
  | ReturnIf true :: _ => deferred
  | ReturnIf false :: l => run_body deferred l
  end.

(** [safeStart] runs a function in a goroutine of its own: a panic ends that only. *)
Definition safeStart (o : outcome unit) : outcome unit := match o with Panic _ => Ret () | r => r end.

(** Whether the creation of the syncer and of the sender fail. *)
Definition main (syncer_fails sender_fails : bool) : list effect :=
  run_body [] [
    Defer (StopC Recovery);
    Defer (StopC HealthMonitor); Do (StartC HealthMonitor);
    Do NewSyncer; ReturnIf syncer_fails;
    Do (StartC Syncer); Defer (StopC Syncer);
    Do NewRegistry;
    Do NewAggregator; Do (AddHandler "log"); Do (AddHandler "metrics");
    Do NewSender; ReturnIf sender_fails; Do (StartC Sender);
    Do Warmup;
    Do (AddHandler "zabbix"); Do (StartC Aggregator); Defer (StopC Aggregator);
    Defer (StopC Sender);
    Do (StartC Manager); Defer (StopC Manager);
    Do WaitSignal].

Definition is_stop (e : effect) : bool := match e with StopC _ => true | _ => false end.

(** The place of an effect. *)
Definition at_place (e : effect) (l : list effect) : option nat := fst <$> list_find (eq e) l.

(** A run is in order when what is started is stopped once, later, and in between
    nothing that was started before is stopped without having to. *)
Fixpoint balanced (open : list component) (l : list effect) : bool :=
  match l with
  | [] => bool_decide (open = [])
  | StartC c :: l => negb (bool_decide (c ∈ open)) && balanced (c :: open) l
  | StopC Recovery :: l => balanced open l
  | StopC c :: l => bool_decide (c ∈ open) && balanced (filter (λ c', c' ≠ c) open) l
  | _ :: l => balanced open l
  end.

Definition before (a b : effect) (l : list effect) : Prop :=
  ∃ i j, at_place a l = Some i ∧ at_place b l = Some j ∧ (i < j)%nat.


(** ** The monitor of the process *)

Record Watch := mk_watch { lastGoroutineCount : Z; leakDetected : bool; leakStartTime : Z }.
Definition new_watch : Watch := mk_watch 0 false 0.

Inductive note :=
  | Initial (n : Z)
  | LeakSuspected (current last increase : Z)
  | LeakGoesOn (duration current total : Z)
  | StackDump
  | LeakGone.

Definition leakThreshold : Z := 100.

(** The part of a tick about goroutines: at [now] there are [n]; [total] is what is logged
    as the total growth. *)
Definition watch_tick (now n : Z) (w : Watch) : Watch * list note :=
  if lastGoroutineCount w =? 0 then ({ w with lastGoroutineCount := n }, [Initial n])
  else
    let increase := n - lastGoroutineCount w in
    let '(w', notes) :=
      if leakThreshold <? increase then
        if negb (leakDetected w) then ({ w with leakDetected := true; leakStartTime := now }, [LeakSuspected n (lastGoroutineCount w) increase])
        else
          let duration := time_sub now (leakStartTime w) in
          if 5 * Minute <? duration
          then ({ w with leakDetected := false }, [LeakGoesOn duration n (n - lastGoroutineCount w); StackDump])
          else (w, [LeakGoesOn duration n (n - lastGoroutineCount w)])
      else if leakDetected w then ({ w with leakDetected := false }, [LeakGone]) else (w, []) in
    ({ w' with lastGoroutineCount := n }, notes).

(** The rest of a tick: the minute of the hour, the heap in use, the number of
    collections and the time since the last one. *)
Record Memory := mk_memory { minute : Z; HeapInuse : Z; NumGC : Z; since_gc : Z }.
Inductive memory_note := Details | HeapHigh | Summary | LongSinceGC | ManyGCs.
Definition memory_notes (m : Memory) : list memory_note :=
  ((if minute m =? 0 then Details :: (if 1024 * 1024 * 1024 <? HeapInuse m then [HeapHigh] else []) else [Summary]) ++
   (if 0 <? NumGC m
    then (if (10 * Minute <? since_gc m)%Z then [LongSinceGC] else []) ++ (if 1000 <? NumGC m then [ManyGCs] else [])
    else []))%list.

(** A whole tick: the first one ends with the count. *)
Definition health_tick (now n : Z) (m : Memory) (w : Watch) : Watch * list note * list memory_note :=
  let '(w', notes) := watch_tick now n w in
  (w', notes, if lastGoroutineCount w =? 0 then [] else memory_notes m).

(** A large heap is reported in the first minute of an hour only. *)
Lemma heap_noticed now n m w :
  HeapHigh ∈ (health_tick now n m w).2 ↔ lastGoroutineCount w ≠ 0 ∧ minute m = 0 ∧ 1024 * 1024 * 1024 < HeapInuse m.
Proof.
  unfold health_tick. destruct (watch_tick now n w) as [w' notes]. cbn [snd].
  destruct (Z.eqb_spec (lastGoroutineCount w) 0) as [E|E]; [split; [by intros ?%elem_of_nil|by intros [? _]]|].
  assert (Hgc : HeapHigh ∉ (if 0 <? NumGC m then (if 10 * Minute <? since_gc m then [LongSinceGC] else []) ++
    (if 1000 <? NumGC m then [ManyGCs] else []) else [])%list) by (repeat case_match; set_solver).
  unfold memory_notes. rewrite elem_of_app.
  destruct (Z.eqb_spec (minute m) 0), (Z.ltb_spec (1024 * 1024 * 1024) (HeapInuse m)); set_solver by lia.
Qed.

(** A series of ticks; the notes of each. *)
Fixpoint watch (w : Watch) (ticks : list (Z * Z)) : Watch * list (list note) :=
  match ticks with
  | [] => (w, [])
  | (now, n) :: ticks =>
      let '(w, notes) := watch_tick now n w in
      let '(w, rest) := watch w ticks in (w, notes :: rest)
  end.

(** Consecutive ticks between which the number grows by more than the threshold. *)
Fixpoint growing (ticks : list (Z * Z)) : Prop :=
  match ticks with
  | (_, n) :: (((_, n') :: _) as rest) => leakThreshold < n' - n ∧ growing rest
  | _ => True
  end.

(** What the monitor knows after some ticks. *)
Definition watched (hist : list (Z * Z)) (w : Watch) : Prop :=
  (hist = [] ∧ w = new_watch) ∨
  (∃ before t, hist = (before ++ [(t, lastGoroutineCount w)])%list ∧ 0 < lastGoroutineCount w ∧
     (leakDetected w = true → ∃ pre p t0 n0 suf, hist = (pre ++ p :: (t0, n0) :: suf)%list ∧
        growing (p :: (t0, n0) :: suf) ∧ leakStartTime w = t0)).

Lemma growing_snoc l t n t' n' : growing (l ++ [(t, n)]) → leakThreshold < n' - n → growing (l ++ [(t, n); (t', n')]).
Proof.
  intros Hg Hn. induction l as [|[t1 n1] l IH]; [by split|]. destruct l as [|[t2 n2] l]; cbn in *.
  - destruct Hg as [H1 _]. by split.
  - destruct Hg as [H1 Hg]. split; [done|]. by apply IH.
Qed.

(** One tick: a stack is dumped only in a steady growth of more than five minutes. *)
Lemma watch_tick_ok hist w now n :
  watched hist w → 0 < n →
  watched (hist ++ [(now, n)]) (watch_tick now n w).1 ∧
  (StackDump ∈ (watch_tick now n w).2 → ∃ pre p t0 n0 suf, hist = (pre ++ p :: (t0, n0) :: suf)%list ∧
     growing (p :: (t0, n0) :: suf ++ [(now, n)]) ∧ 5 * Minute < time_sub now t0).
Proof.
  intros Hw Hn. destruct Hw as [[-> ->]|(bef & t & Eh & Hpos & Hleak)].
  { cbn. split; [|by intros ?%list_elem_of_singleton]. right. exists [], now. split; [done|]. split; [done|]. done. }
  unfold watch_tick. destruct (Z.eqb_spec (lastGoroutineCount w) 0) as [Ez|_]; [lia|].
  assert (Hlast : ∀ w', lastGoroutineCount w' = n → (leakDetected w' = true → ∃ pre p t0 n0 suf, (hist ++ [(now, n)])%list = (pre ++ p :: (t0, n0) :: suf)%list ∧
        growing (p :: (t0, n0) :: suf) ∧ leakStartTime w' = t0) → watched (hist ++ [(now, n)]) w').
  { intros w' El Hl. right. exists hist, now. rewrite El. done. }
  assert (Hgrow : ∀ pre p t0 n0 suf, hist = (pre ++ p :: (t0, n0) :: suf)%list → growing (p :: (t0, n0) :: suf) →
            leakThreshold < n - lastGoroutineCount w → growing (p :: (t0, n0) :: suf ++ [(now, n)])).
  { intros pre p t0 n0 suf Eh' Hg Hi. destruct (exists_last (l := (t0, n0) :: suf)) as (l & [tl nl] & El); [done|].
    assert (nl = lastGoroutineCount w) as ->.
    { rewrite Eh', (cons_middle p), El, !app_assoc in Eh. by apply app_inj_tail in Eh as [_ [= _ ->]]. }
    change (p :: (t0, n0) :: suf ++ [(now, n)])%list with (([p] ++ (t0, n0) :: suf) ++ [(now, n)])%list.
    change (p :: (t0, n0) :: suf) with ([p] ++ (t0, n0) :: suf)%list in Hg. rewrite El in *.
    rewrite app_assoc in Hg |- *. rewrite <- app_assoc. by apply growing_snoc. }
  destruct (Z.ltb_spec leakThreshold (n - lastGoroutineCount w)) as [Hi|Hi].
  - destruct (leakDetected w) eqn:Ed; cbn [negb].
    + destruct (Hleak eq_refl) as (pre & p & t0 & n0 & suf & E1 & Hg & Et).
      destruct (Z.ltb_spec (5 * Minute) (time_sub now (leakStartTime w))) as [Hd|Hd]; cbn [fst snd].
      * split; [by apply Hlast|]. intros _. exists pre, p, t0, n0, suf. split; [done|]. split; [by eapply Hgrow|]. by rewrite <- Et.
      * split; [|by intros ?%list_elem_of_singleton]. apply Hlast; [done|]. intros _. exists pre, p, t0, n0, (suf ++ [(now, n)])%list.
        split; [by rewrite E1, <- app_assoc|]. split; [by eapply Hgrow|done].
    + cbn [fst snd]. split; [|by intros ?%list_elem_of_singleton]. apply Hlast; [done|]. intros _. exists bef, (t, lastGoroutineCount w), now, n, [].
      split; [by rewrite Eh, <- app_assoc|]. done.
  - destruct (leakDetected w) eqn:Ed; cbn [fst snd]; (split; [apply Hlast; cbn; congruence|]).
    + by intros ?%list_elem_of_singleton.
    + by intros ?%elem_of_nil.
Qed.

Lemma watch_snoc w ticks now n :
  watch w (ticks ++ [(now, n)]) =
  let '(w1, notes) := watch w ticks in let '(w2, last) := watch_tick now n w1 in (w2, (notes ++ [last])%list).
Proof.
  revert w. induction ticks as [|[t k] ticks IH]; intros w; cbn; [by destruct (watch_tick now n w)|].
  destruct (watch_tick t k w) as [w1 ns]. rewrite IH. destruct (watch w1 ticks) as [w2 rest]. by destruct (watch_tick now n w2).
Qed.

Lemma watch_watched ticks : Forall (λ x, 0 < x.2) ticks → watched ticks (watch new_watch ticks).1.
Proof.
  induction ticks as [|[now n] ticks IH] using rev_ind; intros H; [by left|].
  apply Forall_app in H as [H [Hn _]%Forall_cons]. rewrite watch_snoc. specialize (IH H).
  destruct (watch new_watch ticks) as [w notes]. pose proof (watch_tick_ok ticks w now n IH Hn) as [Hok _].
  by destruct (watch_tick now n w).
Qed.

(** Growth that stays within the threshold from tick to tick. *)
Fixpoint slow (ticks : list (Z * Z)) : Prop :=
  match ticks with
  | (_, n) :: (((_, n') :: _) as rest) => n' - n <= leakThreshold ∧ slow rest
  | _ => True
  end.

Lemma slow_quiet t n ticks :
  0 < n → Forall (λ x, 0 < x.2) ticks → slow ((t, n) :: ticks) → Forall (λ ns, ns = []) (watch (mk_watch n false 0) ticks).2.
Proof.
  revert t n. induction ticks as [|[now k] ticks IH]; intros t n Hn Hk Hs; cbn; [done|].
  apply Forall_cons in Hk as [Hk0 Hk]. destruct Hs as [H1 Hs]. unfold watch_tick. cbn.
  destruct (Z.eqb_spec n 0); [lia|]. destruct (Z.ltb_spec leakThreshold (k - n)); [unfold leakThreshold in *; lia|]. cbn.
  specialize (IH now k Hk0 Hk Hs). destruct (watch _ ticks) as [w rest]. by constructor.
Qed.

(** The goroutines are compared with those of the last tick only. A stack is dumped
    only at the end of a series of ticks that lasts longer than five minutes and between
    which the number grows by more than a hundred each time; growth of at most a hundred
    from tick to tick is never noticed, however much it sums up to. *)
Theorem leaks_noticed ticks now n :
  Forall (λ x, 0 < x.2) (ticks ++ [(now, n)]) →
  (∀ ns, last (watch new_watch (ticks ++ [(now, n)])).2 = Some ns → StackDump ∈ ns →
     ∃ pre p t0 n0 suf, ticks = (pre ++ p :: (t0, n0) :: suf)%list ∧ growing (p :: (t0, n0) :: suf ++ [(now, n)]) ∧
       5 * Minute < time_sub now t0) ∧
  (slow (ticks ++ [(now, n)]) → Forall (λ ns, ns = []) (tail (watch new_watch (ticks ++ [(now, n)])).2)).
Proof.
  intros H. pose proof H as [Ht [Hn _]%Forall_cons]%Forall_app. cbn in Hn. split.
  - intros ns Hl Hd. rewrite watch_snoc in Hl. pose proof (watch_watched ticks Ht) as Hw. destruct (watch new_watch ticks) as [w notes].
    destruct (watch_tick_ok ticks w now n Hw Hn) as [_ Hstack]. destruct (watch_tick now n w) as [w2 l2].
    cbn in Hl. rewrite last_snoc in Hl. injection Hl as <-. by apply Hstack.
  - intros Hs. destruct ticks as [|[t0 n0] ticks]; cbn; [by constructor|]. cbn in H. apply Forall_cons in H as [H0 H]. cbn in H0.
    pose proof (slow_quiet t0 n0 (ticks ++ [(now, n)]) H0 H Hs) as Hq. unfold new_watch. cbn.
    destruct (watch _ _) as [w rest]. exact Hq.
Qed.

(** Two hundred more goroutines every minute, for seven minutes. *)
Definition steep_ticks : list (Z * Z) := (λ k, (k * Minute, 10 + 200 * k)) <$> [0; 1; 2; 3; 4; 5; 6].
Lemma leaks_noticed_witness :
  StackDump ∈ default [] (last (watch new_watch (steep_ticks ++ [(7 * Minute, 1410)])).2) ∧
  ∃ pre p t0 n0 suf, steep_ticks = (pre ++ p :: (t0, n0) :: suf)%list ∧ growing (p :: (t0, n0) :: suf ++ [(7 * Minute, 1410)]) ∧
    5 * Minute < time_sub (7 * Minute) t0.
Proof.
  assert (Hp : Forall (λ x, 0 < x.2) (steep_ticks ++ [(7 * Minute, 1410)])) by (repeat constructor).
  destruct (leaks_noticed steep_ticks (7 * Minute) 1410 Hp) as [H _].
  destruct (last (watch new_watch (steep_ticks ++ [(7 * Minute, 1410)])).2) as [ns|] eqn:E; [|exfalso; vm_compute in E; discriminate E].
  assert (Hd : StackDump ∈ ns) by (vm_compute in E; injection E as <-; right; left).
  split; [exact Hd|exact (H ns eq_refl Hd)].
Defined.
