(* ===== verification/ScrapliDriver.v ===== *)
(** * ScrapliDriver: the driver over scrapligo ([src/connection/scrapli_driver.go])

    The driver opens its network driver at the first use and guards its fields by a
    mutex, which [Connect] releases before it works on them. Each access to a field is
    an action of its own here. The network drivers of the library are numbered in the
    order in which they are made; the calls to them are kept in [calls], and what
    they answer is an answer of the environment. *)
From S2P Require Import Prelude GoStrings Conc Types.
Local Open Scope string_scope.
Local Open Scope Z_scope.

Inductive net_call :=
  | Opened (i : nat)
  | Sent (i : nat) (commands : list string)
  | SentConfig (i : nat) (config : string)
  | SentEvents (i : nat) (events : list string)
  | Prompted (i : nat)
  | Closed (i : nat).

#[global] Instance net_call_eq : EqDecision net_call.
Proof. solve_decision. Defined.

(** A context is a number, too; [ended] are the cancelled ones. *)
Record ScrapliDriver := mk_scrapli {
  mu : bool;
  driver : option nat;
  channel : option nat;
  ctx : option nat;
  cancel : option nat;
  closed : bool;
  contexts : nat;
  ended : list nat;
  made : nat;
  calls : list net_call }.

(** The answers of the environment: [Reply] is what a call to the library gives,
    [CtxErr] what [ctx.Err()] gives, [Expired] that the [select] takes [ctx.Done()]. *)
Inductive answer :=
  | Tick
  | Reply (r : outcome (list string))
  | CtxErr (e : option string)
  | Expired (e : string).

Abbreviation prog := (Conc.prog ScrapliDriver answer).

Definition step {B} (f : ScrapliDriver → ScrapliDriver * B) : prog B :=
  act (λ s x, match x with Tick => Some (f s) | _ => None end).
Definition read {B} (f : ScrapliDriver → B) : prog B := step (λ s, (s, f s)).
Definition set (f : ScrapliDriver → ScrapliDriver) : prog unit := step (λ s, (f s, ())).

Definition lock : prog unit :=
  act (λ s x, match x with Tick => if mu s then None else Some ({ s with mu := true }, ()) | _ => None end).
Definition unlock : prog unit :=
  held ← step (λ s, ({ s with mu := false }, mu s));
  if held : bool then mret () else Crash "unlock of unlocked mutex".

(** A call of the library, with its answer. *)
Definition net (c : net_call) : prog (outcome (list string)) :=
  act (λ s x, match x with Reply r => Some ({ s with calls ::= (.++ [c])%list }, r) | _ => None end).

Definition library_panic {A} (w : string) : prog A := Crash ("in the library: " +:+ w).

(** A new context with its cancel function, which [d.ctx] and [d.cancel] become. *)
Definition new_context (parent : option nat) : prog unit :=
  c ← step (λ s, let c := contexts s in
                 ({ s with contexts ::= S; ended ::= (λ l, if match parent with Some i => bool_decide (i ∈ l) | None => false end
                                                           then c :: l else l) }, c));
  set (λ s, { s with ctx := Some c });; set (λ s, { s with cancel := Some c }).
Definition cancel_ctx (i : nat) : prog unit := set (λ s, { s with ended ::= cons i }).

(** [Err()] of the driver's own context [Some i], or of a caller's; a cancelled
    context has an error. *)
Definition ctx_Err (c : option nat) : prog (option string) :=
  act (λ s x, match x with
              | CtxErr None => if match c with Some i => bool_decide (i ∈ ended s) | None => false end then None else Some (s, None)
              | CtxErr (Some e) => Some (s, Some e)
              | _ => None
              end).

(** ** Connecting *)

(** [d.driver.Open()] and what follows. A method of a nil driver, like a field of it,
    panics. *)
Definition open_driver (failure : string) : prog (option string) :=
  d ← read driver;
  match d with
  | None => Crash "nil pointer dereference"
  | Some i =>
      r ← net (Opened i);
      match r with
      | Fail e =>
          set (λ s, { s with driver := None });; set (λ s, { s with channel := None });;
          mret (Some (failure +:+ e))
      | Panic w => library_panic w
      | Ret _ =>
          d ← read driver;
          match d with
          | None => Crash "nil pointer dereference"
          | Some j => set (λ s, { s with channel := Some j });; mret None
          end
      end
  end.

(** The answer of a constructor of the library. *)
Definition library (failure : string) : prog (option string) :=
  act (λ s x, match x with
              | Reply (Ret _) => Some (s, None)
              | Reply (Fail e) => Some (s, Some (failure +:+ e))
              | _ => None
              end).

Definition Connect : prog (option string) :=
  lock;;
  c ← read closed;
  if c : bool then unlock;; mret (Some "driver already closed")
  else
    d ← read driver;
    ch ← (match d with Some _ => read channel | None => mret None end);
    match ch with
    | Some _ => unlock;; mret None
    | None =>
        unlock;;
        own ← read ctx;
        (match own with
         | None => new_context None
         | Some _ => f ← read cancel;
                     match f with Some _ => mret () | None => new_context own end
         end);;
        d ← read driver;
        match d with
        | Some _ => open_driver "open existing driver failed: "
        | None =>
            e ← library "create platform failed: ";
            match e with
            | Some e => mret (Some e)
            | None =>
                e ← library "get network driver failed: ";
                match e with
                | Some e => set (λ s, { s with driver := None });; mret (Some e)
                | None =>
                    set (λ s, { s with driver := Some (made s); made ::= S });;
                    open_driver "open connection failed: "
                end
            end
        end
    end.

(** How the operations begin; they hold the lock when there is no error. [SendConfig]
    alone does not look at [closed]. *)
Definition ensure_connected (not_initialized : string) (look_closed : bool) : prog (option string) :=
  lock;;
  c ← (if look_closed then read closed else mret false);
  if c : bool then unlock;; mret (Some "driver already closed")
  else
    d ← read driver;
    match d with
    | None => unlock;; mret (Some not_initialized)
    | Some _ =>
        ch ← read channel;
        match ch with
        | Some _ => mret None
        | None =>
            unlock;;
            e ← Connect;
            match e with
            | Some e => mret (Some ("connection not established: " +:+ e))
            | None => lock;; mret None
            end
        end
    end.

(** ** Requests *)

Inductive Payload := Commands (cmds : list string) | Events (events : list string) | OtherPayload.
Record ProtocolRequest := mk_request { CommandType : string; payload : Payload }.
Record ProtocolResponse := mk_response { Success : bool; RawData : string; Structured : option (list string) }.

Definition ErrUnsupportedCommandType : string := "unsupported command type".

Fixpoint joined (results : list string) : string :=
  match results with
  | [] => ""
  | [r] => r
  | r :: results => r +:+ String newline (joined results)
  end.

(** The call in a goroutine of its own, and the [select] between its result and the
    end of the context; nobody recovers a panic of that goroutine. What the call does
    after the caller has left is not modelled. *)
Definition call_or_expire (target : option nat) (c : nat → net_call) : prog (string + list string) :=
  match target with
  | None => Crash "nil pointer dereference"
  | Some i =>
      r ← act (λ s x, match x with
                      | Reply r => Some ({ s with calls ::= (.++ [c i])%list }, r)
                      | Expired e => Some ({ s with calls ::= (.++ [c i])%list }, Fail e)
                      | _ => None
                      end);
      match r with
      | Ret l => mret (inr l)
      | Fail e => mret (inl e)
      | Panic w => library_panic w
      end
  end.

(** [given]: the caller's context is not nil. *)
Definition effective_context (given : bool) : prog (option nat) :=
  if given then mret None
  else
    lock;;
    own ← read ctx;
    (match own with None => new_context None | Some _ => mret () end);;
    own ← read ctx;
    unlock;; mret own.

(** The part of [Execute] that sends a request. *)
Definition send (drv ch : option nat) (req : ProtocolRequest) : prog (string + ProtocolResponse) :=
  if String.eqb (CommandType req) CommandTypeCommands then
    match payload req with
    | Commands cmds =>
        r ← call_or_expire drv (λ i, Sent i cmds);
        mret (match r with inl e => inl e | inr l => inr (mk_response true (joined l) (Some l)) end)
    | _ => mret (inl "invalid commands payload")
    end
  else if String.eqb (CommandType req) CommandTypeInteractiveEvent then
    match payload req with
    | Events events =>
        r ← call_or_expire ch (λ i, SentEvents i events);
        mret (match r with inl e => inl e | inr l => inr (mk_response true (String.concat "" l) None) end)
    | _ => mret (inl "invalid events payload")
    end
  else mret (inl ErrUnsupportedCommandType).

Definition Execute (given : bool) (req : option ProtocolRequest) : prog (string + ProtocolResponse) :=
  e ← ensure_connected "driver not properly initialized" true;
  match e with
  | Some e => mret (inl e)
  | None =>
      ch ← read channel;
      match ch with
      | None => unlock;; mret (inl "channel not available after connection attempt")
      | Some _ =>
          drv ← read driver; ch ← read channel;
          unlock;;
          c ← effective_context given;
          done ← ctx_Err c;
          match done with
          | Some e => mret (inl e)
          | None =>
              match req with
              | None => mret (inl "request cannot be nil")
              | Some req => send drv ch req
              end
          end
      end
  end.

(** ** The other operations *)

(** A call in the caller's goroutine. *)
Definition call_now (target : option nat) (c : nat → net_call) : prog (string + list string) :=
  match target with
  | None => Crash "nil pointer dereference"
  | Some i =>
      r ← net (c i);
      match r with Ret l => mret (inr l) | Fail e => mret (inl e) | Panic w => library_panic w end
  end.

Definition first (l : list string) : string := default "" (head l).

(** The driver, when it and the channel are there; the lock is held before and not
    after. *)
Definition take_driver (need_channel : bool) : prog (option (option nat)) :=
  d ← read driver;
  available ← (match d with
               | None => mret false
               | Some _ => if need_channel then read (λ s, bool_decide (is_Some (channel s))) else mret true
               end);
  if available : bool then d ← read driver; unlock;; mret (Some d) else unlock;; mret None.

Definition SendConfig (config : string) : prog (string + string) :=
  e ← ensure_connected "driver not initialized" false;
  match e with
  | Some e => mret (inl e)
  | None =>
      d ← take_driver true;
      match d with
      | None => mret (inl "driver or channel not available after connection attempt")
      | Some d => r ← call_now d (λ i, SentConfig i config);
                  mret (match r with inl e => inl e | inr l => inr (first l) end)
      end
  end.

Definition SendCommands (commands : list string) : prog (string + list string) :=
  e ← ensure_connected "driver not initialized" true;
  match e with
  | Some e => mret (inl e)
  | None =>
      d ← take_driver true;
      match d with
      | None => mret (inl "driver or channel not available after connection attempt")
      | Some d => r ← call_now d (λ i, Sent i commands);
                  mret (match r with inl e => inl ("send command failed: " +:+ e) | inr l => inr l end)
      end
  end.

Definition SendInteractive (events : list string) : prog (string + string) :=
  e ← ensure_connected "driver not initialized" true;
  match e with
  | Some e => mret (inl e)
  | None =>
      ch ← read channel;
      match ch with
      | None => unlock;; mret (inl "channel not available after connection attempt")
      | Some _ =>
          ch ← read channel; unlock;;
          r ← call_now ch (λ i, SentEvents i events);
          mret (match r with inl e => inl ("send interactive failed: " +:+ e) | inr l => inr (String.concat "" l) end)
      end
  end.

Definition GetPrompt : prog (string + string) :=
  e ← ensure_connected "driver not initialized" true;
  match e with
  | Some e => mret (inl e)
  | None =>
      d ← take_driver false;
      match d with
      | None => mret (inl "driver not available")
      | Some d => r ← call_now d Prompted; mret (match r with inl e => inl e | inr l => inr (first l) end)
      end
  end.

(** [GetPrompt] runs in a goroutine of its own, and the caller may leave before it; the
    caller's answer comes at the end here, what others do meanwhile being their own
    actions. *)
Definition or_expired {A} (r : string + A) : prog (string + A) :=
  act (λ s x, match x with Tick => Some (s, r) | Expired e => Some (s, inl e) | _ => None end).
Definition GetPromptWithContext : prog (string + string) := r ← GetPrompt; or_expired r.

Definition WithContext : prog unit :=
  lock;;
  c ← read closed;
  if c : bool then unlock
  else
    f ← read cancel;
    (match f with Some i => cancel_ctx i | None => mret () end);;
    new_context None;;
    unlock.

Definition isExpectedError (e : string) : bool :=
  existsb (contains e) ["invalid argument"; "use of closed network connection"; "already closed";
                        "connection reset by peer"; "broken pipe"; "send on closed channel"].

(** The second half of [Close]; the lock is held. *)
Definition close_driver : prog (option string) :=
  d ← read driver;
  err ← (match d with
         | None => mret None
         | Some _ =>
             d ← read driver;
             e ← (match d with
                  | None => mret (Some "panic during close: runtime error: invalid memory address or nil pointer dereference")
                  | Some i =>
                      r ← net (Closed i);
                      mret (match r with
                            | Ret _ => None
                            | Fail e => Some e
                            | Panic w => Some ("panic during close: " +:+ w)
                            end)
                  end);
             mret (match e with Some e => if isExpectedError e then None else Some e | None => None end)
         end);
  set (λ s, { s with driver := None });; set (λ s, { s with channel := None });;
  own ← read ctx;
  keep ← (match own with
          | None => mret false
          | Some i => e ← ctx_Err (Some i); mret (bool_decide (e = None))
          end);
  (if keep : bool then mret () else set (λ s, { s with ctx := None });; set (λ s, { s with cancel := None }));;
  unlock;;
  mret err.

(** [closed] is read and written under the lock only, so that its test and its change
    are one action here. *)
Definition mark_closed : prog bool := step (λ s, ({ s with closed := true }, closed s)).

Definition Close : prog (option string) :=
  lock;;
  c ← mark_closed;
  if c : bool then unlock;; mret None
  else
    d ← read driver;
    match d with
    | None => set (λ s, { s with channel := None });; unlock;; mret None
    | Some _ =>
        f ← read cancel;
        match f with
        | None => close_driver
        | Some i =>
            cancel_ctx i;;
            unlock;; lock;;
            c ← read closed; d ← read driver;
            if c && bool_decide (d = None) then unlock;; mret None else close_driver
        end
    end.

Definition GetCapability : ProtocolCapability := ScrapliCapability.
Definition SupportedPlatforms : list string :=
  ["cisco_iosxe"; "cisco_iosxr"; "cisco_nxos"; "juniper_junos"; "nokia_sros"; "arista_eos"].

(** The two say different things: the platforms of Huawei and H3C are only in the
    capability, which is what the executor looks at. *)
Lemma supported_differ p :
  p ∈ PlatformSupport GetCapability ∧ p ∉ SupportedPlatforms ↔ p = PlatformH3CComware ∨ p = PlatformHuaweiVRP.
Proof.
  change (PlatformSupport GetCapability) with
    ["cisco_iosxe"; "cisco_iosxr"; "cisco_nxos"; PlatformH3CComware; PlatformHuaweiVRP].
  unfold SupportedPlatforms. set_unfold. split; [tauto|]. intros [-> | ->]; (split; [tauto|]); naive_solver.
Qed.
Definition NewScrapliDriver (platformOS host username password : string) : outcome ScrapliDriver :=
  Panic "NewScrapliDriver is deprecated, use factory pattern instead".

(** ** The driver a factory makes *)
Definition fresh_driver : ScrapliDriver := mk_scrapli false (Some 0%nat) None (Some 0%nat) (Some 0%nat) false 1 [] 1 [].

Inductive op :=
  | OpExecute (given : bool) (req : option ProtocolRequest)
  | OpSendConfig (config : string)
  | OpSendCommands (commands : list string)
  | OpSendInteractive (events : list string)
  | OpGetPrompt
  | OpConnect
  | OpWithContext
  | OpClose.

Definition perform (o : op) : prog unit :=
  match o with
  | OpExecute given req => Execute given req;; mret ()
  | OpSendConfig config => SendConfig config;; mret ()
  | OpSendCommands commands => SendCommands commands;; mret ()
  | OpSendInteractive events => SendInteractive events;; mret ()
  | OpGetPrompt => GetPromptWithContext;; mret ()
  | OpConnect => Connect;; mret ()
  | OpWithContext => WithContext
  | OpClose => Close;; mret ()
  end.
Fixpoint session (l : list op) : prog unit :=
  match l with [] => mret () | o :: l => perform o;; session l end.

(** ** The mutex, in every interleaving *)

(** The rights: to unlock the mutex, and to close the network driver. *)
Inductive right := Mutex | Closing.

Definition is_close (c : net_call) : bool := match c with Closed _ => true | _ => false end.
Definition closes (l : list net_call) : nat := length (List.filter is_close l).
#[local] Arguments closes : simpl never.

Definition amount (r : right) (s : ScrapliDriver) : nat :=
  match r with
  | Mutex => if mu s then 1 else 0
  | Closing => if closed s && (closes (calls s) =? 0)%nat then 1 else 0
  end.
Definition closed_once (s : ScrapliDriver) : Prop := (closes (calls s) ≤ 1)%nat ∧ (closed s = false → closes (calls s) = 0%nat).
Definition other_panic (w : string) : Prop := w ≠ "unlock of unlocked mutex".

Definition exact (r : right) (_ : ScrapliDriver) : Prop := r = Mutex.
Definition rank (r : right) : nat := match r with Mutex => 1 | Closing => 0 end.

(** Nothing is counted on to grow here. *)
Definition anyhow (_ _ : ScrapliDriver) : Prop := True.
#[local] Instance anyhow_preorder : PreOrder anyhow.
Proof. by split. Qed.

Definition R (r : nat * nat) : right → nat := λ k, match k with Mutex => r.1 | Closing => r.2 end.
Definition gives {A} (post : A → nat * nat) : (right → nat) → ScrapliDriver → A → Prop :=
  λ n _ a, n Mutex = (post a).1 ∧ ((post a).2 ≤ n Closing)%nat.
Definition triple {A} (r : nat * nat) (p : prog A) (post : A → nat * nat) : Prop :=
  ∀ s0, owns other_panic closed_once anyhow amount exact rank (R r) s0 p (gives post).

Lemma triple_ret {A} r (a : A) (post : A → nat * nat) : r.1 = (post a).1 → ((post a).2 ≤ r.2)%nat → triple r (mret a) post.
Proof. done. Qed.
Lemma triple_bind {A B} r (p : prog A) (g : A → prog B) (mid : A → nat * nat) post :
  triple r p mid → (∀ a, triple (mid a) (g a) post) → triple r (p ≫= g) post.
Proof.
  intros Hp Hg s0. apply owns_bind. eapply owns_mono; [apply Hp|]. intros n s a [H1 H2].
  eapply owns_more, Hg.
  - intros []; [by left|right]. split_and!; [simpl; lia|done|]. by intros s1 E.
  - intros n1 n2 s1 c Hle [H3 H4]. split.
    + destruct (Hle Mutex) as [<-|(_ & Hr & _)]; done.
    + destruct (Hle Closing); lia.
Qed.
Lemma triple_panic {A} r w (post : A → nat * nat) : triple r (library_panic w) post.
Proof. intros s0 s _ _ _. unfold other_panic. discriminate. Qed.

(** An action that neither locks nor closes. *)
Lemma triple_quiet {B} r (f : ScrapliDriver → answer → option (ScrapliDriver * B)) :
  (∀ s, ∃ x o, f s x = Some o) →
  (∀ s x s' b, f s x = Some (s', b) → mu s' = mu s ∧ closed s' = closed s ∧ closes (calls s') = closes (calls s)) →
  triple r (act f) (λ _, r).
Proof.
  intros He Hf s0. split; [intros s _ _ _; left; apply He|]. intros s x s' b _ [Hc1 Hc2] Hn E. destruct (Hf _ _ _ _ E) as (H1 & H2 & H3).
  split; [unfold closed_once; by rewrite H2, H3|]. split; [done|]. exists (R r). unfold amount. rewrite H1, H2, H3. split_and!; [|split; [done|lia]|done].
  intros []; lia.
Qed.

(** Both rights, the exact one, and what is left to do. *)
Ltac rights := split; [intros []|split; [intros [] Hx; try done|by split]].

Lemma triple_lock c : triple (0, c)%nat lock (λ _, (1, c)%nat).
Proof.
  intros s0. split.
  - intros s _ _ _. simpl. destruct (mu s) eqn:E; [right|].
    { exists Mutex. simpl. rewrite E. split_and!; [done|lia|lia|]. intros []; simpl; lia. }
    left. exists Tick. eauto.
  - intros s x s' b _ [Hc1 Hc2] _ E. destruct x; try done. destruct (mu s) eqn:Em; [done|]. injection E as <- <-.
    split; [done|]. split; [done|]. exists (R (1, c)%nat). rights; simpl; rewrite ?Em; (lia || (split; [done|lia])).
Qed.
(** Who unlocks may let the right to close go. *)
Lemma triple_unlock c c' : (c' ≤ c)%nat → triple (1, c)%nat unlock (λ _, (0, c')%nat).
Proof.
  intros Hle s0. split; [intros s _ _ _; left; exists Tick; simpl; eauto|].
  intros s x s' b _ [Hc1 Hc2] Hn E. destruct x; try done. injection E as <- <-. split; [done|]. split; [done|].
  specialize (Hn Mutex). simpl in Hn. destruct (mu s) eqn:Em; [|lia].
  exists (R (0, c')%nat). rights; simpl; rewrite ?Em; (lia || (split; [done|lia])).
Qed.
Lemma triple_mark : triple (1, 0)%nat mark_closed (λ c : bool, if c then (1, 0)%nat else (1, 1)%nat).
Proof.
  intros s0. split; [intros s _ _ _; left; exists Tick; simpl; eauto|].
  intros s x s' b _ [Hc1 Hc2] Hn E. destruct x; try done. injection E as <- <-. split; [split; [done|discriminate]|]. split; [done|].
  exists (R (if closed s then (1, 0) else (1, 1))%nat). destruct (closed s) eqn:Ec; (rights); simpl; rewrite ?Ec; simpl; try lia; try (split; [done|lia]).
  rewrite (Hc2 eq_refl). simpl. lia.
Qed.
Lemma triple_net_close i : triple (1, 1)%nat (net (Closed i)) (λ _, (1, 0)%nat).
Proof.
  intros s0. split; [intros s _ _ _; left; exists (Reply (Ret [])); simpl; eauto|].
  intros s x s' b _ [Hc1 Hc2] Hn E. destruct x; try done. injection E as <- <-. specialize (Hn Closing).
  simpl in Hn. destruct (closed s) eqn:Ec, (Nat.eqb_spec (closes (calls s)) 0) as [E0|E0]; simpl in Hn; try lia.
  assert (E1 : closes (calls s ++ [Closed i]) = 1%nat).
  { unfold closes in *. rewrite List.filter_app, length_app, E0. done. }
  split; [unfold closed_once; simpl; rewrite E1, Ec; split; [lia|discriminate]|]. split; [done|].
  exists (R (1, 0)%nat). rights; simpl; rewrite ?E1, ?Ec, ?E0; simpl; (lia || (split; [done|lia])).
Qed.

(** The shape of a program gives most of its proof. *)
Lemma triple_step {B} r (f : ScrapliDriver → ScrapliDriver * B) :
  (∀ s, mu (f s).1 = mu s ∧ closed (f s).1 = closed s ∧ closes (calls (f s).1) = closes (calls s)) →
  triple r (step f) (λ _, r).
Proof.
  intros H. apply triple_quiet; [intros s; exists Tick; eauto|]. intros s x s' b E. destruct x; try done.
  injection E as E. specialize (H s). by rewrite E in H.
Qed.
Lemma triple_read {B} r (f : ScrapliDriver → B) : triple r (read f) (λ _, r).
Proof. by apply triple_step. Qed.
Lemma closes_app l c : is_close c = false → closes (l ++ [c]) = closes l.
Proof. intros H. unfold closes. rewrite List.filter_app, length_app. simpl. rewrite H. simpl. lia. Qed.
Lemma triple_net r c : is_close c = false → triple r (net c) (λ _, r).
Proof.
  intros Hc. apply triple_quiet; [intros s; exists (Reply (Ret [])); eauto|]. intros s x s' b E. destruct x; try done.
  injection E as <- <-. simpl. by rewrite closes_app.
Qed.
Lemma triple_ctx_Err r c : triple r (ctx_Err c) (λ _, r).
Proof.
  apply triple_quiet; [intros s; exists (CtxErr (Some "")); eauto|]. intros s x s' b E.
  destruct x as [| |[e|]|]; try done; [by injection E as <- <-|]. by destruct (match c with Some i => _ | None => _ end); simplify_eq.
Qed.
Lemma triple_library r e : triple r (library e) (λ _, r).
Proof.
  apply triple_quiet; [intros s; exists (Reply (Ret [])); eauto|]. intros s x s' b E.
  destruct x as [|[]| |]; try done; by injection E as <- <-.
Qed.
Lemma triple_or_expired {A} r (x : string + A) : triple r (or_expired x) (λ _, r).
Proof.
  apply triple_quiet; [intros s; exists Tick; eauto|]. intros s y s' b E. by destruct y; simplify_eq.
Qed.
#[local] Hint Resolve triple_or_expired triple_panic triple_read triple_net triple_ctx_Err triple_library triple_lock : kept.
#[local] Hint Extern 1 (triple _ (step _) _) => by apply triple_step : kept.
#[local] Hint Extern 1 (triple _ (set _) _) => by apply triple_step : kept.
#[local] Hint Extern 1 (triple _ unlock _) => by apply triple_unlock : kept.

Ltac shape := repeat match goal with
  | |- ∀ _, _ => intro
  | |- triple _ (_ ≫= _) _ => eapply triple_bind
  | |- triple _ (if ?b then _ else _) _ => destruct b
  | |- triple _ (match ?x with _ => _ end) _ => destruct x
  | |- triple _ (mret _) _ => apply triple_ret; [reflexivity|simpl; lia]
  | |- triple ?r (mret _) _ => exact (triple_ret r _ (λ _, r) eq_refl (le_n _))
  | |- triple _ (Crash _) _ => intros s0 s _ _ _; discriminate
  | |- triple _ _ _ => solve [eauto with kept]
  end.

Lemma triple_new_context r p : triple r (new_context p) (λ _, r).
Proof. unfold new_context, cancel_ctx. shape. Qed.
#[local] Hint Resolve triple_new_context : kept.
Lemma triple_open_driver r e : triple r (open_driver e) (λ _, r).
Proof. unfold open_driver. shape. Qed.
#[local] Hint Resolve triple_open_driver : kept.
Lemma triple_Connect c : triple (0, c)%nat Connect (λ _, (0, c)%nat).
Proof. unfold Connect. shape. Qed.
#[local] Hint Resolve triple_Connect : kept.

(** After [ensure_connected] the lock is held when there is no error. *)
Definition if_connected (c : nat) (e : option string) : nat * nat := match e with None => (1, c) | Some _ => (0, c) end%nat.
Lemma triple_ensure_connected c m b : triple (0, c)%nat (ensure_connected m b) (if_connected c).
Proof. unfold ensure_connected. shape. Qed.
Lemma triple_take_driver c b : triple (1, c)%nat (take_driver b) (λ _, (0, c)%nat).
Proof. unfold take_driver. shape. Qed.
Lemma triple_effective_context c b : triple (0, c)%nat (effective_context b) (λ _, (0, c)%nat).
Proof. unfold effective_context. shape. Qed.
Lemma triple_call_now r d k : (∀ i, is_close (k i) = false) → triple r (call_now d k) (λ _, r).
Proof. intros Hk. unfold call_now. shape. Qed.
Lemma triple_call_or_expire r d k : (∀ i, is_close (k i) = false) → triple r (call_or_expire d k) (λ _, r).
Proof.
  intros Hk. unfold call_or_expire. destruct d as [i|]; [|intros s0 s _ _ _; discriminate]. eapply triple_bind; [|shape].
  apply triple_quiet; [intros s; exists (Reply (Ret [])); eauto|]. intros s x s' b E.
  destruct x; try done; injection E as <- <-; simpl; by rewrite closes_app.
Qed.
#[local] Hint Resolve triple_ensure_connected triple_take_driver triple_effective_context triple_call_now triple_call_or_expire : kept.

Lemma triple_send r d ch req : triple r (send d ch req) (λ _, r).
Proof. unfold send. shape. Qed.
#[local] Hint Resolve triple_send : kept.
Lemma triple_close_driver : triple (1, 1)%nat close_driver (λ _, (0, 0)%nat).
Proof.
  unfold close_driver. eapply triple_bind; [shape|intros d]. apply (triple_bind _ _ _ (λ _, (1, 0)%nat)); [|shape].
  destruct d; [|shape]. eapply triple_bind; [shape|intros d]. apply (triple_bind _ _ _ (λ _, (1, 0)%nat)); [|shape].
  destruct d; [|shape]. eapply triple_bind; [apply triple_net_close|shape].
Qed.
#[local] Hint Resolve triple_close_driver : kept.
Lemma triple_Close : triple (0, 0)%nat Close (λ _, (0, 0)%nat).
Proof. unfold Close, cancel_ctx. eapply triple_bind; [shape|intros a]. eapply triple_bind; [apply triple_mark|]. shape. Qed.
#[local] Hint Resolve triple_Close : kept.

Lemma triple_perform o : triple (0, 0)%nat (perform o) (λ _, (0, 0)%nat).
Proof.
  destruct o; cbn [perform]; unfold Execute, SendConfig, SendCommands, SendInteractive, GetPromptWithContext, GetPrompt, WithContext, cancel_ctx; shape; shape.
Qed.
Lemma triple_session l : triple (0, 0)%nat (session l) (λ _, (0, 0)%nat).
Proof. induction l; cbn [session]; [by apply triple_ret|]. eapply triple_bind; [apply triple_perform|done]. Qed.

(** C4: goroutines may connect, execute, send, ask for the prompt, change the context
    and close as they like: nobody unlocks a mutex that is not locked, the mutex is
    free when all are done, nobody waits for ever, and at most one network driver is
    closed, once. *)
Theorem driver_mutex_safe ss l ts s :
  sched (session <$> ss) fresh_driver l = Some (ts, s) →
  (∀ i, ts !! i ≠ Some (Crash "unlock of unlocked mutex")) ∧
  (Forall (λ p, p = Done ()) ts → mu s = false) ∧
  ((∃ i x r, sched_step ts s i x = Some r) ∨ Forall (λ p, p = Done ()) ts ∨ ∃ i w, ts !! i = Some (Crash w)) ∧
  (closes (calls s) <= 1)%nat ∧ (closed s = false → closes (calls s) = 0%nat).
Proof.
  intros H. set (ns0 := replicate (length ss) (R (0, 0)%nat)).
  assert (Hw : well other_panic closed_once anyhow amount exact rank fresh_driver ns0 (session <$> ss)).
  { clear H. subst ns0. induction ss as [|p ss IH]; simpl; constructor; [|done].
    exists fresh_driver. split; [done|]. eapply owns_mono; [apply triple_session|]. by intros n x a [Hn _] i y ->. }
  assert (Hr0 : rights_held amount exact ns0 fresh_driver).
  { clear. assert (E : ∀ k, total ns0 k = 0%nat) by (intros []; unfold total, ns0; induction ss; done).
    intros []; rewrite E; by split. }
  assert (Hc0 : closed_once fresh_driver) by (split; [apply Nat.le_0_l|done]).
  destruct (sched_owns _ _ _ _ _ _ _ _ _ _ _ _ Hw Hc0 Hr0 H) as ([Hc1 Hc2] & _ & ns & Hts & Hr).
  split_and!; [| | |done|done].
  - intros i Hi. by eapply (rights_crash _ _ _ _ _ _ _ _ _ _ _ Hts (conj Hc1 Hc2) Hr Hi).
  - intros Hd. pose proof (rights_at_end _ _ _ _ _ _ _ _ _ Mutex Hts Hr Hd eq_refl) as Hm. simpl in Hm. by destruct (mu s).
  - destruct (rights_progress other_panic closed_once anyhow amount exact rank 1 ns ts s) as [?|[?|(i & w & ? & _)]]; eauto.
    { intros []; simpl; lia. } by split.
Qed.

(** ** Interleavings that go wrong *)
Definition answers (_ : unit) (_ : ScrapliDriver) : list answer := [Tick; Reply (Ret []); CtxErr None; CtxErr (Some "context canceled")].
Definition steps (i n : nat) : list (nat * unit) := replicate n (i, ()).
Definition ping_request : ProtocolRequest := mk_request CommandTypeCommands (Commands ["ping"]).
Definition opened_by (c : net_call) : list nat := match c with Opened i => [i] | _ => [] end.
Definition openings (s : ScrapliDriver) : list nat := calls s ≫= opened_by.

(** [Connect] works on the fields without the lock, so that a close in between
    makes it open a second network driver, which nothing closes although the commands
    of the closed driver are sent on it; or makes it read the channel of a nil driver,
    which panics; and two first uses open the same network driver twice. *)
Theorem driver_races :
  reaches (session <$> [[OpExecute true (Some ping_request)]; [OpClose]]) fresh_driver (λ ts s,
    Forall (λ p, p = Done ()) ts ∧ closed s = true ∧ calls s = [Closed 0; Opened 1; Sent 1 ["ping"]]) ∧
  reaches (session <$> [[OpExecute true (Some ping_request)]; [OpClose]]) fresh_driver (λ ts _,
    ts !! 0%nat = Some (Crash "nil pointer dereference")) ∧
  reaches (session <$> [[OpExecute true (Some ping_request)]; [OpGetPrompt]]) fresh_driver (λ ts s,
    openings s = [0%nat; 0%nat]).
Proof.
  split_and!.
  - apply (reaches_follow answers (steps 0 10 ++ steps 1 19 ++ steps 0 19) _ _
      (λ ts s, all_done ts && closed s && bool_decide (calls s = [Closed 0; Opened 1; Sent 1 ["ping"]]))).
    { vm_compute. reflexivity. }
    intros ts s H. btrue. by split_and!; [apply all_done_sound|..].
  - apply (reaches_follow answers (steps 0 15 ++ steps 1 19 ++ steps 0 1) _ _ (λ ts _, panicked 0 "nil pointer dereference" ts));
      [vm_compute; reflexivity|by intros ts s H%panicked_sound].
  - apply (reaches_follow answers (steps 0 14 ++ steps 1 14 ++ steps 0 1 ++ steps 1 1) _ _ (λ _ s, bool_decide (openings s = [0; 0]%nat)));
      [vm_compute; reflexivity|]. intros ts s H. by btrue.
Qed.

Lemma driver_mutex_safe_witness :
  let ss := [[OpExecute true (Some ping_request); OpClose]; [OpClose]] in
  ∃ l ts s, sched (session <$> ss) fresh_driver l = Some (ts, s) ∧ Forall (λ p, p = Done ()) ts ∧ mu s = false ∧
    (closes (calls s) <= 1)%nat.
Proof.
  intros ss. assert (H : reaches (session <$> ss) fresh_driver (λ ts s, Forall (λ p, p = Done ()) ts)).
  { apply (reaches_follow answers (steps 0 24 ++ steps 1 6 ++ steps 0 3 ++ steps 1 13) _ _ (λ ts s, all_done ts)).
    { vm_compute. reflexivity. } intros ts s. apply all_done_sound. }
  destruct H as (l & ts & s & Hs & Hd). exists l, ts, s. destruct (driver_mutex_safe ss l ts s Hs) as (_ & H1 & _ & H2 & _). auto.
Defined.

(** ** [Execute] alone *)
Section alone.
Context (E : ScrapliDriver → string → Prop).
Implicit Types (s : ScrapliDriver).

Lemma wp_driver_step {B} (f : ScrapliDriver → ScrapliDriver * B) (Q : ScrapliDriver → B → Prop) s : Q (f s).1 (f s).2 → wp (step f) Q E s.
Proof.
  intros H. apply wp_act; [exists Tick; eauto|]. intros x s' b Ef. destruct x; try done. injection Ef as Ef. by rewrite Ef in H.
Qed.
Lemma wp_driver_read {B} (f : ScrapliDriver → B) (Q : ScrapliDriver → B → Prop) s : Q s (f s) → wp (read f) Q E s.
Proof. intros H. by apply wp_driver_step. Qed.
Lemma wp_set f (Q : ScrapliDriver → unit → Prop) s : Q (f s) () → wp (set f) Q E s.
Proof. intros H. by apply wp_driver_step. Qed.
Lemma wp_lock (Q : ScrapliDriver → unit → Prop) s : mu s = false → Q { s with mu := true } () → wp lock Q E s.
Proof.
  intros Hm H. apply wp_act; [exists Tick; rewrite Hm; eauto|]. intros x s' b Ef. destruct x; try done.
  rewrite Hm in Ef. by injection Ef as <- <-.
Qed.
Lemma wp_unlock (Q : ScrapliDriver → unit → Prop) s : mu s = true → Q { s with mu := false } () → wp unlock Q E s.
Proof. intros Hm H. apply wp_bind, wp_driver_step. cbn [fst snd]. by rewrite Hm. Qed.
Lemma wp_net c (Q : ScrapliDriver → outcome (list string) → Prop) s :
  (∀ r, Q { s with calls ::= (.++ [c])%list } r) → wp (net c) Q E s.
Proof.
  intros H. apply wp_act; [exists (Reply (Ret [])); eauto|]. intros x s' b Ef. destruct x; try done. by injection Ef as <- <-.
Qed.
Lemma wp_driver_ctx_Err c (Q : ScrapliDriver → option string → Prop) s : (∀ e, Q s e) → wp (ctx_Err c) Q E s.
Proof.
  intros H. apply wp_act; [exists (CtxErr (Some "")); eauto|]. intros x s' b Ef.
  destruct x as [| |[e|]|]; try done; [by injection Ef as <- <-|]. by destruct (match c with Some i => _ | None => _ end); simplify_eq.
Qed.
End alone.

Definition library_panics (_ : ScrapliDriver) (w : string) : Prop := ∃ w', w = "in the library: " +:+ w'.
Abbreviation wpl p Q := (wp p Q library_panics).

Lemma wp_call_or_expire i k (Q : ScrapliDriver → string + list string → Prop) s :
  (∀ r, Q { s with calls ::= (.++ [k i])%list } r) → wpl (call_or_expire (Some i) k) Q s.
Proof.
  intros H. apply wp_bind, wp_act; [exists (Reply (Ret [])); eauto|]. intros x s' b Ef.
  destruct x as [|[]| |]; try done; injection Ef as <- <-; try apply H. eexists. reflexivity.
Qed.

(** What a well-formed request calls, and what it makes of the results; [i] is the
    network driver, [j] the one of the channel. *)
Definition request_call (i j : nat) (req : ProtocolRequest) : option net_call :=
  match payload req with
  | Commands cmds => if String.eqb (CommandType req) CommandTypeCommands then Some (Sent i cmds) else None
  | Events events => if String.eqb (CommandType req) CommandTypeInteractiveEvent then Some (SentEvents j events) else None
  | OtherPayload => None
  end.
Definition response (req : ProtocolRequest) (l : list string) : ProtocolResponse :=
  match payload req with
  | Commands _ => mk_response true (joined l) (Some l)
  | _ => mk_response true (String.concat "" l) None
  end.

(** Connected, the driver keeps its fields; it fails without a call, or makes the call
    and fails or answers. *)
Definition answered (i j : nat) (req : ProtocolRequest) s s' (r : string + ProtocolResponse) : Prop :=
  (mu s', driver s', channel s', closed s') = (mu s, driver s, channel s, closed s) ∧
  ((calls s' = calls s ∧ ∃ e, r = inl e) ∨
   ∃ c, request_call i j req = Some c ∧ calls s' = (calls s ++ [c])%list ∧ ((∃ e, r = inl e) ∨ ∃ l, r = inr (response req l))).

Lemma wp_send i j req s : wpl (send (Some i) (Some j) req) (answered i j req s) s.
Proof.
  unfold send, answered, request_call, response.
  destruct (payload req) as [cmds|events|], (String.eqb (CommandType req) CommandTypeCommands),
    (String.eqb (CommandType req) CommandTypeInteractiveEvent);
    try (apply wp_ret; split; [done|left; eauto]; fail);
    apply wp_bind, wp_call_or_expire; intros [e|l]; apply wp_ret; (split; [done|right; eauto 10]).
Qed.

Lemma wp_execute_connected i j req s :
  mu s = true → driver s = Some i → channel s = Some j →
  wpl (ch ← read channel;
       match ch with
       | None => unlock;; mret (inl "channel not available after connection attempt")
       | Some _ =>
           drv ← read driver; ch ← read channel;
           unlock;;
           c ← effective_context true;
           done ← ctx_Err c;
           match done with Some e => mret (inl e) | None => send drv ch req end
       end) (answered i j req { s with mu := false }) s.
Proof.
  intros Hm Hd Hc. apply wp_bind, wp_driver_read. rewrite Hc. do 2 (apply wp_bind, wp_driver_read). rewrite Hd, Hc.
  apply wp_bind, wp_unlock; [done|]. apply wp_bind, wp_ret, wp_bind, wp_driver_ctx_Err. intros [e|]; [|apply wp_send].
  apply wp_ret. split; [done|]. left. eauto.
Qed.

Lemma wp_new_context p (Q : ScrapliDriver → unit → Prop) s :
  (∀ s', (mu s', driver s', channel s', closed s', calls s') = (mu s, driver s, channel s, closed s, calls s) → Q s' ()) →
  wpl (new_context p) Q s.
Proof. intros H. apply wp_bind, wp_driver_step, wp_bind, wp_set, wp_set. by apply H. Qed.

Lemma wp_open_driver i failure s :
  driver s = Some i →
  wpl (open_driver failure) (λ s' e, mu s' = mu s ∧ closed s' = closed s ∧ calls s' = (calls s ++ [Opened i])%list ∧
    match e with
    | Some e => ∃ e', e = failure +:+ e' ∧ driver s' = None ∧ channel s' = None
    | None => driver s' = Some i ∧ channel s' = Some i
    end) s.
Proof.
  intros Hd. apply wp_bind, wp_driver_read. rewrite Hd. apply wp_bind, wp_net. intros [l|e|w].
  - apply wp_bind, wp_driver_read. change (driver { s with calls ::= (.++ [Opened i])%list }) with (driver s). rewrite Hd. by apply wp_bind, wp_set, wp_ret.
  - apply wp_bind, wp_set, wp_bind, wp_set, wp_ret. split_and!; [done..|]. by exists e.
  - by exists w.
Qed.

Lemma wp_Connect i s :
  mu s = false → closed s = false → driver s = Some i → channel s = None →
  wpl Connect (λ s' e, mu s' = false ∧ closed s' = false ∧ calls s' = (calls s ++ [Opened i])%list ∧
    match e with
    | Some e => ∃ e', e = "open existing driver failed: " +:+ e' ∧ driver s' = None ∧ channel s' = None
    | None => driver s' = Some i ∧ channel s' = Some i
    end) s.
Proof.
  intros Hm Hc Hd Hch. apply wp_bind, wp_lock; [done|]. apply wp_bind, wp_driver_read. change (closed { s with mu := true }) with (closed s).
  rewrite Hc. apply wp_bind, wp_driver_read. change (driver { s with mu := true }) with (driver s). rewrite Hd.
  apply wp_bind, wp_driver_read. change (channel { s with mu := true }) with (channel s). rewrite Hch.
  apply wp_bind, wp_unlock; [done|]. apply wp_bind, wp_driver_read, wp_bind.
  eapply (wp_mono _ (λ s' _, (mu s', driver s', channel s', closed s', calls s') = (mu s, driver s, channel s, closed s, calls s))); [| |done].
  - rewrite <- Hm. destruct (ctx _); [|by apply wp_new_context; intros s' ->]. apply wp_bind, wp_driver_read.
    destruct (cancel _); [|by apply wp_new_context; intros s' ->]. apply wp_ret. cbn. by rewrite Hm.
  - intros s1 _ [=]. apply wp_bind, wp_driver_read. destruct (driver s1) as [i'|] eqn:Hd1; [|congruence].
    eapply wp_mono; [by apply wp_open_driver| |done]. intros s' e (Hm' & Hc' & Hcalls & H). split_and!; [congruence..|].
    destruct e as [e|]; [done|]. destruct H. split; congruence.
Qed.



(** A connection that failed once is never tried again, whatever is asked. *)
Lemma without_network_driver given req s :
  mu s = false → closed s = false → driver s = None →
  wp (Execute given req) (λ s' r, (mu s', closed s', driver s', calls s') = (false, false, None, calls s) ∧
    r = inl "driver not properly initialized") library_panics s.
Proof.
  intros Hm Hc Hd. apply wp_bind, wp_bind, wp_lock; [done|]. apply wp_bind, wp_driver_read.
  change (closed { s with mu := true }) with (closed s). rewrite Hc. apply wp_bind, wp_driver_read.
  change (driver { s with mu := true }) with (driver s). rewrite Hd. apply wp_bind, wp_unlock; [done|].
  do 2 (apply wp_ret; cbv beta iota). cbn. by rewrite Hc, Hd.
Qed.
