(* ===== verification/SshDriver.v ===== *)
(** * SshDriver: the SSH driver and the factories of both drivers
    ([src/connection/ssh_driver.go], [ssh_factory.go], [scrapli_factory.go])

    An SSH session of the library is a class with what its documentation says of
    [Run]: a session accepts one command. The driver is an instance of the class of
    drivers that the executor runs tasks on. *)
From S2P Require Import Prelude GoStrings GoFloat GoContext Types Config Task Ping Executor.
From S2P Require ScrapliDriver.
Local Open Scope string_scope.
Local Open Scope Z_scope.

(** [ssh.Session]: [Run] gets the command and the time; it gives back the session, the
    time it took, what was written to [Stdout], and the error. A command that ran uses
    the session up. *)
Class SshSession (S : Type) := {
  Run : string → Z → S → S * Z * string * option string;
  sess_Close : S → S * option string;
  used : S → bool;
  Run_uses cmd t s s' dt out : Run cmd t s = (s', dt, out, None) → used s = false ∧ used s' = true;
  Run_used cmd t s : used s = true → used (Run cmd t s).1.1.1 = true }.

Section driver.
Context {S : Type} `{SshSession S}.

Record SSHDriver := mk_ssh { session : S; timeout : Z }.

Definition NewSSHDriver (s : S) : SSHDriver := mk_ssh s (30 * Second).
Definition WithTimeout (timeout : Z) (d : SSHDriver) : SSHDriver := mk_ssh (session d) timeout.

(** The driver, the time it takes, the output, and the error. *)
Fixpoint send_commands (commands : list string) (t : Z) (s : S) (output : string) : S * Z * string * option string :=
  match commands with
  | [] => (s, t, output, None)
  | cmd :: commands =>
      match Run cmd t s with
      | (s, dt, out, Some e) => (s, t + Z.max 0 dt, output +:+ out, Some ("command execution failed: " +:+ e))
      | (s, dt, out, None) => send_commands commands (t + Z.max 0 dt) s (output +:+ out)
      end
  end.
Definition SendCommands (commands : list string) (t : Z) (d : SSHDriver) : SSHDriver * Z * string * option string :=
  let '(s, t', out, e) := send_commands commands t (session d) "" in (mk_ssh s (timeout d), t', out, e).

Definition SendInteractive : option string := Some "SSH protocol does not support interactive commands".
Definition Close (d : SSHDriver) : SSHDriver * option string :=
  let '(s, e) := sess_Close (session d) in (mk_ssh s (timeout d), e).

Definition ErrUnsupportedCommandType : string := "unsupported command type".
Definition ctx_error_text (e : ctx_error) : string :=
  match e with Canceled => "context canceled" | DeadlineExceeded => "context deadline exceeded" end.

(** Which case the [select] takes when the result and the end of the context come
    together. *)
Context (done_first : bool).

Definition exec_context (ctx : option Context) (t : Z) (d : SSHDriver) : Context :=
  match ctx with
  | None => with_timeout (mk_context None None) t (timeout d)
  | Some c => match deadline c with Some _ => c | None => with_timeout c t (timeout d) end
  end.

(** The goroutine that sends the commands goes on when the caller has left; it is taken
    to be done before the next call. The time is the one the caller waits. *)
Definition Execute (ctx : option Context) (req : Command) (t : Z) (d : SSHDriver) : SSHDriver * Z * (string + string) :=
  if negb (String.eqb (cmd_Type req) CommandTypeCommands) then (d, 0, inr ErrUnsupportedCommandType)
  else
    match Payload req with
    | Commands cmds =>
        let c := exec_context ctx t d in
        let '(d, t', out, err) := SendCommands cmds t d in
        let result := match err with None => inl out | Some e => inr e end in
        match ctx_end c with
        | Some e =>
            if (e <? t') || ((e =? t') && done_first)
            then (d, Z.max 0 (e - t), inr (match ctx_Err c (Z.max t e) with Some e => ctx_error_text e | None => "" end))
            else (d, t' - t, result)
        | None => (d, t' - t, result)
        end
    | _ => (d, 0, inr "invalid commands payload")
    end.

Definition GetCapability (_ : SSHDriver) : ProtocolCapability :=
  mk_capability ProtocolSSH [PlatformCiscoIOSXE; PlatformHuaweiVRP] [CommandTypeCommands] [] 3 (30 * Second) false.

#[export] Instance ssh_driver : ProtocolDriver SSHDriver := {
  Executor.GetCapability := GetCapability;
  Executor.drv_Execute := Execute }.
End driver.
Arguments SSHDriver : clear implicits.

(** ** One command per session *)
Section once.
Context {S : Type} `{SshSession S} (done_first : bool).
Implicit Types (d : SSHDriver S).

Lemma send_commands_used cmds t (s : S) out :
  used s = true → used (send_commands cmds t s out).1.1.1 = true.
Proof.
  revert t s out. induction cmds as [|cmd cmds IH]; intros t s out Hu; simpl; [done|].
  pose proof (Run_used cmd t s Hu) as Hu'. destruct (Run cmd t s) as [[[s' dt] o] [e|]]; [done|by apply IH].
Qed.

Lemma send_commands_error cmds t (s : S) out :
  (used s = true ∧ cmds ≠ []) ∨ (2 <= length cmds)%nat → is_Some (send_commands cmds t s out).2.
Proof.
  revert t s out. induction cmds as [|cmd cmds IH]; intros t s out Hc; [naive_solver lia|]. cbn [send_commands].
  destruct (Run cmd t s) as [[[s' dt] o] [e|]] eqn:E; [done|]. apply Run_uses in E as [E1 E2].
  destruct Hc as [[Hu _]|Hl]; [congruence|]. apply IH. left. split; [done|]. intros ->. simpl in Hl. lia.
Qed.

Lemma send_commands_uses cmds t (s : S) out :
  cmds ≠ [] → (send_commands cmds t s out).2 = None → used (send_commands cmds t s out).1.1.1 = true.
Proof.
  destruct cmds as [|cmd cmds]; [done|]. intros _. cbn [send_commands].
  destruct (Run cmd t s) as [[[s' dt] o] [e|]] eqn:E; [done|]. intros _. apply Run_uses in E as [E1 E2].
  by apply send_commands_used.
Qed.

#[local] Instance this_driver : ProtocolDriver (SSHDriver S) := ssh_driver done_first.
Implicit Types (w : World (SSHDriver S)).

Definition spent w : bool := used (session (driver w)).

(** What one execution does: after a spent session it fails, and when it is without an
    error the session is spent; [spent] is before the execution. *)
Definition at_most_once (before : bool) (x : World (SSHDriver S) * outcome (Result * option string)) : Prop :=
  match x with
  | (w, Ret (_, err)) => (before = true → err ≠ None ∧ spent w = true) ∧ (err = None → spent w = true)
  | _ => False
  end.
Definition once (e : ExecutorFunc (SSHDriver S)) : Prop :=
  ∀ ctx w, is_Some (Ctx ctx) → at_most_once (spent w) (e PingTask ctx w).

Lemma ping_commands ctx :
  match PingTask_BuildCommand ctx with Ret cmd => Payload cmd ≠ Commands [] | Fail _ => True | Panic _ => False end.
Proof.
  unfold PingTask_BuildCommand. destruct (Params ctx !! "target_ip") as [[]|]; try done.
  unfold obind, int_param, dur_param.
  destruct (Params ctx !! "repeat") as [[]|], (Params ctx !! "timeout") as [[]|]; try done;
    case_tests; try done; unfold buildCiscoCommand, buildHuaweiCommand, buildH3CCommand; simpl; try done; by case_tests.
Qed.

Lemma Execute_once c cmd t d :
  Payload cmd ≠ Commands [] →
  let '(d', _, r) := Execute done_first c cmd t d in
  (used (session d) = true → is_Some (match r with inr e => Some e | inl _ => None end) ∧ used (session d') = true) ∧
  (∀ raw, r = inl raw → used (session d') = true).
Proof.
  intros Hcmd. unfold Execute. destruct (negb _); [done|]. destruct (Payload cmd) as [cmds| |]; [|done..].
  assert (Hne : cmds ≠ []) by congruence. unfold SendCommands.
  pose proof (send_commands_used cmds t (session d) "") as H1.
  pose proof (send_commands_error cmds t (session d) "") as H2.
  pose proof (send_commands_uses cmds t (session d) "" Hne) as H3.
  destruct (send_commands cmds t (session d) "") as [[[s' t'] out] err]. simpl in *.
  assert (Hr : (used (session d) = true → is_Some err ∧ used s' = true) ∧ (err = None → used s' = true)).
  { split; [|done]. intros Hu. split; [apply H2; by left|by apply H1]. }
  destruct Hr as [Hr1 Hr2], err as [e|], (ctx_end _) as [x|]; case_tests; simpl; (split; [intros Hu; destruct (Hr1 Hu) as [[? ?] ?]|]); naive_solver.
Qed.

Lemma core_once : once core.
Proof.
  intros ctx w Hc. unfold core. destruct (ValidateParams _ _); [naive_solver|]. destruct (validateCapability _ _); [naive_solver|].
  pose proof (ping_commands ctx) as Hp. cbn [BuildCommand PingTask]. destruct (PingTask_BuildCommand ctx) as [cmd|e|p]; [|naive_solver|done].
  unfold call_driver. pose proof (Execute_once (Ctx ctx) cmd (now w) (driver w) Hp) as Hx. cbn [drv_Execute this_driver ssh_driver].
  destruct (Execute done_first (Ctx ctx) cmd (now w) (driver w)) as [[d' dt] r]. destruct Hx as [H1 H2].
  assert (Hgo : at_most_once (spent w) (let w' := pass_time dt { w with driver := d' } in
      match r with
      | inr e => (w', exec_error (failure_status ctx (now w') e) e)
      | inl raw => let '(res, err) := ParseOutput PingTask ctx (VBytes raw) in
                   match err with
                   | Some _ => (w', Ret (ensure_status StatusParseFailed res, err))
                   | None => (w', Ret (res, err))
                   end
      end)).
  { destruct r as [raw|e]; cbv zeta.
    - destruct (ParseOutput _ _ _) as [res [err|]]; simpl; unfold spent; naive_solver.
    - simpl. unfold spent. naive_solver. }
  destruct (Payload cmd); [exact Hgo|exact Hgo|]. simpl. unfold spent. naive_solver.
Qed.
Lemma retry_loop_once before pause (next : World (SSHDriver S) → World (SSHDriver S) * outcome (Result * option string)) n attempts a last w :
  (∀ w, at_most_once (spent w) (next w)) →
  (∀ a w, ∃ b w', pause a w = (w', Ret b) ∧ driver w' = driver w) →
  (before = true → spent w = true) → attempts ≠ O ∨ at_most_once before (w, Ret last) →
  at_most_once before (retry_loop pause next n attempts a last w).
Proof.
  intros Hn Hp. revert a last w. induction attempts as [|attempts IH]; intros a last w Hw Hl; simpl.
  { destruct Hl as [?|Hl]; [done|]. by destruct last. }
  specialize (Hn w). destruct (next w) as [w1 [[res err]| |]]; [|done..]. destruct Hn as [H1 H2].
  assert (Hr : at_most_once before (w1, Ret (res, err))) by (split; [|done]; intros Hb; by apply H1, Hw).
  assert (Hw1 : before = true → spent w1 = true) by (intros Hb; by apply H1, Hw).
  destruct (succeeded res err) eqn:Es; [by destruct err|]. destruct (a <? n); [|apply IH; [done|by right]].
  destruct (Hp a w1) as (b & w2 & -> & Hd).
  assert (Hs : spent w2 = spent w1) by (unfold spent; by rewrite Hd).
  assert (Hr2 : at_most_once before (w2, Ret (res, err))) by (simpl in *; rewrite Hs; exact Hr).
  destruct b; [apply IH; [by rewrite Hs|by right]|done].
Qed.

Lemma pause_keeps_driver c (delay : Z) w : ∃ b w', wait_or_done done_first (Some c) delay w = (w', Ret b) ∧ driver w' = driver w.
Proof. unfold wait_or_done. destruct (ctx_end c); [case_tests|]; eauto. Qed.

Lemma stock_once math_pow show_duration m e : stock math_pow done_first show_duration m → once e → once (m e).
Proof.
  intros Hm He. destruct Hm as [d|d|n d Hn|n b f Hn| |]; intros ctx w [c Hc].
  - unfold Executor.WithTimeout. rewrite Hc. by apply He.
  - unfold WithSmartTimeout, Executor.WithTimeout. rewrite Hc. by apply He.
  - apply retry_loop_once; [intros; apply He; eauto|by intros; eexists _, _| |left; by apply attempts_positive]. done.
  - apply retry_loop_once; [intros; apply He; eauto| |done|left; by apply attempts_positive].
    intros a w'. rewrite Hc. apply pause_keeps_driver.
  - specialize (He ctx (log "INFO" ("Starting task " +:+ TaskType ctx +:+ " for platform " +:+ Platform ctx) w) ltac:(eauto)).
    unfold WithLogging. destruct (e _ _ _) as [w1 [[res err]| |]]; [|done..]. destruct err; [exact He|]. by destruct (Success res).
  - specialize (He ctx w ltac:(eauto)). unfold WithMetrics. by destruct (e _ _ _) as [w1 [[res err]| |]].
Qed.

(** C13: over the SSH driver, whose session accepts one command, whatever middlewares
    an executor has: once a ping has ended without an error, every later ping on the
    connection ends with one, as does every ping after the session ran any other
    command; the connection serves one ping in its life. *)
Theorem ssh_serves_one_ping math_pow show_duration ms ctx ctx' w w1 res :
  Forall (stock math_pow done_first show_duration) ms → is_Some (Ctx ctx) → is_Some (Ctx ctx') →
  NewExecutor ms PingTask ctx w = (w1, Ret (res, None)) →
  spent w = false ∧ ∃ w2 res' msg, NewExecutor ms PingTask ctx' w1 = (w2, Ret (res', Some msg)) ∧ spent w2 = true.
Proof.
  intros Hms Hc Hc' E.
  assert (He : once (NewExecutor ms)) by (clear E; induction Hms as [|m ms Hm Hms IH]; [apply core_once|by eapply stock_once]).
  pose proof (He ctx w Hc) as H1. rewrite E in H1. destruct H1 as [H1 H2]. pose proof (He ctx' w1 Hc') as H3.
  split; [destruct (spent w); [|done]; by destruct H1|].
  destruct (NewExecutor ms PingTask ctx' w1) as [w2 [[res' err]| |]]; [|done..]. destruct H3 as [H3 _].
  destruct (H3 (H2 eq_refl)) as [H4 H5]. destruct err as [msg|]; [|done]. eauto.
Qed.
End once.

(** A session that answers its command and refuses others. *)
Module OneShot.
Definition run (cmd : string) (t : Z) (s : bool) : bool * Z * string * option string :=
  if s then (true, 0, "", Some "ssh: session already started") else (true, Second, Script.good_output, None).
Lemma run_uses cmd t s s' dt out : run cmd t s = (s', dt, out, None) → s = false ∧ s' = true.
Proof. destruct s; [done|]. by intros [= <- _ _]. Qed.
Lemma run_used cmd t (s : bool) : s = true → (run cmd t s).1.1.1 = true.
Proof. by intros ->. Qed.
#[global] Instance session : SshSession bool := {
  Run := run; sess_Close s := (s, None); used s := s; Run_uses := run_uses; Run_used := run_used }.

Definition world : World (SSHDriver bool) := mk_world 0 (NewSSHDriver false) [] [].
Definition context : TaskContext :=
  mk_task_context "ping" PlatformHuaweiVRP ProtocolSSH CommandTypeCommands
    {["target_ip" := VStr "10.0.0.1"]} (Some (mk_context None None)).
End OneShot.

Lemma ssh_serves_one_ping_witness :
  let e := NewExecutor (D := SSHDriver bool) (H := ssh_driver true) [] in
  ∃ w1 res, e PingTask OneShot.context OneShot.world = (w1, Ret (res, None)) ∧
    ∃ w2 res' msg, e PingTask OneShot.context w1 = (w2, Ret (res', Some msg)) ∧ spent w2 = true.
Proof.
  intros e. destruct (e PingTask OneShot.context OneShot.world) as [w1 [[res [msg|]]| |]] eqn:E;
    [vm_compute in E; discriminate| |vm_compute in E; discriminate..].
  exists w1, res. split; [done|].
  by apply (ssh_serves_one_ping true (λ b _, b) (λ _, "") [] OneShot.context OneShot.context OneShot.world w1 res).
Defined.

(** ** The factories *)

Inductive ssh_call := Dialed (address user password : string) (limit : Z) | SessionOpened | ClientClosed | SessionClosed.

Section factories.
Context {S : Type} `{SshSession S} (done_first : bool).

(** [dial] and [new_session] are what the library answers. The port that is defaulted
    is the one of a copy which nothing reads. *)
Definition SSHFactory_CreateWithContext (ctx_err : option ctx_error) (dial : option string) (new_session : string + S)
    (config : EnhancedConnectionConfig) : list ssh_call * (string + SSHDriver S) :=
  match ctx_err with
  | Some e => ([], inl (ctx_error_text e))
  | None =>
      let dialed := Dialed (Host config +:+ ":" +:+ itoa (Port config)) (c_Username config) (c_Password config) (ConnectTimeout config) in
      match dial with
      | Some e => ([dialed], inl ("SSH connection failed: " +:+ e))
      | None =>
          match new_session with
          | inl e => ([dialed; SessionOpened; ClientClosed], inl ("creating the session failed: " +:+ e))
          | inr s =>
              let timeout := if ReadTimeout config =? 0 then 30 * Second else ReadTimeout config in
              ([dialed; SessionOpened], inr (WithTimeout timeout (NewSSHDriver s)))
          end
      end
  end.

Definition ssh_close (d : SSHDriver S) : list ssh_call * (SSHDriver S * option string) := ([SessionClosed], Close d).

(** The driver has no reference to its client, so that a connection that was made is
    never closed: closing the driver closes the session only. *)
Lemma ssh_client_leaks ctx_err dial new_session config l d :
  SSHFactory_CreateWithContext ctx_err dial new_session config = (l, inr d) →
  l = [Dialed (Host config +:+ ":" +:+ itoa (Port config)) (c_Username config) (c_Password config) (ConnectTimeout config); SessionOpened] ∧
  ClientClosed ∉ (l ++ (ssh_close d).1)%list.
Proof.
  unfold SSHFactory_CreateWithContext. destruct ctx_err, dial, new_session as [e|x]; try done. intros [= <- <-]. split; [done|set_solver].
Qed.

Definition check_timeout (config : EnhancedConnectionConfig) : Z :=
  if HealthCheckTimeout config =? 0 then 5 * Second else HealthCheckTimeout config.

Definition SSHFactory_HealthCheck (config : EnhancedConnectionConfig) (t : Z) (d : SSHDriver S) : SSHDriver S * bool :=
  let '(d, _, r) := Execute done_first (Some (with_timeout (mk_context None None) t (check_timeout config)))
                      (mk_command CommandTypeCommands (Commands ["show clock"])) t d in
  (d, match r with inl _ => true | inr _ => false end).

(** A health check uses the session up, too. *)
Lemma health_check_uses config t d :
  let '(d', ok) := SSHFactory_HealthCheck config t d in
  (ok = true → used (session d) = false ∧ used (session d') = true) ∧ (used (session d) = true → ok = false ∧ used (session d') = true).
Proof.
  unfold SSHFactory_HealthCheck. pose proof (Execute_once done_first (Some (with_timeout (mk_context None None) t (check_timeout config)))
    (mk_command CommandTypeCommands (Commands ["show clock"])) t d ltac:(done)) as He.
  destruct (Execute _ _ _ _ _) as [[d' dt] [raw|e]]; destruct He as [H1 H2].
  - split; [|intros Hu; by destruct (H1 Hu) as [[? ?] ?]]. intros _. split; [|by eapply H2].
    destruct (used (session d)); [|done]. by destruct (H1 eq_refl) as [[? ?] ?].
  - split; [done|]. intros Hu. by destruct (H1 Hu).
Qed.
End factories.

(** What the Scrapli factory puts into its driver beside the state of [ScrapliDriver]. *)
Record ScrapliSettings := mk_settings { host : string; username : string; password : string; platform : string; op_timeout : Z }.

Section scrapli_factory.
(** [v.String()] of the values that are Stringers. *)
Context (stringer : value → option string).

Definition platform_text (v : value) : option string :=
  match v with
  | VStr s | VPlatform s | VBytes s => Some s
  | _ => stringer v
  end.

(** [new_platform] and [get_driver] are what the library answers. *)
Definition ScrapliFactory_CreateWithContext (ctx_err : option ctx_error) (new_platform get_driver : option string)
    (config : EnhancedConnectionConfig) : string + (ScrapliSettings * ScrapliDriver.ScrapliDriver) :=
  match ctx_err with
  | Some e => inl (ctx_error_text e)
  | None =>
      match Metadata config !! "platform" with
      | None => inl "metadata 'platform' field missing"
      | Some v =>
          match platform_text v with
          | None => inl ("unsupported platform type: " +:+ type_name v)
          | Some platformOS =>
              if String.eqb platformOS "" then inl "platform cannot be empty"
              else match new_platform, get_driver with
                   | Some e, _ => inl ("create platform failed: " +:+ e)
                   | None, Some e => inl ("get network driver failed: " +:+ e)
                   | None, None =>
                       inr (mk_settings (Host config) (c_Username config) (c_Password config) platformOS (ConnectTimeout config),
                            ScrapliDriver.fresh_driver)
                   end
          end
      end
  end.

(** The factory accepts every configuration that a scheduler builds, and makes a driver
    for the router's platform. *)
Lemma scheduler_config_accepted r c :
  scheduler_config r = Ret c →
  ∃ d, ScrapliFactory_CreateWithContext None None None c = inr (d, ScrapliDriver.fresh_driver) ∧
    (host d, username d, password d, platform d) = (Lines.router_IP r, Lines.Username r, Lines.Password r, Lines.Platform r).
Proof.
  intros E. pose proof (scheduler_config_spec r) as Hs. destruct (router_named r) eqn:Hn; [|by rewrite E in Hs].
  destruct Hs as (c' & E' & _ & _ & _ & [=] & Hm). rewrite E in E'. injection E' as <-.
  assert (Hp : String.eqb (Lines.Platform r) "" = false).
  { unfold router_named in Hn. destruct (String.eqb (Lines.Platform r) ""); [|done]. by rewrite andb_false_r in Hn. }
  unfold ScrapliFactory_CreateWithContext. rewrite Hm. cbn [platform_text]. rewrite Hp. eexists. split; [done|]. simpl. congruence.
Qed.
End scrapli_factory.
